(** * Secondary index builder (columnar): shallow embedding and properties

    The development follows [secondary/builder.cpp] and [util/util.h]:
    the varint byte codec, the per-attribute collector ([RawWriter_T]), the
    k-way merge and block encoder ([SIWriter_T::Process], [RowWriter_t]) and
    the orchestration ([Builder_c]).

    Conventions.  Fixed-width unsigned integers are [Z] with the wrap-around
    written out ([wrap]); signed 64-bit values are [Z] in the signed range.
    Bytes are [Z] in [0, 256).  A [std::vector] is a [list]; indexed writes
    use stdpp's list insert. *)

From Stdlib Require Import ZArith Lia List Bool String Sorting.Permutation Sorting.Sorted.
From Stdlib Require Import Floats.SpecFloat.
From stdpp Require Import base list sorting.
Import ListNotations.
Local Open Scope Z_scope.

(** ** Machine integers *)

Definition wrap (w : Z) (x : Z) : Z := x mod 2 ^ w.
Definition wrap32 : Z -> Z := wrap 32.
Definition wrap64 : Z -> Z := wrap 64.

(** Reinterpretation of a 64-bit pattern as [int64_t]. *)
Definition to_int64 (x : Z) : Z :=
  let u := wrap64 x in if u <? 2 ^ 63 then u else u - 2 ^ 64.

(** ** util.h: ByteCodec_c *)

Module ByteCodec_c.

(** [while ( uValue ) { uValue >>= 7; iNumBytes++; }].  The loop is bounded
    by [fuel] iterations; [CalcPackedLen] supplies 64, more than the ten
    shifts that clear any 64-bit value. *)
Fixpoint CalcPackedLen_loop (fuel : nat) (uValue : Z) (iNumBytes : nat) : nat :=
  match fuel with
  | O => iNumBytes
  | S fuel' =>
      if uValue =? 0 then iNumBytes
      else CalcPackedLen_loop fuel' (Z.shiftr uValue 7) (S iNumBytes)
  end.

Definition CalcPackedLen (tValue : Z) : nat :=
  CalcPackedLen_loop 64 (Z.shiftr (wrap64 tValue) 7) 1.

(** [for ( int i = iNumBytes-1; i>=0; i-- )]: the argument [n] counts the
    bytes still to emit, so the loop index is [i = n-1]. *)
Fixpoint EncodeValue_loop (n : nat) (tValue : Z) : list Z :=
  match n with
  | O => []
  | S i =>
      let uEncoded := Z.land (Z.shiftr tValue (7 * Z.of_nat i)) 127 in
      (if Nat.eqb i 0 then uEncoded else Z.lor uEncoded 128)
        :: EncodeValue_loop i tValue
  end.

Definition EncodeValue (tValue : Z) : list Z :=
  EncodeValue_loop (CalcPackedLen tValue) tValue.

Definition Pack_uint32 (uValue : Z) : list Z := EncodeValue uValue.
Definition Pack_uint64 (uValue : Z) : list Z := EncodeValue uValue.

(** [DecodeValue<T>]: [fnGetByte] reads from the head of a byte list; [w] is
    the width of [T], so [tValue << 7] wraps at [2^w].  [None] when the
    input ends before a byte without the continuation bit. *)
Fixpoint DecodeValue_loop (w : Z) (bytes : list Z) (tValue : Z) : option (Z * list Z) :=
  match bytes with
  | [] => None
  | uByte :: rest =>
      if Z.land uByte 128 =? 0
      then Some (Z.lor (wrap w (Z.shiftl tValue 7)) uByte, rest)
      else DecodeValue_loop w rest (Z.lor (wrap w (Z.shiftl tValue 7)) (Z.land uByte 127))
  end.

Definition DecodeValue (w : Z) (bytes : list Z) : option (Z * list Z) :=
  DecodeValue_loop w bytes 0.

Definition Unpack_uint32 := DecodeValue 32.
Definition Unpack_uint64 := DecodeValue 64.

End ByteCodec_c.

(** ** Enumerations and external collaborators *)

(** [AttrType_e]: the enumerators that builder.cpp names. *)
Inductive AttrType_e :=
  NONE | UINT32 | TIMESTAMP | INT64 | FLOAT | STRING | UINT32SET | INT64SET.

(** [Collation_e] (util.h). *)
Inductive Collation_e := LIBC_CI | LIBC_CS | UTF8_GENERAL_CI | BINARY.

Definition Collation_code (c : Collation_e) : Z :=
  match c with LIBC_CI => 0 | LIBC_CS => 1 | UTF8_GENERAL_CI => 2 | BINARY => 3 end.

(** [Packing_e]: the posting layout tags. *)
Inductive Packing_e := ROW | ROW_BLOCK | ROW_BLOCKS_LIST.

(** The template argument [VALUE] of [RawWriter_T], [BinValue_T] and
    [SIWriter_T].  A [float] is carried as its 32-bit pattern. *)
Inductive VALUE := T_uint32 | T_float | T_uint64 | T_int64.

(** Files the builder touches: [<file>.<attr>.tmp], the output, and the
    staging files [.tmp.meta], [.tmp.pgm], [.tmp.pgmvalues]. *)
Inductive FileName :=
  F_attr_tmp (iAttr : Z) | F_dst | F_tmp_meta | F_tmp_pgm | F_tmp_pgmvalues.

(** What the two source files use but do not define: the integer codec
    ([IntCodec_i]), the FastPFor alignment test (through the address of
    [m_dRows.data()]), float comparison on bit patterns, the collation hash
    table, the PGM constructor, enum codes and constants of sidx.h, the
    string layout of [FileWriter_c::Write_string], the word count of
    [BitVec_t], and the outcome of [FileWriter_c::Open]. *)
Class Externals := {
  Encode32 : list Z -> list Z;
  Encode64 : list Z -> list Z;
  m_dRows_data : Z;
  FloatEqual : Z -> Z -> bool;
  float_lt : Z -> Z -> bool;
  g_dCollations : Collation_e -> list Z -> Z;
  PGM_Save : VALUE -> list Z -> list Z;
  LIB_VERSION : Z;
  AttrType_code : AttrType_e -> Z;
  Packing_code : Packing_e -> Z;
  Write_string : string -> list Z;
  BitVec_words : nat -> nat;
  Open_ok : FileName -> bool
}.

(** Outcome of a call: it returns, it returns [false] with [sError] set, or
    it leaves defined behaviour ([assert(0)], integer division by zero, an
    index outside a vector, [back()] of an empty vector, a [resize] to a
    negative size). *)
Inductive fault :=
  AssertFailed | DivideByZero | IndexOutOfRange | EmptyVector | LengthError.

Inductive result (A : Type) :=
  | Ok (a : A)
  | Fail (sError : FileName)
  | Fault (f : fault).
Arguments Ok {A} a.
Arguments Fail {A} sError.
Arguments Fault {A} f.

#[global] Instance result_bind : MBind result := fun A B k r =>
  match r with Ok a => k a | Fail e => Fail e | Fault f => Fault f end.

(** ** util.h: fixed-width writes and vector writers *)

Fixpoint le_bytes (n : nat) (x : Z) : list Z :=
  match n with
  | O => []
  | S n' => x mod 256 :: le_bytes n' (x / 256)
  end.

Fixpoint le_value (bytes : list Z) : Z :=
  match bytes with
  | [] => 0
  | b :: rest => b + 256 * le_value rest
  end.

Definition Write_uint8 (uValue : Z) : list Z := le_bytes 1 uValue.
Definition Write_uint32 (uValue : Z) : list Z := le_bytes 4 uValue.
Definition Write_uint64 (uValue : Z) : list Z := le_bytes 8 uValue.

(** The memory image of a [std::vector<uint32_t>]. *)
Definition raw_uint32 (dData : list Z) : list Z := concat (map Write_uint32 dData).

(** [WriteVector] on a byte vector: the data and nothing else. *)
Definition WriteVector (dData : list Z) : list Z := dData.

(** [WriteVectorLen] on a byte vector. *)
Definition WriteVectorLen (dData : list Z) : list Z :=
  ByteCodec_c.Pack_uint64 (Z.of_nat (length dData)) ++ dData.

(** [WriteVectorLen32] on a [std::vector<uint32_t>]. *)
Definition WriteVectorLen32 (dData : list Z) : list Z :=
  ByteCodec_c.Pack_uint32 (wrap32 (Z.of_nat (length dData))) ++ raw_uint32 dData.

(** [WriteVectorRawLen32] on a byte vector (unused by the builder). *)
Definition WriteVectorRawLen32 (dData : list Z) : list Z :=
  Write_uint32 (wrap32 (Z.of_nat (length dData))) ++ dData.

Definition WriteVectorPacked (dData : list Z) : list Z :=
  ByteCodec_c.Pack_uint32 (wrap32 (Z.of_nat (length dData)))
    ++ concat (map ByteCodec_c.Pack_uint64 dData).

(** Modelled from the spec: [ComputeDeltas ( pData, iLength, true )] of
    delta.h, "delta-encoded ... (monotone by construction)": every element
    but the first is replaced by its difference to its predecessor, in the
    element width [w]. *)
Fixpoint ComputeDeltas_from (w prev : Z) (l : list Z) : list Z :=
  match l with
  | [] => []
  | x :: l' => wrap w (x - prev) :: ComputeDeltas_from w x l'
  end.

Definition ComputeDeltas (w : Z) (l : list Z) : list Z :=
  match l with
  | [] => []
  | x :: l' => x :: ComputeDeltas_from w x l'
  end.



(** A reader of [WriteVectorPacked]: the count, then that many varints. *)
Fixpoint ReadPacked_items (n : nat) (bytes : list Z) : option (list Z * list Z) :=
  match n with
  | O => Some ([], bytes)
  | S n' =>
      match ByteCodec_c.Unpack_uint64 bytes with
      | None => None
      | Some (x, rest) =>
          match ReadPacked_items n' rest with
          | None => None
          | Some (xs, rest') => Some (x :: xs, rest')
          end
      end
  end.

Definition ReadVectorPacked (bytes : list Z) : option (list Z * list Z) :=
  match ByteCodec_c.Unpack_uint32 bytes with
  | None => None
  | Some (n, rest) => ReadPacked_items (Z.to_nat n) rest
  end.

(** ** builder.cpp: pairs and their order *)

Definition VALUES_PER_BLOCK : Z := 128.

Record RawValue_T := mkRawValue { m_tValue : Z; m_tRowid : Z }.

(** [sizeof ( RawValue_T<VALUE> )]. *)
Definition sizeof_RawValue (T : VALUE) : Z :=
  match T with T_uint32 | T_float => 8 | T_uint64 | T_int64 => 16 end.

Definition RawValueCmp {E : Externals} (T : VALUE) (tA tB : RawValue_T) : bool :=
  match T with
  | T_float =>
      if FloatEqual (m_tValue tA) (m_tValue tB)
      then m_tRowid tA <? m_tRowid tB
      else float_lt (m_tValue tA) (m_tValue tB)
  | _ =>
      if m_tValue tA =? m_tValue tB
      then m_tRowid tA <? m_tRowid tB
      else m_tValue tA <? m_tValue tB
  end.

(** [std::sort] is used through its contract only; insertion sort stands in
    for it ([std_sort_unique] shows that for the integer comparators every
    sorting algorithm returns this list). *)
Fixpoint sort_insert {A} (cmp : A -> A -> bool) (x : A) (l : list A) : list A :=
  match l with
  | [] => [x]
  | y :: l' => if cmp y x then y :: sort_insert cmp x l' else x :: l
  end.

Definition std_sort {A} (cmp : A -> A -> bool) (l : list A) : list A :=
  fold_right (sort_insert cmp) [] l.

(** ** RawWriter_T: the per-attribute collector *)

Module RawWriter_T.
Section Defs.
Context {E : Externals}.

(** The temp file [m_tFile] holds whole [RawValue_T] images; it is kept
    record by record, with positions counted in bytes. *)
Record t := mk {
  T : VALUE;
  m_dRows : list RawValue_T;
  m_tFile : list RawValue_T;
  m_dOffset : list Z;
  m_iFileSize : Z;
  m_eAttrType : AttrType_e;
  m_fnHash : Collation_e;
  m_tFile_name : FileName
}.

Definition create (T : VALUE) : t :=
  mk T [] [] [] 0 NONE LIBC_CI F_dst.

Definition GetPos (w : t) : Z := sizeof_RawValue (T w) * Z.of_nat (length (m_tFile w)).

Definition Setup (w : t) (iAttr : Z) (eAttrType : AttrType_e) (eCollation : Collation_e)
  : result t :=
  if Open_ok (F_attr_tmp iAttr)
  then Ok (mk (T w) (m_dRows w) [] (m_dOffset w) (m_iFileSize w) eAttrType eCollation
              (F_attr_tmp iAttr))
  else Fail (F_attr_tmp iAttr).

Definition GetItemSize (w : t) : Z := sizeof_RawValue (T w).

Definition emplace_back (w : t) (r : RawValue_T) : t :=
  mk (T w) (m_dRows w ++ [r]) (m_tFile w) (m_dOffset w) (m_iFileSize w)
     (m_eAttrType w) (m_fnHash w) (m_tFile_name w).

Definition Flush (w : t) : t :=
  let iBytesLen := sizeof_RawValue (T w) * Z.of_nat (length (m_dRows w)) in
  if iBytesLen =? 0 then w
  else
    let sorted := std_sort (RawValueCmp (T w)) (m_dRows w) in
    mk (T w) [] (m_tFile w ++ sorted) (m_dOffset w ++ [GetPos w]) (m_iFileSize w)
       (m_eAttrType w) (m_fnHash w) (m_tFile_name w).

Definition Done (w : t) : t :=
  let w' := Flush w in
  mk (T w') [] (m_tFile w') (m_dOffset w') (GetPos w') (m_eAttrType w') (m_fnHash w')
     (m_tFile_name w').

(** [SetAttr ( uint32_t tRowID, int64_t tAttr )]. *)
Definition SetAttr (w : t) (tRowID tAttr : Z) : result t :=
  match T w with
  | T_uint32 => Ok (emplace_back w (mkRawValue (wrap32 tAttr) tRowID))
  | T_int64 => Ok (emplace_back w (mkRawValue tAttr tRowID))
  | T_float => Ok (emplace_back w (mkRawValue (wrap32 tAttr) tRowID))
  | T_uint64 => Fault AssertFailed
  end.

(** [SetAttr ( uint32_t tRowID, const uint8_t * pData, int iLength )]. *)
Definition SetAttr_bytes (w : t) (tRowID : Z) (pData : list Z) : result t :=
  match T w with
  | T_uint64 =>
      Ok (emplace_back w (mkRawValue (wrap64 (g_dCollations (m_fnHash w) pData)) tRowID))
  | _ => Fault AssertFailed
  end.

(** [SetAttr ( uint32_t tRowID, const int64_t * pData, int iLength )]. *)
Definition SetAttr_array (w : t) (tRowID : Z) (pData : list Z) : result t :=
  match T w with
  | T_uint32 =>
      Ok (fold_left (fun w' x => emplace_back w' (mkRawValue (wrap32 x) tRowID)) pData w)
  | T_int64 =>
      Ok (fold_left (fun w' x => emplace_back w' (mkRawValue x tRowID)) pData w)
  | _ => Fault AssertFailed
  end.

End Defs.
End RawWriter_T.

(** ** The merge side: BinValue_T and the priority queue *)

(** A [BinValue_T] owns its reader: [m_pReader] is the reader's position in
    the temp file (every reader is used by one bin only). *)
Record BinValue_T := mkBin {
  bin_value : RawValue_T;
  m_pReader : Z;
  m_iBinEnd : Z
}.

(** [BinValue_T::Read] on the temp file [file] of records of [sz] bytes.
    A read beyond the records of the file leaves the value as it is; this
    does not happen on files written by [RawWriter_T]. *)
Definition BinValue_Read (file : list RawValue_T) (sz : Z) (b : BinValue_T)
  : bool * BinValue_T :=
  if m_pReader b >=? m_iBinEnd b then (false, b)
  else (true, mkBin (default (bin_value b) (file !! Z.to_nat (m_pReader b / sz)))
                    (m_pReader b + sz) (m_iBinEnd b)).

Definition PQGreater {E : Externals} (T : VALUE) (tA tB : BinValue_T) : bool :=
  let a := bin_value tA in
  let b := bin_value tB in
  match T with
  | T_float =>
      if FloatEqual (m_tValue a) (m_tValue b)
      then m_tRowid a >? m_tRowid b
      else float_lt (m_tValue b) (m_tValue a)
  | _ =>
      if m_tValue a =? m_tValue b
      then m_tRowid a >? m_tRowid b
      else m_tValue a >? m_tValue b
  end.

(** [std::priority_queue] through its contract: [top]/[pop] hand out an
    element that the comparator puts above no other one.  The queue is a
    list, [push] appends, and [pq_pop] takes out the first such element. *)
Definition pq_push {A} (x : A) (q : list A) : list A := q ++ [x].

Fixpoint pq_pop {A} (greater : A -> A -> bool) (q : list A) : option (A * list A) :=
  match q with
  | [] => None
  | x :: q' =>
      match pq_pop greater q' with
      | None => Some (x, [])
      | Some (y, r) => if greater x y then Some (y, x :: r) else Some (x, q')
      end
  end.

(** [Convert]: source value to index value. *)
Definition Convert (SRC : VALUE) (tSrc : RawValue_T) : RawValue_T :=
  match SRC with
  | T_int64 => mkRawValue (wrap64 (m_tValue tSrc)) (m_tRowid tSrc)
  | _ => tSrc
  end.

(** The index value type [DST_VALUE] paired with a source type. *)
Definition DST_of (SRC : VALUE) : VALUE :=
  match SRC with
  | T_uint32 | T_float => T_uint32
  | T_uint64 | T_int64 => T_uint64
  end.

Definition sizeof_VALUE (T : VALUE) : nat :=
  match T with T_uint32 | T_float => 4%nat | T_uint64 | T_int64 => 8%nat end.

Definition bits_VALUE (T : VALUE) : Z := 8 * Z.of_nat (sizeof_VALUE T).

(** ** The encoder side *)

(** [pCodec->Encode], overloaded on the element width. *)
Definition Encode {E : Externals} (T : VALUE) : list Z -> list Z :=
  match T with T_uint32 | T_float => Encode32 | T_uint64 | T_int64 => Encode64 end.

(** FastPFor's [needPaddingTo128Bits] on [m_dRows.data() + iOff]. *)
Definition needPaddingTo128Bits {E : Externals} (iOff : Z) : bool :=
  negb ((m_dRows_data + 4 * iOff) mod 16 =? 0).

(** Writing [data] over a vector from index [pos] on. *)
Definition overwrite {A} (l : list A) (pos : nat) (data : list A) : list A :=
  take pos l ++ data ++ drop (pos + length data) l.

(** [EncodeRowsBlock]: returns the source vector as the call leaves it and
    the bytes appended to the writer. *)
Definition EncodeRowsBlock {E : Externals} (dSrcRows : list Z) (iOff iCount : Z)
  : list Z * list Z :=
  let dRows := take (Z.to_nat iCount) (drop (Z.to_nat iOff) dSrcRows) in
  let '(dSrcRows1, pos) :=
    if needPaddingTo128Bits iOff
    then (overwrite dSrcRows 0 dRows, 0%nat)
    else (dSrcRows, Z.to_nat iOff) in
  let tMin := default 0 (head dRows) in
  let tMax := default 0 (last dRows) in
  let deltas := ComputeDeltas 32 dRows in
  (overwrite dSrcRows1 pos deltas,
   ByteCodec_c.Pack_uint32 tMin ++ ByteCodec_c.Pack_uint32 (wrap32 (tMax - tMin))
     ++ WriteVectorLen32 (Encode32 deltas)).

Definition EncodeBlock {E : Externals} (T : VALUE) (dSrc : list Z) : list Z :=
  WriteVectorLen32 (Encode T (ComputeDeltas (bits_VALUE T) dSrc)).

Definition EncodeBlockWoDelta {E : Externals} (T : VALUE) (dSrc : list Z) : list Z :=
  WriteVectorLen32 (Encode T dSrc).

Definition WriteRawValues (T : VALUE) (dSrc : list Z) : list Z :=
  concat (map (le_bytes (sizeof_VALUE T)) dSrc).

(** The three files a [RowWriter_t] writes: [tWriter] (the output file),
    [*m_pBlocksOff] and [*m_pPGMVals].  All three are append-only here, so
    a writer's position is the length of its content. *)
Record Outputs := mkOut {
  tDstFile : list Z;
  tTmpBlocksOff : list Z;
  tTmpValsPGM : list Z
}.

Definition FileWriter_GetPos (data : list Z) : Z := Z.of_nat (length data).

Module RowWriter_t.
Section Defs.
Context {E : Externals}.

Record t := mk {
  VALUE_T : VALUE;
  FLOAT_VALUE : bool;
  m_dValues : list Z;
  m_dTypes : list Packing_e;
  m_dRowStart : list Z;
  m_dRows : list Z;
  m_dRowsPacked : list Z;
  m_tLastValue : Z
}.

Definition create (T : VALUE) (bFloat : bool) : t := mk T bFloat [] [] [] [] [] 0.

(** The sub-block loop of the [ROW_BLOCKS_LIST] branch, on
    [(m_dRows, m_dRowsPacked)]. *)
Definition pack_sub_block (uSrcRowsStart uSrcRowsCount : Z) (iBlocks : nat)
    (st : list Z * list Z) (iBlock : nat) : list Z * list Z :=
  let uSrcStart := wrap32 (uSrcRowsStart + Z.of_nat iBlock * VALUES_PER_BLOCK) in
  let uSrcCount :=
    if Nat.eqb iBlock (iBlocks - 1)
    then wrap32 (uSrcRowsCount - Z.of_nat iBlock * VALUES_PER_BLOCK)
    else VALUES_PER_BLOCK in
  let '(rows', bytes) := EncodeRowsBlock (fst st) uSrcStart uSrcCount in
  (rows', snd st ++ bytes).

(** [uSrcRowsStart] and [uSrcRowsCount] of item [iItem]. *)
Definition src_rows_start (rw : t) (iItem : nat) : Z :=
  default 0 (m_dRowStart rw !! iItem).

Definition src_rows_count (rw : t) (iItem : nat) : Z :=
  if (S iItem <? length (m_dRowStart rw))%nat
  then wrap32 (default 0 (m_dRowStart rw !! S iItem) - src_rows_start rw iItem)
  else wrap64 (Z.of_nat (length (m_dRows rw)) - src_rows_start rw iItem).

(** Body of [for ( size_t iItem=0; iItem<iValues; iItem++ )] in
    [FlushBlock]; the flag is [bLenDelta]. *)
Definition pack_item (st : t * bool) (iItem : nat) : t * bool :=
  let '(rw, bLenDelta) := st in
  let uSrcRowsStart := src_rows_start rw iItem in
  let uSrcRowsCount := src_rows_count rw iItem in
  if uSrcRowsCount =? 1 then
    (mk (VALUE_T rw) (FLOAT_VALUE rw) (m_dValues rw)
        (<[iItem := ROW]> (m_dTypes rw))
        (<[iItem := default 0 (m_dRows rw !! Z.to_nat uSrcRowsStart)]> (m_dRowStart rw))
        (m_dRows rw) (m_dRowsPacked rw) (m_tLastValue rw),
     false)
  else if uSrcRowsCount <=? VALUES_PER_BLOCK then
    let '(rows', bytes) := EncodeRowsBlock (m_dRows rw) uSrcRowsStart uSrcRowsCount in
    (mk (VALUE_T rw) (FLOAT_VALUE rw) (m_dValues rw)
        (<[iItem := ROW_BLOCK]> (m_dTypes rw))
        (<[iItem := wrap32 (Z.of_nat (length (m_dRowsPacked rw)))]> (m_dRowStart rw))
        rows' (m_dRowsPacked rw ++ bytes) (m_tLastValue rw),
     bLenDelta)
  else
    let iBlocks := Z.to_nat ((uSrcRowsCount + VALUES_PER_BLOCK - 1) / VALUES_PER_BLOCK) in
    let '(rows', packed') :=
      fold_left (pack_sub_block uSrcRowsStart uSrcRowsCount iBlocks) (seq 0 iBlocks)
                (m_dRows rw,
                 m_dRowsPacked rw ++ ByteCodec_c.Pack_uint32 (Z.of_nat iBlocks)) in
    (mk (VALUE_T rw) (FLOAT_VALUE rw) (m_dValues rw)
        (<[iItem := ROW_BLOCKS_LIST]> (m_dTypes rw))
        (<[iItem := wrap32 (Z.of_nat (length (m_dRowsPacked rw)))]> (m_dRowStart rw))
        rows' packed' (m_tLastValue rw),
     bLenDelta).

(** "pack rows": [m_dTypes.resize ( iValues )] and the loop over the
    items, starting with [bLenDelta = true]. *)
Definition pack_rows (rw : t) : t * bool :=
  let iValues := length (m_dValues rw) in
  let rw0 := mk (VALUE_T rw) (FLOAT_VALUE rw) (m_dValues rw)
                (take iValues (m_dTypes rw ++ replicate iValues ROW))
                (m_dRowStart rw) (m_dRows rw) (m_dRowsPacked rw) (m_tLastValue rw) in
  fold_left pack_item (seq 0 iValues) (rw0, true).

(** The writes of [FlushBlock] to the output file after the rows are
    packed, one list per statement. *)
Definition block_body (rw : t) (bLenDelta : bool) : list (list Z) :=
  [ EncodeBlock (VALUE_T rw) (m_dValues rw);
    EncodeBlockWoDelta T_uint32 (map Packing_code (m_dTypes rw));
    Write_uint8 (if bLenDelta then 1 else 0);
    (if bLenDelta then EncodeBlock T_uint32 (m_dRowStart rw)
     else EncodeBlockWoDelta T_uint32 (m_dRowStart rw));
    WriteVector (m_dRowsPacked rw) ].

Definition FlushBlock (rw : t) (out : Outputs) : t * Outputs :=
  if Nat.eqb (length (m_dValues rw)) 0 then (rw, out)
  else
    let '(rw1, bLenDelta) := pack_rows rw in
    let out1 :=
      mkOut (tDstFile out ++ concat (block_body rw1 bLenDelta))
            (tTmpBlocksOff out ++ Write_uint64 (FileWriter_GetPos (tDstFile out)))
            (tTmpValsPGM out ++ WriteRawValues (VALUE_T rw1) (m_dValues rw1)) in
    (mk (VALUE_T rw1) (FLOAT_VALUE rw1) [] [] [] [] [] (m_tLastValue rw1), out1).

Definition FlushValue (rw : t) (out : Outputs) : t * Outputs :=
  if (Z.of_nat (length (m_dValues rw)) <? VALUES_PER_BLOCK) then (rw, out)
  else FlushBlock rw out.

Definition Done (rw : t) (out : Outputs) : t * Outputs := FlushBlock rw out.

Definition AddValue (rw : t) (tBin : RawValue_T) : t :=
  mk (VALUE_T rw) (FLOAT_VALUE rw)
     (m_dValues rw ++ [m_tValue tBin])
     (m_dTypes rw)
     (m_dRowStart rw ++ [wrap32 (Z.of_nat (length (m_dRows rw)))])
     (m_dRows rw ++ [m_tRowid tBin])
     (m_dRowsPacked rw)
     (m_tValue tBin).

Definition push_row (rw : t) (tRowid : Z) : t :=
  mk (VALUE_T rw) (FLOAT_VALUE rw) (m_dValues rw) (m_dTypes rw) (m_dRowStart rw)
     (m_dRows rw ++ [tRowid]) (m_dRowsPacked rw) (m_tLastValue rw).

Definition NextValue (rw : t) (tBin : RawValue_T) (out : Outputs) : t * Outputs :=
  if FLOAT_VALUE rw && FloatEqual (m_tLastValue rw) (m_tValue tBin)
  then (push_row rw (m_tRowid tBin), out)
  else if negb (FLOAT_VALUE rw) && (m_tLastValue rw =? m_tValue tBin)
  then (push_row rw (m_tRowid tBin), out)
  else
    let '(rw', out') := FlushValue rw out in
    (AddValue rw' tBin, out').

End Defs.
End RowWriter_t.

(** ** SIWriter_T: merge, encode, PGM *)

(** [MappedBuffer_T<SRC_VALUE>] over the PGM-values file: fixed-width
    little-endian words read as [SRC_VALUE]. *)
Fixpoint read_raw (fuel n : nat) (bytes : list Z) : list Z :=
  match fuel with
  | O => []
  | S fuel' =>
      if (length bytes <? n)%nat || Nat.eqb (length bytes) 0 then []
      else le_value (take n bytes) :: read_raw fuel' n (drop n bytes)
  end.

Definition reinterpret (SRC : VALUE) (x : Z) : Z :=
  match SRC with T_int64 => to_int64 x | _ => x end.

Definition MappedBuffer (SRC : VALUE) (bytes : list Z) : list Z :=
  map (reinterpret SRC) (read_raw (length bytes) (sizeof_VALUE SRC) bytes).

Definition value_lt {E : Externals} (SRC : VALUE) (a b : Z) : bool :=
  match SRC with T_float => float_lt a b | _ => a <? b end.

(** [std::is_sorted]: no element is less than its predecessor. *)
Fixpoint is_sorted (lt : Z -> Z -> bool) (l : list Z) : bool :=
  match l with
  | [] => true
  | x :: l' =>
      match l' with
      | [] => true
      | y :: _ => negb (lt y x) && is_sorted lt l'
      end
  end.

Module SIWriter_T.
Section Defs.
Context {E : Externals}.

(** [src_data] is the content of the file named [m_sSrcName]. *)
Record t := mk {
  SRC_VALUE : VALUE;
  m_dOffset : list Z;
  m_sSrcName : FileName;
  src_data : list RawValue_T;
  m_iFileSize : Z;
  m_dPGM : list Z
}.

Definition DST_VALUE (w : t) : VALUE := DST_of (SRC_VALUE w).

(** The [for ( iReader ... )] loop of [Process]: one bin per run, its head
    read (the outcome of that first [Read] is not looked at). *)
Definition open_bin (w : t) (dBins : list BinValue_T) (iReader : nat) : list BinValue_T :=
  let iBinEnd :=
    if (S iReader <? length (m_dOffset w))%nat
    then default 0 (m_dOffset w !! S iReader)
    else m_iFileSize w in
  let tBin := mkBin (mkRawValue 0 0) (default 0 (m_dOffset w !! iReader)) iBinEnd in
  pq_push (snd (BinValue_Read (src_data w) (sizeof_RawValue (SRC_VALUE w)) tBin)) dBins.

Definition open_bins (w : t) : list BinValue_T :=
  fold_left (open_bin w) (seq 0 (length (m_dOffset w))) [].

(** One turn of [while ( !dBins.empty() )]; [None] when the queue is
    empty. *)
Definition merge_step (w : t) (st : list BinValue_T * RowWriter_t.t * Outputs)
  : option (list BinValue_T * RowWriter_t.t * Outputs) :=
  let '(dBins, tWriter, out) := st in
  match pq_pop (PQGreater (SRC_VALUE w)) dBins with
  | None => None
  | Some (tBin, dBins') =>
      let '(tWriter', out') :=
        RowWriter_t.NextValue tWriter (Convert (SRC_VALUE w) (bin_value tBin)) out in
      let '(bRead, tBin') :=
        BinValue_Read (src_data w) (sizeof_RawValue (SRC_VALUE w)) tBin in
      Some (if bRead then pq_push tBin' dBins' else dBins', tWriter', out')
  end.

Fixpoint merge_loop (fuel : nat) (w : t) (st : list BinValue_T * RowWriter_t.t * Outputs)
  : list BinValue_T * RowWriter_t.t * Outputs :=
  match fuel with
  | O => st
  | S fuel' =>
      match merge_step w st with
      | None => st
      | Some st' => merge_loop fuel' w st'
      end
  end.

(** Every turn of the loop either retires a bin or moves its reader
    forward, so this many turns empty the queue ([merge_loop_drains]). *)
Definition merge_fuel (dBins : list BinValue_T) : nat :=
  fold_right (fun b n => (S (Z.to_nat (m_iBinEnd b - m_pReader b)) + n)%nat) 0%nat dBins.

(** "initial fill". *)
Definition initial_fill (w : t) (dBins : list BinValue_T) (tWriter : RowWriter_t.t)
  : list BinValue_T * RowWriter_t.t :=
  match pq_pop (PQGreater (SRC_VALUE w)) dBins with
  | None => (dBins, tWriter)
  | Some (tBin, dBins') =>
      let tWriter' := RowWriter_t.AddValue tWriter (Convert (SRC_VALUE w) (bin_value tBin)) in
      let '(bRead, tBin') :=
        BinValue_Read (src_data w) (sizeof_RawValue (SRC_VALUE w)) tBin in
      (if bRead then pq_push tBin' dBins' else dBins', tWriter')
  end.

(** [Process] up to and including [tWriter.Done ( tDstFile )]: the state of
    the queue, of the row writer and of the three files. *)
Definition Process_merge (w : t) (tDst tBlocksOff : list Z)
  : list BinValue_T * RowWriter_t.t * Outputs :=
  let tWriter :=
    RowWriter_t.create (DST_VALUE w)
      (match SRC_VALUE w with T_float => true | _ => false end) in
  let '(dBins, tWriter1) := initial_fill w (open_bins w) tWriter in
  let '(dBins2, tWriter2, out2) :=
    merge_loop (merge_fuel dBins) w (dBins, tWriter1, mkOut tDst tBlocksOff []) in
  let '(tWriter3, out3) := RowWriter_t.Done tWriter2 out2 in
  (dBins2, tWriter3, out3).

Definition Process (w : t) (tDst tBlocksOff : list Z)
  : result (t * list Z * list Z) :=
  if negb (Open_ok F_tmp_pgmvalues) then Fail F_tmp_pgmvalues
  else if negb (Nat.eqb (length (m_dOffset w)) 0) && negb (Open_ok (m_sSrcName w))
  then Fail (m_sSrcName w)
  else
    let '(_, _, out) := Process_merge w tDst tBlocksOff in
    let tMappedPGM := MappedBuffer (SRC_VALUE w) (tTmpValsPGM out) in
    if negb (is_sorted (value_lt (SRC_VALUE w)) tMappedPGM) then Fault AssertFailed
    else
      Ok (mk (SRC_VALUE w) (m_dOffset w) (m_sSrcName w) (src_data w) (m_iFileSize w)
             (PGM_Save (SRC_VALUE w) tMappedPGM),
          tDstFile out, tTmpBlocksOff out).

End Defs.
End SIWriter_T.

(** [RawWriter_T<VALUE>::GetWriter]: the index writer is chosen by
    [m_eAttrType]; [SIWriter_T::Setup] takes over the offsets table. *)
Definition GetWriter (w : RawWriter_T.t) : SIWriter_T.t :=
  let SRC :=
    match RawWriter_T.m_eAttrType w with
    | FLOAT => T_float
    | STRING => T_uint64
    | INT64 | INT64SET => T_int64
    | _ => T_uint32
    end in
  SIWriter_T.mk SRC (RawWriter_T.m_dOffset w) (RawWriter_T.m_tFile_name w)
                (RawWriter_T.m_tFile w) (RawWriter_T.m_iFileSize w) [].

(** ** FileWriter_c as used by WriteMeta: seek, write, append *)

(** Modelled from the spec: the low-level file primitives ("buffered
    append-only writes", "the PGM staging file is appended").  [Write] puts
    the bytes at the current position, over existing content or extending
    the file (zero-filling a gap); [CopySingleFile] appends the source file
    to the destination. *)
Record FileWriter_c := mkFile {
  file_data : list Z;
  m_iFilePos : Z
}.

Inductive FileOp :=
  | OpSeek (iOffset : Z)
  | OpWrite (pData : list Z)
  | OpCopySingleFile (sSource : list Z).

Definition FileWriter_Write (f : FileWriter_c) (pData : list Z) : FileWriter_c :=
  let pos := Z.to_nat (m_iFilePos f) in
  let padded := file_data f ++ replicate (pos - length (file_data f)) 0 in
  mkFile (overwrite padded pos pData) (m_iFilePos f + Z.of_nat (length pData)).

Definition run_op (f : FileWriter_c) (op : FileOp) : FileWriter_c :=
  match op with
  | OpSeek iOffset => mkFile (file_data f) iOffset
  | OpWrite pData => FileWriter_Write f pData
  | OpCopySingleFile sSource =>
      mkFile (file_data f ++ sSource)
             (Z.of_nat (length (file_data f)) + Z.of_nat (length sSource))
  end.

Definition run_ops (f : FileWriter_c) (ops : list FileOp) : FileWriter_c :=
  fold_left run_op ops f.

(** The file after each operation, in order (the file before the first
    operation included). *)
Fixpoint observable_states (f : FileWriter_c) (ops : list FileOp) : list (list Z) :=
  match ops with
  | [] => [file_data f]
  | op :: ops' => file_data f :: observable_states (run_op f op) ops'
  end.

(** ** Builder_c *)

Record SourceAttrTrait_t := mkSrcAttr {
  m_iAttr : Z;
  m_eType : AttrType_e;
  m_sName : string
}.

Record ColumnInfo_t := mkColumnInfo {
  ci_eType : AttrType_e;
  ci_iSrcAttr : Z;
  ci_iAttr : Z;
  ci_sName : string
}.

Definition g_sCompressionUINT32 : string := "simdfastpfor128".
Definition g_sCompressionUINT64 : string := "fastpfor128".

(** [std::vector::resize] on a vector of pointers: new slots are null. *)
Definition resize {A} (n : nat) (l : list (option A)) : list (option A) :=
  take n (l ++ replicate n None).

Module Builder_c.
Section Defs.
Context {E : Externals}.

Record t := mk {
  m_tRowID : Z;
  m_iMaxRows : Z;
  m_dRawWriter : list (option RawWriter_T.t);
  m_dAttrs : list ColumnInfo_t;
  m_eCollation : Collation_e
}.

Definition create : t := mk 0 0 [] [] LIBC_CI.

(** The [switch ( tSrcAttr.m_eType )] of [Setup]. *)
Definition new_RawWriter (eType : AttrType_e) : option RawWriter_T.t :=
  match eType with
  | UINT32 | TIMESTAMP | UINT32SET => Some (RawWriter_T.create T_uint32)
  | FLOAT => Some (RawWriter_T.create T_float)
  | STRING => Some (RawWriter_T.create T_uint64)
  | INT64 | INT64SET => Some (RawWriter_T.create T_int64)
  | NONE => None
  end.

(** Body of the first loop of [Setup], on [(m_dRawWriter, m_dAttrs)]. *)
Definition Setup_attr (eCollation : Collation_e)
    (st : list (option RawWriter_T.t) * list ColumnInfo_t) (tSrcAttr : SourceAttrTrait_t)
  : result (list (option RawWriter_T.t) * list ColumnInfo_t) :=
  let '(dRawWriter, dAttrs) := st in
  match new_RawWriter (m_eType tSrcAttr) with
  | None => Ok st
  | Some pWriter =>
      pWriter' ← RawWriter_T.Setup pWriter (m_iAttr tSrcAttr) (m_eType tSrcAttr) eCollation;
      if (0 <=? m_iAttr tSrcAttr) && (m_iAttr tSrcAttr <? Z.of_nat (length dRawWriter))
      then
        Ok (<[Z.to_nat (m_iAttr tSrcAttr) := Some pWriter']> dRawWriter,
            dAttrs ++ [mkColumnInfo (m_eType tSrcAttr) (m_iAttr tSrcAttr)
                                    (Z.of_nat (length dAttrs)) (m_sName tSrcAttr)])
      else Fault IndexOutOfRange
  end.

Fixpoint Setup_attrs (eCollation : Collation_e)
    (st : list (option RawWriter_T.t) * list ColumnInfo_t) (dSrcAttrs : list SourceAttrTrait_t)
  : result (list (option RawWriter_T.t) * list ColumnInfo_t) :=
  match dSrcAttrs with
  | [] => Ok st
  | tSrcAttr :: rest =>
      st' ← Setup_attr eCollation st tSrcAttr;
      Setup_attrs eCollation st' rest
  end.

(** [iRowSize]: the sum of [GetItemSize] over the configured writers. *)
Definition row_size (dRawWriter : list (option RawWriter_T.t)) : Z :=
  fold_left (fun iRowSize pWriter =>
               match pWriter with
               | Some w => iRowSize + RawWriter_T.GetItemSize w
               | None => iRowSize
               end) dRawWriter 0.

(** [Setup], first part: the writer table is sized and filled. *)
Definition Setup_writers (b : t) (dSrcAttrs : list SourceAttrTrait_t)
    (eCollation : Collation_e) : result (list (option RawWriter_T.t) * list ColumnInfo_t) :=
  let dRawWriter0 := resize (length dSrcAttrs) (m_dRawWriter b) in
  dRawWriter1 ←
    match last dSrcAttrs with
    | None => Ok dRawWriter0
    | Some tBack =>
        if m_iAttr tBack + 1 <? 0 then Fault LengthError
        else Ok (resize (Z.to_nat (m_iAttr tBack + 1)) dRawWriter0)
    end;
  Setup_attrs eCollation (dRawWriter1, m_dAttrs b) dSrcAttrs.

(** [Setup].  [int] division truncates ([Z.quot]); dividing by a zero
    [iRowSize] is undefined. *)
Definition Setup (b : t) (dSrcAttrs : list SourceAttrTrait_t) (iMemoryLimit : Z)
    (eCollation : Collation_e) : result t :=
  st ← Setup_writers b dSrcAttrs eCollation;
  let iRowSize := row_size (fst st) in
  if iRowSize =? 0 then Fault DivideByZero
  else
    Ok (mk (m_tRowID b) (Z.max 1000 (Z.quot (Z.quot iMemoryLimit 3) iRowSize))
           (fst st) (snd st) eCollation).

Definition with_writers (b : t) (dRawWriter : list (option RawWriter_T.t)) : t :=
  mk (m_tRowID b) (m_iMaxRows b) dRawWriter (m_dAttrs b) (m_eCollation b).

Definition Flush (b : t) : t :=
  with_writers b (map (option_map RawWriter_T.Flush) (m_dRawWriter b)).

Definition SetRowID (b : t) (tRowID : Z) : result t :=
  let b' := mk tRowID (m_iMaxRows b) (m_dRawWriter b) (m_dAttrs b) (m_eCollation b) in
  if m_iMaxRows b =? 0 then Fault DivideByZero
  else if tRowID mod m_iMaxRows b =? 0 then Ok (Flush b') else Ok b'.

(** The guard shared by the three [SetAttr] overloads:
    [iAttr<m_dRawWriter.size() && m_dRawWriter[iAttr]], with [iAttr]
    converted to [size_t] for the comparison; [call] is the collector's
    overload. *)
Definition SetAttr_guarded (b : t) (iAttr : Z)
    (call : RawWriter_T.t -> result RawWriter_T.t) : result t :=
  if wrap64 iAttr <? Z.of_nat (length (m_dRawWriter b)) then
    match m_dRawWriter b !! Z.to_nat (wrap64 iAttr) with
    | Some (Some pWriter) =>
        pWriter' ← call pWriter;
        Ok (with_writers b (<[Z.to_nat (wrap64 iAttr) := Some pWriter']> (m_dRawWriter b)))
    | _ => Ok b
    end
  else Ok b.

Definition SetAttr (b : t) (iAttr tAttr : Z) : result t :=
  SetAttr_guarded b iAttr (fun w => RawWriter_T.SetAttr w (m_tRowID b) tAttr).

Definition SetAttr_bytes (b : t) (iAttr : Z) (pData : list Z) : result t :=
  SetAttr_guarded b iAttr (fun w => RawWriter_T.SetAttr_bytes w (m_tRowID b) pData).

Definition SetAttr_array (b : t) (iAttr : Z) (pData : list Z) : result t :=
  SetAttr_guarded b iAttr (fun w => RawWriter_T.SetAttr_array w (m_tRowID b) pData).

(** The meta record written at [uMetaOff], one list per write. *)
Definition meta_writes (b : t) (dBlocksOffStart dBlocksCount : list Z) : list (list Z) :=
  [ Write_uint64 0;
    Write_uint32 (Z.of_nat (length (m_dAttrs b)));
    raw_uint32 (replicate (BitVec_words (length (m_dAttrs b))) 4294967295);
    Write_string g_sCompressionUINT32;
    Write_string g_sCompressionUINT64;
    Write_uint32 (Collation_code (m_eCollation b));
    Write_uint32 VALUES_PER_BLOCK ]
  ++ flat_map (fun tInfo =>
                 [ Write_string (ci_sName tInfo);
                   ByteCodec_c.Pack_uint32 (wrap32 (ci_iSrcAttr tInfo));
                   ByteCodec_c.Pack_uint32 (wrap32 (ci_iAttr tInfo));
                   ByteCodec_c.Pack_uint32 (wrap32 (AttrType_code (ci_eType tInfo))) ])
              (m_dAttrs b)
  ++ [ WriteVectorPacked dBlocksOffStart;
       WriteVectorPacked dBlocksCount ].

(** [WriteMeta] as the sequence of operations it performs on the output
    file, in program order. *)
Definition WriteMeta_ops (b : t) (sPgm sBlocks : list Z)
    (dBlocksOffStart dBlocksCount : list Z) (uMetaOff : Z) : list FileOp :=
  [ OpSeek 4; OpWrite (Write_uint64 uMetaOff); OpSeek uMetaOff ]
  ++ map OpWrite (meta_writes b dBlocksOffStart dBlocksCount)
  ++ [ OpCopySingleFile sPgm; OpCopySingleFile sBlocks ].

Definition WriteMeta (b : t) (dst sPgm sBlocks : list Z)
    (dBlocksOffStart dBlocksCount : list Z) (uMetaOff : Z) : result (list Z) :=
  if Open_ok F_dst
  then Ok (file_data (run_ops (mkFile dst 0)
             (WriteMeta_ops b sPgm sBlocks dBlocksOffStart dBlocksCount uMetaOff)))
  else Fail F_dst.

(** State of [Done] inside "process raw attributes into column index":
    the output file, the two staging files and [dBlocksOffStart]. *)
Record DoneState := mkDone {
  d_tDstFile : list Z;
  d_tTmpBlocks : list Z;
  d_tTmpPgm : list Z;
  d_dBlocksOffStart : list Z
}.

Definition Done_writer (st : DoneState) (pWriter : SIWriter_T.t) : result DoneState :=
  let uStart := FileWriter_GetPos (d_tTmpBlocks st) in
  r ← SIWriter_T.Process pWriter (d_tDstFile st) (d_tTmpBlocks st);
  let '(pWriter', tDst, tBlocks) := r in
  Ok (mkDone tDst tBlocks
             (d_tTmpPgm st ++ WriteVectorLen (SIWriter_T.m_dPGM pWriter'))
             (d_dBlocksOffStart st ++ [uStart])).

Fixpoint Done_writers (st : DoneState) (dCidWriter : list SIWriter_T.t) : result DoneState :=
  match dCidWriter with
  | [] => Ok st
  | pWriter :: rest =>
      st' ← Done_writer st pWriter;
      Done_writers st' rest
  end.

(** [dBlocksCount]: differences of consecutive starts, the last one taken
    against [iLastBlock], each divided by [sizeof ( uint64_t )]. *)
Fixpoint blocks_count (iLastBlock : Z) (dBlocksOffStart : list Z) : list Z :=
  match dBlocksOffStart with
  | [] => []
  | uStart :: rest =>
      match rest with
      | [] => [wrap64 (iLastBlock - uStart) / 8]
      | uNext :: _ => wrap64 (uNext - uStart) / 8 :: blocks_count iLastBlock rest
      end
  end.

(** [Done] up to the call of [WriteMeta]: the collectors are finished, the
    index writers ([m_dCidWriter], empty before [Done]) created and run. *)
Definition Done_process (b : t) : result DoneState :=
  let dRawWriter := map (option_map RawWriter_T.Done) (m_dRawWriter b) in
  let dCidWriter := omap (option_map GetWriter) dRawWriter in
  if negb (Open_ok F_dst) then Fail F_dst
  else if negb (Open_ok F_tmp_meta) then Fail F_tmp_meta
  else if negb (Open_ok F_tmp_pgm) then Fail F_tmp_pgm
  else
    Done_writers (mkDone (Write_uint32 LIB_VERSION ++ Write_uint64 0) [] [] [])
                 dCidWriter.

Definition Done (b : t) : result (list Z) :=
  st ← Done_process b;
  if Nat.eqb (length (d_dBlocksOffStart st)) 0 then Fault EmptyVector
  else
    let dBlocksCount :=
      blocks_count (FileWriter_GetPos (d_tTmpBlocks st)) (d_dBlocksOffStart st) in
    let uMetaOff := FileWriter_GetPos (d_tDstFile st) in
    WriteMeta b (d_tDstFile st) (d_tTmpPgm st) (d_tTmpBlocks st)
              (ComputeDeltas 64 (d_dBlocksOffStart st)) dBlocksCount uMetaOff.

End Defs.
End Builder_c.

(** ** Value groups

    The reading of a block that [FlushBlock] relies on: [m_dRows] is the
    concatenation of the row-id lists of the block's values and
    [m_dRowStart] holds where each list begins. *)

Fixpoint starts_of (base : nat) (groups : list (list Z)) : list Z :=
  match groups with
  | [] => []
  | g :: groups' => Z.of_nat base :: starts_of (base + length g) groups'
  end.

Definition posting_tag (g : list Z) : Packing_e :=
  if Nat.eqb (length g) 1 then ROW
  else if (length g <=? 128)%nat then ROW_BLOCK
  else ROW_BLOCKS_LIST.

(** Consecutive pieces of [n] elements, the last one possibly shorter. *)
Fixpoint chunks {A} (fuel n : nat) (l : list A) : list (list A) :=
  match fuel with
  | O => []
  | S fuel' =>
      match l with
      | [] => []
      | _ => take n l :: chunks fuel' n (drop n l)
      end
  end.

Definition row_blocks (g : list Z) : list (list Z) := chunks (length g) 128 g.

(** An encoded row-block: varint minimum, varint span, then the codec
    output for the deltas behind a varint word count. *)
Definition row_block_bytes {E : Externals} (g : list Z) : list Z :=
  ByteCodec_c.Pack_uint32 (default 0 (head g))
    ++ ByteCodec_c.Pack_uint32 (wrap32 (default 0 (last g) - default 0 (head g)))
    ++ WriteVectorLen32 (Encode32 (ComputeDeltas 32 g)).

Definition posting_payload {E : Externals} (g : list Z) : list Z :=
  match posting_tag g with
  | ROW => []
  | ROW_BLOCK => row_block_bytes g
  | ROW_BLOCKS_LIST =>
      ByteCodec_c.Pack_uint32 (Z.of_nat (length (row_blocks g)))
        ++ concat (map row_block_bytes (row_blocks g))
  end.

(** [m_dRowStart] after packing, for payloads laid out from [pos] on. *)
Fixpoint packed_starts {E : Externals} (pos : nat) (groups : list (list Z)) : list Z :=
  match groups with
  | [] => []
  | g :: groups' =>
      (match posting_tag g with
       | ROW => default 0 (head g)
       | _ => wrap32 (Z.of_nat pos)
       end) :: packed_starts (pos + length (posting_payload g)) groups'
  end.

(** [rw] holds the value groups [groups], none of them packed yet. *)
Record block_of (rw : RowWriter_t.t) (groups : list (list Z)) : Prop := {
  block_values : length (RowWriter_t.m_dValues rw) = length groups;
  block_starts : RowWriter_t.m_dRowStart rw = starts_of 0 groups;
  block_rows : RowWriter_t.m_dRows rw = concat groups;
  block_nonempty : Forall (fun g => g <> []) groups;
  block_unpacked : RowWriter_t.m_dRowsPacked rw = [];
  block_fits : Z.of_nat (length (concat groups)) < 2 ^ 32
}.

(** ** Notions used to state the properties *)

(** [out'] extends [out]: each file got bytes appended, the block-offsets
    file [n] 64-bit words. *)
Definition extends (n : nat) (out out' : Outputs) : Prop :=
  exists x y z,
    tDstFile out' = tDstFile out ++ x /\
    tTmpBlocksOff out' = tTmpBlocksOff out ++ y /\ length y = (8 * n)%nat /\
    tTmpValsPGM out' = tTmpValsPGM out ++ z.

(** Start positions of consecutive sections of [ns] 64-bit words each. *)
Fixpoint offsets_from (pos : Z) (ns : list nat) : list Z :=
  match ns with
  | [] => []
  | n :: ns' => pos :: offsets_from (pos + 8 * Z.of_nat n) ns'
  end.

Fixpoint end_from (pos : Z) (ns : list nat) : Z :=
  match ns with
  | [] => pos
  | n :: ns' => end_from (pos + 8 * Z.of_nat n) ns'
  end.


(** The [meta_offset] field of the header: bytes 4..12. *)
Definition header_meta_offset (data : list Z) : Z := le_value (take 8 (drop 4 data)).

(** The file holds the meta record [meta], whole, from [off] on. *)
Definition meta_trailer_at (meta data : list Z) (off : Z) : Prop :=
  exists rest, drop (Z.to_nat off) data = meta ++ rest.

(** The three admissible states of the output file ([None]: no file). *)
Definition safe_output (meta : list Z) (file : option (list Z)) : Prop :=
  match file with
  | None => True
  | Some data =>
      header_meta_offset data = 0 \/
      (header_meta_offset data <> 0 /\ meta_trailer_at meta data (header_meta_offset data))
  end.

(** ** The input of a collector *)

(** One call of a collector, as the host issues them between [Setup] and
    [Done]: the three [SetAttr] shapes and [Flush]. *)
Inductive Call :=
  | CallSetAttr (tRowID tAttr : Z)
  | CallSetAttr_bytes (tRowID : Z) (pData : list Z)
  | CallSetAttr_array (tRowID : Z) (pData : list Z)
  | CallFlush.

Definition do_call {E : Externals} (w : RawWriter_T.t) (c : Call) : result RawWriter_T.t :=
  match c with
  | CallSetAttr tRowID tAttr => RawWriter_T.SetAttr w tRowID tAttr
  | CallSetAttr_bytes tRowID pData => RawWriter_T.SetAttr_bytes w tRowID pData
  | CallSetAttr_array tRowID pData => RawWriter_T.SetAttr_array w tRowID pData
  | CallFlush => Ok (RawWriter_T.Flush w)
  end.

Fixpoint collect {E : Externals} (w : RawWriter_T.t) (calls : list Call)
  : result RawWriter_T.t :=
  match calls with
  | [] => Ok w
  | c :: calls' => w' ← do_call w c; collect w' calls'
  end.

(** The (value, row-id) pairs a call hands to a collector of value type
    [T]: the attribute value as the collector stores it (truncated to 32
    bits, hashed, or as it is), one pair per element of an array. *)
Definition call_pairs {E : Externals} (T : VALUE) (eCollation : Collation_e) (c : Call)
  : list RawValue_T :=
  match c, T with
  | CallSetAttr tRowID tAttr, (T_uint32 | T_float) => [mkRawValue (wrap32 tAttr) tRowID]
  | CallSetAttr tRowID tAttr, T_int64 => [mkRawValue tAttr tRowID]
  | CallSetAttr_bytes tRowID pData, T_uint64 =>
      [mkRawValue (wrap64 (g_dCollations eCollation pData)) tRowID]
  | CallSetAttr_array tRowID pData, T_uint32 =>
      map (fun x => mkRawValue (wrap32 x) tRowID) pData
  | CallSetAttr_array tRowID pData, T_int64 =>
      map (fun x => mkRawValue x tRowID) pData
  | _, _ => []
  end.

(** The arguments of a call are [int64_t] values. *)
Definition call_typed (c : Call) : Prop :=
  match c with
  | CallSetAttr _ tAttr => - 2 ^ 63 <= tAttr < 2 ^ 63
  | CallSetAttr_array _ pData => Forall (fun x => - 2 ^ 63 <= x < 2 ^ 63) pData
  | _ => True
  end.

(** The order of pairs: by value, then by row-id. *)
Definition pair_le (a b : RawValue_T) : Prop :=
  m_tValue a < m_tValue b \/ (m_tValue a = m_tValue b /\ m_tRowid a <= m_tRowid b).

(** Byte offsets of consecutive runs of records of [sz] bytes, the first
    run starting at record [base]. *)
Fixpoint run_offsets (sz : Z) (base : nat) (runs : list (list RawValue_T)) : list Z :=
  match runs with
  | [] => []
  | r :: runs' => sz * Z.of_nat base :: run_offsets sz (base + length r) runs'
  end.

(** What a bin still has to deliver: its current pair and the records of
    its run that the reader has not reached. *)
Definition pending (file : list RawValue_T) (sz : Z) (b : BinValue_T) : list RawValue_T :=
  bin_value b
    :: take (Z.to_nat ((m_iBinEnd b - m_pReader b) / sz))
            (drop (Z.to_nat (m_pReader b / sz)) file).

(** The state of a collector: its temp file is the concatenation of the
    runs written so far, each sorted and not empty, and the offsets table
    holds where each run starts. *)
Record collector_inv (w : RawWriter_T.t) (runs : list (list RawValue_T)) : Prop := {
  inv_file : RawWriter_T.m_tFile w = concat runs;
  inv_offsets :
    RawWriter_T.m_dOffset w = run_offsets (sizeof_RawValue (RawWriter_T.T w)) 0 runs;
  inv_runs : Forall (fun r => r <> [] /\ StronglySorted pair_le r) runs
}.

(** The bins [Process] opens for the runs [runs] laid out from record
    [base] on, the head of each run already read. *)
Fixpoint bins_of_runs (sz : Z) (base : nat) (runs : list (list RawValue_T))
  : list BinValue_T :=
  match runs with
  | [] => []
  | r :: runs' =>
      mkBin (default (mkRawValue 0 0) (head r))
            (sz * Z.of_nat base + sz) (sz * Z.of_nat (base + length r))
        :: bins_of_runs sz (base + length r) runs'
  end.

(** A bin is well placed in the file: its reader and its end are record
    boundaries, in order, inside the file. *)
Definition bin_ok (file : list RawValue_T) (sz : Z) (b : BinValue_T) : Prop :=
  exists p e : nat,
    m_pReader b = sz * Z.of_nat p /\ m_iBinEnd b = sz * Z.of_nat e /\
    (p <= e <= length file)%nat /\
    StronglySorted pair_le (pending file sz b).

(** One turn of the merge seen from the queue alone: the pair taken
    out and the queue after the bin is advanced and pushed back. *)
Definition merge_next {E : Externals} (w : SIWriter_T.t) (dBins : list BinValue_T)
  : option (RawValue_T * list BinValue_T) :=
  match pq_pop (PQGreater (SIWriter_T.SRC_VALUE w)) dBins with
  | None => None
  | Some (tBin, dBins') =>
      let '(bRead, tBin') :=
        BinValue_Read (SIWriter_T.src_data w)
                      (sizeof_RawValue (SIWriter_T.SRC_VALUE w)) tBin in
      Some (bin_value tBin, if bRead then pq_push tBin' dBins' else dBins')
  end.

(** The merge loop of [Process] without the encoder: the queue it ends
    with and the pairs it takes out, in order. *)
Fixpoint drain {E : Externals} (fuel : nat) (w : SIWriter_T.t) (dBins : list BinValue_T)
  : list BinValue_T * list RawValue_T :=
  match fuel with
  | O => (dBins, [])
  | S fuel' =>
      match merge_next w dBins with
      | None => (dBins, [])
      | Some (x, next) =>
          let '(dBins2, emitted) := drain fuel' w next in
          (dBins2, x :: emitted)
      end
  end.

(** The pairs [Process] forwards to the encoder, in order: the one of the
    initial fill, then those of the loop. *)
Definition merged_stream {E : Externals} (w : SIWriter_T.t) : list RawValue_T :=
  match merge_next w (SIWriter_T.open_bins w) with
  | None => []
  | Some (x, next) => x :: snd (drain (SIWriter_T.merge_fuel next) w next)
  end.

(** The encoder driven by a stream of pairs: [AddValue] for the first,
    [NextValue] for the others. *)
Definition feed {E : Externals} (s : list RawValue_T) (st : RowWriter_t.t * Outputs)
  : RowWriter_t.t * Outputs :=
  match s with
  | [] => st
  | x :: s' =>
      fold_left (fun st' y => RowWriter_t.NextValue (fst st') y (snd st')) s'
                (RowWriter_t.AddValue (fst st) x, snd st)
  end.

(** The grouping the encoder performs on a stream of pairs: a pair joins
    the last group when it has that group's value, else it opens a new
    group.  A group is its value and its row-ids in arrival order. *)
Inductive grouped : list RawValue_T -> list (Z * list Z) -> Prop :=
  | grouped_first x : grouped [x] [(m_tValue x, [m_tRowid x])]
  | grouped_same s G v rows x :
      grouped s (G ++ [(v, rows)]) -> m_tValue x = v ->
      grouped (s ++ [x]) (G ++ [(v, rows ++ [m_tRowid x])])
  | grouped_new s G v rows x :
      grouped s (G ++ [(v, rows)]) -> m_tValue x <> v ->
      grouped (s ++ [x]) ((G ++ [(v, rows)]) ++ [(m_tValue x, [m_tRowid x])]).

(** The bytes of one value block, for its groups: values, tags, the
    [rows_delta_on] byte, row starts, packed rows. *)
Definition encode_value_block {E : Externals} (T : VALUE) (gs : list (Z * list Z)) : list Z :=
  let groups := map snd gs in
  let bLenDelta := forallb (fun g => negb (Nat.eqb (length g) 1)) groups in
  EncodeBlock T (map fst gs)
    ++ EncodeBlockWoDelta T_uint32 (map Packing_code (map posting_tag groups))
    ++ Write_uint8 (if bLenDelta then 1 else 0)
    ++ (if bLenDelta then EncodeBlock T_uint32 (packed_starts 0 groups)
        else EncodeBlockWoDelta T_uint32 (packed_starts 0 groups))
    ++ concat (map posting_payload groups).

(** The index value of a source value ([Convert] on the value alone). *)
Definition dst_value (SRC : VALUE) (v : Z) : Z :=
  match SRC with T_int64 => wrap64 v | _ => v end.

(** A list of value blocks as [FlushValue] cuts them: 128 groups in each
    but the last, which has at least one. *)
Definition blocks_cut (blocks : list (list (Z * list Z))) : Prop :=
  forall i b, blocks !! i = Some b ->
    (1 <= length b <= 128)%nat /\ ((S i < length blocks)%nat -> length b = 128%nat).

(** The encoder state while the groups [cur] of the current block are
    being collected, [v] being the value of the last pair. *)
Record writer_holds (T : VALUE) (rw : RowWriter_t.t) (cur : list (Z * list Z)) (v : Z)
  : Prop := {
  holds_T : RowWriter_t.VALUE_T rw = T;
  holds_float : RowWriter_t.FLOAT_VALUE rw = false;
  holds_values : RowWriter_t.m_dValues rw = map fst cur;
  holds_starts : RowWriter_t.m_dRowStart rw = starts_of 0 (map snd cur);
  holds_rows : RowWriter_t.m_dRows rw = concat (map snd cur);
  holds_packed : RowWriter_t.m_dRowsPacked rw = [];
  holds_last : RowWriter_t.m_tLastValue rw = v
}.

(** The encoder after the pairs [s]: whole blocks written, the current
    block being collected. *)
Definition fed {E : Externals} (T : VALUE) (dst0 : list Z) (s : list RawValue_T)
    (st : RowWriter_t.t * Outputs) : Prop :=
  exists blocks c0 v rows,
    grouped s (concat blocks ++ c0 ++ [(v, rows)]) /\
    Forall (fun b : list (Z * list Z) => length b = 128%nat) blocks /\
    (length c0 < 128)%nat /\
    writer_holds T (fst st) (c0 ++ [(v, rows)]) v /\
    tDstFile (snd st) = dst0 ++ concat (map (encode_value_block T) blocks) /\
    tTmpValsPGM (snd st) = concat (map (fun b => WriteRawValues T (map fst b)) blocks).

(** The value of a source type is inside the type's range. *)
Definition value_in_range (T : VALUE) (v : Z) : Prop :=
  match T with
  | T_int64 => - 2 ^ 63 <= v < 2 ^ 63
  | T_uint64 => 0 <= v < 2 ^ 64
  | T_uint32 | T_float => 0 <= v < 2 ^ 32
  end.

(** ** util.h: PackData, MemWriter_c, SpanResizeable_T, binary search *)

(** [std::vector<T>::resize] on a vector of integers: the prefix is kept,
    new elements are zero. *)
Definition vector_resize (n : nat) (l : list Z) : list Z := take n (l ++ replicate n 0).

(** [ByteCodec_c::PackData ( std::vector<uint8_t> & dPacked, const
    Span_T<uint8_t> & dData )]: the vector is resized, [Pack_uint64] writes
    at [p] and moves [p] forward, [memcpy] writes the data at [p]. *)
Definition PackData (dPacked dData : list Z) : list Z :=
  let tSize := Z.of_nat (length dData) in
  let dPacked1 := vector_resize (length dData + ByteCodec_c.CalcPackedLen tSize) dPacked in
  let header := ByteCodec_c.Pack_uint64 tSize in
  overwrite (overwrite dPacked1 0 header) (length header) dData.

(** [ByteCodec_c::PackData ( size_t tDataLen )]: a new array of
    [iPackedLen + tDataLen] bytes with the packed length copied to its
    front; the result is the array and the offset of its data part.
    [fill] is what the allocation holds (indeterminate in C++). *)
Definition PackData_len (tDataLen : nat) (fill : list Z) : list Z * nat :=
  let dPacked := ByteCodec_c.Pack_uint64 (Z.of_nat tDataLen) in
  let iPackedLen := length dPacked in
  (overwrite (vector_resize (iPackedLen + tDataLen) fill) 0 dPacked, iPackedLen).

(** [ByteCodec_c::PackData<T> ( const Span_T<T> & dData )]: the length in
    bytes is packed, the memory image of the elements follows. *)
Definition PackData_span (sizeof_T : nat) (dData : list Z) (fill : list Z) : list Z :=
  let tSizeBytes := (length dData * sizeof_T)%nat in
  let '(pResult, pData) := PackData_len tSizeBytes fill in
  overwrite pResult pData (concat (map (le_bytes sizeof_T) dData)).

(** [MemWriter_c]: a writer over the caller's byte vector [m_dData].
    [Write] is declared in util.h and defined outside the two files; like
    the members defined inline ([Write_uint8], [PackValue], [GetPos]) it
    appends to the vector. *)
Module MemWriter_c.

Definition t := list Z.

Definition Write (m_dData : t) (pData : list Z) : t := m_dData ++ pData.

Definition GetPos (m_dData : t) : Z := Z.of_nat (length m_dData).

(** [WriteValue<T>]: the [sizeof(T)] bytes of the value. *)
Definition WriteValue (sizeof_T : nat) (m_dData : t) (tValue : Z) : t :=
  Write m_dData (le_bytes sizeof_T tValue).

Definition Write_uint8 (m_dData : t) (uValue : Z) : t := m_dData ++ [wrap 8 uValue].

Definition Write_uint16 (m_dData : t) (uValue : Z) : t :=
  WriteValue 2 m_dData (wrap 16 uValue).

(** [void Write_uint32 ( uint64_t uValue ) { WriteValue(uValue); }]: the
    parameter is a [uint64_t], so [WriteValue] is instantiated at 8 bytes. *)
Definition Write_uint32 (m_dData : t) (uValue : Z) : t :=
  WriteValue 8 m_dData (wrap64 uValue).

Definition Write_uint64 (m_dData : t) (uValue : Z) : t :=
  WriteValue 8 m_dData (wrap64 uValue).

(** [PackValue]: [resize] by the packed length, [memcpy] at the old size. *)
Definition PackValue (m_dData : t) (uValue : Z) : t :=
  let dPacked := ByteCodec_c.EncodeValue uValue in
  let tOldSize := length m_dData in
  overwrite (vector_resize (tOldSize + length dPacked) m_dData) tOldSize dPacked.

Definition Pack_uint32 (m_dData : t) (uValue : Z) : t := PackValue m_dData (wrap32 uValue).
Definition Pack_uint64 (m_dData : t) (uValue : Z) : t := PackValue m_dData (wrap64 uValue).

(** [WriteVectorRawLen32] and [WriteVectorLen32] with [WRITER = MemWriter_c],
    on a byte vector. *)
Definition WriteVectorRawLen32 (m_dData : t) (dData : list Z) : t :=
  Write (Write_uint32 m_dData (wrap32 (Z.of_nat (length dData)))) dData.

Definition WriteVectorLen32 (m_dData : t) (dData : list Z) : t :=
  Write (Pack_uint32 m_dData (wrap32 (Z.of_nat (length dData)))) dData.

End MemWriter_c.

(** [SpanResizeable_T<T>]: a span over its own vector.  [m_pData] is
    [m_dData.data()], refreshed whenever the vector is resized, so the span
    is the first [m_tLength] elements of [m_dData]. *)
Module SpanResizeable_T.

Record t := mk {
  m_dData : list Z;
  m_tMaxLength : nat;
  m_tLength : nat
}.

Definition create : t := mk [] 0 0.

Definition resize (s : t) (tLength : nat) : t :=
  if (m_tMaxLength s <? tLength)%nat
  then mk (vector_resize tLength (m_dData s)) tLength tLength
  else mk (m_dData s) (m_tMaxLength s) tLength.

Definition size (s : t) : nat := m_tLength s.

(** The elements [begin() .. end()). *)
Definition span (s : t) : list Z := take (m_tLength s) (m_dData s).

(** [operator[] ( i ) = x]. *)
Definition set (s : t) (i : nat) (x : Z) : t :=
  mk (<[i := x]> (m_dData s)) (m_tMaxLength s) (m_tLength s).

End SpanResizeable_T.

(** Conversion of a 64-bit difference to [int]. *)
Definition to_int32 (x : Z) : Z :=
  let u := wrap32 x in if u <? 2 ^ 31 then u else u - 2 ^ 32.

(** [std::lower_bound] as the standard library implements it: bisection of
    [first, first + len), here on indices into the vector. *)
Fixpoint lower_bound_loop (fuel : nat) (dValues : list Z) (tValue : Z) (first len : nat)
  : nat :=
  match fuel with
  | O => first
  | S fuel' =>
      if Nat.eqb len 0 then first
      else
        let half := (len / 2)%nat in
        let middle := (first + half)%nat in
        if default 0 (dValues !! middle) <? tValue
        then lower_bound_loop fuel' dValues tValue (S middle) (len - half - 1)
        else lower_bound_loop fuel' dValues tValue first half
  end.

Definition lower_bound (dValues : list Z) (tValue : Z) : nat :=
  lower_bound_loop (length dValues) dValues tValue 0 (length dValues).

(** [binary_search]: the pointer it returns is the index of the element
    it points at; [None] is [nullptr]. *)
Definition binary_search (dValues : list Z) (tValue : Z) : option nat :=
  let tFound := lower_bound dValues tValue in
  if Nat.eqb tFound (length dValues) || (tValue <? default 0 (dValues !! tFound))
  then None
  else Some tFound.

Definition binary_search_idx (dValues : list Z) (tValue : Z) : Z :=
  let tFound := lower_bound dValues tValue in
  if negb (Nat.eqb tFound (length dValues)) && (tValue =? default 0 (dValues !! tFound))
  then to_int32 (Z.of_nat tFound)
  else -1.

(** ** Notions for the collector and the block table *)

(** [Setup] has a collector for the attribute type. *)
Definition supported (eType : AttrType_e) : bool :=
  match Builder_c.new_RawWriter eType with Some _ => true | None => false end.

(** The sum of a vector of counts. *)
Definition total (l : list Z) : Z := fold_right Z.add 0 l.

(** The byte position in the output file of each of the value blocks
    [blocks], the first of them written at [pos]. *)
Fixpoint block_positions {E : Externals} (T : VALUE) (pos : nat)
    (blocks : list (list (Z * list Z))) : list Z :=
  match blocks with
  | [] => []
  | b :: blocks' =>
      Z.of_nat pos :: block_positions T (pos + length (encode_value_block T b)) blocks'
  end.

(** The encoder after the pairs [s], with the block-offsets file in view:
    one 64-bit entry per block written. *)
Definition fed_offsets {E : Externals} (T : VALUE) (dst0 blk0 : list Z) (s : list RawValue_T)
    (st : RowWriter_t.t * Outputs) : Prop :=
  exists blocks c0 v rows,
    grouped s (concat blocks ++ c0 ++ [(v, rows)]) /\
    Forall (fun b : list (Z * list Z) => length b = 128%nat) blocks /\
    (length c0 < 128)%nat /\
    writer_holds T (fst st) (c0 ++ [(v, rows)]) v /\
    tDstFile (snd st) = dst0 ++ concat (map (encode_value_block T) blocks) /\
    tTmpBlocksOff (snd st)
      = blk0 ++ concat (map Write_uint64 (block_positions T (length dst0) blocks)).

(** ** The host's calls on the builder *)

(** One call of the host between [Setup] and [Done]. *)
Inductive BuilderCall :=
  | BSetRowID (tRowID : Z)
  | BSetAttr (iAttr tAttr : Z)
  | BSetAttr_bytes (iAttr : Z) (pData : list Z)
  | BSetAttr_array (iAttr : Z) (pData : list Z).

Definition do_builder_call {E : Externals} (b : Builder_c.t) (c : BuilderCall)
  : result Builder_c.t :=
  match c with
  | BSetRowID tRowID => Builder_c.SetRowID b tRowID
  | BSetAttr iAttr tAttr => Builder_c.SetAttr b iAttr tAttr
  | BSetAttr_bytes iAttr pData => Builder_c.SetAttr_bytes b iAttr pData
  | BSetAttr_array iAttr pData => Builder_c.SetAttr_array b iAttr pData
  end.

Fixpoint build {E : Externals} (b : Builder_c.t) (calls : list BuilderCall)
  : result Builder_c.t :=
  match calls with
  | [] => Ok b
  | c :: calls' => b' ← do_builder_call b c; build b' calls'
  end.

(** The slot of [m_dRawWriter] a [SetAttr] with attribute [iAttr] goes to. *)
Definition slot_of (iAttr : Z) : nat := Z.to_nat (wrap64 iAttr).

(** The share of the collector in slot [i] in the host's calls: a flush
    for each [SetRowID] at a multiple of [iMaxRows], and the [SetAttr]
    calls of its attribute, each with the row-id current at the time. *)
Fixpoint calls_of_slot (iMaxRows : Z) (i : nat) (tRowID : Z) (calls : list BuilderCall)
  : list Call :=
  match calls with
  | [] => []
  | BSetRowID r :: calls' =>
      (if r mod iMaxRows =? 0 then [CallFlush] else [])
        ++ calls_of_slot iMaxRows i r calls'
  | BSetAttr iAttr tAttr :: calls' =>
      (if Nat.eqb (slot_of iAttr) i then [CallSetAttr tRowID tAttr] else [])
        ++ calls_of_slot iMaxRows i tRowID calls'
  | BSetAttr_bytes iAttr pData :: calls' =>
      (if Nat.eqb (slot_of iAttr) i then [CallSetAttr_bytes tRowID pData] else [])
        ++ calls_of_slot iMaxRows i tRowID calls'
  | BSetAttr_array iAttr pData :: calls' =>
      (if Nat.eqb (slot_of iAttr) i then [CallSetAttr_array tRowID pData] else [])
        ++ calls_of_slot iMaxRows i tRowID calls'
  end.

(** The collectors of a builder, in slot order. *)
Definition collectors (b : Builder_c.t) : list RawWriter_T.t :=
  omap id (Builder_c.m_dRawWriter b).
(** What slot [i] sees when the builder goes from [b] to [b1]: its
    collector is called with [share]; an empty slot stays empty. *)
Definition slot_step {E : Externals} (b b1 : Builder_c.t) (i : nat) (share : list Call)
  : Prop :=
  match Builder_c.m_dRawWriter b !! i with
  | Some (Some w) =>
      exists w1, Builder_c.m_dRawWriter b1 !! i = Some (Some w1) /\ collect w share = Ok w1
  | r => Builder_c.m_dRawWriter b1 !! i = r
  end.

(** The source attributes [Setup] creates a collector for. *)
Definition supported_attrs (dSrcAttrs : list SourceAttrTrait_t) : list SourceAttrTrait_t :=
  List.filter (fun a => supported (m_eType a)) dSrcAttrs.

(** A collector as [Setup] installs it for the source attribute [a]. *)
Definition collector_for {E : Externals} (eCollation : Collation_e) (a : SourceAttrTrait_t)
    (w : RawWriter_T.t) : Prop :=
  exists pWriter,
    Builder_c.new_RawWriter (m_eType a) = Some pWriter /\
    RawWriter_T.Setup pWriter (m_iAttr a) (m_eType a) eCollation = Ok w.

(** ** What one attribute contributes to the index *)

(** The bytes [Process] appends to the output file for an index writer,
    and the PGM it stores in [m_dPGM]. *)
Definition attr_blocks {E : Externals} (w : SIWriter_T.t) : list Z :=
  tDstFile (snd (SIWriter_T.Process_merge w [] [])).

Definition attr_pgm {E : Externals} (w : SIWriter_T.t) : list Z :=
  PGM_Save (SIWriter_T.SRC_VALUE w)
    (MappedBuffer (SIWriter_T.SRC_VALUE w)
       (tTmpValsPGM (snd (SIWriter_T.Process_merge w [] [])))).

(** The index writers [Done] creates, in slot order. *)
Definition index_writers {E : Externals} (b : Builder_c.t) : list SIWriter_T.t :=
  map (fun w => GetWriter (RawWriter_T.Done w)) (collectors b).

(** The arguments of a call of the host are [int64_t] values. *)
Definition builder_call_typed (c : BuilderCall) : Prop :=
  match c with
  | BSetAttr _ tAttr => - 2 ^ 63 <= tAttr < 2 ^ 63
  | BSetAttr_array _ pData => Forall (fun x => - 2 ^ 63 <= x < 2 ^ 63) pData
  | _ => True
  end.

(** The number of attribute values a call hands over. *)
Definition values_of_call (c : BuilderCall) : nat :=
  match c with
  | BSetRowID _ => 0%nat
  | BSetAttr _ _ => 1%nat
  | BSetAttr_bytes _ _ => 1%nat
  | BSetAttr_array _ pData => length pData
  end.

Definition values_of_calls (calls : list BuilderCall) : nat :=
  fold_right (fun c n => (values_of_call c + n)%nat) 0%nat calls.


(** ** float values *)

(** [UintToFloat] (util.h): the [float] whose object representation is the
    32-bit pattern [uValue], an IEEE-754 binary32 number with its sign in
    bit 31, its exponent in bits 23..30 and its mantissa in bits 0..22. *)
Definition UintToFloat (uValue : Z) : spec_float :=
  let u := wrap32 uValue in
  let s := 2 ^ 31 <=? u in
  let e := (u / 2 ^ 23) mod 256 in
  let m := u mod 2 ^ 23 in
  if e =? 255 then (if m =? 0 then S754_infinity s else S754_nan)
  else if e =? 0 then (if m =? 0 then S754_zero s else S754_finite s (Z.to_pos m) (-149))
  else S754_finite s (Z.to_pos (m + 2 ^ 23)) (e - 150).

(** [<] and [==] of two [float]s, given by their patterns. *)
Definition float_less (a b : Z) : bool := SFltb (UintToFloat a) (UintToFloat b).
Definition float_equal (a b : Z) : bool := SFeqb (UintToFloat a) (UintToFloat b).

Definition is_nan (uValue : Z) : bool :=
  match UintToFloat uValue with S754_nan => true | _ => false end.

(** The comparisons of [float]s the code relies on: [float_lt] is the
    language's [<].  Modelled from the spec: [FloatEqual], declared in
    util.h and defined elsewhere ("-0.0 and +0.0 compare equal under
    FloatEqual and group; NaN does not group with NaN"), is the equality
    of the two numbers. *)
Definition ieee_floats {E : Externals} : Prop :=
  (forall a b, float_lt a b = float_less a b) /\
  (forall a b, FloatEqual a b = float_equal a b).

(** The place of a [float] that is no NaN among the integers: its
    magnitude bits, negated when the sign bit is set. *)
Definition float_key (uValue : Z) : Z :=
  let u := wrap32 uValue in
  if 2 ^ 31 <=? u then - (u - 2 ^ 31) else u.

(** The order of pairs of a float attribute: by the number, then by
    row-id. *)
Definition pair_le_float (a b : RawValue_T) : Prop :=
  float_key (m_tValue a) < float_key (m_tValue b) \/
  (float_key (m_tValue a) = float_key (m_tValue b) /\ m_tRowid a <= m_tRowid b).

(** A collector whose temp file is the concatenation of [runs], each
    sorted by [R] and not empty, the offsets table holding where each run
    starts. *)
Definition sorted_runs {E : Externals} (R : relation RawValue_T) (w : RawWriter_T.t)
    (runs : list (list RawValue_T)) : Prop :=
  RawWriter_T.m_tFile w = concat runs /\
  RawWriter_T.m_dOffset w = run_offsets (sizeof_RawValue (RawWriter_T.T w)) 0 runs /\
  Forall (fun r => r <> [] /\ StronglySorted R r) runs.

(** A bin well placed in the file, what it has pending sorted by [R] and
    made of pairs that satisfy [ok]. *)
Definition bin_ok_by (R : relation RawValue_T) (ok : RawValue_T -> Prop)
    (file : list RawValue_T) (sz : Z) (b : BinValue_T) : Prop :=
  exists p e : nat,
    m_pReader b = sz * Z.of_nat p /\ m_iBinEnd b = sz * Z.of_nat e /\
    (p <= e <= length file)%nat /\
    StronglySorted R (pending file sz b) /\ Forall ok (pending file sz b).

(** The test of [NextValue]: the pair has the value of the group that is
    being collected, by [FloatEqual] for a float attribute. *)
Definition same_value {E : Externals} (bFloat : bool) (a b : Z) : bool :=
  if bFloat then FloatEqual a b else a =? b.

(** The grouping the encoder performs on a stream of pairs under the test
    [eqv]: a pair joins the last group when the test holds between that
    group's value and its own, else it opens a new group. *)
Inductive grouped_by (eqv : Z -> Z -> bool) : list RawValue_T -> list (Z * list Z) -> Prop :=
  | grouped_by_first x : grouped_by eqv [x] [(m_tValue x, [m_tRowid x])]
  | grouped_by_same s G v rows x :
      grouped_by eqv s (G ++ [(v, rows)]) -> eqv v (m_tValue x) = true ->
      grouped_by eqv (s ++ [x]) (G ++ [(v, rows ++ [m_tRowid x])])
  | grouped_by_new s G v rows x :
      grouped_by eqv s (G ++ [(v, rows)]) -> eqv v (m_tValue x) = false ->
      grouped_by eqv (s ++ [x]) ((G ++ [(v, rows)]) ++ [(m_tValue x, [m_tRowid x])]).

(** The encoder state of a writer with [FLOAT_VALUE = bFloat] while the
    groups [cur] of the current block are being collected. *)
Record writer_holds_by (bFloat : bool) (T : VALUE) (rw : RowWriter_t.t)
    (cur : list (Z * list Z)) (v : Z) : Prop := {
  holds_by_T : RowWriter_t.VALUE_T rw = T;
  holds_by_float : RowWriter_t.FLOAT_VALUE rw = bFloat;
  holds_by_values : RowWriter_t.m_dValues rw = map fst cur;
  holds_by_starts : RowWriter_t.m_dRowStart rw = starts_of 0 (map snd cur);
  holds_by_rows : RowWriter_t.m_dRows rw = concat (map snd cur);
  holds_by_packed : RowWriter_t.m_dRowsPacked rw = [];
  holds_by_last : RowWriter_t.m_tLastValue rw = v
}.

Definition fed_by {E : Externals} (bFloat : bool) (T : VALUE) (dst0 : list Z)
    (s : list RawValue_T) (st : RowWriter_t.t * Outputs) : Prop :=
  exists blocks c0 v rows,
    grouped_by (same_value bFloat) s (concat blocks ++ c0 ++ [(v, rows)]) /\
    Forall (fun b : list (Z * list Z) => length b = 128%nat) blocks /\
    (length c0 < 128)%nat /\
    writer_holds_by bFloat T (fst st) (c0 ++ [(v, rows)]) v /\
    tDstFile (snd st) = dst0 ++ concat (map (encode_value_block T) blocks) /\
    tTmpValsPGM (snd st) = concat (map (fun b => WriteRawValues T (map fst b)) blocks).

(** The value of a pair is a float that is no NaN. *)
Definition not_nan (p : RawValue_T) : Prop := is_nan (m_tValue p) = false.

(** The equality test of a value type, as [NextValue] and the comparators
    apply it: [FloatEqual] on floats, [==] on integers. *)
Definition value_eq {E : Externals} (T : VALUE) (a b : Z) : bool :=
  match T with T_float => FloatEqual a b | _ => a =? b end.

(** The order of pairs of value type [T]: by value, then by row-id. *)
Definition pair_le_of {E : Externals} (T : VALUE) (a b : RawValue_T) : Prop :=
  value_lt T (m_tValue a) (m_tValue b) = true \/
  (value_eq T (m_tValue a) (m_tValue b) = true /\ m_tRowid a <= m_tRowid b).

(** [std::is_floating_point<SRC_VALUE>::value]. *)
Definition is_float (T : VALUE) : bool :=
  match T with T_float => true | _ => false end.

(** ** A concrete set of externals

    Used to run the model on examples: a codec that stores the words as
    they are, a polynomial string hash, enum codes in declaration order. *)

Definition example_hash (pData : list Z) : Z :=
  fold_left (fun h b => (h * 31 + b) mod 2 ^ 64) pData 7.

Definition example_string (s : string) : list Z :=
  ByteCodec_c.Pack_uint32 (Z.of_nat (String.length s))
    ++ map (fun a => Z.of_N (Ascii.N_of_ascii a)) (list_ascii_of_string s).

Definition example_externals : Externals := {|
  Encode32 := fun l => l;
  Encode64 := fun l => flat_map (fun x => [x mod 2 ^ 32; x / 2 ^ 32]) l;
  m_dRows_data := 4;
  FloatEqual := Z.eqb;
  float_lt := Z.ltb;
  g_dCollations := fun _ => example_hash;
  PGM_Save := fun _ vals => [Z.of_nat (length vals)];
  LIB_VERSION := 9;
  AttrType_code := fun t =>
    match t with
    | NONE => 0 | UINT32 => 1 | TIMESTAMP => 2 | INT64 => 3
    | FLOAT => 5 | STRING => 6 | UINT32SET => 7 | INT64SET => 8
    end;
  Packing_code := fun p =>
    match p with ROW => 0 | ROW_BLOCK => 1 | ROW_BLOCKS_LIST => 2 end;
  Write_string := example_string;
  BitVec_words := fun n => ((n + 31) / 32)%nat;
  Open_ok := fun _ => true
|}.

(** The block of the build [(0,10) (1,20) (2,10) (3,10) (4,30)] as it
    stands when [Done] flushes it: three values, five row-ids. *)
Definition example_block : RowWriter_t.t :=
  RowWriter_t.mk T_uint32 false [10; 20; 30] [] [0; 3; 4] [0; 2; 3; 1; 4] [] 30.

Definition example_groups : list (list Z) := [[0; 2; 3]; [1]; [4]].

(** The build of one [uint32] attribute from the pairs
    [(0,10) (1,20) (2,10) (3,10) (4,30)]. *)
Definition example_build : result Builder_c.t :=
  b ← Builder_c.Setup (E := example_externals) Builder_c.create
        [mkSrcAttr 0 UINT32 "a"] 1000000 BINARY;
  b ← Builder_c.SetRowID (E := example_externals) b 0; b ← Builder_c.SetAttr b 0 10;
  b ← Builder_c.SetRowID (E := example_externals) b 1; b ← Builder_c.SetAttr b 0 20;
  b ← Builder_c.SetRowID (E := example_externals) b 2; b ← Builder_c.SetAttr b 0 10;
  b ← Builder_c.SetRowID (E := example_externals) b 3; b ← Builder_c.SetAttr b 0 10;
  b ← Builder_c.SetRowID (E := example_externals) b 4; Builder_c.SetAttr b 0 30.

Definition example_builder : Builder_c.t :=
  Eval vm_compute in
    match example_build with Ok b => b | _ => Builder_c.create end.

Definition example_done_state : Builder_c.DoneState :=
  Eval vm_compute in
    match Builder_c.Done_process (E := example_externals) example_builder with
    | Ok st => st
    | _ => Builder_c.mkDone [] [] [] []
    end.

(** A build of two [uint32] attributes in which only the second one
    receives a value. *)
Definition example_two_attrs : result Builder_c.t :=
  b ← Builder_c.Setup (E := example_externals) Builder_c.create
        [mkSrcAttr 0 UINT32 "a"; mkSrcAttr 1 UINT32 "b"] 1000000 BINARY;
  b ← Builder_c.SetRowID (E := example_externals) b 0;
  Builder_c.SetAttr b 1 5.

Definition example_two_attrs_builder : Builder_c.t :=
  Eval vm_compute in
    match example_two_attrs with Ok b => b | _ => Builder_c.create end.

Definition example_two_attrs_state : Builder_c.DoneState :=
  Eval vm_compute in
    match Builder_c.Done_process (E := example_externals) example_two_attrs_builder with
    | Ok st => st
    | _ => Builder_c.mkDone [] [] [] []
    end.

(** A collector of a [uint32] attribute and a sequence of calls with a
    flush in the middle: two runs, the value 10 in both. *)
Definition example_calls : list Call :=
  [CallSetAttr 0 10; CallSetAttr 1 20; CallFlush;
   CallSetAttr 2 10; CallSetAttr 3 10; CallSetAttr 4 5].

Definition example_collector : RawWriter_T.t :=
  Eval vm_compute in
    match RawWriter_T.Setup (E := example_externals) (RawWriter_T.create T_uint32)
            0 UINT32 BINARY with
    | Ok w => w
    | _ => RawWriter_T.create T_uint32
    end.

Definition example_collected : RawWriter_T.t :=
  Eval vm_compute in
    match collect (E := example_externals) example_collector example_calls with
    | Ok w => w
    | _ => example_collector
    end.

(** The builder of [example_build] as [Setup] leaves it, and the calls of
    that build. *)
Definition example_setup : Builder_c.t :=
  Eval vm_compute in
    match Builder_c.Setup (E := example_externals) Builder_c.create
            [mkSrcAttr 0 UINT32 "a"] 1000000 BINARY with
    | Ok b => b
    | _ => Builder_c.create
    end.

Definition example_builder_calls : list BuilderCall :=
  [BSetRowID 0; BSetAttr 0 10; BSetRowID 1; BSetAttr 0 20; BSetRowID 2; BSetAttr 0 10;
   BSetRowID 3; BSetAttr 0 10; BSetRowID 4; BSetAttr 0 30].

(** Two source attributes with the same index. *)
Definition example_same_index : list SourceAttrTrait_t :=
  [mkSrcAttr 0 UINT32 "a"; mkSrcAttr 0 INT64 "b"].

(** The builder of [example_two_attrs] as [Setup] leaves it. *)
Definition example_two_attrs_setup : Builder_c.t :=
  Eval vm_compute in
    match Builder_c.Setup (E := example_externals) Builder_c.create
            [mkSrcAttr 0 UINT32 "a"; mkSrcAttr 1 UINT32 "b"] 1000000 BINARY with
    | Ok b => b
    | _ => Builder_c.create
    end.

(** The externals of the examples with the comparisons of IEEE floats. *)
Definition float_externals : Externals := {|
  Encode32 := @Encode32 example_externals;
  Encode64 := @Encode64 example_externals;
  m_dRows_data := @m_dRows_data example_externals;
  FloatEqual := float_equal;
  float_lt := float_less;
  g_dCollations := @g_dCollations example_externals;
  PGM_Save := @PGM_Save example_externals;
  LIB_VERSION := @LIB_VERSION example_externals;
  AttrType_code := @AttrType_code example_externals;
  Packing_code := @Packing_code example_externals;
  Write_string := @Write_string example_externals;
  BitVec_words := @BitVec_words example_externals;
  Open_ok := @Open_ok example_externals
|}.

(** A collector of a float attribute and its calls, with a flush in the
    middle: 1.0 and -2.0 in the first run, -0.0, +0.0 and 1.0 in the
    second ([0x3F800000], [0xC0000000], [0x80000000], [0]). *)
Definition example_float_calls : list Call :=
  [CallSetAttr 0 1065353216; CallSetAttr 1 3221225472; CallFlush;
   CallSetAttr 2 2147483648; CallSetAttr 3 0; CallSetAttr 4 1065353216].

Definition example_float_collector : RawWriter_T.t :=
  Eval vm_compute in
    match RawWriter_T.Setup (E := float_externals) (RawWriter_T.create T_float)
            0 FLOAT BINARY with
    | Ok w => w
    | _ => RawWriter_T.create T_float
    end.

Definition example_float_collected : RawWriter_T.t :=
  Eval vm_compute in
    match collect (E := float_externals) example_float_collector example_float_calls with
    | Ok w => w
    | _ => example_float_collector
    end.

(** A quiet NaN, [0x7FC00000], and a float attribute that receives it for
    the rows 1 and 2. *)
Definition example_nan : Z := 2143289344.

Definition example_nan_calls : list Call :=
  [CallSetAttr 1 example_nan; CallSetAttr 2 example_nan].

Definition example_nan_collected : RawWriter_T.t :=
  Eval vm_compute in
    match collect (E := float_externals) example_float_collector example_nan_calls with
    | Ok w => w
    | _ => example_float_collector
    end.

(** * Properties *)

(** ** Varint properties *)

Section Varint.
Import ByteCodec_c.

Lemma CalcPackedLen_loop_ge fuel : forall u n, (n <= CalcPackedLen_loop fuel u n)%nat.
Proof.
  induction fuel as [|fuel IH]; intros u n; simpl; [lia|].
  destruct (u =? 0); [lia|]. specialize (IH (Z.shiftr u 7) (S n)). lia.
Qed.

Lemma CalcPackedLen_loop_clears fuel : forall u n,
  0 <= u < 2 ^ (7 * Z.of_nat fuel) ->
  Z.shiftr u (7 * Z.of_nat (CalcPackedLen_loop fuel u n - n)) = 0.
Proof.
  induction fuel as [|fuel IH]; intros u n Hu; simpl CalcPackedLen_loop.
  - replace (n - n)%nat with 0%nat by lia. simpl in *. rewrite Z.shiftr_0_r. lia.
  - destruct (Z.eqb_spec u 0) as [->|Hne].
    + apply Z.shiftr_0_l.
    + assert (Hs : 0 <= Z.shiftr u 7 < 2 ^ (7 * Z.of_nat fuel)).
      { rewrite Z.shiftr_div_pow2 by lia. split; [apply Z.div_pos; lia|].
        apply Z.div_lt_upper_bound; [lia|].
        rewrite <- Z.pow_add_r by lia.
        replace (7 + 7 * Z.of_nat fuel) with (7 * Z.of_nat (S fuel)) by lia. lia. }
      specialize (IH (Z.shiftr u 7) (S n) Hs).
      pose proof (CalcPackedLen_loop_ge fuel (Z.shiftr u 7) (S n)) as Hge.
      rewrite Z.shiftr_shiftr in IH by lia.
      replace (7 * Z.of_nat (CalcPackedLen_loop fuel (Z.shiftr u 7) (S n) - n))
        with (7 + 7 * Z.of_nat (CalcPackedLen_loop fuel (Z.shiftr u 7) (S n) - S n)) by lia.
      exact IH.
Qed.

Lemma CalcPackedLen_pos v : (1 <= CalcPackedLen v)%nat.
Proof. apply CalcPackedLen_loop_ge. Qed.

(** The byte count covers every set bit of a 64-bit value. *)
Lemma CalcPackedLen_covers v :
  0 <= v < 2 ^ 64 -> Z.shiftr v (7 * Z.of_nat (CalcPackedLen v)) = 0.
Proof.
  intros Hv. unfold CalcPackedLen, wrap64, wrap. rewrite Z.mod_small by lia.
  set (r := CalcPackedLen_loop 64 (Z.shiftr v 7) 1).
  assert (Hr : (1 <= r)%nat) by apply CalcPackedLen_loop_ge.
  assert (Hs : 0 <= Z.shiftr v 7 < 2 ^ (7 * Z.of_nat 64)).
  { rewrite Z.shiftr_div_pow2 by lia. split; [apply Z.div_pos; lia|].
    apply Z.div_lt_upper_bound; [lia|].
    change (2 ^ 7 * 2 ^ (7 * Z.of_nat 64)) with (2 ^ 455).
    assert (2 ^ 64 < 2 ^ 455) by (apply Z.pow_lt_mono_r; lia). lia. }
  pose proof (CalcPackedLen_loop_clears 64 (Z.shiftr v 7) 1 Hs) as H.
  fold r in H. rewrite Z.shiftr_shiftr in H by lia.
  replace (7 * Z.of_nat r) with (7 + 7 * Z.of_nat (r - 1)) by lia. exact H.
Qed.

Lemma EncodeValue_loop_length n v : length (EncodeValue_loop n v) = n.
Proof. induction n; simpl; congruence. Qed.

Lemma group_split x : 0 <= x ->
  Z.lor (Z.shiftl (Z.shiftr x 7) 7) (Z.land x 127) = x.
Proof.
  intros Hx. apply Z.bits_inj'. intros k Hk.
  rewrite Z.lor_spec. change 127 with (Z.ones 7).
  destruct (Z.ltb_spec k 7).
  - rewrite Z.shiftl_spec_low by lia. rewrite Z.land_spec, Z.ones_spec_low by lia.
    simpl. now rewrite andb_true_r.
  - rewrite Z.shiftl_spec by lia. rewrite Z.shiftr_spec by lia.
    rewrite Z.land_spec, Z.ones_spec_high by lia.
    rewrite andb_false_r, orb_false_r. f_equal. lia.
Qed.

Lemma shiftl_shiftr_le x : 0 <= x -> 0 <= Z.shiftl (Z.shiftr x 7) 7 <= x.
Proof.
  intros Hx. rewrite Z.shiftr_div_pow2, Z.shiftl_mul_pow2 by lia.
  pose proof (Z.mul_div_le x (2 ^ 7) ltac:(lia)).
  assert (0 <= x / 2 ^ 7) by (apply Z.div_pos; lia). lia.
Qed.

Lemma land_flag_set g : Z.land (Z.lor (Z.land g 127) 128) 128 = 128.
Proof.
  apply Z.bits_inj'. intros k Hk.
  rewrite Z.land_spec, Z.lor_spec, Z.land_spec.
  change 128 with (2 ^ 7). rewrite Z.pow2_bits_eqb by lia.
  destruct (Z.eqb_spec 7 k); [now rewrite orb_true_r|now rewrite andb_false_r].
Qed.

Lemma land_flag_clear g : Z.land (Z.land g 127) 128 = 0.
Proof. rewrite <- Z.land_assoc. simpl. apply Z.land_0_r. Qed.

Lemma land_payload g : Z.land (Z.lor (Z.land g 127) 128) 127 = Z.land g 127.
Proof.
  rewrite Z.land_lor_distr_l, <- Z.land_assoc. simpl (Z.land 128 127).
  simpl (Z.land 127 127). apply Z.lor_0_r.
Qed.

(** Decoding the bytes for groups [n-1 .. 0] with the higher groups already
    accumulated yields the value. *)
Lemma DecodeValue_loop_EncodeValue_loop w v rest : 0 <= v < 2 ^ w -> forall i,
  DecodeValue_loop w (EncodeValue_loop (S i) v ++ rest)
                   (Z.shiftr v (7 * Z.of_nat (S i))) = Some (v, rest).
Proof.
  intros Hv.
  assert (Hstep : forall j, Z.lor (wrap w (Z.shiftl (Z.shiftr v (7 * Z.of_nat (S j))) 7))
                         (Z.land (Z.shiftr v (7 * Z.of_nat j)) 127)
                       = Z.shiftr v (7 * Z.of_nat j)).
  { intros j. set (x := Z.shiftr v (7 * Z.of_nat j)).
    assert (Hx : 0 <= x <= v).
    { unfold x. rewrite Z.shiftr_div_pow2 by lia. split; [apply Z.div_pos; lia|].
      apply Z.div_le_upper_bound; [lia|].
      assert (1 <= 2 ^ (7 * Z.of_nat j)) by (apply Z.pow_le_mono_r with (b:=0) (c := 7 * Z.of_nat j) (a:=2); lia).
      nia. }
    replace (Z.shiftr v (7 * Z.of_nat (S j))) with (Z.shiftr x 7)
      by (unfold x; rewrite Z.shiftr_shiftr by lia; f_equal; lia).
    pose proof (shiftl_shiftr_le x ltac:(lia)).
    unfold wrap. rewrite Z.mod_small by lia. apply group_split; lia. }
  induction i as [|i IH].
  - simpl EncodeValue_loop. simpl app. unfold DecodeValue_loop.
    rewrite Z.shiftr_0_r. rewrite land_flag_clear. simpl (0 =? 0).
    specialize (Hstep 0%nat). simpl Z.of_nat in Hstep. rewrite Z.shiftr_0_r in Hstep.
    simpl Z.of_nat. now rewrite Hstep.
  - change (EncodeValue_loop (S (S i)) v)
      with (Z.lor (Z.land (Z.shiftr v (7 * Z.of_nat (S i))) 127) 128 :: EncodeValue_loop (S i) v).
    simpl app. cbn [DecodeValue_loop].
    rewrite land_flag_set. simpl (128 =? 0). rewrite land_payload.
    rewrite Hstep. exact IH.
Qed.

Lemma DecodeValue_EncodeValue w v rest : 0 <= v < 2 ^ w -> w <= 64 ->
  DecodeValue w (EncodeValue v ++ rest) = Some (v, rest).
Proof.
  intros Hv Hw. unfold DecodeValue, EncodeValue.
  assert (Hv64 : 0 <= v < 2 ^ 64).
  { split; [lia|]. assert (2 ^ w <= 2 ^ 64) by (apply Z.pow_le_mono_r; lia). lia. }
  pose proof (CalcPackedLen_pos v) as Hn. pose proof (CalcPackedLen_covers v Hv64) as Hc.
  destruct (CalcPackedLen v) as [|i]; [lia|].
  rewrite <- Hc. now apply DecodeValue_loop_EncodeValue_loop.
Qed.

Lemma EncodeValue_loop_nth n v : forall k, (k < n)%nat ->
  EncodeValue_loop n v !! k =
    Some (let g := Z.land (Z.shiftr v (7 * Z.of_nat (n - 1 - k))) 127 in
          if Nat.eqb (n - 1 - k) 0 then g else Z.lor g 128).
Proof.
  induction n as [|n IH]; intros k Hk; [lia|].
  destruct k as [|k].
  - simpl. replace (n - 0 - 0)%nat with n by lia. reflexivity.
  - simpl. rewrite IH by lia. replace (n - 0 - S k)%nat with (n - 1 - k)%nat by lia.
    reflexivity.
Qed.

End Varint.

(** C8.  [EncodeValue] emits the 7-bit groups of a 64-bit value most
    significant first, one per byte; every byte but the last carries the
    continuation bit 0x80, the groups cover the whole value, and
    [DecodeValue] reads the value back from these bytes, leaving whatever
    follows them. *)
Theorem varint_msb_first_roundtrip (v : Z) (rest : list Z) :
  0 <= v < 2 ^ 64 ->
  let bytes := ByteCodec_c.EncodeValue v in
  let n := length bytes in
  (1 <= n)%nat /\
  Z.shiftr v (7 * Z.of_nat n) = 0 /\
  (forall k, (k < n)%nat ->
     bytes !! k =
       Some (Z.lor (Z.land (Z.shiftr v (7 * Z.of_nat (n - 1 - k))) 127)
                   (if (k <? n - 1)%nat then 128 else 0))) /\
  ByteCodec_c.DecodeValue 64 (bytes ++ rest) = Some (v, rest).
Proof.
  intros Hv bytes n. unfold n, bytes, ByteCodec_c.EncodeValue.
  rewrite EncodeValue_loop_length.
  pose proof (CalcPackedLen_pos v) as Hpos.
  split; [exact Hpos|]. split; [now apply CalcPackedLen_covers|]. split.
  - intros k Hk. rewrite EncodeValue_loop_nth by exact Hk. cbv zeta. f_equal.
    destruct (Nat.eqb_spec (ByteCodec_c.CalcPackedLen v - 1 - k) 0) as [H0|H0];
      destruct (Nat.ltb_spec k (ByteCodec_c.CalcPackedLen v - 1));
      first [lia | now rewrite Z.lor_0_r | reflexivity].
  - apply (DecodeValue_EncodeValue 64); lia.
Qed.

Lemma varint_msb_first_roundtrip_witness :
  ByteCodec_c.EncodeValue 300 = [130; 44] /\
  ByteCodec_c.DecodeValue 64 (ByteCodec_c.EncodeValue 300 ++ [7]) = Some (300, [7]).
Proof.
  split; [reflexivity|].
  apply (varint_msb_first_roundtrip 300 [7]). lia.
Defined.

(** ** Builder_c::Setup and Builder_c::SetAttr *)

Section BuilderSetup.
Context {E : Externals}.

Lemma resize_all_null {A} n (l : list (option A)) :
  Forall (eq None) l -> Forall (eq None) (resize n l).
Proof.
  intros Hl. unfold resize. apply Forall_take, Forall_app. split; [exact Hl|].
  apply Forall_replicate. reflexivity.
Qed.

Lemma row_size_from acc (l : list (option RawWriter_T.t)) :
  Forall (eq None) l ->
  fold_left (fun iRowSize pWriter =>
               match pWriter with
               | Some w => iRowSize + RawWriter_T.GetItemSize w
               | None => iRowSize
               end) l acc = acc.
Proof.
  intros Hl. revert acc. induction Hl as [|x l Hx _ IH]; intros acc; simpl; [reflexivity|].
  subst x. apply IH.
Qed.

Lemma row_size_all_null (l : list (option RawWriter_T.t)) :
  Forall (eq None) l -> Builder_c.row_size l = 0.
Proof. apply row_size_from. Qed.

Lemma Setup_attrs_unsupported eCollation st dSrcAttrs :
  Forall (fun a => Builder_c.new_RawWriter (m_eType a) = None) dSrcAttrs ->
  Builder_c.Setup_attrs eCollation st dSrcAttrs = Ok st.
Proof.
  intros H. revert st. induction H as [|a l Ha _ IH]; intros st; simpl; [reflexivity|].
  unfold Builder_c.Setup_attr. destruct st as [ws cs]. rewrite Ha. simpl. apply IH.
Qed.

Lemma Setup_no_writer b dSrcAttrs iMemoryLimit eCollation ws cs :
  Builder_c.Setup_writers b dSrcAttrs eCollation = Ok (ws, cs) ->
  Forall (eq None) ws ->
  Builder_c.Setup b dSrcAttrs iMemoryLimit eCollation = Fault DivideByZero.
Proof.
  intros Hw Hnull. unfold Builder_c.Setup. rewrite Hw.
  unfold mbind, result_bind. cbn [fst].
  now rewrite (row_size_all_null _ Hnull).
Qed.

Lemma Setup_writers_unsupported dSrcAttrs eCollation :
  Forall (fun a => Builder_c.new_RawWriter (m_eType a) = None) dSrcAttrs ->
  (exists tBack, last dSrcAttrs = Some tBack /\ m_iAttr tBack + 1 < 0 /\
     Builder_c.Setup_writers Builder_c.create dSrcAttrs eCollation = Fault LengthError) \/
  (exists ws, Builder_c.Setup_writers Builder_c.create dSrcAttrs eCollation = Ok (ws, []) /\
     Forall (eq None) ws).
Proof.
  intros Hall. unfold Builder_c.Setup_writers.
  set (ws0 := resize (length dSrcAttrs) (Builder_c.m_dRawWriter Builder_c.create)).
  assert (H0 : Forall (eq None) ws0) by (apply resize_all_null; constructor).
  destruct (last dSrcAttrs) as [tBack|] eqn:Hlast.
  - destruct (Z.ltb_spec (m_iAttr tBack + 1) 0) as [Hneg|Hpos].
    + left. exists tBack. split; [reflexivity|]. split; [exact Hneg|reflexivity].
    + right. exists (resize (Z.to_nat (m_iAttr tBack + 1)) ws0).
      split; [|now apply resize_all_null].
      unfold mbind, result_bind. now rewrite (Setup_attrs_unsupported _ _ _ Hall).
  - right. exists ws0. split; [|exact H0].
    unfold mbind, result_bind. now rewrite (Setup_attrs_unsupported _ _ _ Hall).
Qed.

Lemma unsupported_dec (dSrcAttrs : list SourceAttrTrait_t) :
  Forall (fun a => Builder_c.new_RawWriter (m_eType a) = None) dSrcAttrs \/
  Exists (fun a => Builder_c.new_RawWriter (m_eType a) <> None) dSrcAttrs.
Proof.
  induction dSrcAttrs as [|a l [IH|IH]].
  - left. constructor.
  - destruct (Builder_c.new_RawWriter (m_eType a)) eqn:Ha.
    + right. apply Exists_cons_hd. congruence.
    + left. constructor; assumption.
  - right. now apply Exists_cons_tl.
Qed.

Lemma row_size_sum (l : list (option RawWriter_T.t)) : forall acc,
  fold_left (fun iRowSize pWriter =>
               match pWriter with
               | Some w => iRowSize + RawWriter_T.GetItemSize w
               | None => iRowSize
               end) l acc
  = acc + total (map (fun w => sizeof_RawValue (RawWriter_T.T w)) (omap id l)).
Proof.
  induction l as [|[w|] l IH]; intros acc; cbn [fold_left].
  - unfold total. simpl. lia.
  - rewrite IH. change (omap id (Some w :: l)) with (w :: omap id l).
    unfold RawWriter_T.GetItemSize, total. cbn [map fold_right]. lia.
  - rewrite IH. reflexivity.
Qed.

Lemma total_sizes_nonneg (ws : list RawWriter_T.t) :
  0 <= total (map (fun w => sizeof_RawValue (RawWriter_T.T w)) ws).
Proof.
  induction ws as [|w ws IH]; cbn; [lia|].
  assert (0 < sizeof_RawValue (RawWriter_T.T w)) by (destruct (RawWriter_T.T w); reflexivity).
  unfold total in IH. lia.
Qed.

(** C9.  [Setup] computes the flush threshold [m_iMaxRows] as
    [max ( 1000, iMemoryLimit / 3 / iRowSize )], where [iRowSize] is the
    sum of the item sizes [sizeof ( RawValue_T<VALUE> )] of the configured
    writers, and it divides without looking at [iRowSize]: once the writer
    table is filled, [Setup] is the division fault when the sum is 0 and
    returns the builder with that threshold otherwise.  On a new builder,
    when no attribute of the list has a supported type (the empty list
    included) no writer is configured, [iRowSize] is 0 and the division
    is undefined; so [Setup] returns only if some attribute has a
    supported type, and then the sum is positive. *)
Theorem Setup_divides_by_zero_without_supported_attr
    (dSrcAttrs : list SourceAttrTrait_t) (iMemoryLimit : Z) (eCollation : Collation_e) :
  (forall st, Builder_c.Setup_writers Builder_c.create dSrcAttrs eCollation = Ok st ->
     let iRowSize :=
       total (map (fun w => sizeof_RawValue (RawWriter_T.T w)) (omap id (fst st))) in
     Builder_c.Setup Builder_c.create dSrcAttrs iMemoryLimit eCollation
     = if iRowSize =? 0 then Fault DivideByZero
       else Ok (Builder_c.mk 0 (Z.max 1000 (Z.quot (Z.quot iMemoryLimit 3) iRowSize))
                             (fst st) (snd st) eCollation)) /\
  (forall b, Builder_c.Setup Builder_c.create dSrcAttrs iMemoryLimit eCollation = Ok b ->
     let iRowSize :=
       total (map (fun w => sizeof_RawValue (RawWriter_T.T w)) (collectors b)) in
     0 < iRowSize /\
     Builder_c.m_iMaxRows b = Z.max 1000 (Z.quot (Z.quot iMemoryLimit 3) iRowSize) /\
     Exists (fun a => Builder_c.new_RawWriter (m_eType a) <> None) dSrcAttrs) /\
  (Forall (fun a => Builder_c.new_RawWriter (m_eType a) = None) dSrcAttrs ->
     (exists f, Builder_c.Setup Builder_c.create dSrcAttrs iMemoryLimit eCollation = Fault f) /\
     (match last dSrcAttrs with Some tBack => 0 <= m_iAttr tBack + 1 | None => True end ->
        exists st,
          Builder_c.Setup_writers Builder_c.create dSrcAttrs eCollation = Ok st /\
          Builder_c.row_size (fst st) = 0 /\
          Builder_c.Setup Builder_c.create dSrcAttrs iMemoryLimit eCollation
            = Fault DivideByZero)).
Proof.
  assert (Hno : Forall (fun a => Builder_c.new_RawWriter (m_eType a) = None) dSrcAttrs ->
     (exists f, Builder_c.Setup Builder_c.create dSrcAttrs iMemoryLimit eCollation = Fault f) /\
     (match last dSrcAttrs with Some tBack => 0 <= m_iAttr tBack + 1 | None => True end ->
        exists st,
          Builder_c.Setup_writers Builder_c.create dSrcAttrs eCollation = Ok st /\
          Builder_c.row_size (fst st) = 0 /\
          Builder_c.Setup Builder_c.create dSrcAttrs iMemoryLimit eCollation
            = Fault DivideByZero)).
  { intros Hall.
    destruct (Setup_writers_unsupported dSrcAttrs eCollation Hall) as [Hlen|(ws & Hws & Hnull)].
    - destruct Hlen as (tBack & Hlast & Hneg & Hw). rewrite Hlast.
      split; [|intros; lia].
      exists LengthError. unfold Builder_c.Setup. now rewrite Hw.
    - pose proof (Setup_no_writer Builder_c.create dSrcAttrs iMemoryLimit eCollation _ _
                    Hws Hnull) as HS.
      split; [exists DivideByZero; exact HS|]. intros _.
      eexists. split; [exact Hws|]. split; [now apply row_size_all_null|exact HS]. }
  assert (Hsum : forall st,
            Builder_c.Setup_writers Builder_c.create dSrcAttrs eCollation = Ok st ->
            Builder_c.Setup Builder_c.create dSrcAttrs iMemoryLimit eCollation
            = if total (map (fun w => sizeof_RawValue (RawWriter_T.T w)) (omap id (fst st)))
                 =? 0
              then Fault DivideByZero
              else Ok (Builder_c.mk 0
                         (Z.max 1000
                            (Z.quot (Z.quot iMemoryLimit 3)
                               (total (map (fun w => sizeof_RawValue (RawWriter_T.T w))
                                           (omap id (fst st))))))
                         (fst st) (snd st) eCollation)).
  { intros st Hst. unfold Builder_c.Setup. rewrite Hst. cbn [mbind result_bind].
    unfold Builder_c.row_size. rewrite row_size_sum, Z.add_0_l. reflexivity. }
  split; [exact Hsum|]. split; [|exact Hno].
  intros b Hb iRowSize.
  assert (Hex : Exists (fun a => Builder_c.new_RawWriter (m_eType a) <> None) dSrcAttrs).
  { destruct (unsupported_dec dSrcAttrs) as [Hall|Hex]; [|exact Hex].
    destruct (Hno Hall) as [[f Hf] _]. congruence. }
  destruct (Builder_c.Setup_writers Builder_c.create dSrcAttrs eCollation) as [st| |] eqn:Hst.
  - rewrite (Hsum st eq_refl) in Hb.
    pose proof (total_sizes_nonneg (omap id (fst st))) as Hnn.
    destruct (Z.eqb_spec (total (map (fun w => sizeof_RawValue (RawWriter_T.T w))
                                     (omap id (fst st)))) 0) as [H0|H0]; [discriminate|].
    injection Hb as <-. unfold iRowSize, collectors. cbn [Builder_c.m_dRawWriter Builder_c.m_iMaxRows].
    split; [lia|]. split; [reflexivity|exact Hex].
  - unfold Builder_c.Setup in Hb. rewrite Hst in Hb. discriminate.
  - unfold Builder_c.Setup in Hb. rewrite Hst in Hb. discriminate.
Qed.

(** C10.  When [iAttr] lies outside the writer table (negative, or not
    below its size), or its slot holds no writer, each of the three
    [SetAttr] overloads returns normally and leaves the builder, and so
    every collector, as it was.  ([iAttr] is an [int]; the table is below
    [max_size].) *)
Theorem SetAttr_ignores_unconfigured_attr (b : Builder_c.t) (iAttr : Z) :
  - 2 ^ 31 <= iAttr < 2 ^ 31 ->
  Z.of_nat (length (Builder_c.m_dRawWriter b)) < 2 ^ 63 ->
  iAttr < 0 \/ Z.of_nat (length (Builder_c.m_dRawWriter b)) <= iAttr \/
    Builder_c.m_dRawWriter b !! Z.to_nat iAttr = Some None ->
  forall (tAttr : Z) (pBytes pArray : list Z),
    Builder_c.SetAttr b iAttr tAttr = Ok b /\
    Builder_c.SetAttr_bytes b iAttr pBytes = Ok b /\
    Builder_c.SetAttr_array b iAttr pArray = Ok b.
Proof.
  intros Hint Hsize Hcase tAttr pBytes pArray.
  assert (Hg : forall call, Builder_c.SetAttr_guarded b iAttr call = Ok b).
  { intros call. unfold Builder_c.SetAttr_guarded.
    destruct (Z.ltb_spec (wrap64 iAttr) (Z.of_nat (length (Builder_c.m_dRawWriter b))))
      as [Hlt|Hge]; [|reflexivity].
    unfold wrap64, wrap in *.
    destruct (Z.ltb_spec iAttr 0) as [Hneg|Hnn].
    - exfalso. replace (iAttr mod 2 ^ 64) with (iAttr + 2 ^ 64) in Hlt.
      + assert (2 ^ 63 + 2 ^ 63 = 2 ^ 64) by reflexivity. assert (2 ^ 31 < 2 ^ 63) by reflexivity. lia.
      + apply Z.mod_unique with (q := -1); lia.
    - rewrite Z.mod_small in * by (assert (2 ^ 31 < 2 ^ 64) by reflexivity; lia).
      destruct Hcase as [Hc|[Hc|Hc]]; [lia|lia|]. now rewrite Hc. }
  unfold Builder_c.SetAttr, Builder_c.SetAttr_bytes, Builder_c.SetAttr_array.
  rewrite !Hg. auto.
Qed.

End BuilderSetup.

Lemma Setup_divides_by_zero_without_supported_attr_witness :
  Builder_c.Setup (E := example_externals) Builder_c.create
    [mkSrcAttr 0 NONE "a"] 1000000 BINARY = Fault DivideByZero /\
  Builder_c.Setup (E := example_externals) Builder_c.create [] 1000000 BINARY
    = Fault DivideByZero /\
  (forall b,
     Builder_c.Setup (E := example_externals) Builder_c.create
       [mkSrcAttr 0 UINT32 "a"; mkSrcAttr 1 INT64 "b"] 1000000 BINARY = Ok b ->
     Builder_c.m_iMaxRows b = 13888).
Proof.
  split; [|split].
  - destruct (Setup_divides_by_zero_without_supported_attr (E := example_externals)
                [mkSrcAttr 0 NONE "a"] 1000000 BINARY) as (_ & _ & H).
    destruct H as [_ H]; [repeat constructor|].
    destruct H as (st & _ & _ & H); [simpl; lia|]. exact H.
  - reflexivity.
  - intros b Hb.
    destruct (Setup_divides_by_zero_without_supported_attr (E := example_externals)
                [mkSrcAttr 0 UINT32 "a"; mkSrcAttr 1 INT64 "b"] 1000000 BINARY)
      as (_ & H & _).
    destruct (H b Hb) as (_ & Hmax & _). rewrite Hmax.
    vm_compute in Hb. injection Hb as <-. reflexivity.
Defined.

Lemma SetAttr_ignores_unconfigured_attr_witness :
  let b := Builder_c.mk 3 1000 [Some (RawWriter_T.create T_uint32); None] [] BINARY in
  Builder_c.SetAttr b 1 42 = Ok b /\
  Builder_c.SetAttr_bytes (E := example_externals) b 1 [97] = Ok b /\
  Builder_c.SetAttr_array b 1 [5; 7] = Ok b.
Proof.
  intros b.
  apply (SetAttr_ignores_unconfigured_attr (E := example_externals) b 1).
  - lia.
  - simpl. lia.
  - right. right. reflexivity.
Defined.

(** ** The block encoder *)

Section BlockEncoder.
Context {E : Externals}.

Lemma wrap_small w x : 0 <= x < 2 ^ w -> wrap w x = x.
Proof. intros H. unfold wrap. now apply Z.mod_small. Qed.

Lemma wrap32_small x : 0 <= x < 2 ^ 32 -> wrap32 x = x.
Proof. apply wrap_small. Qed.

Lemma wrap64_small x : 0 <= x < 2 ^ 64 -> wrap64 x = x.
Proof. apply wrap_small. Qed.

Lemma ComputeDeltas_from_length w prev l : length (ComputeDeltas_from w prev l) = length l.
Proof. revert prev. induction l; intros; simpl; [reflexivity|]. now rewrite IHl. Qed.

Lemma ComputeDeltas_length w l : length (ComputeDeltas w l) = length l.
Proof. destruct l; simpl; [reflexivity|]. now rewrite ComputeDeltas_from_length. Qed.

Lemma overwrite_middle {A} (junk g rest data : list A) :
  length data = length g ->
  overwrite (junk ++ g ++ rest) (length junk) data = junk ++ data ++ rest.
Proof.
  intros Hlen. unfold overwrite. rewrite take_app_length. f_equal. f_equal.
  rewrite Hlen, drop_app_add, drop_app_length. reflexivity.
Qed.

(** [EncodeRowsBlock] on the group that starts at [length junk]: the bytes
    are the encoded row-block of the group, and the source vector keeps
    everything behind the group. *)
Lemma EncodeRowsBlock_spec (junk g rest : list Z) :
  exists junk', length junk' = (length junk + length g)%nat /\
    EncodeRowsBlock (junk ++ g ++ rest) (Z.of_nat (length junk)) (Z.of_nat (length g))
    = (junk' ++ rest, row_block_bytes g).
Proof.
  unfold EncodeRowsBlock. rewrite !Nat2Z.id.
  rewrite drop_app_length, take_app_length.
  destruct (needPaddingTo128Bits (Z.of_nat (length junk))).
  - exists (ComputeDeltas 32 g ++ drop (length g) (junk ++ g)). split.
    + rewrite length_app, ComputeDeltas_length, length_drop, length_app. lia.
    + f_equal. unfold overwrite. simpl take. simpl app.
      rewrite ComputeDeltas_length. simpl Nat.add.
      rewrite drop_app_length. rewrite <- app_assoc. f_equal.
      rewrite (app_assoc junk g rest). rewrite drop_app_le by (rewrite length_app; lia).
      reflexivity.
  - exists (junk ++ ComputeDeltas 32 g). split.
    + rewrite length_app, ComputeDeltas_length. lia.
    + f_equal. rewrite overwrite_middle by apply ComputeDeltas_length.
      now rewrite app_assoc.
Qed.

Lemma chunks_nil {A} fuel n : chunks fuel n (@nil A) = [].
Proof. destruct fuel; reflexivity. Qed.

Lemma chunks_concat {A} fuel n (l : list A) :
  (length l <= fuel)%nat -> (1 <= n)%nat -> concat (chunks fuel n l) = l.
Proof.
  revert l. induction fuel as [|fuel IH]; intros l Hl Hn.
  - destruct l; [reflexivity|simpl in Hl; lia].
  - destruct l as [|x l]; [reflexivity|].
    cbn [chunks concat]. rewrite IH.
    + apply take_drop.
    + rewrite length_drop. simpl in *. lia.
    + exact Hn.
Qed.

Lemma chunks_cons {A} fuel n (x : A) l :
  chunks (S fuel) n (x :: l) = take n (x :: l) :: chunks fuel n (drop n (x :: l)).
Proof. reflexivity. Qed.

Lemma chunks_length {A} fuel (l : list A) :
  (length l <= fuel)%nat ->
  Z.of_nat (length (chunks fuel 128 l)) = (Z.of_nat (length l) + 127) / 128.
Proof.
  revert l. induction fuel as [|fuel IH]; intros l Hl.
  - destruct l; [reflexivity|simpl in Hl; lia].
  - destruct l as [|x l]; [reflexivity|].
    rewrite chunks_cons.
    assert (Hn : (1 <= length (x :: l))%nat) by (simpl; lia).
    revert Hl Hn. generalize (x :: l). clear x l. intros l Hl Hn.
    rewrite length_cons, Nat2Z.inj_succ, IH by (rewrite length_drop; lia).
    rewrite length_drop. 
    destruct (Nat.le_gt_cases (length l) 128) as [Hle|Hgt].
    + replace (length l - 128)%nat with 0%nat by lia.
      change ((Z.of_nat 0 + 127) / 128) with 0.
      apply Z.div_unique with (r := Z.of_nat (length l) - 1); lia.
    + rewrite Nat2Z.inj_sub by lia.
      replace (Z.of_nat (length l) + 127)
        with ((Z.of_nat (length l) - Z.of_nat 128 + 127) + 1 * 128) by lia.
      rewrite Z.div_add by lia. lia.
Qed.

Lemma pack_sub_blocks_spec fuel : forall g junk rest packed j0 start c iBlocks,
  (length g <= fuel)%nat ->
  start + Z.of_nat j0 * 128 = Z.of_nat (length junk) ->
  iBlocks = (j0 + length (chunks fuel 128 g))%nat ->
  c = Z.of_nat j0 * 128 + Z.of_nat (length g) ->
  Z.of_nat (length junk + length g) < 2 ^ 32 ->
  exists junk', length junk' = (length junk + length g)%nat /\
    fold_left (RowWriter_t.pack_sub_block start c iBlocks)
              (seq j0 (length (chunks fuel 128 g))) (junk ++ g ++ rest, packed)
    = (junk' ++ rest, packed ++ concat (map row_block_bytes (chunks fuel 128 g))).
Proof.
  induction fuel as [|fuel IH]; intros g junk rest packed j0 start c iBlocks Hf Hs Hb Hc Hfit.
  - destruct g; [|simpl in Hf; lia]. exists junk. simpl.
    rewrite app_nil_r. split; [lia|reflexivity].
  - destruct g as [|x l].
    { exists junk. simpl. rewrite app_nil_r. split; [lia|reflexivity]. }
    rewrite chunks_cons in *.
    assert (Hn : (1 <= length (x :: l))%nat) by (simpl; lia).
    revert Hf Hn Hb Hc Hfit. generalize (x :: l). clear x l. intros g Hf Hn Hb Hc Hfit.
    cbn [length seq fold_left map concat] in *.
    pose proof (chunks_length fuel (drop 128 g) ltac:(rewrite length_drop; lia)) as Hlen.
    rewrite length_drop in Hlen.
    unfold RowWriter_t.pack_sub_block at 2. cbn [fst snd]. unfold VALUES_PER_BLOCK.
    rewrite wrap32_small by lia. rewrite Hs.
    destruct (Nat.le_gt_cases (length g) 128) as [Hle|Hgt].
    + replace (length g - 128)%nat with 0%nat in Hlen by lia.
      change ((Z.of_nat 0 + 127) / 128) with 0 in Hlen.
      assert (Hz : length (chunks fuel 128 (drop 128 g)) = 0%nat) by lia.
      destruct (chunks fuel 128 (drop 128 g)) as [|? ?]; [|simpl in Hz; lia].
      replace (iBlocks - 1)%nat with j0 by (simpl in Hb; lia).
      rewrite Nat.eqb_refl. rewrite wrap32_small by lia.
      replace (c - Z.of_nat j0 * 128) with (Z.of_nat (length g)) by lia.
      rewrite take_ge by lia.
      destruct (EncodeRowsBlock_spec junk g rest) as (junk' & Hj & ->).
      exists junk'. split; [exact Hj|]. simpl. now rewrite app_nil_r.
    + assert (Hpos : (1 <= length (chunks fuel 128 (drop 128 g)))%nat).
      { rewrite Nat2Z.inj_sub in Hlen by lia.
        assert (1 <= (Z.of_nat (length g) - Z.of_nat 128 + 127) / 128)
          by (apply Z.div_le_lower_bound; lia). lia. }
      destruct (Nat.eqb_spec j0 (iBlocks - 1)) as [Heq|_]; [lia|].
      replace (junk ++ g ++ rest) with (junk ++ take 128 g ++ drop 128 g ++ rest)
        by (now rewrite (app_assoc (take 128 g)), take_drop).
      assert (Ht : length (take 128 g) = 128%nat) by (rewrite length_take; lia).
      destruct (EncodeRowsBlock_spec junk (take 128 g) (drop 128 g ++ rest))
        as (junk1 & Hj1 & HE).
      rewrite Ht in HE. change (Z.of_nat 128) with 128 in HE. rewrite HE.
      destruct (IH (drop 128 g) junk1 rest (packed ++ row_block_bytes (take 128 g))
                   (S j0) start c iBlocks) as (junk' & Hj' & Hfold).
      * rewrite length_drop. lia.
      * lia.
      * lia.
      * rewrite length_drop. lia.
      * rewrite length_drop. lia.
      * exists junk'. split; [rewrite length_drop in Hj'; lia|].
        rewrite Hfold. now rewrite <- app_assoc.
Qed.

Lemma starts_of_length base gs : length (starts_of base gs) = length gs.
Proof. revert base. induction gs; intros; simpl; [reflexivity|]. now rewrite IHgs. Qed.

Ltac close_with Hfold :=
  match type of Hfold with
  | fold_left ?f (seq ?a ?n) ?st = ?res =>
      match goal with
      | |- fold_left f (seq ?a' n) ?st' = ?res' =>
          replace a' with a by (rewrite ?length_app; cbn [length]; lia);
          replace st' with st
            by (f_equal; f_equal;
                rewrite ?length_app, <- ?app_assoc; cbn [app length];
                repeat f_equal; first [lia | match goal with |- ?G => idtac G end; fail]);
          rewrite Hfold; f_equal; [f_equal|]
      end
  end.

(** The item loop of [FlushBlock], started at item [length ns] with the
    groups [gs] still to pack. *)
Lemma pack_items_spec : forall gs T F vals lastv ns ts tl junk packed flag,
  Forall (fun g => g <> []) gs ->
  length ns = length ts -> length tl = length gs ->
  Z.of_nat (length junk + length (concat gs)) < 2 ^ 32 ->
  exists junk', length junk' = (length junk + length (concat gs))%nat /\
    fold_left RowWriter_t.pack_item (seq (length ns) (length gs))
      (RowWriter_t.mk T F vals (ts ++ tl) (ns ++ starts_of (length junk) gs)
                      (junk ++ concat gs) packed lastv, flag)
    = (RowWriter_t.mk T F vals (ts ++ map posting_tag gs)
                      (ns ++ packed_starts (length packed) gs)
                      junk' (packed ++ concat (map posting_payload gs)) lastv,
       flag && forallb (fun g => negb (Nat.eqb (length g) 1)) gs).
Proof.
  induction gs as [|g gs IH]; intros T F vals lastv ns ts tl junk packed flag Hne Hns Htl Hfit.
  - destruct tl; [|simpl in Htl; lia]. exists junk. simpl.
    rewrite !app_nil_r, andb_true_r. split; [lia|reflexivity].
  - destruct tl as [|t tl]; [simpl in Htl; lia|].
    apply Forall_cons in Hne as [Hg Hne].
    assert (Hgl : (1 <= length g)%nat) by (destruct g; [congruence|simpl; lia]).
    cbn [length seq fold_left concat map starts_of packed_starts forallb] in *.
    rewrite length_app in Hfit.
    set (rw := RowWriter_t.mk T F vals (ts ++ t :: tl)
                 (ns ++ Z.of_nat (length junk) :: starts_of (length junk + length g) gs)
                 (junk ++ g ++ concat gs) packed lastv).
    assert (Hstart : RowWriter_t.src_rows_start rw (length ns) = Z.of_nat (length junk)).
    { unfold RowWriter_t.src_rows_start, rw. cbn [RowWriter_t.m_dRowStart].
      now rewrite list_lookup_middle. }
    assert (Hcount : RowWriter_t.src_rows_count rw (length ns) = Z.of_nat (length g)).
    { unfold RowWriter_t.src_rows_count. rewrite Hstart. unfold rw.
      cbn [RowWriter_t.m_dRowStart RowWriter_t.m_dRows].
      rewrite length_app. cbn [length]. rewrite starts_of_length.
      destruct gs as [|g2 gs].
      - cbn [length concat] in *.
        replace (S (length ns) <? length ns + 1)%nat with false
          by (symmetry; apply Nat.ltb_ge; lia).
        rewrite app_nil_r in *. rewrite !length_app.
        assert (2 ^ 32 < 2 ^ 64) by reflexivity.
        rewrite wrap64_small; lia.
      - replace (S (length ns) <? length ns + S (length (g2 :: gs)))%nat with true
          by (symmetry; apply Nat.ltb_lt; cbn [length]; lia).
        cbn [starts_of].
        rewrite lookup_app_r by lia.
        replace (S (length ns) - length ns)%nat with 1%nat by lia.
        cbn [lookup list_lookup default]. unfold id. rewrite wrap32_small; lia. }
    assert (Hty : <[length ns := posting_tag g]> (ts ++ t :: tl)
                  = (ts ++ [posting_tag g]) ++ tl).
    { rewrite Hns. replace (length ts) with (length ts + 0)%nat by lia.
      rewrite insert_app_r. simpl. now rewrite <- app_assoc. }
    assert (Hst : forall v, <[length ns := v]>
                    (ns ++ Z.of_nat (length junk) :: starts_of (length junk + length g) gs)
                  = (ns ++ [v]) ++ starts_of (length junk + length g) gs).
    { intros v. replace (length ns) with (length ns + 0)%nat at 1 by lia.
      rewrite insert_app_r. simpl. now rewrite <- app_assoc. }
    unfold RowWriter_t.pack_item at 2. fold rw. rewrite Hstart, Hcount.
    clear Hstart Hcount. subst rw. cbn [RowWriter_t.VALUE_T RowWriter_t.FLOAT_VALUE
      RowWriter_t.m_dValues RowWriter_t.m_dTypes RowWriter_t.m_dRowStart RowWriter_t.m_dRows
      RowWriter_t.m_dRowsPacked RowWriter_t.m_tLastValue].
    unfold VALUES_PER_BLOCK.
    destruct (Z.eqb_spec (Z.of_nat (length g)) 1) as [H1|H1].
    + (* ROW *)
      assert (Htag : posting_tag g = ROW).
      { unfold posting_tag. replace (length g) with 1%nat by lia. reflexivity. }
      assert (Hpay : posting_payload g = []) by (unfold posting_payload; now rewrite Htag).
      destruct g as [|r [|r2 g']]; [simpl in H1; lia| |simpl in H1; lia].
      rewrite Nat2Z.id. cbn [app]. rewrite list_lookup_middle by reflexivity.
      cbn [default]. unfold id. rewrite <- Htag, Hty, Hst.
      destruct (IH T F vals lastv (ns ++ [r]) (ts ++ [posting_tag [r]]) tl (junk ++ [r])
                   packed false Hne) as (junk' & Hj & Hfold).
      * rewrite !length_app. simpl. lia.
      * simpl in Htl. lia.
      * rewrite length_app. simpl length in *. lia.
      * exists junk'. split; [rewrite length_app in Hj; simpl length in *; lia|].
        close_with Hfold.
        -- rewrite Htag. cbn [head default]. unfold id. now rewrite <- app_assoc.
        -- rewrite Hpay. cbn [length app]. now rewrite Nat.add_0_r, <- app_assoc.
        -- now rewrite andb_false_r.
    + destruct (Z.leb_spec (Z.of_nat (length g)) 128) as [H128|H128].
      * (* ROW_BLOCK *)
        assert (Htag : posting_tag g = ROW_BLOCK).
        { unfold posting_tag. destruct (Nat.eqb_spec (length g) 1); [lia|].
          destruct (Nat.leb_spec (length g) 128); [reflexivity|lia]. }
        assert (Hpay : posting_payload g = row_block_bytes g)
          by (unfold posting_payload; now rewrite Htag).
        destruct (EncodeRowsBlock_spec junk g (concat gs)) as (junk1 & Hj1 & ->).
        rewrite <- Htag, Hty, Hst.
        destruct (IH T F vals lastv (ns ++ [wrap32 (Z.of_nat (length packed))])
                     (ts ++ [posting_tag g]) tl junk1 (packed ++ row_block_bytes g) flag Hne)
          as (junk' & Hj & Hfold).
        -- rewrite !length_app. simpl. lia.
        -- simpl in Htl. lia.
        -- lia.
        -- exists junk'. split; [rewrite length_app; lia|].
           close_with Hfold.
           all: rewrite ?Htag, ?Hpay, ?length_app, <- ?app_assoc; try reflexivity.
           destruct (Nat.eqb_spec (length g) 1); [lia|reflexivity].
      * (* ROW_BLOCKS_LIST *)
        assert (Htag : posting_tag g = ROW_BLOCKS_LIST).
        { unfold posting_tag. destruct (Nat.eqb_spec (length g) 1); [lia|].
          destruct (Nat.leb_spec (length g) 128); [lia|reflexivity]. }
        assert (Hpay : posting_payload g =
                  ByteCodec_c.Pack_uint32 (Z.of_nat (length (row_blocks g)))
                    ++ concat (map row_block_bytes (row_blocks g)))
          by (unfold posting_payload; now rewrite Htag).
        pose proof (chunks_length (length g) g ltac:(lia)) as Hcl. fold (row_blocks g) in Hcl.
        replace (Z.of_nat (length g) + 128 - 1) with (Z.of_nat (length g) + 127) by lia.
        rewrite <- Hcl, Nat2Z.id.
        destruct (pack_sub_blocks_spec (length g) g junk (concat gs)
                    (packed ++ ByteCodec_c.Pack_uint32 (Z.of_nat (length (row_blocks g))))
                    0%nat (Z.of_nat (length junk)) (Z.of_nat (length g))
                    (length (row_blocks g)))
          as (junk1 & Hj1 & Hsub); [lia|lia|reflexivity|lia|lia|].
        fold (row_blocks g) in Hsub. rewrite Hsub.
        rewrite <- Htag, Hty, Hst.
        destruct (IH T F vals lastv (ns ++ [wrap32 (Z.of_nat (length packed))])
                     (ts ++ [posting_tag g]) tl junk1
                     ((packed ++ ByteCodec_c.Pack_uint32 (Z.of_nat (length (row_blocks g))))
                        ++ concat (map row_block_bytes (row_blocks g))) flag Hne)
          as (junk' & Hj & Hfold).
        -- rewrite !length_app. simpl. lia.
        -- simpl in Htl. lia.
        -- lia.
        -- exists junk'. split; [rewrite length_app; lia|].
           close_with Hfold.
           all: rewrite ?Htag, ?Hpay, ?length_app, <- ?app_assoc, ?Nat.add_assoc;
             try reflexivity.
           destruct (Nat.eqb_spec (length g) 1); [lia|reflexivity].
Qed.

Lemma pack_rows_spec rw groups :
  block_of rw groups ->
  exists junk', length junk' = length (concat groups) /\
    RowWriter_t.pack_rows rw
    = (RowWriter_t.mk (RowWriter_t.VALUE_T rw) (RowWriter_t.FLOAT_VALUE rw)
         (RowWriter_t.m_dValues rw) (map posting_tag groups) (packed_starts 0 groups)
         junk' (concat (map posting_payload groups)) (RowWriter_t.m_tLastValue rw),
       forallb (fun g => negb (Nat.eqb (length g) 1)) groups).
Proof.
  intros [Hv Hs Hr Hne Hp Hfit]. unfold RowWriter_t.pack_rows.
  rewrite Hs, Hr, Hp, Hv.
  destruct (pack_items_spec groups (RowWriter_t.VALUE_T rw) (RowWriter_t.FLOAT_VALUE rw)
              (RowWriter_t.m_dValues rw) (RowWriter_t.m_tLastValue rw) [] []
              (take (length groups) (RowWriter_t.m_dTypes rw ++ replicate (length groups) ROW))
              [] [] true Hne) as (junk' & Hj & Hfold).
  - reflexivity.
  - rewrite length_take, length_app, length_replicate. lia.
  - simpl. lia.
  - exists junk'. split; [simpl in Hj; lia|]. simpl in Hfold. exact Hfold.
Qed.

Lemma packed_starts_lookup : forall groups pos i g,
  groups !! i = Some g ->
  packed_starts pos groups !! i =
    Some (match posting_tag g with
          | ROW => default 0 (head g)
          | _ => wrap32 (Z.of_nat
                   (pos + length (concat (map posting_payload (take i groups)))))
          end).
Proof.
  induction groups as [|g0 groups IH]; intros pos i g Hi; [discriminate|].
  destruct i as [|i].
  - injection Hi as ->. simpl. now rewrite Nat.add_0_r.
  - simpl in Hi. cbn [packed_starts lookup list_lookup take map concat].
    change (packed_starts (pos + length (posting_payload g0)) groups !! i = 
      Some match posting_tag g with
      | ROW => default 0 (head g)
      | _ => wrap32 (Z.of_nat (pos + length (posting_payload g0 ++ concat (map posting_payload (take i groups)))))
      end).
    rewrite (IH _ _ _ Hi). rewrite length_app, Nat.add_assoc. reflexivity.
Qed.

Lemma payload_at groups i g :
  groups !! i = Some g ->
  let off := length (concat (map posting_payload (take i groups))) in
  take (length (posting_payload g)) (drop off (concat (map posting_payload groups)))
  = posting_payload g.
Proof.
  intros Hi off. rewrite <- (take_drop_middle groups i g Hi).
  rewrite map_app, concat_app. cbn [map concat].
  unfold off. rewrite drop_app_length. apply take_app_length.
Qed.

Lemma chunks_lookup_length {A} fuel n : forall (l : list A) j b,
  (1 <= n)%nat -> (length l <= fuel)%nat ->
  chunks fuel n l !! j = Some b -> length b = Nat.min n (length l - n * j).
Proof.
  induction fuel as [|fuel IH]; intros l j b Hn Hf Hj; [discriminate|].
  destruct l as [|x l]; [discriminate|]. rewrite chunks_cons in Hj.
  destruct j as [|j].
  - injection Hj as <-. rewrite length_take. f_equal. lia.
  - cbn [lookup list_lookup] in Hj.
    change (chunks fuel n (drop n (x :: l)) !! j = Some b) in Hj.
    apply IH in Hj; [|exact Hn|rewrite length_drop; cbn [length] in *; lia].
    rewrite Hj, length_drop. f_equal. rewrite Nat.mul_succ_r. lia.
Qed.

Lemma posting_tag_cases g :
  (length g = 1%nat /\ posting_tag g = ROW) \/
  (length g <> 1%nat /\ (length g <= 128)%nat /\ posting_tag g = ROW_BLOCK) \/
  ((128 < length g)%nat /\ posting_tag g = ROW_BLOCKS_LIST).
Proof.
  unfold posting_tag. destruct (Nat.eqb_spec (length g) 1); [now left|].
  destruct (Nat.leb_spec (length g) 128); [right; left|right; right]; auto.
Qed.

(** C3.  What the item loop of [FlushBlock] leaves for the group [g] of
    item [i], with [c] row-ids: for [c = 1] the tag [ROW] and the row-id
    itself in [row_start]; for [2 <= c <= 128] the tag [ROW_BLOCK] and in
    [row_start] the offset at which [rows_packed] holds one encoded
    row-block of the group; for [c > 128] the tag [ROW_BLOCKS_LIST] and the
    offset of a varint block count followed by the encoded row-blocks of
    the group's [ceil(c/128)] consecutive pieces, each of 128 row-ids but
    the last, which has the remaining ones. *)
Theorem FlushBlock_posting_layout (rw : RowWriter_t.t) (groups : list (list Z))
    (i : nat) (g : list Z) :
  block_of rw groups ->
  groups !! i = Some g ->
  let rw1 := fst (RowWriter_t.pack_rows rw) in
  let c := length g in
  let off := length (concat (map posting_payload (take i groups))) in
  let payload_at_off n := take n (drop off (RowWriter_t.m_dRowsPacked rw1)) in
  (c = 1%nat ->
     RowWriter_t.m_dTypes rw1 !! i = Some ROW /\
     RowWriter_t.m_dRowStart rw1 !! i = head g) /\
  ((2 <= c <= 128)%nat ->
     RowWriter_t.m_dTypes rw1 !! i = Some ROW_BLOCK /\
     RowWriter_t.m_dRowStart rw1 !! i = Some (wrap32 (Z.of_nat off)) /\
     payload_at_off (length (row_block_bytes g)) = row_block_bytes g) /\
  ((128 < c)%nat ->
     let blocks := row_blocks g in
     let bytes := ByteCodec_c.Pack_uint32 (Z.of_nat (length blocks))
                    ++ concat (map row_block_bytes blocks) in
     RowWriter_t.m_dTypes rw1 !! i = Some ROW_BLOCKS_LIST /\
     RowWriter_t.m_dRowStart rw1 !! i = Some (wrap32 (Z.of_nat off)) /\
     payload_at_off (length bytes) = bytes /\
     concat blocks = g /\
     Z.of_nat (length blocks) = (Z.of_nat c + 127) / 128 /\
     (forall j b, blocks !! j = Some b ->
        length b = if (S j <? length blocks)%nat then 128%nat else (c - 128 * j)%nat)).
Proof.
  intros Hb Hi rw1 c off payload_at_off.
  destruct (pack_rows_spec rw groups Hb) as (junk' & Hj & Hpack).
  assert (Hty : RowWriter_t.m_dTypes rw1 !! i = Some (posting_tag g)).
  { unfold rw1. rewrite Hpack. cbn [fst RowWriter_t.m_dTypes].
    rewrite list_lookup_fmap, Hi. reflexivity. }
  assert (Hst : RowWriter_t.m_dRowStart rw1 !! i =
                Some (match posting_tag g with
                      | ROW => default 0 (head g)
                      | _ => wrap32 (Z.of_nat off)
                      end)).
  { unfold rw1. rewrite Hpack. cbn [fst RowWriter_t.m_dRowStart].
    now rewrite (packed_starts_lookup groups 0 i g Hi). }
  assert (Hpay : payload_at_off (length (posting_payload g)) = posting_payload g).
  { unfold payload_at_off, rw1. rewrite Hpack. cbn [fst RowWriter_t.m_dRowsPacked].
    now apply payload_at. }
  unfold c. destruct (posting_tag_cases g) as [[Hc Ht]|[(Hc & Hc' & Ht)|[Hc Ht]]];
    rewrite Ht in Hty, Hst; (split; [|split]); intros Hcase; try lia.
  - split; [exact Hty|]. rewrite Hst. destruct g as [|r g']; [discriminate|reflexivity].
  - split; [exact Hty|]. split; [exact Hst|].
    unfold posting_payload in Hpay. rewrite Ht in Hpay. exact Hpay.
  - split; [exact Hty|]. split; [exact Hst|].
    unfold posting_payload in Hpay. rewrite Ht in Hpay. split; [exact Hpay|].
    split; [apply chunks_concat; lia|]. split; [apply chunks_length; lia|].
    intros j b Hjb. pose proof (chunks_length (length g) g ltac:(lia)) as Hlen.
    fold (row_blocks g) in Hlen.
    pose proof (lookup_lt_Some _ _ _ Hjb) as Hjlt.
    apply chunks_lookup_length in Hjb; [|lia|lia]. rewrite Hjb.
    assert (Hdiv : Z.of_nat (length g) + 127 = 128 * Z.of_nat (length (row_blocks g))
                     + (Z.of_nat (length g) + 127) mod 128).
    { rewrite Hlen. apply Z.div_mod. lia. }
    pose proof (Z.mod_pos_bound (Z.of_nat (length g) + 127) 128 ltac:(lia)) as Hmod.
    destruct (Nat.ltb_spec (S j) (length (row_blocks g))); lia.
Qed.

Lemma forallb_not_single (groups : list (list Z)) :
  forallb (fun g => negb (Nat.eqb (length g) 1)) groups = false <->
  exists i g, groups !! i = Some g /\ length g = 1%nat.
Proof.
  induction groups as [|g groups IH]; simpl.
  - split; [discriminate|]. intros (i & g & Hi & _). discriminate.
  - rewrite andb_false_iff, IH. split.
    + intros [H|(i & g' & Hi & Hg)].
      * exists 0%nat, g. split; [reflexivity|].
        destruct (Nat.eqb_spec (length g) 1); [assumption|discriminate].
      * exists (S i), g'. auto.
    + intros (i & g' & Hi & Hg). destruct i as [|i].
      * injection Hi as ->. left. now rewrite Hg.
      * right. exists i, g'. auto.
Qed.

Lemma tags_has_ROW groups :
  (exists i, map posting_tag groups !! i = Some ROW) <->
  exists i g, groups !! i = Some g /\ length g = 1%nat.
Proof.
  split.
  - intros (i & Hi). rewrite list_lookup_fmap in Hi.
    destruct (groups !! i) as [g|] eqn:Hg; [|discriminate].
    exists i, g. split; [exact Hg|]. simpl in Hi.
    destruct (posting_tag_cases g) as [[Hc Ht]|[(Hc & Hc' & Ht)|[Hc Ht]]]; congruence.
  - intros (i & g & Hi & Hg). exists i. rewrite list_lookup_fmap, Hi. simpl.
    unfold posting_tag. now rewrite Hg.
Qed.

Lemma FlushBlock_output rw groups out :
  block_of rw groups -> groups <> [] ->
  tDstFile (snd (RowWriter_t.FlushBlock rw out))
  = tDstFile out
      ++ concat (RowWriter_t.block_body (fst (RowWriter_t.pack_rows rw))
                                        (snd (RowWriter_t.pack_rows rw))).
Proof.
  intros Hb Hne. unfold RowWriter_t.FlushBlock.
  rewrite (block_values _ _ Hb).
  destruct groups as [|g groups]; [congruence|]. cbn [length Nat.eqb].
  destruct (RowWriter_t.pack_rows rw) as [rw1 flag]. reflexivity.
Qed.

(** C7.  The byte written for [rows_delta_on] is 0 exactly when some group
    of the block got the [ROW] tag, that is, has a single row-id; if it is
    1 the [row_start] vector is written delta-encoded through the codec,
    if it is 0 through the codec without deltas. *)
Theorem FlushBlock_rows_delta_flag (rw : RowWriter_t.t) (groups : list (list Z))
    (out : Outputs) :
  block_of rw groups -> groups <> [] ->
  let rw1 := fst (RowWriter_t.pack_rows rw) in
  let bLenDelta := snd (RowWriter_t.pack_rows rw) in
  (bLenDelta = false <-> exists i, RowWriter_t.m_dTypes rw1 !! i = Some ROW) /\
  (bLenDelta = false <-> exists i g, groups !! i = Some g /\ length g = 1%nat) /\
  tDstFile (snd (RowWriter_t.FlushBlock rw out))
  = tDstFile out
      ++ EncodeBlock (RowWriter_t.VALUE_T rw1) (RowWriter_t.m_dValues rw1)
      ++ EncodeBlockWoDelta T_uint32 (map Packing_code (RowWriter_t.m_dTypes rw1))
      ++ [if bLenDelta then 1 else 0]
      ++ WriteVectorLen32
           (Encode32 (if bLenDelta
                      then ComputeDeltas 32 (RowWriter_t.m_dRowStart rw1)
                      else RowWriter_t.m_dRowStart rw1))
      ++ RowWriter_t.m_dRowsPacked rw1.
Proof.
  intros Hb Hne rw1 bLenDelta.
  pose proof (FlushBlock_output rw groups out Hb Hne) as Hout.
  fold rw1 bLenDelta in Hout.
  destruct (pack_rows_spec rw groups Hb) as (junk' & Hj & Hpack).
  assert (Hflag : bLenDelta = forallb (fun g => negb (Nat.eqb (length g) 1)) groups)
    by (unfold bLenDelta; now rewrite Hpack).
  assert (Htypes : RowWriter_t.m_dTypes rw1 = map posting_tag groups)
    by (unfold rw1; now rewrite Hpack).
  split; [|split].
  - rewrite Hflag, Htypes, forallb_not_single. symmetry. apply tags_has_ROW.
  - rewrite Hflag. apply forallb_not_single.
  - rewrite Hout. unfold RowWriter_t.block_body. cbn [concat]. rewrite app_nil_r.
    f_equal. f_equal. f_equal. f_equal; [now destruct bLenDelta|].
    f_equal. now destruct bLenDelta.
Qed.

(** C5, as the code has it.  The last write of a block flush appends
    [rows_packed], the concatenated posting payloads of the block, as it
    is: it follows the encoded [row_start] vector directly, and no length
    is written in front of it. *)
Theorem FlushBlock_appends_rows_packed_verbatim (rw : RowWriter_t.t)
    (groups : list (list Z)) (out : Outputs) :
  block_of rw groups -> groups <> [] ->
  let rw1 := fst (RowWriter_t.pack_rows rw) in
  let bLenDelta := snd (RowWriter_t.pack_rows rw) in
  RowWriter_t.m_dRowsPacked rw1 = concat (map posting_payload groups) /\
  last (RowWriter_t.block_body rw1 bLenDelta) = Some (RowWriter_t.m_dRowsPacked rw1) /\
  tDstFile (snd (RowWriter_t.FlushBlock rw out))
  = (tDstFile out ++ concat (take 4 (RowWriter_t.block_body rw1 bLenDelta)))
      ++ RowWriter_t.m_dRowsPacked rw1 /\
  last (take 4 (RowWriter_t.block_body rw1 bLenDelta))
  = Some (if bLenDelta then EncodeBlock T_uint32 (RowWriter_t.m_dRowStart rw1)
          else EncodeBlockWoDelta T_uint32 (RowWriter_t.m_dRowStart rw1)).
Proof.
  intros Hb Hne rw1 bLenDelta.
  pose proof (FlushBlock_output rw groups out Hb Hne) as Hout.
  fold rw1 bLenDelta in Hout.
  destruct (pack_rows_spec rw groups Hb) as (junk' & Hj & Hpack).
  split; [unfold rw1; now rewrite Hpack|]. split; [reflexivity|]. split; [|reflexivity].
  rewrite Hout. unfold RowWriter_t.block_body, WriteVector. cbn [take concat].
  rewrite !app_nil_r. rewrite <- !app_assoc. reflexivity.
Qed.

End BlockEncoder.

Lemma example_block_of : block_of example_block example_groups.
Proof.
  constructor; try reflexivity.
  repeat constructor; discriminate.
Qed.

Lemma FlushBlock_posting_layout_witness :
  let rw1 := fst (RowWriter_t.pack_rows (E := example_externals) example_block) in
  (RowWriter_t.m_dTypes rw1 !! 1%nat = Some ROW /\
   RowWriter_t.m_dRowStart rw1 !! 1%nat = Some 1) /\
  (RowWriter_t.m_dTypes rw1 !! 0%nat = Some ROW_BLOCK /\
   RowWriter_t.m_dRowStart rw1 !! 0%nat = Some 0).
Proof.
  intros rw1. split.
  - pose proof (FlushBlock_posting_layout (E := example_externals) example_block
                  example_groups 1 [1] example_block_of eq_refl) as H.
    cbv zeta in H. destruct H as [H _]. exact (H eq_refl).
  - pose proof (FlushBlock_posting_layout (E := example_externals) example_block
                  example_groups 0 [0; 2; 3] example_block_of eq_refl) as H.
    cbv zeta in H. destruct H as [_ [H _]].
    destruct H as (H1 & H2 & _); [simpl; lia|]. split; [exact H1|exact H2].
Defined.

Lemma FlushBlock_rows_delta_flag_witness :
  snd (RowWriter_t.pack_rows (E := example_externals) example_block) = false /\
  exists i g, example_groups !! i = Some g /\ length g = 1%nat.
Proof.
  pose proof (FlushBlock_rows_delta_flag (E := example_externals) example_block
                example_groups (mkOut [] [] []) example_block_of
                ltac:(discriminate)) as H.
  cbv zeta in H. destruct H as (_ & H & _).
  split; [reflexivity|]. apply H. reflexivity.
Defined.

Lemma FlushBlock_appends_rows_packed_verbatim_witness :
  let rw1 := fst (RowWriter_t.pack_rows (E := example_externals) example_block) in
  RowWriter_t.m_dRowsPacked rw1
    = concat (map (posting_payload (E := example_externals)) example_groups) /\
  RowWriter_t.m_dRowsPacked rw1 = [0; 3; 3; 0; 0; 0; 0; 2; 0; 0; 0; 1; 0; 0; 0].
Proof.
  intros rw1.
  pose proof (FlushBlock_appends_rows_packed_verbatim (E := example_externals)
                example_block example_groups (mkOut [] [] []) example_block_of
                ltac:(discriminate)) as H.
  cbv zeta in H. destruct H as (H & _). split; [exact H|reflexivity].
Defined.

(** C5, as the spec has it: on the example block the output does not end
    with a 32-bit length followed by [rows_packed]; the four bytes in front
    of [rows_packed] are the last word of the [row_start] vector. *)
Lemma FlushBlock_length_prefix_counterexample :
  let out := snd (RowWriter_t.FlushBlock (E := example_externals) example_block
                    (mkOut [] [] [])) in
  let rows_packed :=
    RowWriter_t.m_dRowsPacked
      (fst (RowWriter_t.pack_rows (E := example_externals) example_block)) in
  ~ exists before,
      tDstFile out
      = before ++ Write_uint32 (Z.of_nat (length rows_packed)) ++ rows_packed.
Proof.
  intros out rows_packed [before H].
  apply (f_equal (@rev Z)) in H. rewrite !rev_app_distr in H.
  vm_compute in H. discriminate H.
Qed.

(** ** Files only grow *)

Section AppendOnly.
Context {E : Externals}.


Lemma extends_refl out : extends 0 out out.
Proof. exists [], [], []. rewrite !app_nil_r. auto. Qed.

Lemma extends_trans n m out1 out2 out3 :
  extends n out1 out2 -> extends m out2 out3 -> extends (n + m) out1 out3.
Proof.
  intros (x & y & z & H1 & H2 & H3 & H4) (x' & y' & z' & H1' & H2' & H3' & H4').
  exists (x ++ x'), (y ++ y'), (z ++ z').
  rewrite H1', H2', H4', H1, H2, H4, <- !app_assoc, length_app. repeat split; lia.
Qed.

Lemma le_bytes_length n x : length (le_bytes n x) = n.
Proof. revert x. induction n; intros; simpl; [reflexivity|]. now rewrite IHn. Qed.

Lemma FlushBlock_extends rw out :
  exists n, extends n out (snd (RowWriter_t.FlushBlock rw out)).
Proof.
  unfold RowWriter_t.FlushBlock.
  destruct (Nat.eqb (length (RowWriter_t.m_dValues rw)) 0).
  - exists 0%nat. apply extends_refl.
  - destruct (RowWriter_t.pack_rows rw) as [rw1 flag]. exists 1%nat. cbn [snd].
    eexists _, _, _. cbn [tDstFile tTmpBlocksOff tTmpValsPGM].
    repeat split.
Qed.

Lemma NextValue_extends rw tBin out :
  exists n, extends n out (snd (RowWriter_t.NextValue rw tBin out)).
Proof.
  unfold RowWriter_t.NextValue, RowWriter_t.FlushValue.
  destruct (_ && _); [exists 0%nat; apply extends_refl|].
  destruct (_ && _); [exists 0%nat; apply extends_refl|].
  destruct (_ <? _); [exists 0%nat; apply extends_refl|].
  destruct (FlushBlock_extends rw out) as [n Hn].
  destruct (RowWriter_t.FlushBlock rw out) as [rw' out']. now exists n.
Qed.

Lemma merge_loop_extends fuel w : forall dBins tWriter out,
  exists n, extends n out (snd (SIWriter_T.merge_loop fuel w (dBins, tWriter, out))).
Proof.
  induction fuel as [|fuel IH]; intros dBins tWriter out.
  - exists 0%nat. apply extends_refl.
  - cbn [SIWriter_T.merge_loop]. unfold SIWriter_T.merge_step.
    destruct (pq_pop _ dBins) as [[tBin dBins']|]; [|exists 0%nat; apply extends_refl].
    destruct (NextValue_extends tWriter (Convert (SIWriter_T.SRC_VALUE w) (bin_value tBin)) out)
      as [n Hn].
    destruct (RowWriter_t.NextValue _ _ out) as [tWriter' out'].
    destruct (BinValue_Read _ _ tBin) as [bRead tBin'].
    destruct (IH (if bRead then pq_push tBin' dBins' else dBins') tWriter' out') as [m Hm].
    exists (n + m)%nat. eapply extends_trans; eassumption.
Qed.

Lemma Process_merge_extends w tDst tBlocksOff :
  exists n, extends n (mkOut tDst tBlocksOff []) (snd (SIWriter_T.Process_merge w tDst tBlocksOff)).
Proof.
  unfold SIWriter_T.Process_merge.
  destruct (SIWriter_T.initial_fill _ _ _) as [dBins tWriter1].
  destruct (merge_loop_extends (SIWriter_T.merge_fuel dBins) w dBins tWriter1
              (mkOut tDst tBlocksOff [])) as [n Hn].
  destruct (SIWriter_T.merge_loop _ _ _) as [[dBins2 tWriter2] out2].
  destruct (FlushBlock_extends tWriter2 out2) as [m Hm].
  unfold RowWriter_t.Done.
  destruct (RowWriter_t.FlushBlock tWriter2 out2) as [tWriter3 out3].
  exists (n + m)%nat. eapply extends_trans; eassumption.
Qed.

Lemma Process_extends w tDst tBlocksOff w' tDst' tBlocksOff' :
  SIWriter_T.Process w tDst tBlocksOff = Ok (w', tDst', tBlocksOff') ->
  exists n x y, tDst' = tDst ++ x /\ tBlocksOff' = tBlocksOff ++ y /\ length y = (8 * n)%nat.
Proof.
  unfold SIWriter_T.Process. intros H.
  destruct (negb _); [discriminate|]. destruct (_ && _); [discriminate|].
  destruct (Process_merge_extends w tDst tBlocksOff) as (n & x & y & z & H1 & H2 & H3 & H4).
  destruct (SIWriter_T.Process_merge w tDst tBlocksOff) as [[dBins tw] out].
  destruct (negb _); [discriminate|]. injection H as _ <- <-.
  exists n, x, y. auto.
Qed.

End AppendOnly.

(** ** Builder_c::Done: the block-offsets table *)


Section DoneOffsets.
Context {E : Externals}.

Lemma Done_writers_spec : forall dCidWriter st st',
  Builder_c.Done_writers st dCidWriter = Ok st' ->
  exists ns x,
    length ns = length dCidWriter /\
    Builder_c.d_dBlocksOffStart st'
      = Builder_c.d_dBlocksOffStart st
          ++ offsets_from (Z.of_nat (length (Builder_c.d_tTmpBlocks st))) ns /\
    Z.of_nat (length (Builder_c.d_tTmpBlocks st'))
      = end_from (Z.of_nat (length (Builder_c.d_tTmpBlocks st))) ns /\
    Builder_c.d_tDstFile st' = Builder_c.d_tDstFile st ++ x.
Proof.
  induction dCidWriter as [|w ws IH]; intros st st' H.
  - injection H as <-. exists [], []. simpl. rewrite !app_nil_r. auto.
  - cbn [Builder_c.Done_writers] in H. unfold Builder_c.Done_writer in H.
    destruct (SIWriter_T.Process w (Builder_c.d_tDstFile st) (Builder_c.d_tTmpBlocks st))
      as [[[w' tDst] tBlocks]| |] eqn:HP; try discriminate.
    apply Process_extends in HP as (n & x & y & -> & -> & Hy).
    cbn [mbind result_bind] in H. apply IH in H as (ns & x' & Hlen & Hs & He & Hd).
    cbn [Builder_c.d_dBlocksOffStart Builder_c.d_tTmpBlocks Builder_c.d_tDstFile] in *.
    exists (n :: ns), (x ++ x'). cbn [length offsets_from end_from].
    rewrite length_app, Hy in Hs, He.
    replace (Z.of_nat (length (Builder_c.d_tTmpBlocks st) + 8 * n))
      with (Z.of_nat (length (Builder_c.d_tTmpBlocks st)) + 8 * Z.of_nat n) in Hs, He by lia.
    unfold FileWriter_GetPos in Hs.
    rewrite Hs, He, Hd, <- !app_assoc. auto.
Qed.

Lemma end_from_ge ns : forall pos, pos <= end_from pos ns.
Proof. induction ns as [|n ns IH]; intros pos; simpl; [lia|]. specialize (IH (pos + 8 * Z.of_nat n)). lia. Qed.



Lemma blocks_count_offsets ns : forall pos,
  0 <= pos -> end_from pos ns < 2 ^ 64 ->
  Builder_c.blocks_count (end_from pos ns) (offsets_from pos ns) = map Z.of_nat ns.
Proof.
  induction ns as [|n ns IH]; intros pos Hpos Hend; [reflexivity|].
  cbn [offsets_from end_from map] in *.
  pose proof (end_from_ge ns (pos + 8 * Z.of_nat n)) as Hge.
  assert (Hq : forall z, z = pos + 8 * Z.of_nat n -> wrap64 (z - pos) / 8 = Z.of_nat n).
  { intros z ->. rewrite wrap64_small by lia.
    replace (pos + 8 * Z.of_nat n - pos) with (Z.of_nat n * 8) by lia.
    apply Z.div_mul. lia. }
  destruct ns as [|n2 ns].
  - cbn [offsets_from end_from Builder_c.blocks_count map]. f_equal. now apply Hq.
  - specialize (IH (pos + 8 * Z.of_nat n) ltac:(lia) Hend).
    cbn [offsets_from Builder_c.blocks_count] in *. rewrite IH.
    f_equal. now apply Hq.
Qed.




Lemma ReadPacked_items_WriteVectorPacked l : forall rest,
  Forall (fun x => 0 <= x < 2 ^ 64) l ->
  ReadPacked_items (length l) (concat (map ByteCodec_c.Pack_uint64 l) ++ rest)
  = Some (l, rest).
Proof.
  induction l as [|x l IH]; intros rest Hl; [reflexivity|].
  apply Forall_cons in Hl as [Hx Hl]. cbn [length map concat ReadPacked_items].
  rewrite <- app_assoc. unfold ByteCodec_c.Unpack_uint64, ByteCodec_c.Pack_uint64 at 1.
  rewrite (DecodeValue_EncodeValue 64) by lia. now rewrite IH.
Qed.

Lemma ReadVectorPacked_WriteVectorPacked l rest :
  Z.of_nat (length l) < 2 ^ 32 -> Forall (fun x => 0 <= x < 2 ^ 64) l ->
  ReadVectorPacked (WriteVectorPacked l ++ rest) = Some (l, rest).
Proof.
  intros Hlen Hl. unfold ReadVectorPacked, WriteVectorPacked.
  rewrite <- app_assoc. unfold ByteCodec_c.Unpack_uint32, ByteCodec_c.Pack_uint32.
  rewrite wrap32_small by lia. rewrite (DecodeValue_EncodeValue 32) by lia.
  rewrite Nat2Z.id. now apply ReadPacked_items_WriteVectorPacked.
Qed.

Lemma Done_process_starts b st :
  Builder_c.Done_process b = Ok st ->
  exists ns,
    Builder_c.d_dBlocksOffStart st = offsets_from 0 ns /\
    Z.of_nat (length (Builder_c.d_tTmpBlocks st)) = end_from 0 ns.
Proof.
  unfold Builder_c.Done_process. intros H.
  repeat (destruct (negb _); [discriminate|]).
  apply Done_writers_spec in H as (ns & x & _ & Hs & He & _).
  exists ns. auto.
Qed.

End DoneOffsets.

(** ** Builder_c::WriteMeta: the order of the writes *)


Section WriteMetaOrder.
Context {E : Externals}.

Lemma le_value_le_bytes n : forall x, le_value (le_bytes n x) = x mod 256 ^ Z.of_nat n.
Proof.
  induction n as [|n IH]; intros x.
  - simpl. now rewrite Z.mod_1_r.
  - cbn [le_bytes le_value]. rewrite IH, Nat2Z.inj_succ, Z.pow_succ_r by lia.
    rewrite Z.rem_mul_r by lia. lia.
Qed.

Lemma header_meta_offset_spec v4 x rest :
  length v4 = 4%nat -> 0 <= x < 2 ^ 64 ->
  header_meta_offset (v4 ++ Write_uint64 x ++ rest) = x.
Proof.
  intros Hv Hx. unfold header_meta_offset.
  rewrite drop_app_length' by (symmetry; exact Hv).
  rewrite take_app_length' by (unfold Write_uint64; now rewrite le_bytes_length).
  unfold Write_uint64. rewrite le_value_le_bytes. apply Z.mod_small.
  change (256 ^ Z.of_nat 8) with (2 ^ 64). exact Hx.
Qed.

Lemma FileWriter_Write_end data pData :
  FileWriter_Write (mkFile data (Z.of_nat (length data))) pData
  = mkFile (data ++ pData) (Z.of_nat (length (data ++ pData))).
Proof.
  unfold FileWriter_Write. cbn [file_data m_iFilePos]. rewrite Nat2Z.id, Nat.sub_diag.
  cbn [replicate]. rewrite app_nil_r. unfold overwrite.
  rewrite firstn_all, drop_ge by lia. rewrite app_nil_r, length_app.
  f_equal. lia.
Qed.

Lemma run_writes_end ws : forall data,
  run_ops (mkFile data (Z.of_nat (length data))) (map OpWrite ws)
  = mkFile (data ++ concat ws) (Z.of_nat (length (data ++ concat ws))).
Proof.
  induction ws as [|w ws IH]; intros data; simpl.
  - now rewrite app_nil_r.
  - unfold run_ops in *. rewrite FileWriter_Write_end, IH. now rewrite <- app_assoc.
Qed.

Lemma patch_header v4 m8 n8 rest :
  length v4 = 4%nat -> length m8 = 8%nat -> length n8 = 8%nat ->
  file_data (FileWriter_Write (mkFile (v4 ++ m8 ++ rest) 4) n8) = v4 ++ n8 ++ rest.
Proof.
  intros Hv Hm Hn. unfold FileWriter_Write. cbn [file_data m_iFilePos].
  replace (Z.to_nat 4 - length (v4 ++ m8 ++ rest))%nat with 0%nat
    by (rewrite !length_app; lia).
  cbn [replicate]. rewrite app_nil_r. unfold overwrite.
  replace (Z.to_nat 4) with (length v4) by (rewrite Hv; reflexivity).
  rewrite take_app_length. f_equal. f_equal.
  rewrite drop_app_add. rewrite Hn, <- Hm. now rewrite drop_app_length.
Qed.

(** The output file once [WriteMeta] is through, for an output that
    starts with the version word and the zero placeholder. *)
Lemma WriteMeta_result b v4 body sPgm sBlocks starts counts :
  length v4 = 4%nat ->
  let dst := v4 ++ Write_uint64 0 ++ body in
  let uMetaOff := FileWriter_GetPos dst in
  file_data (run_ops (mkFile dst 0)
               (Builder_c.WriteMeta_ops b sPgm sBlocks starts counts uMetaOff))
  = v4 ++ Write_uint64 uMetaOff ++ body
       ++ concat (Builder_c.meta_writes b starts counts) ++ sPgm ++ sBlocks.
Proof.
  intros Hv dst uMetaOff. unfold Builder_c.WriteMeta_ops, run_ops.
  rewrite !fold_left_app. cbn [fold_left run_op app].
  cbn [file_data]. fold (FileWriter_Write (mkFile dst 4) (Write_uint64 uMetaOff)).
  unfold dst at 1. rewrite patch_header; [|exact Hv|reflexivity|reflexivity].
  set (patched := v4 ++ Write_uint64 uMetaOff ++ body).
  assert (Hlen : uMetaOff = Z.of_nat (length patched)).
  { unfold uMetaOff, FileWriter_GetPos, dst, patched. rewrite !length_app.
    unfold Write_uint64. now rewrite !le_bytes_length. }
  pose proof (run_writes_end (Builder_c.meta_writes b starts counts) patched) as Hw.
  rewrite <- Hlen in Hw. unfold run_ops in Hw. rewrite Hw. cbn [file_data].
  unfold patched. rewrite <- !app_assoc. reflexivity.
Qed.

Lemma observable_states_appends ops : forall data x,
  Forall (fun op => match op with OpSeek _ => False | _ => True end) ops ->
  x ∈ observable_states (mkFile data (Z.of_nat (length data))) ops ->
  exists tail, x = data ++ tail.
Proof.
  induction ops as [|op ops IH]; intros data x Hops Hx.
  - simpl in Hx. apply list_elem_of_singleton in Hx as ->. exists []. now rewrite app_nil_r.
  - apply Forall_cons in Hops as [Hop Hops]. cbn [observable_states] in Hx.
    apply elem_of_cons in Hx as [->|Hx]; [exists []; now rewrite app_nil_r|].
    destruct op as [p|pData|sSource]; [contradiction| |].
    + cbn [run_op] in Hx. rewrite FileWriter_Write_end in Hx.
      apply IH in Hx as [tail ->]; [|exact Hops]. exists (pData ++ tail). now rewrite app_assoc.
    + cbn [run_op file_data] in Hx. rewrite <- Nat2Z.inj_add, <- length_app in Hx.
      apply IH in Hx as [tail ->]; [|exact Hops]. exists (sSource ++ tail). now rewrite app_assoc.
Qed.

Lemma WriteMeta_observable b v4 body sPgm sBlocks starts counts data :
  length v4 = 4%nat ->
  let dst := v4 ++ Write_uint64 0 ++ body in
  let uMetaOff := FileWriter_GetPos dst in
  data ∈ observable_states (mkFile dst 0)
           (Builder_c.WriteMeta_ops b sPgm sBlocks starts counts uMetaOff) ->
  data = dst \/ exists tail, data = v4 ++ Write_uint64 uMetaOff ++ body ++ tail.
Proof.
  intros Hv dst uMetaOff Hx. unfold Builder_c.WriteMeta_ops in Hx.
  cbn [app observable_states run_op file_data] in Hx.
  apply elem_of_cons in Hx as [->|Hx]; [now left|].
  apply elem_of_cons in Hx as [->|Hx]; [now left|].
  fold (FileWriter_Write (mkFile dst 4) (Write_uint64 uMetaOff)) in Hx.
  unfold dst in Hx at 1 2. rewrite patch_header in Hx; [|exact Hv|reflexivity|reflexivity].
  right. apply elem_of_cons in Hx as [->|Hx].
  { exists []. now rewrite app_nil_r. }
  set (patched := v4 ++ Write_uint64 uMetaOff ++ body) in *.
  assert (Hlen : uMetaOff = Z.of_nat (length patched)).
  { unfold uMetaOff, FileWriter_GetPos, dst, patched. rewrite !length_app.
    unfold Write_uint64. now rewrite !le_bytes_length. }
  assert (Hx' : data ∈ observable_states (mkFile patched (Z.of_nat (length patched)))
                  (map OpWrite (Builder_c.meta_writes b starts counts)
                     ++ [OpCopySingleFile sPgm; OpCopySingleFile sBlocks])).
  { rewrite <- Hlen. exact Hx. }
  apply observable_states_appends in Hx' as [tail ->].
  - exists tail. unfold patched. now rewrite <- !app_assoc.
  - apply Forall_app. split; [|repeat constructor].
    apply Forall_forall. intros op Hop. apply list_elem_of_fmap in Hop as (w & -> & _). exact I.
Qed.

(** C4, as the code has it.  [Done] leaves the header with
    [meta_offset = 0] until [WriteMeta]; [WriteMeta] writes the offset into
    the header first and appends the meta record, the PGM staging file and
    the block-offsets staging file after that.  So at every point of
    [WriteMeta] the header holds 0 or the final offset, and once [Done] has
    returned the offset points at the whole meta record, which the PGM and
    block-offset data follow. *)
Theorem WriteMeta_patches_header_first (b : Builder_c.t) (final : list Z) :
  Builder_c.Done b = Ok final ->
  exists st body,
    Builder_c.Done_process b = Ok st /\
    Builder_c.d_tDstFile st = Write_uint32 LIB_VERSION ++ Write_uint64 0 ++ body /\
    let uMetaOff := FileWriter_GetPos (Builder_c.d_tDstFile st) in
    let starts := ComputeDeltas 64 (Builder_c.d_dBlocksOffStart st) in
    let counts :=
      Builder_c.blocks_count (FileWriter_GetPos (Builder_c.d_tTmpBlocks st))
                             (Builder_c.d_dBlocksOffStart st) in
    let ops :=
      Builder_c.WriteMeta_ops b (Builder_c.d_tTmpPgm st) (Builder_c.d_tTmpBlocks st)
                              starts counts uMetaOff in
    let meta := concat (Builder_c.meta_writes b starts counts) in
    header_meta_offset (Builder_c.d_tDstFile st) = 0 /\
    ops !! 1%nat = Some (OpWrite (Write_uint64 uMetaOff)) /\
    drop 3 ops = map OpWrite (Builder_c.meta_writes b starts counts)
                   ++ [OpCopySingleFile (Builder_c.d_tTmpPgm st);
                       OpCopySingleFile (Builder_c.d_tTmpBlocks st)] /\
    final = Write_uint32 LIB_VERSION ++ Write_uint64 uMetaOff ++ body
              ++ meta ++ Builder_c.d_tTmpPgm st ++ Builder_c.d_tTmpBlocks st /\
    (uMetaOff < 2 ^ 64 ->
       (forall data, data ∈ observable_states (mkFile (Builder_c.d_tDstFile st) 0) ops ->
          header_meta_offset data = 0 \/ header_meta_offset data = uMetaOff) /\
       header_meta_offset final = uMetaOff /\
       meta_trailer_at meta final uMetaOff).
Proof.
  intros HD. unfold Builder_c.Done in HD.
  destruct (Builder_c.Done_process b) as [st| |] eqn:HP; try discriminate.
  cbn [mbind result_bind] in HD.
  destruct (Nat.eqb _ 0); [discriminate|].
  unfold Builder_c.WriteMeta in HD. destruct (Open_ok F_dst); [|discriminate].
  injection HD as HD.
  assert (Hbody : exists body, Builder_c.d_tDstFile st
                    = Write_uint32 LIB_VERSION ++ Write_uint64 0 ++ body).
  { unfold Builder_c.Done_process in HP.
    repeat (destruct (negb _); [discriminate|]).
    apply Done_writers_spec in HP as (ns & x & _ & _ & _ & Hd).
    exists x. rewrite Hd. cbn [Builder_c.d_tDstFile]. now rewrite <- app_assoc. }
  destruct Hbody as [body Hbody]. exists st, body.
  split; [reflexivity|]. split; [exact Hbody|]. intros uMetaOff starts counts ops meta.
  assert (Hv : length (Write_uint32 LIB_VERSION) = 4%nat) by apply le_bytes_length.
  assert (H0 : header_meta_offset (Builder_c.d_tDstFile st) = 0).
  { rewrite Hbody. apply header_meta_offset_spec; [exact Hv|]. split; [lia|reflexivity]. }
  assert (Hoff : 0 <= uMetaOff) by (unfold uMetaOff, FileWriter_GetPos; lia).
  split; [exact H0|]. split; [reflexivity|]. split; [reflexivity|].
  assert (Hfinal : final
                   = Write_uint32 LIB_VERSION ++ Write_uint64 uMetaOff ++ body
                       ++ meta ++ Builder_c.d_tTmpPgm st ++ Builder_c.d_tTmpBlocks st).
  { rewrite <- HD. fold uMetaOff starts counts. unfold uMetaOff. rewrite Hbody.
    now apply WriteMeta_result. }
  split; [exact Hfinal|]. intros Hlt. split; [|split].
  - intros data Hdata. unfold ops, uMetaOff in Hdata. rewrite Hbody in Hdata.
    apply WriteMeta_observable in Hdata; [|exact Hv].
    destruct Hdata as [->|[tail ->]].
    + left. rewrite <- Hbody. exact H0.
    + right. rewrite <- Hbody. fold uMetaOff.
      apply header_meta_offset_spec; [exact Hv|lia].
  - rewrite Hfinal. apply header_meta_offset_spec; [exact Hv|lia].
  - rewrite Hfinal. exists (Builder_c.d_tTmpPgm st ++ Builder_c.d_tTmpBlocks st).
    replace (Write_uint32 LIB_VERSION ++ Write_uint64 uMetaOff ++ body
               ++ meta ++ Builder_c.d_tTmpPgm st ++ Builder_c.d_tTmpBlocks st)
      with ((Write_uint32 LIB_VERSION ++ Write_uint64 uMetaOff ++ body)
               ++ meta ++ Builder_c.d_tTmpPgm st ++ Builder_c.d_tTmpBlocks st)
      by (now rewrite <- !app_assoc).
    rewrite drop_app_length'; [reflexivity|].
    unfold uMetaOff, FileWriter_GetPos. rewrite Nat2Z.id, Hbody, !length_app.
    unfold Write_uint64. now rewrite !le_bytes_length.
Qed.

End WriteMetaOrder.


Lemma WriteMeta_patches_header_first_witness :
  exists final,
    Builder_c.Done (E := example_externals) example_builder = Ok final /\
    header_meta_offset final = 67 /\
    drop 67 final
    = concat (Builder_c.meta_writes (E := example_externals) example_builder
                (ComputeDeltas 64 (Builder_c.d_dBlocksOffStart example_done_state))
                (Builder_c.blocks_count
                   (FileWriter_GetPos (Builder_c.d_tTmpBlocks example_done_state))
                   (Builder_c.d_dBlocksOffStart example_done_state)))
        ++ Builder_c.d_tTmpPgm example_done_state
        ++ Builder_c.d_tTmpBlocks example_done_state.
Proof.
  eexists. split; [vm_compute; reflexivity|].
  match goal with
  | |- header_meta_offset ?f = _ /\ _ =>
      destruct (WriteMeta_patches_header_first (E := example_externals) example_builder f)
        as (st & body & HP & _ & H)
  end.
  - vm_compute. reflexivity.
  - assert (Hst : st = example_done_state).
    { assert (Hd : Builder_c.Done_process (E := example_externals) example_builder
                   = Ok example_done_state) by reflexivity.
      rewrite Hd in HP. now injection HP. }
    subst st. cbv zeta in H. destruct H as (_ & _ & _ & _ & H).
    destruct H as (_ & H1 & _); [vm_compute; reflexivity|].
    split; [exact H1|]. vm_compute. reflexivity.
Defined.

(** C4, as the spec has it: in the example build, right after [WriteMeta]
    has patched the header (and before anything is appended) the output
    file carries a non-zero [meta_offset] that points at its end; there is
    no meta record there.  The patch is the second of the operations, the
    copy of the block-offsets file the last. *)
Lemma WriteMeta_safety_counterexample :
  let st := example_done_state in
  let uMetaOff := FileWriter_GetPos (Builder_c.d_tDstFile st) in
  let starts := ComputeDeltas 64 (Builder_c.d_dBlocksOffStart st) in
  let counts :=
    Builder_c.blocks_count (FileWriter_GetPos (Builder_c.d_tTmpBlocks st))
                           (Builder_c.d_dBlocksOffStart st) in
  let ops :=
    Builder_c.WriteMeta_ops (E := example_externals) example_builder
      (Builder_c.d_tTmpPgm st) (Builder_c.d_tTmpBlocks st) starts counts uMetaOff in
  let meta :=
    concat (Builder_c.meta_writes (E := example_externals) example_builder starts counts) in
  Builder_c.Done_process (E := example_externals) example_builder = Ok st /\
  ops !! 1%nat = Some (OpWrite (Write_uint64 uMetaOff)) /\
  last ops = Some (OpCopySingleFile (Builder_c.d_tTmpBlocks st)) /\
  exists data,
    observable_states (mkFile (Builder_c.d_tDstFile st) 0) ops !! 3%nat = Some data /\
    header_meta_offset data = 67 /\
    Z.of_nat (length data) = 67 /\
    ~ safe_output meta (Some data).
Proof.
  intros st uMetaOff starts counts ops meta.
  split; [reflexivity|]. split; [reflexivity|]. split; [reflexivity|].
  eexists. split; [vm_compute; reflexivity|].
  split; [reflexivity|]. split; [reflexivity|].
  intros [H0|[_ [rest Hrest]]].
  - vm_compute in H0. discriminate H0.
  - vm_compute in Hrest. discriminate Hrest.
Qed.

(** ** The order of pairs and std::sort *)

Section PairOrder.
Context {E : Externals}.

Lemma RawValueCmp_false T a b : T <> T_float ->
  RawValueCmp T a b = false <-> pair_le b a.
Proof.
  intros HT. unfold pair_le.
  assert (H : (if m_tValue a =? m_tValue b then m_tRowid a <? m_tRowid b
               else m_tValue a <? m_tValue b) = false <->
              m_tValue b < m_tValue a \/
              (m_tValue b = m_tValue a /\ m_tRowid b <= m_tRowid a)).
  { destruct (Z.eqb_spec (m_tValue a) (m_tValue b)).
    - rewrite Z.ltb_ge. lia.
    - rewrite Z.ltb_ge. lia. }
  destruct T; try exact H. congruence.
Qed.

Lemma PQGreater_false T x y : T <> T_float ->
  PQGreater T x y = false <-> pair_le (bin_value x) (bin_value y).
Proof.
  intros HT. unfold pair_le, PQGreater. cbv zeta.
  assert (H : (if m_tValue (bin_value x) =? m_tValue (bin_value y)
               then m_tRowid (bin_value x) >? m_tRowid (bin_value y)
               else m_tValue (bin_value x) >? m_tValue (bin_value y)) = false <->
              m_tValue (bin_value x) < m_tValue (bin_value y) \/
              (m_tValue (bin_value x) = m_tValue (bin_value y) /\
               m_tRowid (bin_value x) <= m_tRowid (bin_value y))).
  { rewrite !Z.gtb_ltb. destruct (Z.eqb_spec (m_tValue (bin_value x)) (m_tValue (bin_value y))).
    - rewrite Z.ltb_ge. lia.
    - rewrite Z.ltb_ge. lia. }
  destruct T; try exact H. congruence.
Qed.

#[global] Instance pair_le_trans : Transitive pair_le.
Proof. intros a b c. unfold pair_le. lia. Qed.

#[global] Instance pair_le_total : Total pair_le.
Proof. intros a b. unfold pair_le. lia. Qed.

#[global] Instance pair_le_antisym : AntiSymm (=) pair_le.
Proof.
  intros [va ra] [vb rb]. unfold pair_le. simpl. intros H1 H2.
  f_equal; lia.
Qed.

Lemma pair_le_refl a : pair_le a a.
Proof. unfold pair_le. lia. Qed.

Lemma sort_insert_Permutation {A} (cmp : A -> A -> bool) x l :
  sort_insert cmp x l ≡ₚ x :: l.
Proof.
  induction l as [|y l IH]; simpl; [reflexivity|].
  destruct (cmp y x); [|reflexivity]. rewrite IH. apply perm_swap.
Qed.

Lemma std_sort_Permutation {A} (cmp : A -> A -> bool) l : std_sort cmp l ≡ₚ l.
Proof.
  induction l as [|x l IH]; simpl; [reflexivity|].
  rewrite sort_insert_Permutation. now rewrite IH.
Qed.

Lemma sort_insert_sorted T x l : T <> T_float ->
  StronglySorted pair_le l -> StronglySorted pair_le (sort_insert (RawValueCmp T) x l).
Proof.
  intros HT. induction l as [|y l IH]; intros Hl; simpl.
  - repeat constructor.
  - apply StronglySorted_inv in Hl as [Hl Hy].
    destruct (RawValueCmp T y x) eqn:Hc.
    + constructor; [now apply IH|].
      rewrite sort_insert_Permutation. constructor; [|exact Hy].
      destruct (pair_le_total y x) as [H|H]; [exact H|].
      apply (RawValueCmp_false T y x HT) in H. congruence.
    + apply (RawValueCmp_false T y x HT) in Hc.
      constructor; [now constructor|]. constructor; [exact Hc|].
      eapply Forall_impl; [exact Hy|]. intros z Hz. now transitivity y.
Qed.

Lemma std_sort_sorted T l : T <> T_float ->
  StronglySorted pair_le (std_sort (RawValueCmp T) l).
Proof.
  intros HT. induction l as [|x l IH]; simpl; [constructor|]. now apply sort_insert_sorted.
Qed.

(** Whatever algorithm [std::sort] runs, for the integer comparators its
    result is this list: a sorted arrangement of pairs is unique. *)
Lemma std_sort_unique T l l' : T <> T_float ->
  StronglySorted pair_le l' -> l' ≡ₚ l -> l' = std_sort (RawValueCmp T) l.
Proof.
  intros HT Hs Hp. apply (StronglySorted_unique pair_le).
  - exact Hs.
  - now apply std_sort_sorted.
  - now rewrite std_sort_Permutation.
Qed.

End PairOrder.

(** ** The collector writes sorted runs *)

Section Collector.
Context {E : Externals}.

Lemma sizeof_RawValue_pos T : 0 < sizeof_RawValue T.
Proof. destruct T; reflexivity. Qed.

Lemma run_offsets_snoc sz runs : forall base r,
  run_offsets sz base (runs ++ [r])
  = run_offsets sz base runs ++ [sz * Z.of_nat (base + length (concat runs))].
Proof.
  induction runs as [|r0 runs IH]; intros base r; simpl.
  - now rewrite Nat.add_0_r.
  - rewrite IH, length_app, Nat.add_assoc. reflexivity.
Qed.

Lemma Flush_inv w runs : RawWriter_T.T w <> T_float ->
  collector_inv w runs ->
  exists runs',
    collector_inv (RawWriter_T.Flush w) runs' /\
    RawWriter_T.m_dRows (RawWriter_T.Flush w) = [] /\
    concat runs' ≡ₚ concat runs ++ RawWriter_T.m_dRows w.
Proof.
  intros HT [Hf Ho Hr]. unfold RawWriter_T.Flush.
  pose proof (sizeof_RawValue_pos (RawWriter_T.T w)) as Hsz.
  destruct (Z.eqb_spec (sizeof_RawValue (RawWriter_T.T w)
                          * Z.of_nat (length (RawWriter_T.m_dRows w))) 0) as [H0|H0].
  - assert (Hnil : RawWriter_T.m_dRows w = []).
    { destruct (RawWriter_T.m_dRows w); [reflexivity|]. simpl length in H0. nia. }
    exists runs. split; [now constructor|]. split; [exact Hnil|].
    now rewrite Hnil, app_nil_r.
  - exists (runs ++ [std_sort (RawValueCmp (RawWriter_T.T w)) (RawWriter_T.m_dRows w)]).
    split; [constructor|split; [reflexivity|]].
    + cbn [RawWriter_T.m_tFile]. rewrite concat_app, Hf. simpl. now rewrite app_nil_r.
    + cbn [RawWriter_T.m_dOffset RawWriter_T.T]. rewrite run_offsets_snoc, Ho.
      unfold RawWriter_T.GetPos. now rewrite Hf.
    + apply Forall_app. split; [exact Hr|]. constructor; [|constructor].
      split; [|now apply std_sort_sorted].
      intros Hnil. apply (f_equal (@length _)) in Hnil.
      rewrite (Permutation_length (std_sort_Permutation _ _)) in Hnil.
      simpl in Hnil. rewrite Hnil in H0. lia.
    + rewrite concat_app. simpl. rewrite app_nil_r.
      now rewrite std_sort_Permutation.
Qed.

(** What a call that returns leaves unchanged, and what it adds. *)
Lemma do_call_spec w c w' : RawWriter_T.T w <> T_float ->
  do_call w c = Ok w' ->
  RawWriter_T.T w' = RawWriter_T.T w /\
  RawWriter_T.m_eAttrType w' = RawWriter_T.m_eAttrType w /\
  RawWriter_T.m_fnHash w' = RawWriter_T.m_fnHash w /\
  RawWriter_T.m_tFile_name w' = RawWriter_T.m_tFile_name w /\
  (forall runs, collector_inv w runs ->
     exists runs', collector_inv w' runs' /\
       concat runs' ++ RawWriter_T.m_dRows w'
       ≡ₚ (concat runs ++ RawWriter_T.m_dRows w)
            ++ call_pairs (RawWriter_T.T w) (RawWriter_T.m_fnHash w) c).
Proof.
  intros HT H.
  assert (Hkeep : forall rows,
            let w1 := RawWriter_T.mk (RawWriter_T.T w) (RawWriter_T.m_dRows w ++ rows)
                        (RawWriter_T.m_tFile w) (RawWriter_T.m_dOffset w)
                        (RawWriter_T.m_iFileSize w) (RawWriter_T.m_eAttrType w)
                        (RawWriter_T.m_fnHash w) (RawWriter_T.m_tFile_name w) in
            forall runs, collector_inv w runs ->
              exists runs', collector_inv w1 runs' /\
                concat runs' ++ RawWriter_T.m_dRows w1
                ≡ₚ (concat runs ++ RawWriter_T.m_dRows w) ++ rows).
  { intros rows w1 runs [Hf Ho Hr]. exists runs. split; [now constructor|].
    cbn [RawWriter_T.m_dRows w1]. now rewrite app_assoc. }
  assert (Hfold : forall (f : Z -> RawValue_T) pData w0,
            fold_left (fun w1 x => RawWriter_T.emplace_back w1 (f x)) pData w0
            = RawWriter_T.mk (RawWriter_T.T w0) (RawWriter_T.m_dRows w0 ++ map f pData)
                (RawWriter_T.m_tFile w0) (RawWriter_T.m_dOffset w0)
                (RawWriter_T.m_iFileSize w0) (RawWriter_T.m_eAttrType w0)
                (RawWriter_T.m_fnHash w0) (RawWriter_T.m_tFile_name w0)).
  { intros f pData. induction pData as [|x pData IH]; intros w0; simpl.
    - rewrite app_nil_r. now destruct w0.
    - rewrite IH. unfold RawWriter_T.emplace_back. simpl. now rewrite <- app_assoc. }
  destruct c as [tRowID tAttr|tRowID pData|tRowID pData|]; cbn [do_call] in H.
  - unfold RawWriter_T.SetAttr in H.
    destruct (RawWriter_T.T w) eqn:HTw; try congruence; injection H as <-;
      unfold RawWriter_T.emplace_back; cbn; rewrite HTw;
      (repeat split; try reflexivity); apply (Hkeep [_]).
  - unfold RawWriter_T.SetAttr_bytes in H.
    destruct (RawWriter_T.T w) eqn:HTw; try congruence; injection H as <-;
      unfold RawWriter_T.emplace_back; cbn; rewrite HTw;
      (repeat split; try reflexivity); apply (Hkeep [_]).
  - unfold RawWriter_T.SetAttr_array in H.
    destruct (RawWriter_T.T w) eqn:HTw; try congruence; injection H as <-;
      rewrite Hfold; cbn; rewrite HTw;
      (repeat split; try reflexivity); apply Hkeep.
  - injection H as <-. unfold RawWriter_T.Flush.
    split; [now destruct (_ =? 0)|]. split; [now destruct (_ =? 0)|].
    split; [now destruct (_ =? 0)|]. split; [now destruct (_ =? 0)|].
    intros runs Hinv. destruct (Flush_inv w runs HT Hinv) as (runs' & Hinv' & Hrows & Hperm).
    exists runs'. split; [exact Hinv'|].
    unfold RawWriter_T.Flush in Hrows. rewrite Hrows, !app_nil_r.
    destruct (RawWriter_T.T w); exact Hperm.
Qed.

Lemma collect_spec calls : forall w w' runs,
  RawWriter_T.T w <> T_float ->
  collect w calls = Ok w' ->
  collector_inv w runs ->
  RawWriter_T.T w' = RawWriter_T.T w /\
  RawWriter_T.m_eAttrType w' = RawWriter_T.m_eAttrType w /\
  RawWriter_T.m_tFile_name w' = RawWriter_T.m_tFile_name w /\
  exists runs', collector_inv w' runs' /\
    concat runs' ++ RawWriter_T.m_dRows w'
    ≡ₚ (concat runs ++ RawWriter_T.m_dRows w)
         ++ flat_map (call_pairs (RawWriter_T.T w) (RawWriter_T.m_fnHash w)) calls.
Proof.
  induction calls as [|c calls IH]; intros w w' runs HT H Hinv.
  - injection H as <-. repeat split; try reflexivity.
    exists runs. split; [exact Hinv|]. simpl. now rewrite app_nil_r.
  - cbn [collect] in H. destruct (do_call w c) as [w1| |] eqn:Hc; try discriminate.
    cbn [mbind result_bind] in H.
    destruct (do_call_spec w c w1 HT Hc) as (HT1 & Ha1 & Hh1 & Hn1 & Hstep).
    destruct (Hstep runs Hinv) as (runs1 & Hinv1 & Hperm1).
    destruct (IH w1 w' runs1 ltac:(congruence) H Hinv1)
      as (HT' & Ha' & Hn' & runs' & Hinv' & Hperm').
    repeat split; try congruence.
    exists runs'. split; [exact Hinv'|].
    rewrite Hperm', Hperm1, HT1, Hh1. cbn [flat_map]. now rewrite <- !app_assoc.
Qed.

End Collector.

(** ** The merge *)

Section Merge.
Context {E : Externals}.

Lemma pq_pop_spec {A} (greater : A -> A -> bool) q :
  (forall a b c, greater a b = false -> greater b c = false -> greater a c = false) ->
  (forall a b, greater a b = true -> greater b a = false) ->
  match pq_pop greater q with
  | None => q = []
  | Some (x, r) => q ≡ₚ x :: r /\ Forall (fun y => greater x y = false) r
  end.
Proof.
  intros Htrans Htot. induction q as [|x q IH]; [reflexivity|].
  cbn [pq_pop]. destruct (pq_pop greater q) as [[y r]|].
  - destruct IH as [Hp Hmin]. destruct (greater x y) eqn:Hxy.
    + split; [rewrite Hp; apply perm_swap|]. constructor; [now apply Htot|exact Hmin].
    + split; [reflexivity|]. rewrite Hp. constructor; [exact Hxy|].
      eapply Forall_impl; [exact Hmin|]. intros z Hz. now apply (Htrans x y z).
  - subst q. split; [reflexivity|constructor].
Qed.

Lemma PQGreater_pop T q : T <> T_float ->
  match pq_pop (PQGreater T) q with
  | None => q = []
  | Some (x, r) => q ≡ₚ x :: r /\ Forall (fun y => pair_le (bin_value x) (bin_value y)) r
  end.
Proof.
  intros HT.
  pose proof (pq_pop_spec (PQGreater T) q) as H.
  destruct (pq_pop (PQGreater T) q) as [[x r]|].
  - destruct H as [Hp Hmin].
    + intros a b c. rewrite !(PQGreater_false T) by exact HT. apply pair_le_trans.
    + intros a b Hab. rewrite (PQGreater_false T) by exact HT.
      destruct (pair_le_total (bin_value b) (bin_value a)) as [H|H]; [exact H|].
      apply (PQGreater_false T a b HT) in H. congruence.
    + split; [exact Hp|]. eapply Forall_impl; [exact Hmin|].
      intros y Hy. now apply (PQGreater_false T x y HT).
  - apply H.
    + intros a b c. rewrite !(PQGreater_false T) by exact HT. apply pair_le_trans.
    + intros a b Hab. rewrite (PQGreater_false T) by exact HT.
      destruct (pair_le_total (bin_value b) (bin_value a)) as [H'|H']; [exact H'|].
      apply (PQGreater_false T a b HT) in H'. congruence.
Qed.

Lemma pending_eq file sz b (p e : nat) : 0 < sz ->
  m_pReader b = sz * Z.of_nat p -> m_iBinEnd b = sz * Z.of_nat e -> (p <= e)%nat ->
  pending file sz b = bin_value b :: take (e - p) (drop p file).
Proof.
  intros Hsz Hp He Hpe. unfold pending. rewrite Hp, He.
  replace (sz * Z.of_nat e - sz * Z.of_nat p) with (Z.of_nat (e - p) * sz) by nia.
  rewrite Z.div_mul by lia. rewrite (Z.mul_comm sz (Z.of_nat p)), Z.div_mul by lia.
  now rewrite !Nat2Z.id.
Qed.

(** One [Read]: the bin's pending list is its pair followed by what the
    advanced bin has pending, or by nothing when the run is exhausted. *)
Lemma BinValue_Read_spec file sz b : 0 < sz -> bin_ok file sz b ->
  let '(bRead, b') := BinValue_Read file sz b in
  pending file sz b = bin_value b :: (if bRead then pending file sz b' else []) /\
  (bRead = true ->
     bin_ok file sz b' /\
     (Z.to_nat (m_iBinEnd b' - m_pReader b') < Z.to_nat (m_iBinEnd b - m_pReader b))%nat).
Proof.
  intros Hsz (p & e & Hp & He & Hpe & Hsorted).
  rewrite (pending_eq file sz b p e Hsz Hp He) in * by lia.
  unfold BinValue_Read. rewrite Hp, He.
  destruct (Z.geb_spec (sz * Z.of_nat p) (sz * Z.of_nat e)) as [Hge|Hlt].
  - assert (p = e) by nia. subst e. rewrite Nat.sub_diag. simpl.
    split; [reflexivity|discriminate].
  - assert (Hpe' : (p < e)%nat) by nia.
    replace (sz * Z.of_nat p / sz) with (Z.of_nat p)
      by (rewrite (Z.mul_comm sz (Z.of_nat p)), Z.div_mul; lia).
    rewrite Nat2Z.id.
    destruct (lookup_lt_is_Some_2 file p ltac:(lia)) as [x Hx]. rewrite Hx. cbn [default].
    unfold id.
    set (b' := mkBin x (sz * Z.of_nat p + sz) (sz * Z.of_nat e)).
    assert (Hpend' : pending file sz b' = x :: take (e - S p) (drop (S p) file)).
    { apply (pending_eq file sz b' (S p) e Hsz); cbn [b' m_pReader m_iBinEnd]; lia. }
    assert (Hsplit : take (e - p) (drop p file) = x :: take (e - S p) (drop (S p) file)).
    { rewrite (drop_S file x p Hx). replace (e - p)%nat with (S (e - S p)) by lia.
      reflexivity. }
    split.
    + rewrite Hpend'. now rewrite Hsplit.
    + intros _. split.
      * exists (S p), e. cbn [b' m_pReader m_iBinEnd]. repeat split; try lia.
        rewrite Hpend'. rewrite Hsplit in Hsorted.
        now apply StronglySorted_inv in Hsorted as [Hs _].
      * cbn [b' m_pReader m_iBinEnd]. nia.
Qed.

Lemma merge_fuel_Permutation q q' :
  q ≡ₚ q' -> SIWriter_T.merge_fuel q = SIWriter_T.merge_fuel q'.
Proof.
  induction 1; simpl; lia.
Qed.

Lemma merge_fuel_push b q :
  SIWriter_T.merge_fuel (pq_push b q)
  = (S (Z.to_nat (m_iBinEnd b - m_pReader b)) + SIWriter_T.merge_fuel q)%nat.
Proof.
  unfold pq_push. rewrite (merge_fuel_Permutation (q ++ [b]) (b :: q)); [reflexivity|].
  symmetry. apply Permutation_cons_append.
Qed.

Lemma merge_next_spec w dBins :
  SIWriter_T.SRC_VALUE w <> T_float ->
  Forall (bin_ok (SIWriter_T.src_data w) (sizeof_RawValue (SIWriter_T.SRC_VALUE w))) dBins ->
  match merge_next w dBins with
  | None => dBins = []
  | Some (x, next) =>
      Forall (bin_ok (SIWriter_T.src_data w) (sizeof_RawValue (SIWriter_T.SRC_VALUE w))) next /\
      (SIWriter_T.merge_fuel next < SIWriter_T.merge_fuel dBins)%nat /\
      concat (map (pending (SIWriter_T.src_data w)
                     (sizeof_RawValue (SIWriter_T.SRC_VALUE w))) dBins)
      ≡ₚ x :: concat (map (pending (SIWriter_T.src_data w)
                             (sizeof_RawValue (SIWriter_T.SRC_VALUE w))) next) /\
      Forall (pair_le x)
        (concat (map (pending (SIWriter_T.src_data w)
                        (sizeof_RawValue (SIWriter_T.SRC_VALUE w))) next))
  end.
Proof.
  intros HT Hok. unfold merge_next.
  pose proof (PQGreater_pop (SIWriter_T.SRC_VALUE w) dBins HT) as Hpop.
  destruct (pq_pop (PQGreater (SIWriter_T.SRC_VALUE w)) dBins) as [[tBin dBins']|];
    [|exact Hpop].
  destruct Hpop as [Hperm Hmin].
  set (file := SIWriter_T.src_data w) in *.
  set (sz := sizeof_RawValue (SIWriter_T.SRC_VALUE w)) in *.
  assert (Hsz : 0 < sz) by apply sizeof_RawValue_pos.
  assert (Hok' : Forall (bin_ok file sz) (tBin :: dBins')) by (now rewrite <- Hperm).
  apply Forall_cons in Hok' as [HokB HokR].
  pose proof (BinValue_Read_spec file sz tBin Hsz HokB) as HR.
  destruct (BinValue_Read file sz tBin) as [bRead tBin'].
  destruct HR as [Hpend Hadv].
  set (next := if bRead then pq_push tBin' dBins' else dBins').
  assert (Hnext_pend : concat (map (pending file sz) next)
                       ≡ₚ (if bRead then pending file sz tBin' else [])
                            ++ concat (map (pending file sz) dBins')).
  { unfold next. destruct bRead; [|reflexivity].
    unfold pq_push. rewrite map_app, concat_app. simpl. rewrite app_nil_r.
    apply Permutation_app_comm. }
  split; [|split; [|split]].
  - unfold next. destruct bRead; [|exact HokR].
    unfold pq_push. apply Forall_app. split; [exact HokR|].
    constructor; [|constructor]. now apply Hadv.
  - rewrite (merge_fuel_Permutation _ _ Hperm).
    cbn [SIWriter_T.merge_fuel fold_right]. fold (SIWriter_T.merge_fuel dBins').
    unfold next. destruct bRead; [|lia]. rewrite merge_fuel_push.
    destruct Hadv as [_ Hlt]; [reflexivity|]. lia.
  - rewrite Hnext_pend, Hperm. cbn [map concat]. now rewrite Hpend.
  - rewrite Hnext_pend. apply Forall_app. split.
    + destruct HokB as (p & e & _ & _ & _ & Hs). rewrite Hpend in Hs.
      now apply StronglySorted_inv in Hs as [_ Hs].
    + apply Forall_concat, Forall_fmap.
      assert (Hall : Forall (fun y => pair_le (bin_value tBin) (bin_value y) /\
                                bin_ok file sz y) dBins').
      { apply Forall_and. split; assumption. }
      eapply Forall_impl; [exact Hall|]. intros y [Hy (p & e & _ & _ & _ & Hs)]. simpl.
      unfold pending in *. apply StronglySorted_inv in Hs as [_ Hs].
      constructor; [exact Hy|].
      eapply Forall_impl; [exact Hs|]. intros z Hz. now transitivity (bin_value y).
Qed.

(** With enough fuel the merge empties the queue, and the pairs it takes
    out are, in order, the sorted arrangement of everything pending. *)
Lemma drain_spec fuel : forall w dBins,
  SIWriter_T.SRC_VALUE w <> T_float ->
  Forall (bin_ok (SIWriter_T.src_data w) (sizeof_RawValue (SIWriter_T.SRC_VALUE w))) dBins ->
  (SIWriter_T.merge_fuel dBins <= fuel)%nat ->
  fst (drain fuel w dBins) = [] /\
  StronglySorted pair_le (snd (drain fuel w dBins)) /\
  snd (drain fuel w dBins)
  ≡ₚ concat (map (pending (SIWriter_T.src_data w)
                          (sizeof_RawValue (SIWriter_T.SRC_VALUE w))) dBins).
Proof.
  induction fuel as [|fuel IH]; intros w dBins HT Hok Hfuel.
  - destruct dBins as [|b q]; [simpl; repeat split; constructor|].
    simpl in Hfuel. lia.
  - cbn [drain]. pose proof (merge_next_spec w dBins HT Hok) as Hnext.
    destruct (merge_next w dBins) as [[x next]|].
    2:{ subst dBins. simpl. repeat split; constructor. }
    destruct Hnext as (Hok' & Hlt & Hperm & Hmin).
    destruct (IH w next HT Hok' ltac:(lia)) as (Hempty & Hsorted & Hp).
    destruct (drain fuel w next) as [dBins2 emitted]. cbn [fst snd] in *.
    split; [exact Hempty|]. split.
    + constructor; [exact Hsorted|]. now rewrite Hp.
    + now rewrite Hperm, Hp.
Qed.

(** The loop of [Process] is the queue-only loop with the encoder fed
    along the way. *)
Lemma merge_loop_drain fuel w : forall dBins tWriter out,
  SIWriter_T.merge_loop fuel w (dBins, tWriter, out)
  = (fst (drain fuel w dBins),
     fst (fold_left (fun st y => RowWriter_t.NextValue (fst st) y (snd st))
            (map (Convert (SIWriter_T.SRC_VALUE w)) (snd (drain fuel w dBins)))
            (tWriter, out)),
     snd (fold_left (fun st y => RowWriter_t.NextValue (fst st) y (snd st))
            (map (Convert (SIWriter_T.SRC_VALUE w)) (snd (drain fuel w dBins)))
            (tWriter, out))).
Proof.
  induction fuel as [|fuel IH]; intros dBins tWriter out; [reflexivity|].
  cbn [SIWriter_T.merge_loop drain]. unfold SIWriter_T.merge_step, merge_next.
  destruct (pq_pop _ dBins) as [[tBin dBins']|]; [|reflexivity].
  destruct (RowWriter_t.NextValue tWriter _ out) as [tWriter' out'] eqn:HN.
  destruct (BinValue_Read _ _ tBin) as [bRead tBin'].
  rewrite IH. destruct (drain fuel w _) as [dBins2 emitted].
  cbn [fst snd map fold_left]. now rewrite HN.
Qed.

Lemma run_offsets_length sz runs : forall base,
  length (run_offsets sz base runs) = length runs.
Proof. induction runs; intros; simpl; [reflexivity|]. now rewrite IHruns. Qed.

(** The bins opened for the runs of a collector's file. *)
Lemma open_bins_from w runs2 : forall pre acc junk,
  let sz := sizeof_RawValue (SIWriter_T.SRC_VALUE w) in
  SIWriter_T.m_dOffset w = pre ++ run_offsets sz (length junk) runs2 ->
  SIWriter_T.src_data w = junk ++ concat runs2 ->
  SIWriter_T.m_iFileSize w = sz * Z.of_nat (length (SIWriter_T.src_data w)) ->
  Forall (fun r => r <> []) runs2 ->
  fold_left (SIWriter_T.open_bin w) (seq (length pre) (length runs2)) acc
  = acc ++ bins_of_runs sz (length junk) runs2.
Proof.
  induction runs2 as [|r rs IH]; intros pre acc junk sz Hoff Hfile Hsize Hne.
  - simpl. now rewrite app_nil_r.
  - apply Forall_cons in Hne as [Hr Hne].
    destruct r as [|x r']; [congruence|].
    assert (Hsz : 0 < sz) by apply sizeof_RawValue_pos.
    cbn [length seq fold_left bins_of_runs run_offsets concat head default] in *.
    unfold id in *.
    assert (Hstep : SIWriter_T.open_bin w acc (length pre)
                    = acc ++ [mkBin x (sz * Z.of_nat (length junk) + sz)
                                      (sz * Z.of_nat (length junk + S (length r')))]).
    { assert (Hpos : SIWriter_T.m_dOffset w !! length pre
                     = Some (sz * Z.of_nat (length junk))).
      { rewrite Hoff. now rewrite list_lookup_middle. }
      assert (Hend : (if (S (length pre) <? length (SIWriter_T.m_dOffset w))%nat
                      then default 0 (SIWriter_T.m_dOffset w !! S (length pre))
                      else SIWriter_T.m_iFileSize w)
                     = sz * Z.of_nat (length junk + S (length r'))).
      { rewrite Hoff, length_app. cbn [length]. rewrite run_offsets_length.
        destruct rs as [|r2 rs].
        - cbn [length concat] in *.
          replace (S (length pre) <? length pre + 1)%nat with false
            by (symmetry; apply Nat.ltb_ge; lia).
          rewrite Hsize, Hfile. rewrite app_nil_r, length_app. reflexivity.
        - replace (S (length pre) <? length pre + S (length (r2 :: rs)))%nat with true
            by (symmetry; apply Nat.ltb_lt; cbn [length]; lia).
          rewrite lookup_app_r by lia.
          replace (S (length pre) - length pre)%nat with 1%nat by lia. reflexivity. }
      unfold SIWriter_T.open_bin. fold sz. rewrite Hend, Hpos. cbn [default]. unfold id.
      unfold pq_push. f_equal. unfold BinValue_Read.
      cbn [m_pReader m_iBinEnd bin_value].
      destruct (Z.geb_spec (sz * Z.of_nat (length junk))
                           (sz * Z.of_nat (length junk + S (length r')))) as [Hge|Hlt];
        [nia|].
      cbn [snd]. replace (sz * Z.of_nat (length junk) / sz) with (Z.of_nat (length junk))
        by (rewrite (Z.mul_comm sz), Z.div_mul; lia).
      rewrite Nat2Z.id, Hfile. cbn [app]. rewrite list_lookup_middle by reflexivity.
      reflexivity. }
    rewrite Hstep.
    specialize (IH (pre ++ [sz * Z.of_nat (length junk)])
                   (acc ++ [mkBin x (sz * Z.of_nat (length junk) + sz)
                                    (sz * Z.of_nat (length junk + S (length r')))])
                   (junk ++ x :: r')).
    cbv zeta in IH. fold sz in IH.
    rewrite !length_app in IH. cbn [length] in IH.
    replace (length pre + 1)%nat with (S (length pre)) in IH by lia.
    rewrite IH.
    + now rewrite <- app_assoc.
    + rewrite Hoff, <- app_assoc. reflexivity.
    + rewrite Hfile, <- app_assoc. reflexivity.
    + exact Hsize.
    + exact Hne.
Qed.

Lemma bins_of_runs_ok file sz runs : forall junk,
  0 < sz ->
  file = junk ++ concat runs ->
  Forall (fun r => r <> [] /\ StronglySorted pair_le r) runs ->
  Forall (bin_ok file sz) (bins_of_runs sz (length junk) runs) /\
  map (pending file sz) (bins_of_runs sz (length junk) runs) = runs.
Proof.
  induction runs as [|r rs IH]; intros junk Hsz Hfile Hruns; [split; constructor|].
  apply Forall_cons in Hruns as [[Hr Hs] Hruns].
  destruct r as [|x r']; [congruence|].
  cbn [bins_of_runs map head default concat] in *. unfold id in *.
  set (b := mkBin x (sz * Z.of_nat (length junk) + sz)
                  (sz * Z.of_nat (length junk + length (x :: r')))).
  assert (Hpend : pending file sz b = x :: r').
  { rewrite (pending_eq file sz b (S (length junk)) (length junk + length (x :: r')) Hsz);
      cbn [b m_pReader m_iBinEnd bin_value length]; try lia.
    f_equal. rewrite Hfile.
    replace (junk ++ (x :: r') ++ concat rs) with ((junk ++ [x]) ++ r' ++ concat rs)
      by (now rewrite <- app_assoc).
    rewrite drop_app_length' by (rewrite length_app; simpl; lia).
    apply take_app_length'. lia. }
  destruct (IH (junk ++ x :: r') Hsz) as [Hok Hmap].
  - rewrite Hfile, <- app_assoc. reflexivity.
  - exact Hruns.
  - rewrite length_app in Hok, Hmap. split.
    + constructor; [|exact Hok].
      exists (S (length junk)), (length junk + length (x :: r'))%nat.
      split; [cbn [b m_pReader]; lia|]. split; [reflexivity|].
      split; [|rewrite Hpend; exact Hs].
      rewrite Hfile, !length_app. cbn [length]. lia.
    + now rewrite Hpend, Hmap.
Qed.

(** For a file of sorted runs, the stream forwarded to the encoder is the
    sorted arrangement of the file's records, and the queue ends empty. *)
Lemma merged_stream_sorted w runs :
  SIWriter_T.SRC_VALUE w <> T_float ->
  SIWriter_T.m_dOffset w = run_offsets (sizeof_RawValue (SIWriter_T.SRC_VALUE w)) 0 runs ->
  SIWriter_T.src_data w = concat runs ->
  SIWriter_T.m_iFileSize w
    = sizeof_RawValue (SIWriter_T.SRC_VALUE w) * Z.of_nat (length (SIWriter_T.src_data w)) ->
  Forall (fun r => r <> [] /\ StronglySorted pair_le r) runs ->
  merged_stream w = std_sort (RawValueCmp (SIWriter_T.SRC_VALUE w)) (SIWriter_T.src_data w) /\
  match merge_next w (SIWriter_T.open_bins w) with
  | None => True
  | Some (x, next) => fst (drain (SIWriter_T.merge_fuel next) w next) = []
  end.
Proof.
  intros HT Hoff Hfile Hsize Hruns.
  set (sz := sizeof_RawValue (SIWriter_T.SRC_VALUE w)) in *.
  assert (Hsz : 0 < sz) by apply sizeof_RawValue_pos.
  assert (Hbins : SIWriter_T.open_bins w = bins_of_runs sz 0 runs).
  { unfold SIWriter_T.open_bins. rewrite Hoff, run_offsets_length.
    apply (open_bins_from w runs [] [] []); try assumption.
    eapply Forall_impl; [exact Hruns|]. now intros r [Hr _]. }
  destruct (bins_of_runs_ok (SIWriter_T.src_data w) sz runs [] Hsz Hfile Hruns)
    as [Hok Hpend].
  cbn [length] in Hok, Hpend. rewrite <- Hbins in Hok, Hpend.
  unfold merged_stream.
  pose proof (merge_next_spec w (SIWriter_T.open_bins w) HT Hok) as Hnext.
  fold sz in Hnext. rewrite Hpend in Hnext.
  destruct (merge_next w (SIWriter_T.open_bins w)) as [[x next]|].
  - destruct Hnext as (Hok' & _ & Hperm & Hmin).
    destruct (drain_spec (SIWriter_T.merge_fuel next) w next HT Hok' ltac:(lia))
      as (Hempty & Hsorted & Hp).
    fold sz in Hp. split; [|exact Hempty].
    apply std_sort_unique; [exact HT| |].
    + constructor; [exact Hsorted|]. now rewrite Hp.
    + now rewrite Hp, <- Hperm, Hfile.
  - split; [|exact I]. rewrite Hnext in Hbins.
    destruct runs as [|r rs]; [|discriminate]. now rewrite Hfile.
Qed.

(** [Process], up to [tWriter.Done], is the encoder fed with the merged
    stream and then flushed. *)
Lemma Process_merge_feed w tDst tBlocksOff :
  let tWriter :=
    RowWriter_t.create (SIWriter_T.DST_VALUE w)
      (match SIWriter_T.SRC_VALUE w with T_float => true | _ => false end) in
  let fed := feed (map (Convert (SIWriter_T.SRC_VALUE w)) (merged_stream w))
                  (tWriter, mkOut tDst tBlocksOff []) in
  SIWriter_T.Process_merge w tDst tBlocksOff
  = (match merge_next w (SIWriter_T.open_bins w) with
     | None => SIWriter_T.open_bins w
     | Some (x, next) => fst (drain (SIWriter_T.merge_fuel next) w next)
     end,
     fst (RowWriter_t.Done (fst fed) (snd fed)),
     snd (RowWriter_t.Done (fst fed) (snd fed))).
Proof.
  intros tWriter fed. unfold SIWriter_T.Process_merge. fold tWriter.
  unfold fed, merged_stream, SIWriter_T.initial_fill, merge_next.
  destruct (pq_pop _ (SIWriter_T.open_bins w)) as [[tBin dBins']|] eqn:Hpop.
  - destruct (BinValue_Read _ _ tBin) as [bRead tBin'].
    rewrite merge_loop_drain.
    destruct (drain _ w _) as [dBins2 emitted]. cbn [fst snd map feed].
    destruct (fold_left _ _ _) as [tw2 out2]. cbn [fst snd].
    now destruct (RowWriter_t.Done tw2 out2).
  - assert (Hnil : SIWriter_T.open_bins w = []).
    { destruct (SIWriter_T.open_bins w) as [|b l]; [reflexivity|].
      cbn [pq_pop] in Hpop. destruct (pq_pop _ l) as [[y r]|]; [|discriminate].
      destruct (PQGreater _ b y); discriminate. }
    rewrite Hnil.
    cbn [SIWriter_T.merge_fuel fold_right SIWriter_T.merge_loop map feed fst snd].
    now destruct (RowWriter_t.Done tWriter _).
Qed.

End Merge.

(** ** The encoder groups the stream *)

Section Feed.
Context {E : Externals}.

Lemma starts_of_snoc gs : forall base g,
  starts_of base (gs ++ [g]) = starts_of base gs ++ [Z.of_nat (base + length (concat gs))].
Proof.
  induction gs as [|g0 gs IH]; intros base g; simpl.
  - now rewrite Nat.add_0_r.
  - rewrite IH, length_app, Nat.add_assoc. reflexivity.
Qed.

Lemma starts_of_last_irrelevant gs : forall base g g',
  starts_of base (gs ++ [g]) = starts_of base (gs ++ [g']).
Proof. intros. now rewrite !starts_of_snoc. Qed.


Lemma writer_holds_block T rw cur v :
  writer_holds T rw cur v ->
  Forall (fun g => snd g <> []) cur ->
  Z.of_nat (length (concat (map snd cur))) < 2 ^ 32 ->
  block_of rw (map snd cur).
Proof.
  intros [HT HF Hv Hs Hr Hp Hl] Hne Hfit. constructor; try assumption.
  - now rewrite Hv, !length_map.
  - now apply Forall_fmap.
Qed.

Lemma AddValue_holds T rw cur v x :
  writer_holds T rw cur v ->
  Z.of_nat (length (concat (map snd cur))) < 2 ^ 32 ->
  writer_holds T (RowWriter_t.AddValue rw x)
               (cur ++ [(m_tValue x, [m_tRowid x])]) (m_tValue x).
Proof.
  intros [HT HF Hv Hs Hr Hp Hl] Hfit. unfold RowWriter_t.AddValue.
  constructor; cbn [RowWriter_t.VALUE_T RowWriter_t.FLOAT_VALUE RowWriter_t.m_dValues
    RowWriter_t.m_dRowStart RowWriter_t.m_dRows RowWriter_t.m_dRowsPacked
    RowWriter_t.m_tLastValue]; try assumption; try reflexivity.
  - now rewrite Hv, map_app.
  - rewrite map_app. cbn [map snd]. rewrite starts_of_snoc, Hs, Hr.
    rewrite wrap32_small by lia. reflexivity.
  - rewrite map_app, concat_app, Hr. reflexivity.
Qed.

Lemma push_row_holds T rw c0 v rows r :
  writer_holds T rw (c0 ++ [(v, rows)]) v ->
  writer_holds T (RowWriter_t.push_row rw r) (c0 ++ [(v, rows ++ [r])]) v.
Proof.
  intros [HT HF Hv Hs Hr Hp Hl]. unfold RowWriter_t.push_row.
  constructor; cbn [RowWriter_t.VALUE_T RowWriter_t.FLOAT_VALUE RowWriter_t.m_dValues
    RowWriter_t.m_dRowStart RowWriter_t.m_dRows RowWriter_t.m_dRowsPacked
    RowWriter_t.m_tLastValue]; try assumption.
  - rewrite Hv, !map_app. reflexivity.
  - rewrite Hs, !map_app. cbn [map snd]. apply starts_of_last_irrelevant.
  - rewrite Hr, !map_app, !concat_app. simpl. now rewrite !app_nil_r, app_assoc.
Qed.

(** A flush of a block that holds groups writes the block's bytes and
    its values, and leaves an empty block. *)
Lemma FlushBlock_holds T rw cur v out :
  writer_holds T rw cur v -> cur <> [] ->
  Forall (fun g => snd g <> []) cur ->
  Z.of_nat (length (concat (map snd cur))) < 2 ^ 32 ->
  writer_holds T (fst (RowWriter_t.FlushBlock rw out)) [] v /\
  tDstFile (snd (RowWriter_t.FlushBlock rw out))
    = tDstFile out ++ encode_value_block T cur /\
  tTmpValsPGM (snd (RowWriter_t.FlushBlock rw out))
    = tTmpValsPGM out ++ WriteRawValues T (map fst cur).
Proof.
  intros Hh Hcur Hne Hfit.
  pose proof (writer_holds_block T rw cur v Hh Hne Hfit) as Hb.
  destruct Hh as [HT HF Hv Hs Hr Hp Hl].
  destruct (pack_rows_spec rw (map snd cur) Hb) as (junk' & Hj & Hpack).
  unfold RowWriter_t.FlushBlock. rewrite Hv, length_map.
  destruct cur as [|g cur]; [congruence|]. cbn [length Nat.eqb].
  rewrite Hpack. cbn [fst snd tDstFile tTmpValsPGM RowWriter_t.VALUE_T
    RowWriter_t.FLOAT_VALUE RowWriter_t.m_dValues RowWriter_t.m_tLastValue].
  split; [constructor; try reflexivity; assumption|].
  rewrite HT, Hv. split; [|reflexivity].
  f_equal. unfold RowWriter_t.block_body, encode_value_block, WriteVector.
  cbn [concat RowWriter_t.VALUE_T RowWriter_t.m_dValues RowWriter_t.m_dTypes
       RowWriter_t.m_dRowStart RowWriter_t.m_dRowsPacked].
  rewrite app_nil_r. reflexivity.
Qed.

Lemma grouped_rows s G :
  grouped s G ->
  concat (map snd G) = map m_tRowid s /\ Forall (fun g => snd g <> []) G.
Proof.
  induction 1 as [x|s G v rows x _ [IHc IHn] Hv|s G v rows x _ [IHc IHn] Hv].
  - split; [reflexivity|]. repeat constructor. discriminate.
  - rewrite map_app, concat_app in *. cbn [map concat snd] in *. rewrite app_nil_r in *.
    split.
    + rewrite map_app, app_assoc, IHc. reflexivity.
    + apply Forall_app in IHn as [IHn _]. apply Forall_app. split; [exact IHn|].
      repeat constructor. cbn [snd]. now destruct rows.
  - split.
    + rewrite map_app, concat_app, IHc, map_app. reflexivity.
    + apply Forall_app. split; [exact IHn|]. repeat constructor. discriminate.
Qed.

Lemma WriteRawValues_app T l1 l2 :
  WriteRawValues T (l1 ++ l2) = WriteRawValues T l1 ++ WriteRawValues T l2.
Proof. unfold WriteRawValues. now rewrite map_app, concat_app. Qed.

Lemma WriteRawValues_concat T (blocks : list (list (Z * list Z))) :
  concat (map (fun b => WriteRawValues T (map fst b)) blocks)
  = WriteRawValues T (map fst (concat blocks)).
Proof.
  induction blocks as [|b blocks IH]; [reflexivity|].
  cbn [map concat]. now rewrite IH, map_app, WriteRawValues_app.
Qed.


Lemma grouped_fits s blocks cur :
  grouped s (concat blocks ++ cur) ->
  (length (concat (map snd cur)) <= length s)%nat /\ Forall (fun g => snd g <> []) cur.
Proof.
  intros Hg. apply grouped_rows in Hg as [Hc Hn].
  rewrite map_app, concat_app in Hc. apply (f_equal (@length _)) in Hc.
  rewrite length_app, length_map in Hc. apply Forall_app in Hn as [_ Hn].
  split; [lia|exact Hn].
Qed.

Lemma NextValue_fed T dst0 s st x :
  fed T dst0 s st -> Z.of_nat (length s) < 2 ^ 32 ->
  fed T dst0 (s ++ [x]) (RowWriter_t.NextValue (fst st) x (snd st)).
Proof.
  intros (blocks & c0 & v & rows & Hg & Hb & Hc0 & Hh & Hd & Hp) Hlen.
  destruct (grouped_fits s blocks _ Hg) as [Hfit Hne].
  unfold RowWriter_t.NextValue.
  rewrite (holds_float _ _ _ _ Hh), (holds_last _ _ _ _ Hh). cbn [andb negb].
  destruct (Z.eqb_spec v (m_tValue x)) as [Heq|Hneq].
  - exists blocks, c0, v, (rows ++ [m_tRowid x]). cbn [fst snd].
    split; [|split; [exact Hb|split; [exact Hc0|split; [|split; assumption]]]].
    + rewrite app_assoc in *. now apply grouped_same.
    + now apply push_row_holds.
  - unfold RowWriter_t.FlushValue.
    rewrite (holds_values _ _ _ _ Hh), length_map, length_app. cbn [length].
    unfold VALUES_PER_BLOCK.
    assert (Hg' : grouped (s ++ [x])
                    ((concat blocks ++ c0 ++ [(v, rows)]) ++ [(m_tValue x, [m_tRowid x])])).
    { rewrite app_assoc in *. apply grouped_new; [exact Hg|congruence]. }
    destruct (Z.ltb_spec (Z.of_nat (length c0 + 1)) 128) as [Hlt|Hge].
    + exists blocks, (c0 ++ [(v, rows)]), (m_tValue x), [m_tRowid x]. cbn [fst snd].
      split; [now rewrite <- !app_assoc in *|]. split; [exact Hb|].
      split; [rewrite length_app; simpl; lia|].
      split; [|split; assumption].
      apply (AddValue_holds T (fst st) (c0 ++ [(v, rows)]) v x Hh). lia.
    + destruct (FlushBlock_holds T (fst st) (c0 ++ [(v, rows)]) v (snd st) Hh)
        as (Hh' & Hd' & Hp'); [now destruct c0|exact Hne|lia|].
      destruct (RowWriter_t.FlushBlock (fst st) (snd st)) as [rw' out'].
      cbn [fst snd] in *.
      exists (blocks ++ [c0 ++ [(v, rows)]]), [], (m_tValue x), [m_tRowid x].
      split; [|split; [|split; [simpl; lia|split; [|split]]]].
      * rewrite concat_app. cbn [concat app]. rewrite app_nil_r.
        now rewrite <- !app_assoc in *.
      * apply Forall_app. split; [exact Hb|]. repeat constructor.
        rewrite length_app. simpl. lia.
      * cbn [fst]. apply (AddValue_holds T rw' [] v x Hh'). simpl. lia.
      * cbn [snd]. rewrite Hd', Hd, map_app, concat_app. cbn [map concat].
        now rewrite app_nil_r, <- app_assoc.
      * cbn [snd]. rewrite Hp', Hp, (map_app _ blocks), concat_app. cbn [map concat].
        now rewrite app_nil_r.
Qed.

Lemma fold_NextValue_fed T dst0 s' : forall s st,
  fed T dst0 s st -> Z.of_nat (length (s ++ s')) < 2 ^ 32 ->
  fed T dst0 (s ++ s')
      (fold_left (fun st' y => RowWriter_t.NextValue (fst st') y (snd st')) s' st).
Proof.
  induction s' as [|x s' IH]; intros s st Hfed Hlen.
  - now rewrite app_nil_r.
  - cbn [fold_left]. rewrite (cons_middle x s s'), app_assoc.
    apply IH.
    + apply NextValue_fed; [exact Hfed|]. rewrite !length_app in Hlen. lia.
    + now rewrite <- app_assoc.
Qed.

(** The whole pass of the encoder over a stream that has pairs: the
    output file receives the value blocks of the stream's groups, the
    PGM-values file their values. *)
Lemma feed_Done_spec T s dst0 blk0 :
  s <> [] -> Z.of_nat (length s) < 2 ^ 32 ->
  let st := feed s (RowWriter_t.create T false, mkOut dst0 blk0 []) in
  let out := snd (RowWriter_t.Done (fst st) (snd st)) in
  exists blocks,
    grouped s (concat blocks) /\ blocks_cut blocks /\
    tDstFile out = dst0 ++ concat (map (encode_value_block T) blocks) /\
    tTmpValsPGM out = WriteRawValues T (map fst (concat blocks)).
Proof.
  intros Hs Hlen st out. destruct s as [|x s']; [congruence|].
  assert (Hfed : fed T dst0 ([x] ++ s') st).
  { unfold st, feed. cbn [fst snd]. apply fold_NextValue_fed; [|exact Hlen].
    exists [], [], (m_tValue x), [m_tRowid x]. cbn [fst snd concat map app].
    split; [constructor|]. split; [constructor|]. split; [simpl; lia|].
    split; [|split; [now rewrite app_nil_r|reflexivity]].
    apply (AddValue_holds T (RowWriter_t.create T false) [] 0 x); [|simpl; lia].
    constructor; reflexivity. }
  destruct Hfed as (blocks & c0 & v & rows & Hg & Hb & Hc0 & Hh & Hd & Hp).
  destruct (grouped_fits _ blocks _ Hg) as [Hfit Hne].
  destruct (FlushBlock_holds T (fst st) (c0 ++ [(v, rows)]) v (snd st) Hh)
    as (_ & Hd' & Hp'); [now destruct c0|exact Hne|simpl in *; lia|].
  exists (blocks ++ [c0 ++ [(v, rows)]]). unfold out, RowWriter_t.Done.
  split; [|split; [|split]].
  - rewrite concat_app. cbn [concat]. now rewrite app_nil_r.
  - intros i b Hi. apply lookup_app_Some in Hi as [Hi|[Hle Hi]].
    + rewrite Forall_forall in Hb. pose proof (Hb b (list_elem_of_lookup_2 _ _ _ Hi)).
      split; [lia|]. intros _. assumption.
    + apply list_lookup_singleton_Some in Hi as [Hi <-]. rewrite !length_app. cbn [length].
      split; [lia|]. intros Hlt. lia.
  - rewrite Hd', Hd, map_app, concat_app. cbn [map concat].
    now rewrite app_nil_r, <- app_assoc.
  - rewrite Hp', Hp, <- WriteRawValues_concat, (map_app _ blocks), concat_app.
    cbn [map concat]. now rewrite app_nil_r.
Qed.

Lemma filter_none {A} (P : A -> Prop) `{forall x, Decision (P x)} (l : list A) :
  (forall x, x ∈ l -> ~ P x) -> filter P l = [].
Proof.
  induction l as [|x l IH]; intros Hl; [reflexivity|].
  rewrite filter_cons_False by (apply Hl; left).
  apply IH. intros y Hy. apply Hl. now right.
Qed.

(** Grouping a stream whose values never decrease (read through [key]):
    the group values are strictly increasing, every value of the stream
    has its group, and a group holds the row-ids of exactly the pairs
    with its value, in stream order. *)
Lemma grouped_sorted (key : Z -> Z) s G :
  grouped s G ->
  StronglySorted (fun a b => key (m_tValue a) <= key (m_tValue b)) s ->
  (forall a b, a ∈ s -> b ∈ s -> key (m_tValue a) = key (m_tValue b) ->
     m_tValue a = m_tValue b) ->
  StronglySorted Z.lt (map key (map fst G)) /\
  Forall (fun g => snd g = map m_tRowid (filter (fun x => m_tValue x = fst g) s) /\
                   exists x, x ∈ s /\ m_tValue x = fst g) G /\
  (forall x, x ∈ s -> m_tValue x ∈ map fst G).
Proof.
  induction 1 as [x|s G v rows x Hg IH Hv|s G v rows x Hg IH Hv]; intros Hs Hinj.
  - split; [repeat constructor|]. split.
    + repeat constructor; cbn [fst snd].
      * now rewrite filter_cons_True.
      * exists x. split; [left|reflexivity].
    + intros y Hy. apply list_elem_of_singleton in Hy as ->. left.
  - apply StronglySorted_app in Hs as (Hsx & Hs & _).
    destruct IH as (S0 & F0 & M0); [exact Hs| |].
    { intros a b Ha Hb. apply Hinj; apply elem_of_app; now left. }
    rewrite !map_app in *. cbn [map fst] in *.
    split; [exact S0|]. split.
    + apply Forall_app in F0 as [FG Fl]. apply Forall_app. split.
      * apply StronglySorted_app in S0 as (Hlt & _ & _).
        rewrite Forall_forall in FG. apply Forall_forall. intros g Hgin.
        destruct (FG g Hgin) as [Hrows (y & Hy & Hyv)].
        assert (Hne : m_tValue x <> fst g).
        { intros Heq. specialize (Hlt (key (fst g)) (key v)).
          rewrite <- Heq, Hv in Hlt.
          assert (key v < key v); [|lia].
          apply Hlt; [|left].
          rewrite <- Hv, Heq. apply list_elem_of_fmap_2, list_elem_of_fmap_2. exact Hgin. }
        split.
        -- rewrite filter_app, (filter_cons_False _ x) by exact Hne.
           rewrite filter_nil, app_nil_r. exact Hrows.
        -- exists y. split; [apply elem_of_app; now left|exact Hyv].
      * apply Forall_singleton in Fl as [Hrows (y & Hy & Hyv)]. cbn [fst snd] in *.
        constructor; [|constructor]. cbn [fst snd]. split.
        -- rewrite filter_app, (filter_cons_True _ x) by exact Hv.
           rewrite filter_nil, map_app, Hrows. reflexivity.
        -- exists y. split; [apply elem_of_app; now left|exact Hyv].
    + intros y Hy. apply elem_of_app in Hy as [Hy|Hy]; [now apply M0|].
      apply list_elem_of_singleton in Hy as ->. rewrite Hv.
      apply elem_of_app. right. left.
  - apply StronglySorted_app in Hs as (Hsx & Hs & _).
    destruct IH as (S0 & F0 & M0); [exact Hs| |].
    { intros a b Ha Hb. apply Hinj; apply elem_of_app; now left. }
    assert (K : forall g, g ∈ G ++ [(v, rows)] -> key (fst g) < key (m_tValue x)).
    { assert (Kv : key v < key (m_tValue x)).
      { apply Forall_app in F0 as [_ Fl].
        apply Forall_singleton in Fl as [_ (y & Hy & Hyv)]. cbn [fst] in Hyv.
        assert (Hle : key (m_tValue y) <= key (m_tValue x)).
        { apply Hsx; [exact Hy|left]. }
        assert (Hneq : key (m_tValue y) <> key (m_tValue x)).
        { intros Heq. apply Hinj in Heq; [congruence| |].
          - apply elem_of_app. now left.
          - apply elem_of_app. right. left. }
        rewrite Hyv in *. lia. }
      intros g Hgin. apply elem_of_app in Hgin as [Hgin|Hgin].
      - rewrite !map_app in S0. cbn [map fst] in S0.
        apply StronglySorted_app in S0 as (Hlt & _ & _).
        assert (key (fst g) < key v); [|lia].
        apply Hlt; [|left]. apply list_elem_of_fmap_2, list_elem_of_fmap_2. exact Hgin.
      - apply list_elem_of_singleton in Hgin as ->. exact Kv. }
    split; [|split].
    + rewrite (map_app fst (G ++ [(v, rows)])), (map_app key). cbn [map fst].
      apply StronglySorted_app. split; [|split; [exact S0|repeat constructor]].
      intros k1 k2 Hk1 Hk2. apply list_elem_of_singleton in Hk2 as ->.
      apply list_elem_of_fmap in Hk1 as (v1 & -> & Hv1).
      apply list_elem_of_fmap in Hv1 as (g & -> & Hgin). now apply K.
    + apply Forall_app. split.
      * rewrite Forall_forall in F0. apply Forall_forall. intros g Hgin.
        destruct (F0 g Hgin) as [Hrows (y & Hy & Hyv)].
        assert (Hne : m_tValue x <> fst g).
        { intros Heq. specialize (K g Hgin). rewrite Heq in K. lia. }
        split.
        -- rewrite filter_app, (filter_cons_False _ x) by exact Hne.
           rewrite filter_nil, app_nil_r. exact Hrows.
        -- exists y. split; [apply elem_of_app; now left|exact Hyv].
      * constructor; [|constructor]. cbn [fst snd]. split.
        -- rewrite filter_app, (filter_cons_True _ x) by reflexivity.
           rewrite filter_nil. rewrite filter_none; [reflexivity|].
           intros y Hy Heq. apply M0 in Hy.
           apply list_elem_of_fmap in Hy as (g & Hg1 & Hgin).
           specialize (K g Hgin). rewrite <- Hg1, Heq in K. lia.
        -- exists x. split; [apply elem_of_app; right; left|reflexivity].
    + intros y Hy. rewrite map_app. apply elem_of_app.
      apply elem_of_app in Hy as [Hy|Hy]; [left; now apply M0|].
      apply list_elem_of_singleton in Hy as ->. right. left.
Qed.

End Feed.

(** ** From the calls to the output: the whole pass *)

Section Pipeline.
Context {E : Externals}.

Lemma wrap_range w x : 0 < w -> 0 <= wrap w x < 2 ^ w.
Proof. intros Hw. unfold wrap. apply Z.mod_pos_bound. lia. Qed.

Lemma to_int64_wrap64 v : - 2 ^ 63 <= v < 2 ^ 63 -> to_int64 (wrap64 v) = v.
Proof.
  intros Hv. unfold to_int64, wrap64, wrap. rewrite Z.mod_mod by lia.
  assert (H64 : 2 ^ 64 = 2 * 2 ^ 63) by reflexivity.
  destruct (Z.ltb_spec v 0) as [Hneg|Hpos].
  - replace (v mod 2 ^ 64) with (v + 2 ^ 64)
      by (apply Z.mod_unique with (q := -1); lia).
    destruct (Z.ltb_spec (v + 2 ^ 64) (2 ^ 63)); lia.
  - rewrite Z.mod_small by lia. destruct (Z.ltb_spec v (2 ^ 63)); lia.
Qed.

Lemma reinterpret_dst_value T v :
  value_in_range T v -> reinterpret T (dst_value T v) = v.
Proof. destruct T; simpl; intros Hv; try reflexivity. now apply to_int64_wrap64. Qed.

Lemma Convert_value T x : m_tValue (Convert T x) = dst_value T (m_tValue x).
Proof. now destruct T. Qed.

Lemma Convert_rowid T x : m_tRowid (Convert T x) = m_tRowid x.
Proof. now destruct T. Qed.

Lemma call_pairs_in_range T eCollation c :
  call_typed c -> Forall (fun p => value_in_range T (m_tValue p)) (call_pairs T eCollation c).
Proof.
  intros Hc. destruct c as [r a|r d|r d|]; destruct T; simpl in *;
    repeat constructor; simpl;
    try (apply (wrap_range 32); lia); try (apply (wrap_range 64); lia); try lia.
  - apply Forall_fmap. apply Forall_forall. intros x _. simpl. apply (wrap_range 32). lia.
  - apply Forall_fmap. eapply Forall_impl; [exact Hc|]. intros x Hx. exact Hx.
Qed.

Lemma new_RawWriter_T eType w00 :
  Builder_c.new_RawWriter eType = Some w00 ->
  RawWriter_T.T w00 = SIWriter_T.SRC_VALUE
                        (GetWriter (RawWriter_T.mk (RawWriter_T.T w00) [] [] [] 0 eType
                                      LIBC_CI F_dst)) /\
  RawWriter_T.m_dRows w00 = [] /\ RawWriter_T.m_dOffset w00 = [].
Proof.
  destruct eType; simpl; intros H; try discriminate; injection H as <-; auto.
Qed.

Lemma sorted_rows v l :
  StronglySorted pair_le l -> Forall (fun p => m_tValue p = v) l ->
  StronglySorted Z.le (map m_tRowid l).
Proof.
  induction 1 as [|x l Hs IH Hx]; intros Hv; [constructor|].
  apply Forall_cons in Hv as [Hxv Hv]. cbn [map]. constructor; [now apply IH|].
  apply Forall_fmap. rewrite Forall_forall in *. intros y Hy.
  specialize (Hx y Hy). specialize (Hv y Hy). unfold pair_le in Hx. simpl. lia.
Qed.

Lemma StronglySorted_filter {A} (R : relation A) (P : A -> Prop)
    `{forall x, Decision (P x)} l :
  StronglySorted R l -> StronglySorted R (filter P l).
Proof.
  induction 1 as [|x l Hs IH Hx]; [constructor|].
  rewrite filter_cons. destruct (decide (P x)); [|exact IH].
  constructor; [exact IH|]. apply Forall_forall. intros y Hy.
  apply list_elem_of_filter in Hy as [_ Hy]. rewrite Forall_forall in Hx. now apply Hx.
Qed.

Lemma filter_Convert T v l :
  value_in_range T v ->
  Forall (fun p => value_in_range T (m_tValue p)) l ->
  map m_tRowid (filter (fun x => m_tValue x = dst_value T v) (map (Convert T) l))
  = map m_tRowid (filter (fun x => m_tValue x = v) l).
Proof.
  intros Hv. induction 1 as [|x l Hx Hl IH]; [reflexivity|].
  cbn [map]. rewrite !filter_cons, Convert_value.
  destruct (decide (dst_value T (m_tValue x) = dst_value T v)) as [Heq|Hne];
    destruct (decide (m_tValue x = v)) as [Heq'|Hne'].
  - cbn [map]. now rewrite IH, Convert_rowid.
  - exfalso. apply Hne'. apply (f_equal (reinterpret T)) in Heq.
    now rewrite !reinterpret_dst_value in Heq.
  - congruence.
  - exact IH.
Qed.

(** What the pass over one collector's input yields: the stream handed
    to the encoder, the groups the encoder forms, and the files. *)
Lemma pipeline eType iAttr eCollation w00 w0 calls w tDst tBlocksOff :
  Builder_c.new_RawWriter eType = Some w00 ->
  RawWriter_T.Setup w00 iAttr eType eCollation = Ok w0 ->
  RawWriter_T.T w0 <> T_float ->
  Forall call_typed calls ->
  collect w0 calls = Ok w ->
  let T := RawWriter_T.T w0 in
  let pairs := flat_map (call_pairs T eCollation) calls in
  Z.of_nat (length pairs) < 2 ^ 32 ->
  let siw := GetWriter (RawWriter_T.Done w) in
  let stream := merged_stream siw in
  let res := SIWriter_T.Process_merge siw tDst tBlocksOff in
  SIWriter_T.SRC_VALUE siw = T /\
  fst (fst res) = [] /\
  stream = std_sort (RawValueCmp T) (SIWriter_T.src_data siw) /\
  StronglySorted pair_le stream /\
  stream ≡ₚ pairs /\
  Forall (fun p => value_in_range T (m_tValue p)) pairs /\
  exists blocks,
    blocks_cut blocks /\
    (stream <> [] -> grouped (map (Convert T) stream) (concat blocks)) /\
    (stream = [] -> blocks = []) /\
    tDstFile (snd res) = tDst ++ concat (map (encode_value_block (DST_of T)) blocks) /\
    tTmpValsPGM (snd res) = WriteRawValues (DST_of T) (map fst (concat blocks)).
Proof.
  intros Hnew Hsetup HT Htyped Hcollect T pairs Hlen siw stream res.
  (* the collector as Setup leaves it *)
  destruct (new_RawWriter_T eType w00 Hnew) as (HT00 & Hrows00 & Hoff00).
  unfold RawWriter_T.Setup in Hsetup.
  destruct (Open_ok (F_attr_tmp iAttr)); [|discriminate]. injection Hsetup as Hw0.
  assert (HTw0 : RawWriter_T.T w0 = RawWriter_T.T w00) by (now rewrite <- Hw0).
  assert (Hinv0 : collector_inv w0 []).
  { rewrite <- Hw0. constructor; cbn; [reflexivity|now rewrite Hoff00|constructor]. }
  assert (Hrows0 : RawWriter_T.m_dRows w0 = []) by (now rewrite <- Hw0).
  assert (Hhash0 : RawWriter_T.m_fnHash w0 = eCollation) by (now rewrite <- Hw0).
  assert (Htype0 : RawWriter_T.m_eAttrType w0 = eType) by (now rewrite <- Hw0).
  (* the calls *)
  destruct (collect_spec calls w0 w [] HT Hcollect Hinv0)
    as (HTw & Hattr & _ & runs & Hinv & Hperm).
  rewrite Hrows0, Hhash0 in Hperm. cbn [concat app] in Hperm. fold T pairs in Hperm.
  (* Done *)
  assert (HTw' : RawWriter_T.T w <> T_float) by congruence.
  destruct (Flush_inv w runs HTw' Hinv) as (runs' & Hinv' & _ & Hperm').
  destruct Hinv' as [Hfile Hoffs Hruns].
  assert (HTf : RawWriter_T.T (RawWriter_T.Flush w) = RawWriter_T.T w).
  { unfold RawWriter_T.Flush. now destruct (_ =? 0). }
  assert (Haf : RawWriter_T.m_eAttrType (RawWriter_T.Flush w) = RawWriter_T.m_eAttrType w).
  { unfold RawWriter_T.Flush. now destruct (_ =? 0). }
  assert (HSRC : SIWriter_T.SRC_VALUE siw = T).
  { unfold siw, GetWriter, RawWriter_T.Done. cbn [RawWriter_T.m_eAttrType SIWriter_T.SRC_VALUE].
    rewrite Haf, Hattr, Htype0. unfold T. rewrite HTw0, HT00. reflexivity. }
  assert (Hdata : SIWriter_T.src_data siw = concat runs') by exact Hfile.
  assert (Hoff : SIWriter_T.m_dOffset siw
                 = run_offsets (sizeof_RawValue (SIWriter_T.SRC_VALUE siw)) 0 runs').
  { rewrite HSRC. unfold T. rewrite <- HTw, <- HTf. exact Hoffs. }
  assert (Hsize : SIWriter_T.m_iFileSize siw
                  = sizeof_RawValue (SIWriter_T.SRC_VALUE siw)
                      * Z.of_nat (length (SIWriter_T.src_data siw))).
  { rewrite HSRC. unfold T. rewrite <- HTw, <- HTf. reflexivity. }
  assert (HTsiw : SIWriter_T.SRC_VALUE siw <> T_float) by (rewrite HSRC; exact HT).
  destruct (merged_stream_sorted siw runs' HTsiw Hoff Hdata Hsize Hruns) as [Hstream Hempty].
  fold stream in Hstream. rewrite HSRC in Hstream.
  assert (Hsp : stream ≡ₚ pairs).
  { rewrite Hstream, std_sort_Permutation, Hdata, Hperm', <- Hperm. reflexivity. }
  assert (Hss : StronglySorted pair_le stream).
  { rewrite Hstream. apply std_sort_sorted. exact HT. }
  assert (Hrange : Forall (fun p => value_in_range T (m_tValue p)) pairs).
  { unfold pairs. apply Forall_flat_map. eapply Forall_impl; [exact Htyped|].
    intros c Hc. now apply call_pairs_in_range. }
  pose proof (Process_merge_feed siw tDst tBlocksOff) as HP. cbv zeta in HP.
  fold res stream in HP. rewrite HSRC in HP.
  assert (Hnf : (match T with T_float => true | _ => false end) = false)
    by (destruct T; congruence).
  rewrite Hnf in HP.
  assert (HDST : SIWriter_T.DST_VALUE siw = DST_of T)
    by (unfold SIWriter_T.DST_VALUE; now rewrite HSRC).
  rewrite HDST in HP.
  split; [exact HSRC|]. split.
  { rewrite HP. cbn [fst]. destruct (merge_next siw (SIWriter_T.open_bins siw)) as [[x next]|] eqn:Hn.
    - exact Hempty.
    - pose proof (merged_stream_sorted siw runs' HTsiw Hoff Hdata Hsize Hruns) as _.
      unfold merge_next in Hn.
      destruct (pq_pop _ (SIWriter_T.open_bins siw)) as [[tBin dBins']|] eqn:Hpop.
      + destruct (BinValue_Read _ _ tBin); discriminate.
      + destruct (SIWriter_T.open_bins siw) as [|b l]; [reflexivity|].
        cbn [pq_pop] in Hpop. destruct (pq_pop _ l) as [[y r]|]; [|discriminate].
        destruct (PQGreater _ b y); discriminate. }
  split; [exact Hstream|]. split; [exact Hss|]. split; [exact Hsp|]. split; [exact Hrange|].
  destruct stream as [|x0 stream'] eqn:Hst.
  - exists []. rewrite HP. cbn [map feed fst snd]. unfold RowWriter_t.Done.
    cbn. rewrite app_nil_r.
    split; [intros i b Hi; discriminate|]. split; [congruence|].
    split; [reflexivity|]. split; reflexivity.
  - assert (Hlen' : Z.of_nat (length (map (Convert T) (x0 :: stream'))) < 2 ^ 32).
    { rewrite length_map, (Permutation_length Hsp). exact Hlen. }
    destruct (feed_Done_spec (DST_of T) (map (Convert T) (x0 :: stream')) tDst tBlocksOff
                ltac:(discriminate) Hlen') as (blocks & Hg & Hcut & Hd & Hp).
    exists blocks. rewrite HP. cbn [fst snd].
    split; [exact Hcut|]. split; [intros _; exact Hg|]. split; [discriminate|].
    split; [exact Hd|exact Hp].
Qed.

Lemma read_raw_WriteRawValues n l : forall fuel,
  (1 <= n)%nat ->
  (length (concat (map (le_bytes n) l)) <= fuel)%nat ->
  read_raw fuel n (concat (map (le_bytes n) l)) = map (fun x => x mod 256 ^ Z.of_nat n) l.
Proof.
  induction l as [|x l IH]; intros fuel Hn Hfuel.
  - destruct fuel; [reflexivity|]. cbn [map concat read_raw length].
    replace (0 <? n)%nat with true by (symmetry; apply Nat.ltb_lt; lia). reflexivity.
  - cbn [map concat] in *. rewrite length_app, le_bytes_length in Hfuel.
    destruct fuel as [|fuel]; [lia|]. cbn [read_raw].
    rewrite length_app, le_bytes_length.
    replace (n + length (concat (map (le_bytes n) l)) <? n)%nat with false
      by (symmetry; apply Nat.ltb_ge; lia).
    replace (Nat.eqb (n + length (concat (map (le_bytes n) l))) 0) with false
      by (symmetry; apply Nat.eqb_neq; lia).
    cbn [orb]. rewrite take_app_length' by (now rewrite le_bytes_length).
    rewrite drop_app_length' by (now rewrite le_bytes_length).
    rewrite le_value_le_bytes, IH by lia. reflexivity.
Qed.

Lemma dst_value_range T v : T <> T_float -> value_in_range T v ->
  0 <= dst_value T v < 256 ^ Z.of_nat (sizeof_VALUE (DST_of T)).
Proof.
  intros HT Hv. destruct T; simpl in *; try congruence.
  - change (256 ^ 4) with (2 ^ 32). exact Hv.
  - change (256 ^ 8) with (2 ^ 64). exact Hv.
  - change (256 ^ 8) with (2 ^ 64). apply (wrap_range 64). lia.
Qed.

Lemma MappedBuffer_WriteRawValues T vs : T <> T_float ->
  Forall (value_in_range T) vs ->
  MappedBuffer T (WriteRawValues (DST_of T) (map (dst_value T) vs)) = vs.
Proof.
  intros HT Hvs. unfold MappedBuffer, WriteRawValues.
  assert (Hsz : sizeof_VALUE T = sizeof_VALUE (DST_of T)) by (now destruct T).
  rewrite Hsz, read_raw_WriteRawValues; [|destruct T; simpl; lia|lia].
  rewrite <- !list_fmap_compose. 
  induction Hvs as [|v vs Hv _ IH]; [reflexivity|]. cbn [fmap list_fmap]. f_equal; [|exact IH].
  unfold compose. rewrite Z.mod_small by (now apply dst_value_range).
  now apply reinterpret_dst_value.
Qed.

Lemma is_sorted_lt l : StronglySorted Z.lt l -> is_sorted Z.ltb l = true.
Proof.
  induction 1 as [|x l Hs IH Hx]; [reflexivity|].
  cbn [is_sorted]. destruct l as [|y l]; [reflexivity|].
  apply Forall_cons in Hx as [Hxy _]. rewrite IH, andb_true_r.
  apply negb_true_iff, Z.ltb_ge. lia.
Qed.

(** The groups the encoder forms from the merged stream, read on the
    source side: strictly increasing values, one group per value of the
    input, each with the row-ids of the pairs of its value. *)
Lemma groups_of_stream T (stream : list RawValue_T) G :
  T <> T_float ->
  StronglySorted pair_le stream ->
  Forall (fun p => value_in_range T (m_tValue p)) stream ->
  grouped (map (Convert T) stream) G ->
  exists vs,
    map fst G = map (dst_value T) vs /\
    StronglySorted Z.lt vs /\
    Forall (value_in_range T) vs /\
    (forall v, v ∈ vs <-> exists p, p ∈ stream /\ m_tValue p = v) /\
    map snd G = map (fun v => map m_tRowid (filter (fun p => m_tValue p = v) stream)) vs.
Proof.
  intros HT Hss Hrange Hg.
  assert (Hkey : forall p, p ∈ stream ->
            reinterpret T (m_tValue (Convert T p)) = m_tValue p).
  { intros p Hp. rewrite Convert_value. apply reinterpret_dst_value.
    rewrite Forall_forall in Hrange. now apply Hrange. }
  destruct (grouped_sorted (reinterpret T) _ _ Hg) as (S0 & F0 & M0).
  - clear Hg. induction Hss as [|x l Hs IH Hx]; [constructor|].
    cbn [map]. apply Forall_cons in Hrange as [Hxr Hlr].
    constructor.
    + apply IH; [exact Hlr|]. intros p Hp. apply Hkey. now right.
    + apply Forall_fmap. apply Forall_forall. intros y Hy. simpl.
      rewrite (Hkey x) by left. rewrite (Hkey y) by (now right).
      rewrite Forall_forall in Hx. specialize (Hx y Hy). unfold pair_le in Hx. lia.
  - intros a b Ha Hb Heq.
    apply list_elem_of_fmap in Ha as (a0 & -> & Ha0).
    apply list_elem_of_fmap in Hb as (b0 & -> & Hb0).
    rewrite !Hkey in Heq by assumption. rewrite !Convert_value. now rewrite Heq.
  - exists (map (reinterpret T) (map fst G)).
    assert (Hback : forall g, g ∈ G ->
              value_in_range T (reinterpret T (fst g)) /\
              dst_value T (reinterpret T (fst g)) = fst g /\
              exists p, p ∈ stream /\ m_tValue p = reinterpret T (fst g)).
    { intros g Hgin. rewrite Forall_forall in F0.
      destruct (F0 g Hgin) as [_ (x' & Hx' & Hxv)].
      apply list_elem_of_fmap in Hx' as (p & -> & Hp).
      rewrite <- Hxv, (Hkey p Hp). split; [|split].
      - rewrite Forall_forall in Hrange. now apply Hrange.
      - now rewrite Convert_value.
      - now exists p. }
    split; [|split; [exact S0|split; [|split]]].
    + rewrite <- !list_fmap_compose. apply list_fmap_ext. intros i g Hi.
      unfold compose. symmetry. apply Hback. eapply list_elem_of_lookup_2. exact Hi.
    + apply Forall_fmap, Forall_fmap. apply Forall_forall. intros g Hgin. simpl.
      now apply Hback.
    + intros v. split.
      * intros Hv. apply list_elem_of_fmap in Hv as (v' & -> & Hv').
        apply list_elem_of_fmap in Hv' as (g & -> & Hgin). now apply Hback.
      * intros (p & Hp & Hpv).
        assert (Hin : m_tValue (Convert T p) ∈ map fst G).
        { apply M0. now apply list_elem_of_fmap_2. }
        apply (list_elem_of_fmap_2 (reinterpret T)) in Hin. now rewrite (Hkey p Hp), Hpv in Hin.
    + rewrite <- !list_fmap_compose. apply list_fmap_ext. intros i g Hi.
      unfold compose. assert (Hgin : g ∈ G) by (eapply list_elem_of_lookup_2; exact Hi).
      rewrite Forall_forall in F0. destruct (F0 g Hgin) as [Hrows _].
      destruct (Hback g Hgin) as (Hr & Hd & _).
      rewrite Hrows. rewrite <- (filter_Convert T (reinterpret T (fst g)) stream Hr Hrange).
      now rewrite Hd.
Qed.

End Pipeline.

(** ** More on the varint codec *)

Section VarintLength.
Import ByteCodec_c.

Lemma CalcPackedLen_loop_le fuel : forall u n j,
  0 <= u < 2 ^ (7 * Z.of_nat j) ->
  (CalcPackedLen_loop fuel u n <= n + j)%nat.
Proof.
  induction fuel as [|fuel IH]; intros u n j Hu; simpl; [lia|].
  destruct (Z.eqb_spec u 0) as [->|Hne]; [lia|].
  destruct j as [|j]; [simpl in Hu; lia|].
  assert (Hs : 0 <= Z.shiftr u 7 < 2 ^ (7 * Z.of_nat j)).
  { rewrite Z.shiftr_div_pow2 by lia. split; [apply Z.div_pos; lia|].
    apply Z.div_lt_upper_bound; [lia|].
    rewrite <- Z.pow_add_r by lia.
    replace (7 + 7 * Z.of_nat j) with (7 * Z.of_nat (S j)) by lia. lia. }
  specialize (IH (Z.shiftr u 7) (S n) j Hs). lia.
Qed.

Lemma shiftr_lt_pow2 v k : 0 <= v -> 0 <= k -> (Z.shiftr v k = 0 <-> v < 2 ^ k).
Proof.
  intros Hv Hk. rewrite Z.shiftr_div_pow2 by lia. split; intros H.
  - apply Z.div_small_iff in H; lia.
  - apply Z.div_small. lia.
Qed.

Lemma CalcPackedLen_le v k : 0 <= v < 2 ^ 64 -> (1 <= k)%nat ->
  ((CalcPackedLen v <= k)%nat <-> v < 2 ^ (7 * Z.of_nat k)).
Proof.
  intros Hv Hk. split; intros H.
  - pose proof (CalcPackedLen_covers v Hv) as Hc.
    apply shiftr_lt_pow2 in Hc; [|lia|lia].
    assert (2 ^ (7 * Z.of_nat (CalcPackedLen v)) <= 2 ^ (7 * Z.of_nat k))
      by (apply Z.pow_le_mono_r; lia).
    lia.
  - unfold CalcPackedLen, wrap64, wrap. rewrite Z.mod_small by lia.
    assert (Hs : 0 <= Z.shiftr v 7 < 2 ^ (7 * Z.of_nat (k - 1))).
    { rewrite Z.shiftr_div_pow2 by lia. split; [apply Z.div_pos; lia|].
      apply Z.div_lt_upper_bound; [lia|].
      rewrite <- Z.pow_add_r by lia.
      replace (7 + 7 * Z.of_nat (k - 1)) with (7 * Z.of_nat k) by lia. lia. }
    pose proof (CalcPackedLen_loop_le 64 (Z.shiftr v 7) 1 (k - 1) Hs). lia.
Qed.

(** [(x mod 2^w) << 7 | g] and [x << 7 | g] agree modulo [2^w]. *)
Lemma wrap_shift_group w x g : 7 <= w -> 0 <= x ->
  Z.lor (wrap w (Z.shiftl (wrap w x) 7)) (Z.land g 127)
  = wrap w (Z.lor (Z.shiftl x 7) (Z.land g 127)).
Proof.
  intros Hw Hx. unfold wrap. apply Z.bits_inj'. intros k Hk.
  rewrite Z.lor_spec. change 127 with (Z.ones 7). rewrite Z.land_spec.
  destruct (Z.ltb_spec k w) as [Hlt|Hge].
  - rewrite !Z.mod_pow2_bits_low by lia. rewrite Z.lor_spec, Z.land_spec.
    f_equal. destruct (Z.ltb_spec k 7).
    + now rewrite !Z.shiftl_spec_low by lia.
    + rewrite !Z.shiftl_spec by lia. now rewrite Z.mod_pow2_bits_low by lia.
  - rewrite !Z.mod_pow2_bits_high by lia.
    rewrite Z.ones_spec_high by lia. now rewrite andb_false_r.
Qed.

Lemma DecodeValue_loop_EncodeValue_loop_wrap w v rest : 7 <= w -> 0 <= v -> forall i,
  DecodeValue_loop w (EncodeValue_loop (S i) v ++ rest)
                   (wrap w (Z.shiftr v (7 * Z.of_nat (S i)))) = Some (wrap w v, rest).
Proof.
  intros Hw Hv.
  assert (Hstep : forall j,
            Z.lor (wrap w (Z.shiftl (wrap w (Z.shiftr v (7 * Z.of_nat (S j)))) 7))
                  (Z.land (Z.shiftr v (7 * Z.of_nat j)) 127)
            = wrap w (Z.shiftr v (7 * Z.of_nat j))).
  { intros j. set (x := Z.shiftr v (7 * Z.of_nat j)).
    assert (Hx : 0 <= x) by (unfold x; apply Z.shiftr_nonneg; lia).
    replace (Z.shiftr v (7 * Z.of_nat (S j))) with (Z.shiftr x 7)
      by (unfold x; rewrite Z.shiftr_shiftr by lia; f_equal; lia).
    rewrite wrap_shift_group; [|lia|apply Z.shiftr_nonneg; lia].
    now rewrite group_split. }
  induction i as [|i IH].
  - simpl EncodeValue_loop. simpl app. unfold DecodeValue_loop.
    rewrite Z.shiftr_0_r. rewrite land_flag_clear. simpl (0 =? 0).
    specialize (Hstep 0%nat). simpl Z.of_nat in Hstep. rewrite Z.shiftr_0_r in Hstep.
    simpl Z.of_nat. now rewrite Hstep.
  - change (EncodeValue_loop (S (S i)) v)
      with (Z.lor (Z.land (Z.shiftr v (7 * Z.of_nat (S i))) 127) 128 :: EncodeValue_loop (S i) v).
    simpl app. cbn [DecodeValue_loop].
    rewrite land_flag_set. simpl (128 =? 0). rewrite land_payload.
    rewrite Hstep. exact IH.
Qed.

Lemma DecodeValue_EncodeValue_wrap w v rest : 7 <= w -> 0 <= v < 2 ^ 64 ->
  DecodeValue w (EncodeValue v ++ rest) = Some (wrap w v, rest).
Proof.
  intros Hw Hv. unfold DecodeValue, EncodeValue.
  pose proof (CalcPackedLen_pos v) as Hn. pose proof (CalcPackedLen_covers v Hv) as Hc.
  destruct (CalcPackedLen v) as [|i]; [lia|].
  replace 0 with (wrap w (Z.shiftr v (7 * Z.of_nat (S i)))) at 1
    by (rewrite Hc; unfold wrap; apply Z.mod_0_l; lia).
  apply DecodeValue_loop_EncodeValue_loop_wrap; lia.
Qed.

End VarintLength.

(** X1.  [EncodeValue] is the shortest encoding in 7-bit groups: it emits
    [CalcPackedLen] bytes, [k] bytes suffice exactly for the values below
    [2^(7k)], a 64-bit value takes at most ten bytes and a 32-bit value at
    most five, so the 16-byte buffers of [PackValue] and [PackData] are
    never overrun. *)
Theorem EncodeValue_shortest (v : Z) :
  0 <= v < 2 ^ 64 ->
  let n := length (ByteCodec_c.EncodeValue v) in
  n = ByteCodec_c.CalcPackedLen v /\
  (1 <= n <= 10)%nat /\
  (forall k, (1 <= k)%nat -> ((n <= k)%nat <-> v < 2 ^ (7 * Z.of_nat k))) /\
  (v < 2 ^ 32 -> (n <= 5)%nat).
Proof.
  intros Hv n. unfold n, ByteCodec_c.EncodeValue. rewrite EncodeValue_loop_length.
  split; [reflexivity|]. split; [|split].
  - split; [apply CalcPackedLen_pos|].
    apply (CalcPackedLen_le v 10 Hv); [lia|].
    assert (2 ^ 64 < 2 ^ (7 * Z.of_nat 10)) by (apply Z.pow_lt_mono_r; lia). lia.
  - intros k Hk. now apply CalcPackedLen_le.
  - intros H32. apply (CalcPackedLen_le v 5 Hv); [lia|].
    assert (2 ^ 32 < 2 ^ (7 * Z.of_nat 5)) by (apply Z.pow_lt_mono_r; lia). lia.
Qed.

Lemma EncodeValue_shortest_witness :
  ByteCodec_c.EncodeValue 16384 = [129; 128; 0] /\
  ((length (ByteCodec_c.EncodeValue 16384) <= 2)%nat <-> 16384 < 2 ^ (7 * Z.of_nat 2)).
Proof.
  split; [reflexivity|].
  destruct (EncodeValue_shortest 16384 ltac:(lia)) as (_ & _ & H & _).
  exact (H 2%nat ltac:(lia)).
Defined.

(** X2.  [DecodeValue<T>] does not check the width of what it reads: reading
    the encoding of a 64-bit value as [uint32_t] consumes the whole
    encoding and returns the value modulo [2^32]. *)
Theorem Unpack_uint32_truncates (v : Z) (rest : list Z) :
  0 <= v < 2 ^ 64 ->
  ByteCodec_c.Unpack_uint32 (ByteCodec_c.Pack_uint64 v ++ rest) = Some (v mod 2 ^ 32, rest) /\
  (v < 2 ^ 32 ->
   ByteCodec_c.Unpack_uint32 (ByteCodec_c.Pack_uint32 v ++ rest) = Some (v, rest)) /\
  ByteCodec_c.Unpack_uint64 (ByteCodec_c.Pack_uint64 v ++ rest) = Some (v, rest).
Proof.
  intros Hv. unfold ByteCodec_c.Unpack_uint32, ByteCodec_c.Unpack_uint64,
    ByteCodec_c.Pack_uint64, ByteCodec_c.Pack_uint32.
  split; [|split].
  - now rewrite DecodeValue_EncodeValue_wrap by lia.
  - intros H32. rewrite DecodeValue_EncodeValue_wrap by lia.
    unfold wrap. now rewrite Z.mod_small by lia.
  - rewrite DecodeValue_EncodeValue_wrap by lia.
    unfold wrap. now rewrite Z.mod_small by lia.
Qed.

Lemma Unpack_uint32_truncates_witness :
  ByteCodec_c.Unpack_uint32 (ByteCodec_c.Pack_uint64 (2 ^ 32 + 5) ++ [9]) = Some (5, [9]).
Proof.
  destruct (Unpack_uint32_truncates (2 ^ 32 + 5) [9] ltac:(lia)) as [H _]. exact H.
Defined.

(** ** PackData, MemWriter_c and the vector writers *)

Section Writers.

Lemma vector_resize_length n l : length (vector_resize n l) = n.
Proof.
  unfold vector_resize. rewrite length_take, length_app, length_replicate. lia.
Qed.

Lemma vector_resize_prefix n l : (length l <= n)%nat -> take (length l) (vector_resize n l) = l.
Proof.
  intros H. unfold vector_resize. rewrite take_take, Nat.min_l by lia.
  now rewrite take_app_length.
Qed.

Lemma overwrite_fill {A} (l a b : list A) :
  length l = (length a + length b)%nat ->
  overwrite (overwrite l 0 a) (length a) b = a ++ b.
Proof.
  intros Hl. unfold overwrite. rewrite take_0. cbn [app Nat.add].
  rewrite take_app_length. f_equal.
  rewrite drop_app_ge by lia. rewrite drop_drop.
  rewrite drop_ge by lia. now rewrite app_nil_r.
Qed.

Lemma overwrite_end (l a : list Z) :
  overwrite (vector_resize (length l + length a) l) (length l) a = l ++ a.
Proof.
  unfold overwrite. rewrite vector_resize_prefix by lia. f_equal.
  rewrite drop_ge by (rewrite vector_resize_length; lia). now rewrite app_nil_r.
Qed.

Lemma le_bytes_app a b : forall x,
  le_bytes (a + b) x = le_bytes a x ++ le_bytes b (x / 256 ^ Z.of_nat a).
Proof.
  induction a as [|a IH]; intros x.
  - cbn [Nat.add le_bytes app]. now rewrite Z.div_1_r.
  - cbn [Nat.add le_bytes app]. rewrite IH. do 2 f_equal.
    assert (0 < 256 ^ Z.of_nat a) by (apply Z.pow_pos_nonneg; lia).
    rewrite Z.div_div by lia. f_equal.
    replace (Z.of_nat (S a)) with (1 + Z.of_nat a) by lia.
    rewrite Z.pow_add_r by lia. reflexivity.
Qed.

Lemma le_bytes_zero n : le_bytes n 0 = replicate n 0.
Proof.
  induction n as [|n IH]; [reflexivity|]. cbn [le_bytes replicate].
  change (0 mod 256) with 0. change (0 / 256) with 0. now rewrite IH.
Qed.

Lemma PackData_eq dPacked dData :
  PackData dPacked dData
  = ByteCodec_c.Pack_uint64 (Z.of_nat (length dData)) ++ dData.
Proof.
  unfold PackData. apply overwrite_fill.
  rewrite vector_resize_length. unfold ByteCodec_c.Pack_uint64, ByteCodec_c.EncodeValue.
  rewrite EncodeValue_loop_length. lia.
Qed.

Lemma PackData_span_eq sizeof_T dData fill :
  PackData_span sizeof_T dData fill
  = ByteCodec_c.Pack_uint64 (Z.of_nat (length dData * sizeof_T))
      ++ concat (map (le_bytes sizeof_T) dData).
Proof.
  unfold PackData_span, PackData_len. apply overwrite_fill.
  rewrite vector_resize_length. f_equal.
  induction dData as [|x l IH]; [reflexivity|].
  cbn [map concat length]. rewrite length_app, le_bytes_length. lia.
Qed.

End Writers.

(** X3.  [PackData] fills the vector it sizes exactly: the packed length,
    then the data, whatever the vector held before; reading the length back
    with [Unpack_uint64] leaves the data.  The template overload packs the
    length in bytes, not the number of elements. *)
Theorem PackData_layout (dPacked dData rest : list Z) :
  Z.of_nat (length dData) < 2 ^ 64 ->
  PackData dPacked dData = ByteCodec_c.Pack_uint64 (Z.of_nat (length dData)) ++ dData /\
  length (PackData dPacked dData)
    = (ByteCodec_c.CalcPackedLen (Z.of_nat (length dData)) + length dData)%nat /\
  ByteCodec_c.Unpack_uint64 (PackData dPacked dData ++ rest)
    = Some (Z.of_nat (length dData), dData ++ rest) /\
  (forall (sizeof_T : nat) (dElems fill : list Z),
     Z.of_nat (length dElems * sizeof_T) < 2 ^ 64 ->
     ByteCodec_c.Unpack_uint64 (PackData_span sizeof_T dElems fill ++ rest)
       = Some (Z.of_nat (length dElems * sizeof_T),
               concat (map (le_bytes sizeof_T) dElems) ++ rest)).
Proof.
  intros Hlen. rewrite PackData_eq. split; [reflexivity|]. split; [|split].
  - rewrite length_app. unfold ByteCodec_c.Pack_uint64, ByteCodec_c.EncodeValue.
    now rewrite EncodeValue_loop_length.
  - rewrite <- app_assoc. unfold ByteCodec_c.Unpack_uint64, ByteCodec_c.Pack_uint64.
    apply DecodeValue_EncodeValue; lia.
  - intros sizeof_T dElems fill Hsz. rewrite PackData_span_eq, <- app_assoc.
    unfold ByteCodec_c.Unpack_uint64, ByteCodec_c.Pack_uint64.
    apply DecodeValue_EncodeValue; lia.
Qed.

Lemma PackData_layout_witness :
  PackData [1; 2; 3; 4; 5; 6; 7; 8; 9] [104; 105] = [2; 104; 105] /\
  ByteCodec_c.Unpack_uint64 (PackData [] [104; 105] ++ [7]) = Some (2, [104; 105; 7]) /\
  PackData_span 4 [1; 258] [] = [8; 1; 0; 0; 0; 2; 1; 0; 0].
Proof.
  destruct (PackData_layout [] [104; 105] [7] ltac:(simpl; lia)) as (_ & _ & H & _).
  split; [reflexivity|]. split; [exact H|reflexivity].
Defined.

(** X4.  Every [MemWriter_c] operation appends to the vector.
    [Write_uint32] takes its argument as [uint64_t] and so appends eight
    bytes, not four: a 32-bit value is followed by four zero bytes, and
    [WriteVectorRawLen32] through a [MemWriter_c] writes an 8-byte length
    field where a [FileWriter_c] writes four bytes. *)
Theorem MemWriter_c_Write_uint32_appends_8_bytes (m_dData : list Z) (uValue : Z) :
  MemWriter_c.Write_uint8 m_dData uValue = m_dData ++ Write_uint8 uValue /\
  MemWriter_c.Write_uint32 m_dData uValue = m_dData ++ Write_uint64 (wrap64 uValue) /\
  MemWriter_c.GetPos (MemWriter_c.Write_uint32 m_dData uValue)
    = MemWriter_c.GetPos m_dData + 8 /\
  MemWriter_c.Pack_uint32 m_dData uValue
    = m_dData ++ ByteCodec_c.Pack_uint32 (wrap32 uValue) /\
  MemWriter_c.Pack_uint64 m_dData uValue
    = m_dData ++ ByteCodec_c.Pack_uint64 (wrap64 uValue) /\
  (0 <= uValue < 2 ^ 32 ->
     MemWriter_c.Write_uint32 m_dData uValue
       = m_dData ++ Write_uint32 uValue ++ [0; 0; 0; 0]) /\
  (forall dData, Z.of_nat (length dData) < 2 ^ 32 ->
     MemWriter_c.WriteVectorRawLen32 m_dData dData
       = m_dData ++ Write_uint32 (Z.of_nat (length dData)) ++ [0; 0; 0; 0] ++ dData /\
     WriteVectorRawLen32 dData = Write_uint32 (Z.of_nat (length dData)) ++ dData).
Proof.
  assert (H8 : forall v, 0 <= v < 2 ^ 32 ->
            le_bytes 8 (wrap64 v) = Write_uint32 v ++ [0; 0; 0; 0]).
  { intros v Hv. unfold wrap64, wrap. rewrite Z.mod_small by lia.
    change 8%nat with (4 + 4)%nat. rewrite le_bytes_app.
    change (256 ^ Z.of_nat 4) with (2 ^ 32). rewrite Z.div_small by lia.
    now rewrite le_bytes_zero. }
  split; [|split; [|split; [|split; [|split; [|split]]]]].
  - unfold MemWriter_c.Write_uint8, Write_uint8, wrap. cbn [le_bytes].
    now change (2 ^ 8) with 256.
  - reflexivity.
  - unfold MemWriter_c.GetPos, MemWriter_c.Write_uint32, MemWriter_c.WriteValue,
      MemWriter_c.Write. rewrite length_app, le_bytes_length. lia.
  - unfold MemWriter_c.Pack_uint32, MemWriter_c.PackValue. apply overwrite_end.
  - unfold MemWriter_c.Pack_uint64, MemWriter_c.PackValue. apply overwrite_end.
  - intros Hv. unfold MemWriter_c.Write_uint32, MemWriter_c.WriteValue, MemWriter_c.Write.
    now rewrite H8.
  - intros dData Hlen. unfold MemWriter_c.WriteVectorRawLen32, MemWriter_c.Write_uint32,
      MemWriter_c.WriteValue, MemWriter_c.Write, WriteVectorRawLen32.
    rewrite wrap32_small by lia. rewrite H8 by lia.
    now rewrite <- !app_assoc.
Qed.

(** X5.  The length-prefixed vector writers can be read back: the varint
    in front of [WriteVectorLen] and [WriteVectorLen32] is the number of
    elements and the data follow it untouched, and [WriteVectorPacked] is
    read back element by element, leaving what comes after it. *)
Theorem vector_writers_read_back (dBytes dWords dPacked rest : list Z) :
  Z.of_nat (length dBytes) < 2 ^ 64 ->
  Z.of_nat (length dWords) < 2 ^ 32 ->
  Z.of_nat (length dPacked) < 2 ^ 32 ->
  Forall (fun x => 0 <= x < 2 ^ 64) dPacked ->
  ByteCodec_c.Unpack_uint64 (WriteVectorLen dBytes ++ rest)
    = Some (Z.of_nat (length dBytes), dBytes ++ rest) /\
  ByteCodec_c.Unpack_uint32 (WriteVectorLen32 dWords ++ rest)
    = Some (Z.of_nat (length dWords), raw_uint32 dWords ++ rest) /\
  length (raw_uint32 dWords) = (4 * length dWords)%nat /\
  ReadVectorPacked (WriteVectorPacked dPacked ++ rest) = Some (dPacked, rest).
Proof.
  intros Hb Hw Hp Hr. split; [|split; [|split]].
  - unfold WriteVectorLen, ByteCodec_c.Unpack_uint64, ByteCodec_c.Pack_uint64.
    rewrite <- app_assoc. apply DecodeValue_EncodeValue; lia.
  - unfold WriteVectorLen32, ByteCodec_c.Unpack_uint32, ByteCodec_c.Pack_uint32.
    rewrite wrap32_small by lia.
    rewrite <- app_assoc. apply DecodeValue_EncodeValue; lia.
  - unfold raw_uint32, Write_uint32. induction dWords as [|x l IH]; [reflexivity|].
    cbn [map concat length]. rewrite length_app, le_bytes_length.
    rewrite IH by (cbn [length] in Hw; lia). lia.
  - now apply ReadVectorPacked_WriteVectorPacked.
Qed.

Lemma vector_writers_read_back_witness :
  ByteCodec_c.Unpack_uint64 (WriteVectorLen [7; 8; 9] ++ [1]) = Some (3, [7; 8; 9; 1]) /\
  ReadVectorPacked (WriteVectorPacked [0; 300; 2 ^ 40] ++ [1]) = Some ([0; 300; 2 ^ 40], [1]).
Proof.
  destruct (vector_writers_read_back [7; 8; 9] [5] [0; 300; 2 ^ 40] [1]) as (H1 & _ & _ & H4).
  - simpl; lia.
  - simpl; lia.
  - simpl; lia.
  - repeat constructor; lia.
  - split; [exact H1|exact H4].
Defined.

(** ** SpanResizeable_T *)

(** X6.  [SpanResizeable_T::resize] never shrinks its vector: the vector
    has [m_tMaxLength] elements, the largest length asked for so far, the
    span lies inside it, and the elements stay where they are.  Growing
    back within that capacity therefore shows the old elements again
    (a [std::vector::resize] would show zeros). *)
Theorem SpanResizeable_T_resize_keeps_storage (s : SpanResizeable_T.t) (tLength : nat) :
  length (SpanResizeable_T.m_dData s) = SpanResizeable_T.m_tMaxLength s ->
  (SpanResizeable_T.m_tLength s <= SpanResizeable_T.m_tMaxLength s)%nat ->
  let s' := SpanResizeable_T.resize s tLength in
  length (SpanResizeable_T.m_dData s') = SpanResizeable_T.m_tMaxLength s' /\
  SpanResizeable_T.m_tMaxLength s' = Nat.max (SpanResizeable_T.m_tMaxLength s) tLength /\
  SpanResizeable_T.m_tLength s' = tLength /\
  length (SpanResizeable_T.span s') = tLength /\
  take (SpanResizeable_T.m_tMaxLength s) (SpanResizeable_T.m_dData s')
    = SpanResizeable_T.m_dData s /\
  ((tLength <= SpanResizeable_T.m_tLength s)%nat ->
     SpanResizeable_T.span s' = take tLength (SpanResizeable_T.span s) /\
     SpanResizeable_T.span (SpanResizeable_T.resize s' (SpanResizeable_T.m_tLength s))
       = SpanResizeable_T.span s).
Proof.
  intros Hdata Hlen s'. unfold s', SpanResizeable_T.resize, SpanResizeable_T.span.
  destruct (Nat.ltb_spec (SpanResizeable_T.m_tMaxLength s) tLength) as [Hgrow|Hkeep];
    cbn [SpanResizeable_T.m_dData SpanResizeable_T.m_tMaxLength SpanResizeable_T.m_tLength].
  - split; [apply vector_resize_length|]. split; [lia|]. split; [reflexivity|].
    split; [rewrite length_take, vector_resize_length; lia|]. split.
    + rewrite <- Hdata. apply vector_resize_prefix. lia.
    + intros Hle. lia.
  - split; [exact Hdata|]. split; [lia|]. split; [reflexivity|].
    split; [rewrite length_take; lia|]. split.
    + rewrite <- Hdata. apply firstn_all.
    + intros Hle. split.
      * rewrite take_take. f_equal. lia.
      * destruct (Nat.ltb_spec (SpanResizeable_T.m_tMaxLength s)
                    (SpanResizeable_T.m_tLength s)); [lia|]. reflexivity.
Qed.

Lemma SpanResizeable_T_resize_keeps_storage_witness :
  let s := SpanResizeable_T.mk [5; 6; 7] 3 3 in
  SpanResizeable_T.span (SpanResizeable_T.resize s 1) = [5] /\
  SpanResizeable_T.span (SpanResizeable_T.resize (SpanResizeable_T.resize s 1) 3) = [5; 6; 7].
Proof.
  intros s.
  destruct (SpanResizeable_T_resize_keeps_storage s 1 eq_refl ltac:(simpl; lia))
    as (_ & _ & _ & _ & _ & H).
  destruct (H ltac:(simpl; lia)) as [H1 H2]. split; [exact H1|exact H2].
Defined.

(** ** binary_search and binary_search_idx *)

Section BinarySearch.

Lemma lower_bound_loop_spec dValues tValue fuel : forall first len,
  (len <= fuel)%nat ->
  (first + len <= length dValues)%nat ->
  ((first + len)%nat = length dValues \/
   exists x, dValues !! (first + len)%nat = Some x /\ tValue <= x) ->
  let p := lower_bound_loop fuel dValues tValue first len in
  (first <= p <= first + len)%nat /\
  (p = length dValues \/ exists x, dValues !! p = Some x /\ tValue <= x).
Proof.
  induction fuel as [|fuel IH]; intros first len Hfuel Hin Hend; cbn [lower_bound_loop].
  - assert (len = 0%nat) by lia. subst len. rewrite Nat.add_0_r in *. split; [lia|exact Hend].
  - destruct (Nat.eqb_spec len 0) as [->|Hne].
    { rewrite Nat.add_0_r in *. split; [lia|exact Hend]. }
    cbv zeta.
    assert (Hhalf : (len / 2 < len)%nat) by (apply Nat.div_lt; lia).
    destruct (lookup_lt_is_Some_2 dValues (first + len / 2)) as [x Hx]; [lia|].
    rewrite Hx. cbn [default]. unfold id.
    destruct (Z.ltb_spec x tValue) as [Hlt|Hge].
    + destruct (IH (S (first + len / 2)) (len - len / 2 - 1)%nat) as [Hp Hq].
      * lia.
      * lia.
      * replace (S (first + len / 2) + (len - len / 2 - 1))%nat with (first + len)%nat by lia.
        exact Hend.
      * split; [lia|exact Hq].
    + destruct (IH first (len / 2)%nat) as [Hp Hq].
      * lia.
      * lia.
      * right. exists x. split; [exact Hx|lia].
      * split; [lia|exact Hq].
Qed.

Lemma StronglySorted_le_lookup (l : list Z) : StronglySorted Z.le l ->
  forall i j x y, (i <= j)%nat -> l !! i = Some x -> l !! j = Some y -> x <= y.
Proof.
  induction 1 as [|a l Hs IH Ha]; intros i j x y Hij Hi Hj; [discriminate|].
  destruct i as [|i]; destruct j as [|j]; cbn in Hi, Hj.
  - assert (x = y) by congruence. lia.
  - injection Hi as <-. rewrite Forall_forall in Ha. apply Ha.
    eapply list_elem_of_lookup_2. exact Hj.
  - lia.
  - apply (IH i j); [lia|exact Hi|exact Hj].
Qed.

Lemma lower_bound_loop_sorted dValues tValue fuel :
  StronglySorted Z.le dValues -> forall first len,
  (len <= fuel)%nat ->
  (first + len <= length dValues)%nat ->
  (forall j x, (j < first)%nat -> dValues !! j = Some x -> x < tValue) ->
  forall j x, (j < lower_bound_loop fuel dValues tValue first len)%nat ->
    dValues !! j = Some x -> x < tValue.
Proof.
  intros Hs. induction fuel as [|fuel IH]; intros first len Hfuel Hin Hlow;
    cbn [lower_bound_loop]; [exact Hlow|].
  destruct (Nat.eqb_spec len 0) as [->|Hne]; [exact Hlow|]. cbv zeta.
  assert (Hhalf : (len / 2 < len)%nat) by (apply Nat.div_lt; lia).
  destruct (lookup_lt_is_Some_2 dValues (first + len / 2)) as [x Hx]; [lia|].
  rewrite Hx. cbn [default]. unfold id.
  destruct (Z.ltb_spec x tValue) as [Hlt|Hge].
  - apply IH; [lia|lia|]. intros j y Hj Hy.
    pose proof (StronglySorted_le_lookup _ Hs j (first + len / 2)%nat y x ltac:(lia) Hy Hx).
    lia.
  - apply IH; [lia|lia|exact Hlow].
Qed.

Lemma to_int32_small x : 0 <= x < 2 ^ 31 -> to_int32 x = x.
Proof.
  intros Hx. unfold to_int32. rewrite wrap32_small by lia.
  destruct (Z.ltb_spec x (2 ^ 31)); lia.
Qed.

Lemma lower_bound_spec dValues tValue :
  let p := lower_bound dValues tValue in
  (p <= length dValues)%nat /\
  (p = length dValues \/ exists x, dValues !! p = Some x /\ tValue <= x).
Proof.
  destruct (lower_bound_loop_spec dValues tValue (length dValues) 0 (length dValues))
    as [Hp Hq]; [lia|lia|now left|].
  split; [unfold lower_bound; lia|exact Hq].
Qed.

End BinarySearch.

(** X7.  On a vector sorted in ascending order [binary_search_idx] returns
    the index of the first element equal to the value when there is one,
    and -1 when there is none. *)
Theorem binary_search_idx_sorted (dValues : list Z) (tValue : Z) :
  StronglySorted Z.le dValues ->
  Z.of_nat (length dValues) < 2 ^ 31 ->
  let r := binary_search_idx dValues tValue in
  (tValue ∈ dValues ->
     0 <= r /\ dValues !! Z.to_nat r = Some tValue /\
     forall j x, (j < Z.to_nat r)%nat -> dValues !! j = Some x -> x < tValue) /\
  (tValue ∉ dValues -> r = -1).
Proof.
  intros Hs Hlen r. unfold r, binary_search_idx.
  destruct (lower_bound_spec dValues tValue) as [Hp Hq].
  pose proof (lower_bound_loop_sorted dValues tValue (length dValues) Hs 0 (length dValues)
                ltac:(lia) ltac:(lia) ltac:(intros; lia)) as Hlow.
  fold (lower_bound dValues tValue) in Hlow.
  set (p := lower_bound dValues tValue) in *.
  destruct Hq as [Hend|(x & Hx & Hge)].
  - rewrite Hend, Nat.eqb_refl. cbn [negb andb]. split; [|reflexivity].
    intros Hin. apply list_elem_of_lookup_1 in Hin as [i Hi].
    pose proof (lookup_lt_Some _ _ _ Hi) as Hil.
    specialize (Hlow i tValue ltac:(lia) Hi). lia.
  - pose proof (lookup_lt_Some _ _ _ Hx) as Hpl.
    destruct (Nat.eqb_spec p (length dValues)) as [Heq|_]; [lia|].
    rewrite Hx. cbn [negb andb default]. unfold id.
    destruct (Z.eqb_spec tValue x) as [->|Hne].
    + rewrite to_int32_small by lia. rewrite Nat2Z.id.
      split; [|intros Hnot; exfalso; apply Hnot; eapply list_elem_of_lookup_2; exact Hx].
      intros _. split; [lia|]. split; [exact Hx|exact Hlow].
    + split; [|reflexivity].
      intros Hin. apply list_elem_of_lookup_1 in Hin as [i Hi].
      destruct (Nat.lt_ge_cases i p) as [Hip|Hip].
      * specialize (Hlow i tValue Hip Hi). lia.
      * pose proof (StronglySorted_le_lookup _ Hs p i x tValue Hip Hx Hi). lia.
Qed.

Lemma binary_search_idx_sorted_witness :
  binary_search_idx [1; 3; 3; 3; 8] 3 = 1 /\
  binary_search_idx [1; 3; 3; 3; 8] 4 = -1.
Proof.
  destruct (binary_search_idx_sorted [1; 3; 3; 3; 8] 4) as [_ H].
  - repeat constructor; lia.
  - simpl; lia.
  - split; [reflexivity|]. apply H. intros Hin.
    repeat (apply elem_of_cons in Hin as [Hin|Hin]; [lia|]). inversion Hin.
Defined.

(** X8.  On a vector of integers sorted in ascending order
    [binary_search] returns a pointer to the first element equal to the
    value when there is one, and [nullptr] when there is none;
    [binary_search_idx] returns the index of the same element, or -1. *)
Theorem binary_search_agrees_with_idx (dValues : list Z) (tValue : Z) :
  StronglySorted Z.le dValues ->
  Z.of_nat (length dValues) < 2 ^ 31 ->
  match binary_search dValues tValue with
  | None => (tValue ∉ dValues) /\ binary_search_idx dValues tValue = -1
  | Some i =>
      dValues !! i = Some tValue /\
      (forall j x, (j < i)%nat -> dValues !! j = Some x -> x < tValue) /\
      binary_search_idx dValues tValue = Z.of_nat i
  end.
Proof.
  intros Hs Hlen. unfold binary_search, binary_search_idx.
  destruct (lower_bound_spec dValues tValue) as [Hp Hq].
  pose proof (lower_bound_loop_sorted dValues tValue (length dValues) Hs 0 (length dValues)
                ltac:(lia) ltac:(lia) ltac:(intros; lia)) as Hlow.
  fold (lower_bound dValues tValue) in Hlow.
  set (p := lower_bound dValues tValue) in *.
  assert (Hbelow : forall i, dValues !! i = Some tValue -> (p <= i)%nat).
  { intros i Hi. destruct (Nat.lt_ge_cases i p) as [Hip|Hip]; [|exact Hip].
    specialize (Hlow i tValue Hip Hi). lia. }
  destruct Hq as [Hend|(x & Hx & Hge)].
  - rewrite Hend, Nat.eqb_refl. cbn [negb andb orb]. split; [|reflexivity].
    intros Hin. apply list_elem_of_lookup_1 in Hin as [i Hi].
    pose proof (lookup_lt_Some _ _ _ Hi). specialize (Hbelow i Hi). lia.
  - pose proof (lookup_lt_Some _ _ _ Hx) as Hpl.
    destruct (Nat.eqb_spec p (length dValues)) as [Heq|_]; [lia|].
    rewrite Hx. cbn [negb andb orb default]. unfold id.
    destruct (Z.ltb_spec tValue x) as [Hlt|Hle];
      destruct (Z.eqb_spec tValue x) as [Heq|Hne]; try lia.
    + split; [|reflexivity].
      intros Hin. apply list_elem_of_lookup_1 in Hin as [i Hi].
      pose proof (StronglySorted_le_lookup _ Hs p i x tValue (Hbelow i Hi) Hx Hi). lia.
    + subst x. rewrite to_int32_small by lia.
      split; [exact Hx|]. split; [exact Hlow|reflexivity].
Qed.

Lemma binary_search_agrees_with_idx_witness :
  binary_search [1; 3; 3; 3; 8] 3 = Some 1%nat /\ binary_search_idx [1; 3; 3; 3; 8] 3 = 1 /\
  binary_search [1; 3; 3; 3; 8] 4 = None /\ binary_search_idx [1; 3; 3; 3; 8] 4 = -1.
Proof.
  assert (Hs : StronglySorted Z.le [1; 3; 3; 3; 8]) by (repeat constructor; lia).
  pose proof (binary_search_agrees_with_idx [1; 3; 3; 3; 8] 3 Hs ltac:(simpl; lia)) as H3.
  pose proof (binary_search_agrees_with_idx [1; 3; 3; 3; 8] 4 Hs ltac:(simpl; lia)) as H4.
  change (binary_search [1; 3; 3; 3; 8] 3) with (Some 1%nat) in H3.
  change (binary_search [1; 3; 3; 3; 8] 4) with (@None nat) in H4.
  destruct H3 as (_ & _ & H3). destruct H4 as [_ H4].
  split; [reflexivity|]. split; [exact H3|]. split; [reflexivity|exact H4].
Defined.

(** ** The order of pairs, once more *)

(** X9.  On the integer value types [RawValueCmp] is a strict total order
    on (value, row-id) pairs, as [std::sort] requires of its comparator:
    irreflexive, asymmetric, transitive, and two pairs that it does not
    order are the same pair.  [PQGreater] is its converse, so the top of
    the priority queue is the least pair. *)
Theorem RawValueCmp_strict_total_order {E : Externals} (T : VALUE) (a b c : RawValue_T) :
  T <> T_float ->
  RawValueCmp T a a = false /\
  (RawValueCmp T a b = true -> RawValueCmp T b a = false) /\
  (RawValueCmp T a b = true -> RawValueCmp T b c = true -> RawValueCmp T a c = true) /\
  (RawValueCmp T a b = false -> RawValueCmp T b a = false -> a = b) /\
  (forall x y : BinValue_T,
     PQGreater T x y = RawValueCmp T (bin_value y) (bin_value x)).
Proof.
  intros HT.
  assert (Hcmp : forall x y, RawValueCmp T x y
            = if m_tValue x =? m_tValue y then m_tRowid x <? m_tRowid y
              else m_tValue x <? m_tValue y)
    by (intros x y; destruct T; try reflexivity; congruence).
  rewrite !Hcmp. split; [|split; [|split; [|split]]].
  - rewrite Z.eqb_refl. apply Z.ltb_irrefl.
  - destruct (Z.eqb_spec (m_tValue a) (m_tValue b)), (Z.eqb_spec (m_tValue b) (m_tValue a));
      rewrite ?Z.ltb_lt, ?Z.ltb_ge; lia.
  - destruct (Z.eqb_spec (m_tValue a) (m_tValue b)), (Z.eqb_spec (m_tValue b) (m_tValue c)),
      (Z.eqb_spec (m_tValue a) (m_tValue c)); rewrite ?Z.ltb_lt; lia.
  - destruct (Z.eqb_spec (m_tValue a) (m_tValue b)), (Z.eqb_spec (m_tValue b) (m_tValue a));
      rewrite ?Z.ltb_ge; try lia.
    intros H1 H2. destruct a as [va ra], b as [vb rb]. cbn in *. f_equal; lia.
  - intros x y. rewrite Hcmp. unfold PQGreater.
    rewrite (Z.eqb_sym (m_tValue (bin_value y))), !Z.gtb_ltb.
    destruct T; try reflexivity; congruence.
Qed.

Lemma RawValueCmp_strict_total_order_witness :
  RawValueCmp (E := example_externals) T_uint32 (mkRawValue 5 1) (mkRawValue 5 2) = true /\
  RawValueCmp (E := example_externals) T_uint32 (mkRawValue 5 2) (mkRawValue 5 1) = false.
Proof.
  destruct (RawValueCmp_strict_total_order (E := example_externals) T_uint32
              (mkRawValue 5 1) (mkRawValue 5 2) (mkRawValue 5 2) ltac:(discriminate))
    as (_ & H & _).
  split; [reflexivity|]. apply H. reflexivity.
Defined.

(** ** The collector, its overloads and its temp file *)

Section CollectorFacts.
Context {E : Externals}.

Lemma fold_emplace_back (f : Z -> RawValue_T) pData : forall w0,
  fold_left (fun w1 x => RawWriter_T.emplace_back w1 (f x)) pData w0
  = RawWriter_T.mk (RawWriter_T.T w0) (RawWriter_T.m_dRows w0 ++ map f pData)
      (RawWriter_T.m_tFile w0) (RawWriter_T.m_dOffset w0)
      (RawWriter_T.m_iFileSize w0) (RawWriter_T.m_eAttrType w0)
      (RawWriter_T.m_fnHash w0) (RawWriter_T.m_tFile_name w0).
Proof.
  induction pData as [|x pData IH]; intros w0; simpl.
  - rewrite app_nil_r. now destruct w0.
  - rewrite IH. unfold RawWriter_T.emplace_back. simpl. now rewrite <- app_assoc.
Qed.

(** A call that returns changes neither the value type of the collector
    nor its attribute type, hash function and file. *)
Lemma do_call_fields w c w' :
  do_call w c = Ok w' ->
  RawWriter_T.T w' = RawWriter_T.T w /\
  RawWriter_T.m_eAttrType w' = RawWriter_T.m_eAttrType w /\
  RawWriter_T.m_fnHash w' = RawWriter_T.m_fnHash w /\
  RawWriter_T.m_tFile_name w' = RawWriter_T.m_tFile_name w.
Proof.
  intros H. destruct c as [tRowID tAttr|tRowID pData|tRowID pData|]; cbn [do_call] in H.
  - unfold RawWriter_T.SetAttr in H.
    destruct (RawWriter_T.T w) eqn:HTw; try congruence; injection H as <-;
      cbn; rewrite HTw; repeat split.
  - unfold RawWriter_T.SetAttr_bytes in H.
    destruct (RawWriter_T.T w) eqn:HTw; try congruence; injection H as <-;
      cbn; rewrite HTw; repeat split.
  - unfold RawWriter_T.SetAttr_array in H.
    destruct (RawWriter_T.T w) eqn:HTw; try congruence; injection H as <-;
      rewrite fold_emplace_back; cbn; rewrite HTw; repeat split.
  - injection H as <-. unfold RawWriter_T.Flush. now destruct (_ =? 0).
Qed.

Lemma collect_fields calls : forall w w',
  collect w calls = Ok w' ->
  RawWriter_T.T w' = RawWriter_T.T w /\
  RawWriter_T.m_eAttrType w' = RawWriter_T.m_eAttrType w /\
  RawWriter_T.m_fnHash w' = RawWriter_T.m_fnHash w /\
  RawWriter_T.m_tFile_name w' = RawWriter_T.m_tFile_name w.
Proof.
  induction calls as [|c calls IH]; intros w w' H; cbn [collect] in H.
  - injection H as <-. repeat split.
  - destruct (do_call w c) as [w1| |] eqn:Hc; cbn [mbind result_bind] in H; try discriminate.
    destruct (do_call_fields w c w1 Hc) as (H1 & H2 & H3 & H4).
    destruct (IH w1 w' H) as (H1' & H2' & H3' & H4').
    repeat split; congruence.
Qed.

Lemma Setup_fields w00 iAttr eType eCollation w0 :
  RawWriter_T.Setup w00 iAttr eType eCollation = Ok w0 ->
  w0 = RawWriter_T.mk (RawWriter_T.T w00) (RawWriter_T.m_dRows w00) []
         (RawWriter_T.m_dOffset w00) (RawWriter_T.m_iFileSize w00) eType eCollation
         (F_attr_tmp iAttr).
Proof.
  unfold RawWriter_T.Setup. destruct (Open_ok (F_attr_tmp iAttr)); [|discriminate].
  now intros [= <-].
Qed.

Lemma Flush_fields w :
  RawWriter_T.T (RawWriter_T.Flush w) = RawWriter_T.T w /\
  RawWriter_T.m_eAttrType (RawWriter_T.Flush w) = RawWriter_T.m_eAttrType w /\
  RawWriter_T.m_tFile_name (RawWriter_T.Flush w) = RawWriter_T.m_tFile_name w.
Proof. unfold RawWriter_T.Flush. now destruct (_ =? 0). Qed.

Lemma run_offsets_increasing sz runs : 0 < sz -> forall base i x y,
  Forall (fun r : list RawValue_T => r <> []) runs ->
  run_offsets sz base runs !! i = Some x ->
  run_offsets sz base runs !! S i = Some y ->
  x < y.
Proof.
  intros Hsz. induction runs as [|r runs IH]; intros base i x y Hne Hx Hy; [discriminate|].
  apply Forall_cons in Hne as [Hr Hne].
  destruct i as [|i].
  - cbn in Hx. injection Hx as <-. destruct runs as [|r' runs]; [discriminate|].
    cbn in Hy. injection Hy as <-. destruct r; [congruence|]. cbn [length]. nia.
  - cbn [run_offsets] in Hx, Hy. exact (IH _ i x y Hne Hx Hy).
Qed.

(** The temp file of a collector after [Done]: runs, their offsets, and
    the pairs handed in. *)
Lemma collector_runs eType iAttr eCollation w00 w0 w calls :
  Builder_c.new_RawWriter eType = Some w00 ->
  RawWriter_T.Setup w00 iAttr eType eCollation = Ok w0 ->
  RawWriter_T.T w0 <> T_float ->
  collect w0 calls = Ok w ->
  exists runs,
    RawWriter_T.m_tFile (RawWriter_T.Done w) = concat runs /\
    RawWriter_T.m_dOffset (RawWriter_T.Done w)
      = run_offsets (sizeof_RawValue (RawWriter_T.T w0)) 0 runs /\
    Forall (fun r => r <> [] /\ StronglySorted pair_le r) runs /\
    concat runs ≡ₚ flat_map (call_pairs (RawWriter_T.T w0) eCollation) calls.
Proof.
  intros Hnew Hsetup HT Hcollect.
  destruct (new_RawWriter_T eType w00 Hnew) as (_ & Hrows00 & Hoff00).
  pose proof (Setup_fields _ _ _ _ _ Hsetup) as Hw0.
  assert (Hinv0 : collector_inv w0 []).
  { rewrite Hw0. constructor; cbn; [reflexivity|now rewrite Hoff00|constructor]. }
  assert (Hrows0 : RawWriter_T.m_dRows w0 = []) by (now rewrite Hw0).
  assert (Hhash0 : RawWriter_T.m_fnHash w0 = eCollation) by (now rewrite Hw0).
  destruct (collect_spec calls w0 w [] HT Hcollect Hinv0)
    as (HTw & _ & _ & runs & Hinv & Hperm).
  rewrite Hrows0, Hhash0 in Hperm. cbn [concat app] in Hperm.
  assert (HTw' : RawWriter_T.T w <> T_float) by congruence.
  destruct (Flush_inv w runs HTw' Hinv) as (runs' & [Hfile Hoffs Hruns] & _ & Hperm').
  destruct (Flush_fields w) as (HTf & _ & _).
  exists runs'. unfold RawWriter_T.Done.
  cbn [RawWriter_T.m_tFile RawWriter_T.m_dOffset].
  split; [exact Hfile|]. split; [now rewrite Hoffs, HTf, HTw|]. split; [exact Hruns|].
  now rewrite Hperm', Hperm.
Qed.

(** The source value type of the index writer is the collector's. *)
Lemma GetWriter_SRC eType iAttr eCollation w00 w0 w calls :
  Builder_c.new_RawWriter eType = Some w00 ->
  RawWriter_T.Setup w00 iAttr eType eCollation = Ok w0 ->
  collect w0 calls = Ok w ->
  SIWriter_T.SRC_VALUE (GetWriter (RawWriter_T.Done w)) = RawWriter_T.T w00 /\
  RawWriter_T.T w0 = RawWriter_T.T w00 /\
  RawWriter_T.T w = RawWriter_T.T w00.
Proof.
  intros Hnew Hsetup Hcollect.
  destruct (collect_fields calls w0 w Hcollect) as (HT & Ha & _ & Hn).
  pose proof (Setup_fields _ _ _ _ _ Hsetup) as Hw0.
  destruct (Flush_fields w) as (HTf & Haf & Hnf).
  assert (HT0 : RawWriter_T.T w0 = RawWriter_T.T w00) by (now rewrite Hw0).
  split; [|split; [exact HT0|congruence]].
  unfold GetWriter, RawWriter_T.Done.
  cbn [RawWriter_T.m_eAttrType SIWriter_T.SRC_VALUE]. rewrite Haf, Ha, Hw0.
  cbn [RawWriter_T.m_eAttrType].
  destruct eType; cbn in Hnew; try discriminate; now injection Hnew as <-.
Qed.

End CollectorFacts.

(** X10.  Whatever is called on a collector of an integer attribute, and
    wherever it is flushed, after [Done] its temp file is a sequence of
    runs, none empty and each sorted by (value, row-id); the offsets table
    holds the byte offset of each run, strictly increasing; the file holds
    the pairs handed in, none lost and none added; [m_iFileSize] is the
    size of the file and no row is left in memory. *)
Theorem collector_temp_file_layout {E : Externals}
    (eType : AttrType_e) (iAttr : Z) (eCollation : Collation_e)
    (w00 w0 w : RawWriter_T.t) (calls : list Call) :
  Builder_c.new_RawWriter eType = Some w00 ->
  RawWriter_T.Setup w00 iAttr eType eCollation = Ok w0 ->
  RawWriter_T.T w0 <> T_float ->
  collect w0 calls = Ok w ->
  let T := RawWriter_T.T w0 in
  let sz := sizeof_RawValue T in
  let wd := RawWriter_T.Done w in
  exists runs,
    RawWriter_T.m_tFile wd = concat runs /\
    RawWriter_T.m_dOffset wd = run_offsets sz 0 runs /\
    Forall (fun r => r <> [] /\ StronglySorted pair_le r) runs /\
    (forall i x y, RawWriter_T.m_dOffset wd !! i = Some x ->
       RawWriter_T.m_dOffset wd !! S i = Some y -> x < y) /\
    concat runs ≡ₚ flat_map (call_pairs T eCollation) calls /\
    RawWriter_T.m_dRows wd = [] /\
    RawWriter_T.m_iFileSize wd = sz * Z.of_nat (length (RawWriter_T.m_tFile wd)).
Proof.
  intros Hnew Hsetup HT Hcollect T sz wd.
  destruct (collector_runs eType iAttr eCollation w00 w0 w calls Hnew Hsetup HT Hcollect)
    as (runs & Hfile & Hoffs & Hruns & Hperm).
  destruct (GetWriter_SRC eType iAttr eCollation w00 w0 w calls Hnew Hsetup Hcollect)
    as (_ & HT0 & HTw).
  destruct (Flush_fields w) as (HTf & _ & _).
  exists runs. fold wd T sz in Hfile, Hoffs, Hperm.
  split; [exact Hfile|]. split; [exact Hoffs|]. split; [exact Hruns|].
  split; [|split; [exact Hperm|split; [reflexivity|]]].
  - intros i x y Hx Hy. rewrite Hoffs in Hx, Hy.
    apply (run_offsets_increasing sz runs (sizeof_RawValue_pos T) 0%nat i x y);
      try assumption.
    eapply Forall_impl; [exact Hruns|]. now intros r [Hr _].
  - unfold wd, RawWriter_T.Done, RawWriter_T.GetPos.
    cbn [RawWriter_T.m_iFileSize RawWriter_T.m_tFile]. unfold sz, T.
    now rewrite HTf, HTw, HT0.
Qed.

Lemma collector_temp_file_layout_witness :
  let wd := RawWriter_T.Done (E := example_externals) example_collected in
  RawWriter_T.m_dOffset wd = [0; 16] /\
  exists runs,
    RawWriter_T.m_tFile wd = concat runs /\
    RawWriter_T.m_dOffset wd = run_offsets 8 0 runs /\
    Forall (fun r => r <> [] /\ StronglySorted pair_le r) runs.
Proof.
  intros wd. split; [reflexivity|].
  destruct (collector_temp_file_layout (E := example_externals) UINT32 0 BINARY
              (RawWriter_T.create T_uint32) example_collector example_collected
              example_calls eq_refl eq_refl ltac:(discriminate) eq_refl)
    as (runs & H1 & H2 & H3 & _).
  exists runs. split; [exact H1|]. split; [exact H2|exact H3].
Defined.

(** X11.  Which [SetAttr] overload a collector accepts is fixed by the
    attribute type given to [Setup]: the integer overload asserts on a
    STRING attribute and is accepted on every other one, the byte-string
    overload is accepted on a STRING attribute only, and the array
    overload is accepted on the 32- and 64-bit integer types (sets or
    not) and asserts on FLOAT and STRING. *)
Theorem SetAttr_overload_by_type {E : Externals}
    (eType : AttrType_e) (iAttr : Z) (eCollation : Collation_e)
    (w00 w0 w : RawWriter_T.t) (calls : list Call) (tRowID tAttr : Z) (pData : list Z) :
  Builder_c.new_RawWriter eType = Some w00 ->
  RawWriter_T.Setup w00 iAttr eType eCollation = Ok w0 ->
  collect w0 calls = Ok w ->
  (if match eType with STRING => true | _ => false end
   then RawWriter_T.SetAttr w tRowID tAttr = Fault AssertFailed
   else exists w', RawWriter_T.SetAttr w tRowID tAttr = Ok w') /\
  (if match eType with STRING => true | _ => false end
   then exists w', RawWriter_T.SetAttr_bytes w tRowID pData = Ok w'
   else RawWriter_T.SetAttr_bytes w tRowID pData = Fault AssertFailed) /\
  (if match eType with FLOAT | STRING => true | _ => false end
   then RawWriter_T.SetAttr_array w tRowID pData = Fault AssertFailed
   else exists w', RawWriter_T.SetAttr_array w tRowID pData = Ok w').
Proof.
  intros Hnew Hsetup Hcollect.
  destruct (collect_fields calls w0 w Hcollect) as (HT & _).
  pose proof (Setup_fields _ _ _ _ _ Hsetup) as Hw0.
  assert (HT0 : RawWriter_T.T w0 = RawWriter_T.T w00) by (now rewrite Hw0).
  unfold RawWriter_T.SetAttr, RawWriter_T.SetAttr_bytes, RawWriter_T.SetAttr_array.
  rewrite HT, HT0.
  destruct eType; cbn in Hnew; try discriminate; injection Hnew as <-; cbn;
    repeat split; try reflexivity; eexists; reflexivity.
Qed.

Lemma SetAttr_overload_by_type_witness :
  RawWriter_T.SetAttr_bytes (E := example_externals) example_collected 7 [97]
    = Fault AssertFailed /\
  exists w', RawWriter_T.SetAttr_array example_collected 7 [1; 2]
             = Ok w'.
Proof.
  destruct (SetAttr_overload_by_type (E := example_externals) UINT32 0 BINARY
              (RawWriter_T.create T_uint32) example_collector example_collected
              example_calls 7 0 [97] eq_refl eq_refl eq_refl) as (_ & H & _).
  destruct (SetAttr_overload_by_type (E := example_externals) UINT32 0 BINARY
              (RawWriter_T.create T_uint32) example_collector example_collected
              example_calls 7 0 [1; 2] eq_refl eq_refl eq_refl) as (_ & _ & H').
  split; [exact H|exact H'].
Defined.

(** X12.  The index writer [GetWriter] creates reads the temp file as it
    was written: for every attribute type [Setup] supports, FLOAT
    included, its source value type is the value type of the collector, it
    takes over the collector's file, offsets table and file size, and the
    file size is the record size times the number of records. *)
Theorem GetWriter_matches_collector {E : Externals}
    (eType : AttrType_e) (iAttr : Z) (eCollation : Collation_e)
    (w00 w0 w : RawWriter_T.t) (calls : list Call) :
  Builder_c.new_RawWriter eType = Some w00 ->
  RawWriter_T.Setup w00 iAttr eType eCollation = Ok w0 ->
  collect w0 calls = Ok w ->
  let wd := RawWriter_T.Done w in
  let siw := GetWriter wd in
  SIWriter_T.SRC_VALUE siw = RawWriter_T.T w00 /\
  SIWriter_T.m_sSrcName siw = F_attr_tmp iAttr /\
  SIWriter_T.src_data siw = RawWriter_T.m_tFile wd /\
  SIWriter_T.m_dOffset siw = RawWriter_T.m_dOffset wd /\
  SIWriter_T.m_iFileSize siw
    = sizeof_RawValue (SIWriter_T.SRC_VALUE siw)
        * Z.of_nat (length (SIWriter_T.src_data siw)) /\
  sizeof_VALUE (SIWriter_T.DST_VALUE siw) = sizeof_VALUE (RawWriter_T.T w00).
Proof.
  intros Hnew Hsetup Hcollect wd siw.
  destruct (GetWriter_SRC eType iAttr eCollation w00 w0 w calls Hnew Hsetup Hcollect)
    as (HSRC & HT0 & HTw).
  destruct (collect_fields calls w0 w Hcollect) as (_ & _ & _ & Hn).
  pose proof (Setup_fields _ _ _ _ _ Hsetup) as Hw0.
  destruct (Flush_fields w) as (HTf & _ & Hnf).
  fold wd siw in HSRC.
  split; [exact HSRC|]. split; [|split; [reflexivity|split; [reflexivity|split]]].
  - unfold siw, wd, GetWriter, RawWriter_T.Done.
    cbn [SIWriter_T.m_sSrcName RawWriter_T.m_tFile_name]. now rewrite Hnf, Hn, Hw0.
  - rewrite HSRC. unfold siw, wd, GetWriter, RawWriter_T.Done, RawWriter_T.GetPos.
    cbn [SIWriter_T.m_iFileSize SIWriter_T.src_data RawWriter_T.m_iFileSize
         RawWriter_T.m_tFile]. now rewrite HTf, HTw.
  - unfold SIWriter_T.DST_VALUE. rewrite HSRC. now destruct (RawWriter_T.T w00).
Qed.

Lemma GetWriter_matches_collector_witness :
  SIWriter_T.SRC_VALUE (GetWriter (RawWriter_T.Done (E := example_externals) example_collected))
  = T_uint32.
Proof.
  destruct (GetWriter_matches_collector (E := example_externals) UINT32 0 BINARY
              (RawWriter_T.create T_uint32) example_collector example_collected
              example_calls eq_refl eq_refl eq_refl) as (H & _).
  exact H.
Defined.

(** ** Row blocks, empty attributes, the block table *)

(** X13.  [EncodeRowsBlock] works in place on the rows of its block only:
    the vector keeps its length and the rows behind the block, whichever
    way the alignment test goes, and the bytes it emits do not depend on
    that test.  They start with two varints, the first row-id of the block
    and the distance from it to the last one. *)
Theorem EncodeRowsBlock_in_place {E : Externals} (junk g rest tail : list Z) :
  g <> [] ->
  Forall (fun r => 0 <= r < 2 ^ 32) g ->
  let res := EncodeRowsBlock (junk ++ g ++ rest)
               (Z.of_nat (length junk)) (Z.of_nat (length g)) in
  let tMin := default 0 (head g) in
  let tMax := default 0 (last g) in
  length (fst res) = length (junk ++ g ++ rest) /\
  drop (length junk + length g) (fst res) = rest /\
  snd res = row_block_bytes g /\
  exists bytes,
    ByteCodec_c.Unpack_uint32 (snd res ++ tail) = Some (tMin, bytes) /\
    ByteCodec_c.Unpack_uint32 bytes
      = Some (wrap32 (tMax - tMin), WriteVectorLen32 (Encode32 (ComputeDeltas 32 g)) ++ tail) /\
    (tMin <= tMax -> wrap32 (tMax - tMin) = tMax - tMin).
Proof.
  intros Hg Hr res tMin tMax.
  destruct (EncodeRowsBlock_spec junk g rest) as (junk' & Hj & Hres).
  unfold res. rewrite Hres. cbn [fst snd].
  assert (Hmin : 0 <= tMin < 2 ^ 32).
  { unfold tMin. destruct g as [|x g']; [congruence|]. cbn.
    now apply Forall_cons in Hr as [Hx _]. }
  assert (Hmax : 0 <= tMax < 2 ^ 32).
  { unfold tMax. destruct (last g) as [y|] eqn:Hl; [|cbn; lia]. cbn.
    apply last_Some_elem_of in Hl. rewrite Forall_forall in Hr. now apply Hr. }
  split; [rewrite !length_app in *; lia|]. split; [|split; [reflexivity|]].
  - rewrite <- Hj. apply drop_app_length.
  - unfold row_block_bytes. fold tMin tMax.
    exists (ByteCodec_c.Pack_uint32 (wrap32 (tMax - tMin))
              ++ WriteVectorLen32 (Encode32 (ComputeDeltas 32 g)) ++ tail).
    split; [|split].
    + rewrite <- !app_assoc. unfold ByteCodec_c.Unpack_uint32, ByteCodec_c.Pack_uint32.
      apply DecodeValue_EncodeValue; lia.
    + unfold ByteCodec_c.Unpack_uint32, ByteCodec_c.Pack_uint32.
      apply DecodeValue_EncodeValue; [|lia]. apply (wrap_range 32). lia.
    + intros Hle. apply wrap32_small. lia.
Qed.

Lemma EncodeRowsBlock_in_place_witness :
  let res := EncodeRowsBlock (E := example_externals) [7; 10; 12; 15; 99] 1 3 in
  fst res = [10; 2; 3; 15; 99] /\
  snd res = row_block_bytes (E := example_externals) [10; 12; 15] /\
  snd res = [10; 5; 3; 10; 0; 0; 0; 2; 0; 0; 0; 3; 0; 0; 0].
Proof.
  intros res.
  destruct (EncodeRowsBlock_in_place (E := example_externals) [7] [10; 12; 15] [99] [])
    as (_ & _ & H & _).
  - discriminate.
  - repeat constructor; lia.
  - split; [reflexivity|]. split; [exact H|reflexivity].
Defined.

Section EmptyAttribute.
Context {E : Externals}.

Lemma Process_merge_no_runs w tDst tBlocksOff :
  SIWriter_T.m_dOffset w = [] ->
  SIWriter_T.Process_merge w tDst tBlocksOff
  = ([], RowWriter_t.create (SIWriter_T.DST_VALUE w)
           (match SIWriter_T.SRC_VALUE w with T_float => true | _ => false end),
     mkOut tDst tBlocksOff []).
Proof.
  intros H. unfold SIWriter_T.Process_merge, SIWriter_T.open_bins. rewrite H. reflexivity.
Qed.

Lemma runs_all_empty (runs : list (list RawValue_T)) :
  Forall (fun r => r <> [] /\ StronglySorted pair_le r) runs -> concat runs = [] -> runs = [].
Proof.
  intros Hr Hc. destruct runs as [|r runs]; [reflexivity|].
  apply Forall_cons in Hr as [[Hr _] _]. cbn in Hc. destruct r; [congruence|discriminate].
Qed.

End EmptyAttribute.

(** X14.  An attribute that was set up but never given a value costs
    nothing in the index: its collector has no run, [Process] opens no
    temp file and leaves the output file and the block-offsets file as
    they are, and the PGM is built from the empty sequence. *)
Theorem attribute_without_values_writes_nothing {E : Externals}
    (eType : AttrType_e) (iAttr : Z) (eCollation : Collation_e)
    (w00 w0 w : RawWriter_T.t) (calls : list Call) (tDst tBlocksOff : list Z) :
  Builder_c.new_RawWriter eType = Some w00 ->
  RawWriter_T.Setup w00 iAttr eType eCollation = Ok w0 ->
  RawWriter_T.T w0 <> T_float ->
  collect w0 calls = Ok w ->
  flat_map (call_pairs (RawWriter_T.T w0) eCollation) calls = [] ->
  Open_ok F_tmp_pgmvalues = true ->
  let siw := GetWriter (RawWriter_T.Done w) in
  SIWriter_T.m_dOffset siw = [] /\
  SIWriter_T.src_data siw = [] /\
  exists siw',
    SIWriter_T.Process siw tDst tBlocksOff = Ok (siw', tDst, tBlocksOff) /\
    SIWriter_T.m_dPGM siw' = PGM_Save (RawWriter_T.T w0) [].
Proof.
  intros Hnew Hsetup HT Hcollect Hnone Hopen siw.
  destruct (collector_runs eType iAttr eCollation w00 w0 w calls
              Hnew Hsetup HT Hcollect) as (runs & Hfile & Hoffs & Hruns & Hperm).
  rewrite Hnone in Hperm. apply Permutation_nil_r in Hperm.
  pose proof (runs_all_empty runs Hruns Hperm) as ->.
  destruct (GetWriter_SRC eType iAttr eCollation w00 w0 w calls Hnew Hsetup Hcollect)
    as (HSRC & HT0 & _).
  assert (Hoff : SIWriter_T.m_dOffset siw = []) by exact Hoffs.
  assert (Hdata : SIWriter_T.src_data siw = []) by exact Hfile.
  split; [exact Hoff|]. split; [exact Hdata|].
  unfold SIWriter_T.Process. rewrite Hopen, Hoff. cbn [negb length Nat.eqb andb].
  rewrite Process_merge_no_runs by exact Hoff. cbn [tTmpValsPGM tDstFile tTmpBlocksOff].
  unfold MappedBuffer. cbn [length read_raw map is_sorted negb].
  eexists. split; [reflexivity|]. cbn [SIWriter_T.m_dPGM]. unfold siw. now rewrite HSRC, HT0.
Qed.

Lemma attribute_without_values_writes_nothing_witness :
  exists siw',
    SIWriter_T.Process (E := example_externals)
      (GetWriter (RawWriter_T.Done (E := example_externals) example_collector)) [1; 2] [3]
    = Ok (siw', [1; 2], [3]).
Proof.
  destruct (attribute_without_values_writes_nothing (E := example_externals) UINT32 0 BINARY
              (RawWriter_T.create T_uint32) example_collector example_collector
              [CallFlush; CallFlush] [1; 2] [3]
              eq_refl eq_refl ltac:(discriminate) eq_refl eq_refl eq_refl)
    as (_ & _ & siw' & H & _).
  exists siw'. exact H.
Defined.

Section BlockOffsets.
Context {E : Externals}.

Lemma block_positions_snoc T blocks : forall pos b,
  block_positions T pos (blocks ++ [b])
  = block_positions T pos blocks
      ++ [Z.of_nat (pos + length (concat (map (encode_value_block T) blocks)))].
Proof.
  induction blocks as [|a blocks IH]; intros pos b.
  - cbn. now rewrite Nat.add_0_r.
  - cbn [app block_positions map concat]. rewrite IH. cbn [app]. do 3 f_equal.
    rewrite length_app. lia.
Qed.

Lemma block_positions_length T blocks : forall pos,
  length (block_positions T pos blocks) = length blocks.
Proof. induction blocks as [|a blocks IH]; intros pos; cbn; [reflexivity|now rewrite IH]. Qed.

Lemma block_positions_lookup T blocks : forall pos i b,
  blocks !! i = Some b ->
  block_positions T pos blocks !! i
  = Some (Z.of_nat (pos + length (concat (map (encode_value_block T) (take i blocks))))).
Proof.
  induction blocks as [|a blocks IH]; intros pos i b Hi; [discriminate|].
  destruct i as [|i].
  - cbn. now rewrite Nat.add_0_r.
  - cbn [block_positions lookup list_lookup take map concat]. cbn in Hi.
    rewrite (IH _ i b Hi). do 2 f_equal. rewrite length_app. lia.
Qed.

Lemma FlushBlock_offset rw out :
  RowWriter_t.m_dValues rw <> [] ->
  tTmpBlocksOff (snd (RowWriter_t.FlushBlock rw out))
  = tTmpBlocksOff out ++ Write_uint64 (FileWriter_GetPos (tDstFile out)).
Proof.
  intros Hv. unfold RowWriter_t.FlushBlock.
  destruct (Nat.eqb_spec (length (RowWriter_t.m_dValues rw)) 0) as [H0|_].
  - destruct (RowWriter_t.m_dValues rw); [congruence|discriminate].
  - now destruct (RowWriter_t.pack_rows rw).
Qed.

Lemma NextValue_fed_offsets T dst0 blk0 s st x :
  fed_offsets T dst0 blk0 s st -> Z.of_nat (length s) < 2 ^ 32 ->
  fed_offsets T dst0 blk0 (s ++ [x]) (RowWriter_t.NextValue (fst st) x (snd st)).
Proof.
  intros (blocks & c0 & v & rows & Hg & Hb & Hc0 & Hh & Hd & Ho) Hlen.
  destruct (grouped_fits s blocks _ Hg) as [Hfit Hne].
  unfold RowWriter_t.NextValue.
  rewrite (holds_float _ _ _ _ Hh), (holds_last _ _ _ _ Hh). cbn [andb negb].
  destruct (Z.eqb_spec v (m_tValue x)) as [Heq|Hneq].
  - exists blocks, c0, v, (rows ++ [m_tRowid x]). cbn [fst snd].
    split; [|split; [exact Hb|split; [exact Hc0|split; [|split; assumption]]]].
    + rewrite app_assoc in *. now apply grouped_same.
    + now apply push_row_holds.
  - assert (Hvals : RowWriter_t.m_dValues (fst st) <> []).
    { rewrite (holds_values _ _ _ _ Hh). now destruct c0. }
    pose proof (FlushBlock_offset (fst st) (snd st) Hvals) as Ho'.
    unfold RowWriter_t.FlushValue.
    rewrite (holds_values _ _ _ _ Hh), length_map, length_app. cbn [length].
    unfold VALUES_PER_BLOCK.
    assert (Hg' : grouped (s ++ [x])
                    ((concat blocks ++ c0 ++ [(v, rows)]) ++ [(m_tValue x, [m_tRowid x])])).
    { rewrite app_assoc in *. apply grouped_new; [exact Hg|congruence]. }
    destruct (Z.ltb_spec (Z.of_nat (length c0 + 1)) 128) as [Hlt|Hge].
    + exists blocks, (c0 ++ [(v, rows)]), (m_tValue x), [m_tRowid x]. cbn [fst snd].
      split; [now rewrite <- !app_assoc in *|]. split; [exact Hb|].
      split; [rewrite length_app; simpl; lia|].
      split; [|split; assumption].
      apply (AddValue_holds T (fst st) (c0 ++ [(v, rows)]) v x Hh). lia.
    + destruct (FlushBlock_holds T (fst st) (c0 ++ [(v, rows)]) v (snd st) Hh)
        as (Hh' & Hd' & _); [now destruct c0|exact Hne|lia|].
      destruct (RowWriter_t.FlushBlock (fst st) (snd st)) as [rw' out'].
      cbn [fst snd] in *.
      exists (blocks ++ [c0 ++ [(v, rows)]]), [], (m_tValue x), [m_tRowid x].
      split; [|split; [|split; [simpl; lia|split; [|split]]]].
      * rewrite concat_app. cbn [concat app]. rewrite app_nil_r.
        now rewrite <- !app_assoc in *.
      * apply Forall_app. split; [exact Hb|]. repeat constructor.
        rewrite length_app. simpl. lia.
      * cbn [fst]. apply (AddValue_holds T rw' [] v x Hh'). simpl. lia.
      * cbn [snd]. rewrite Hd', Hd, map_app, concat_app. cbn [map concat].
        now rewrite app_nil_r, <- app_assoc.
      * cbn [snd]. rewrite Ho', Ho, Hd, block_positions_snoc, map_app, concat_app.
        cbn [map concat]. rewrite app_nil_r, <- app_assoc. do 3 f_equal.
        unfold FileWriter_GetPos. now rewrite length_app.
Qed.

Lemma fold_NextValue_fed_offsets T dst0 blk0 s' : forall s st,
  fed_offsets T dst0 blk0 s st -> Z.of_nat (length (s ++ s')) < 2 ^ 32 ->
  fed_offsets T dst0 blk0 (s ++ s')
      (fold_left (fun st' y => RowWriter_t.NextValue (fst st') y (snd st')) s' st).
Proof.
  induction s' as [|x s' IH]; intros s st Hfed Hlen.
  - now rewrite app_nil_r.
  - cbn [fold_left]. rewrite (cons_middle x s s'), app_assoc.
    apply IH.
    + apply NextValue_fed_offsets; [exact Hfed|]. rewrite !length_app in Hlen. lia.
    + now rewrite <- app_assoc.
Qed.

Lemma feed_Done_offsets T s dst0 blk0 :
  s <> [] -> Z.of_nat (length s) < 2 ^ 32 ->
  let st := feed s (RowWriter_t.create T false, mkOut dst0 blk0 []) in
  let out := snd (RowWriter_t.Done (fst st) (snd st)) in
  exists blocks,
    grouped s (concat blocks) /\ blocks_cut blocks /\
    tDstFile out = dst0 ++ concat (map (encode_value_block T) blocks) /\
    tTmpBlocksOff out
      = blk0 ++ concat (map Write_uint64 (block_positions T (length dst0) blocks)).
Proof.
  intros Hs Hlen st out. destruct s as [|x s']; [congruence|].
  assert (Hfed : fed_offsets T dst0 blk0 ([x] ++ s') st).
  { unfold st, feed. cbn [fst snd]. apply fold_NextValue_fed_offsets; [|exact Hlen].
    exists [], [], (m_tValue x), [m_tRowid x]. cbn [fst snd concat map app block_positions].
    split; [constructor|]. split; [constructor|]. split; [simpl; lia|].
    split; [|split; now rewrite app_nil_r].
    apply (AddValue_holds T (RowWriter_t.create T false) [] 0 x); [|simpl; lia].
    constructor; reflexivity. }
  destruct Hfed as (blocks & c0 & v & rows & Hg & Hb & Hc0 & Hh & Hd & Ho).
  destruct (grouped_fits _ blocks _ Hg) as [Hfit Hne].
  assert (Hvals : RowWriter_t.m_dValues (fst st) <> []).
  { rewrite (holds_values _ _ _ _ Hh). now destruct c0. }
  pose proof (FlushBlock_offset (fst st) (snd st) Hvals) as Ho'.
  destruct (FlushBlock_holds T (fst st) (c0 ++ [(v, rows)]) v (snd st) Hh)
    as (_ & Hd' & _); [now destruct c0|exact Hne|simpl in *; lia|].
  exists (blocks ++ [c0 ++ [(v, rows)]]). unfold out, RowWriter_t.Done.
  split; [|split; [|split]].
  - rewrite concat_app. cbn [concat]. now rewrite app_nil_r.
  - intros i b Hi. apply lookup_app_Some in Hi as [Hi|[Hle Hi]].
    + rewrite Forall_forall in Hb. pose proof (Hb b (list_elem_of_lookup_2 _ _ _ Hi)).
      split; [lia|]. intros _. assumption.
    + apply list_lookup_singleton_Some in Hi as [Hi <-]. rewrite !length_app. cbn [length].
      split; [lia|]. intros Hlt. lia.
  - rewrite Hd', Hd, map_app, concat_app. cbn [map concat].
    now rewrite app_nil_r, <- app_assoc.
  - rewrite Ho', Ho, Hd, block_positions_snoc, map_app, concat_app.
    cbn [map concat]. rewrite app_nil_r, <- app_assoc. do 3 f_equal.
    unfold FileWriter_GetPos. now rewrite length_app.
Qed.

Lemma blocks_cut_tail b (bs : list (list (Z * list Z))) :
  blocks_cut (b :: bs) ->
  blocks_cut bs /\ (1 <= length b <= 128)%nat /\ (bs <> [] -> length b = 128%nat).
Proof.
  intros H. split; [|split].
  - intros i x Hi. destruct (H (S i) x Hi) as [H1 H2]. split; [exact H1|].
    intros Hlt. apply H2. cbn [length]. lia.
  - apply (H 0%nat b eq_refl).
  - intros Hne. apply (H 0%nat b eq_refl). destruct bs; [congruence|]. cbn [length]. lia.
Qed.

Lemma blocks_cut_count (blocks : list (list (Z * list Z))) :
  blocks_cut blocks ->
  Z.of_nat (length blocks) = (Z.of_nat (length (concat blocks)) + 127) / 128.
Proof.
  induction blocks as [|b bs IH]; intros H; [reflexivity|].
  apply blocks_cut_tail in H as (Hbs & Hb & Hfull). specialize (IH Hbs).
  cbn [length concat]. rewrite length_app.
  destruct bs as [|b' bs'].
  - cbn [concat length]. rewrite Nat.add_0_r.
    assert (Hq : (Z.of_nat (length b) + 127) / 128 = 1).
    { symmetry. apply (Z.div_unique _ _ 1 (Z.of_nat (length b) - 1)); lia. }
    rewrite Hq. reflexivity.
  - rewrite (Hfull ltac:(discriminate)).
    replace (Z.of_nat (128 + length (concat (b' :: bs'))) + 127)
      with (1 * 128 + (Z.of_nat (length (concat (b' :: bs'))) + 127)) by lia.
    rewrite Z.div_add_l by lia. lia.
Qed.

Lemma concat_piece_at {A B} (f : A -> list B) (l : list A) i x :
  l !! i = Some x ->
  take (length (f x)) (drop (length (concat (map f (take i l)))) (concat (map f l))) = f x.
Proof.
  intros Hi. rewrite <- (take_drop_middle l i x Hi) at 2.
  rewrite map_app, concat_app, drop_app_length. cbn [map concat].
  apply take_app_length.
Qed.

Lemma concat_words_length (f : Z -> list Z) n (l : list Z) :
  (forall x, length (f x) = n) -> length (concat (map f l)) = (n * length l)%nat.
Proof.
  intros Hf. induction l as [|x l IH]; cbn [map concat length]; [lia|].
  rewrite length_app, Hf, IH. lia.
Qed.

End BlockOffsets.

(** X15.  [Process] writes one 64-bit entry to the block-offsets file for
    every value block it writes to the output file, 128 values to a block
    and the rest in the last; the entry is the byte position at which the
    block starts in the output file, so the bytes found there are the
    block's. *)
Theorem block_offsets_point_at_blocks {E : Externals}
    (w : SIWriter_T.t) (tDst tBlocksOff : list Z) :
  SIWriter_T.SRC_VALUE w <> T_float ->
  merged_stream w <> [] ->
  Z.of_nat (length (merged_stream w)) < 2 ^ 32 ->
  let T := SIWriter_T.DST_VALUE w in
  let res := SIWriter_T.Process_merge w tDst tBlocksOff in
  exists blocks,
    grouped (map (Convert (SIWriter_T.SRC_VALUE w)) (merged_stream w)) (concat blocks) /\
    blocks_cut blocks /\
    Z.of_nat (length blocks) = (Z.of_nat (length (concat blocks)) + 127) / 128 /\
    tDstFile (snd res) = tDst ++ concat (map (encode_value_block T) blocks) /\
    length (tTmpBlocksOff (snd res)) = (length tBlocksOff + 8 * length blocks)%nat /\
    forall i b, blocks !! i = Some b ->
      exists pos : nat,
        take 8 (drop (length tBlocksOff + 8 * i) (tTmpBlocksOff (snd res)))
          = Write_uint64 (Z.of_nat pos) /\
        take (length (encode_value_block T b)) (drop pos (tDstFile (snd res)))
          = encode_value_block T b.
Proof.
  intros HT Hne Hlen T res.
  pose proof (Process_merge_feed w tDst tBlocksOff) as HP. cbv zeta in HP.
  replace (match SIWriter_T.SRC_VALUE w with T_float => true | _ => false end)
    with false in HP by (destruct (SIWriter_T.SRC_VALUE w); congruence).
  fold T res in HP.
  destruct (feed_Done_offsets T (map (Convert (SIWriter_T.SRC_VALUE w)) (merged_stream w))
              tDst tBlocksOff) as (blocks & Hg & Hcut & Hd & Ho).
  { destruct (merged_stream w); [congruence|discriminate]. }
  { now rewrite length_map. }
  rewrite HP. cbn [snd]. exists blocks.
  split; [exact Hg|]. split; [exact Hcut|]. split; [now apply blocks_cut_count|].
  split; [exact Hd|]. split.
  - rewrite Ho, length_app, (concat_words_length Write_uint64 8), block_positions_length.
    + reflexivity.
    + intros x. apply le_bytes_length.
  - intros i b Hi.
    exists (length tDst + length (concat (map (encode_value_block T) (take i blocks))))%nat.
    split.
    + rewrite Ho, <- drop_drop, drop_app_length.
      pose proof (block_positions_lookup T blocks (length tDst) i b Hi) as Hp.
      pose proof (concat_piece_at Write_uint64 _ i _ Hp) as Hpiece.
      rewrite (concat_words_length Write_uint64 8) in Hpiece by (intros; apply le_bytes_length).
      rewrite length_take, block_positions_length in Hpiece.
      rewrite Nat.min_l in Hpiece by (apply lookup_lt_Some in Hi; lia).
      unfold Write_uint64 in Hpiece at 1. rewrite le_bytes_length in Hpiece. exact Hpiece.
    + rewrite Hd, <- drop_drop, drop_app_length. now apply concat_piece_at.
Qed.

Lemma block_offsets_point_at_blocks_witness :
  let w := GetWriter (RawWriter_T.Done (E := example_externals) example_collected) in
  let res := SIWriter_T.Process_merge (E := example_externals) w [1; 2; 3] [] in
  tTmpBlocksOff (snd res) = [3; 0; 0; 0; 0; 0; 0; 0] /\
  exists blocks,
    blocks_cut blocks /\
    Z.of_nat (length blocks) = (Z.of_nat (length (concat blocks)) + 127) / 128 /\
    tDstFile (snd res)
      = [1; 2; 3] ++ concat (map (encode_value_block (E := example_externals) T_uint32) blocks).
Proof.
  intros w res. split; [reflexivity|].
  destruct (block_offsets_point_at_blocks (E := example_externals) w [1; 2; 3] [])
    as (blocks & _ & H1 & H2 & H3 & _).
  - discriminate.
  - vm_compute. discriminate.
  - vm_compute. reflexivity.
  - exists blocks. split; [exact H1|]. split; [exact H2|exact H3].
Defined.

Section BlockCounts.
Context {E : Externals}.

Lemma end_from_total ns : forall pos,
  end_from pos ns = pos + 8 * total (map Z.of_nat ns).
Proof.
  induction ns as [|n ns IH]; intros pos; cbn [end_from map total fold_right]; [lia|].
  rewrite IH. unfold total. lia.
Qed.

Lemma offsets_from_length ns : forall pos, length (offsets_from pos ns) = length ns.
Proof. induction ns as [|n ns IH]; intros pos; cbn; [reflexivity|now rewrite IH]. Qed.

End BlockCounts.

(** X16.  The block counts [Done] computes for the meta record account for
    the whole block-offsets file: there is one start and one count for
    each collector, no count is negative, and eight times their sum is the
    size of the file. *)
Theorem blocks_count_accounts_for_file {E : Externals}
    (b : Builder_c.t) (st : Builder_c.DoneState) :
  Builder_c.Done_process b = Ok st ->
  Z.of_nat (length (Builder_c.d_tTmpBlocks st)) < 2 ^ 64 ->
  let starts := Builder_c.d_dBlocksOffStart st in
  let counts :=
    Builder_c.blocks_count (FileWriter_GetPos (Builder_c.d_tTmpBlocks st)) starts in
  length starts = length (omap id (Builder_c.m_dRawWriter b)) /\
  length counts = length starts /\
  Forall (fun n => 0 <= n) counts /\
  8 * total counts = Z.of_nat (length (Builder_c.d_tTmpBlocks st)).
Proof.
  intros HD Hsize starts counts.
  assert (Hn : exists ns,
            length ns = length (omap id (Builder_c.m_dRawWriter b)) /\
            starts = offsets_from 0 ns /\
            Z.of_nat (length (Builder_c.d_tTmpBlocks st)) = end_from 0 ns).
  { unfold Builder_c.Done_process in HD.
    repeat (destruct (negb _); [discriminate|]).
    apply Done_writers_spec in HD as (ns & x & Hl & Hs & He & _).
    exists ns. split; [|split; [exact Hs|exact He]].
    rewrite Hl. clear. induction (Builder_c.m_dRawWriter b) as [|[a|] l IH]; cbn; congruence. }
  destruct Hn as (ns & Hl & Hs & He).
  assert (Hc : counts = map Z.of_nat ns).
  { unfold counts, FileWriter_GetPos. rewrite He, Hs.
    apply blocks_count_offsets; [lia|]. rewrite <- He. exact Hsize. }
  split; [now rewrite Hs, offsets_from_length|].
  split; [now rewrite Hc, length_map, Hs, offsets_from_length|].
  split; [rewrite Hc; apply Forall_fmap, Forall_forall; intros n _; simpl; lia|].
  rewrite Hc, He, end_from_total. lia.
Qed.

Lemma blocks_count_accounts_for_file_witness :
  Builder_c.blocks_count
    (FileWriter_GetPos (Builder_c.d_tTmpBlocks example_two_attrs_state))
    (Builder_c.d_dBlocksOffStart example_two_attrs_state) = [0; 1] /\
  8 * total [0; 1] = Z.of_nat (length (Builder_c.d_tTmpBlocks example_two_attrs_state)).
Proof.
  destruct (blocks_count_accounts_for_file (E := example_externals)
              example_two_attrs_builder example_two_attrs_state eq_refl)
    as (_ & _ & _ & H).
  - vm_compute. reflexivity.
  - split; [reflexivity|exact H].
Defined.

(** ** The builder and its collectors *)

Section BuilderCalls.
Context {E : Externals}.

Lemma collect_app calls1 : forall w calls2,
  collect w (calls1 ++ calls2) = (w1 ← collect w calls1; collect w1 calls2).
Proof.
  induction calls1 as [|c calls1 IH]; intros w calls2; [reflexivity|].
  cbn [app collect]. destruct (do_call w c) as [w'| |]; cbn [mbind result_bind]; [|reflexivity..].
  apply IH.
Qed.

Lemma SetAttr_guarded_slot b iAttr call c b1 :
  (forall w, do_call w c = call w) ->
  Builder_c.SetAttr_guarded b iAttr call = Ok b1 ->
  Builder_c.m_tRowID b1 = Builder_c.m_tRowID b /\
  Builder_c.m_iMaxRows b1 = Builder_c.m_iMaxRows b /\
  Builder_c.m_dAttrs b1 = Builder_c.m_dAttrs b /\
  Builder_c.m_eCollation b1 = Builder_c.m_eCollation b /\
  forall i, slot_step b b1 i (if Nat.eqb (slot_of iAttr) i then [c] else []).
Proof.
  intros Hcall H. unfold Builder_c.SetAttr_guarded in H. fold (slot_of iAttr) in H.
  assert (Hid : forall i, (forall w, Builder_c.m_dRawWriter b !! i = Some (Some w) ->
                             slot_of iAttr <> i) ->
            slot_step b b i (if Nat.eqb (slot_of iAttr) i then [c] else [])).
  { intros i Hi. unfold slot_step.
    destruct (Builder_c.m_dRawWriter b !! i) as [[w|]|] eqn:Hl; try reflexivity.
    exists w. split; [reflexivity|].
    destruct (Nat.eqb_spec (slot_of iAttr) i) as [Heq|_]; [|reflexivity].
    exfalso. exact (Hi w eq_refl Heq). }
  destruct (Z.ltb_spec (wrap64 iAttr) (Z.of_nat (length (Builder_c.m_dRawWriter b))))
    as [Hlt|Hge].
  - destruct (Builder_c.m_dRawWriter b !! slot_of iAttr) as [[pWriter|]|] eqn:Hk.
    + destruct (call pWriter) as [pWriter'| |] eqn:Hc; cbn [mbind result_bind] in H;
        try discriminate.
      injection H as <-. cbn. repeat split.
      intros i. unfold slot_step. cbn [Builder_c.with_writers Builder_c.m_dRawWriter].
      destruct (Nat.eqb_spec (slot_of iAttr) i) as [<-|Hne].
      * rewrite Hk. exists pWriter'. split.
        -- apply list_lookup_insert_eq. eapply lookup_lt_Some. exact Hk.
        -- cbn [collect]. rewrite Hcall, Hc. reflexivity.
      * rewrite list_lookup_insert_ne by exact Hne.
        destruct (Builder_c.m_dRawWriter b !! i) as [[w|]|]; try reflexivity.
        exists w. split; reflexivity.
    + injection H as <-. repeat split. intros i. apply Hid. intros w Hw Heq.
      rewrite Heq in Hk. congruence.
    + injection H as <-. repeat split. intros i. apply Hid. intros w Hw Heq.
      rewrite Heq in Hk. congruence.
  - injection H as <-. repeat split. intros i. apply Hid. intros w Hw Heq.
    apply lookup_lt_Some in Hw. unfold slot_of in Heq.
    assert (0 <= wrap64 iAttr) by (apply (wrap_range 64); lia). lia.
Qed.

Lemma do_builder_call_slot b c b1 :
  do_builder_call b c = Ok b1 ->
  Builder_c.m_iMaxRows b1 = Builder_c.m_iMaxRows b /\
  Builder_c.m_dAttrs b1 = Builder_c.m_dAttrs b /\
  Builder_c.m_eCollation b1 = Builder_c.m_eCollation b /\
  forall i,
    slot_step b b1 i
      (calls_of_slot (Builder_c.m_iMaxRows b) i (Builder_c.m_tRowID b) [c]) /\
    forall rest,
      calls_of_slot (Builder_c.m_iMaxRows b) i (Builder_c.m_tRowID b) (c :: rest)
      = calls_of_slot (Builder_c.m_iMaxRows b) i (Builder_c.m_tRowID b) [c]
          ++ calls_of_slot (Builder_c.m_iMaxRows b1) i (Builder_c.m_tRowID b1) rest.
Proof.
  intros H. destruct c as [r|a v|a d|a d]; cbn [do_builder_call] in H.
  - unfold Builder_c.SetRowID in H.
    destruct (Z.eqb_spec (Builder_c.m_iMaxRows b) 0) as [|_]; [discriminate|].
    destruct (Z.eqb_spec (r mod Builder_c.m_iMaxRows b) 0) as [Hz|Hz];
      injection H as <-; cbn; repeat split; try (now rewrite app_nil_r).
    + unfold slot_step. cbn. apply Z.eqb_eq in Hz. rewrite Hz. cbn [app].
      rewrite list_lookup_fmap.
      destruct (Builder_c.m_dRawWriter b !! i) as [[w|]|]; cbn; try reflexivity.
      exists (RawWriter_T.Flush w). split; reflexivity.
    + unfold slot_step. cbn. apply Z.eqb_neq in Hz. rewrite Hz. cbn [app].
      destruct (Builder_c.m_dRawWriter b !! i) as [[w|]|]; try reflexivity.
      exists w. split; reflexivity.
  - destruct (SetAttr_guarded_slot b a _ (CallSetAttr (Builder_c.m_tRowID b) v) b1
                (fun w => eq_refl) H) as (Hr & Hm & Ha & Hc & Hs).
    repeat split; try assumption.
    + cbn [calls_of_slot]. rewrite app_nil_r. apply Hs.
    + cbn [calls_of_slot]. now rewrite app_nil_r, Hr, Hm.
  - destruct (SetAttr_guarded_slot b a _ (CallSetAttr_bytes (Builder_c.m_tRowID b) d) b1
                (fun w => eq_refl) H) as (Hr & Hm & Ha & Hc & Hs).
    repeat split; try assumption.
    + cbn [calls_of_slot]. rewrite app_nil_r. apply Hs.
    + cbn [calls_of_slot]. now rewrite app_nil_r, Hr, Hm.
  - destruct (SetAttr_guarded_slot b a _ (CallSetAttr_array (Builder_c.m_tRowID b) d) b1
                (fun w => eq_refl) H) as (Hr & Hm & Ha & Hc & Hs).
    repeat split; try assumption.
    + cbn [calls_of_slot]. rewrite app_nil_r. apply Hs.
    + cbn [calls_of_slot]. now rewrite app_nil_r, Hr, Hm.
Qed.

Lemma build_slot calls : forall b b',
  build b calls = Ok b' ->
  Builder_c.m_iMaxRows b' = Builder_c.m_iMaxRows b /\
  Builder_c.m_dAttrs b' = Builder_c.m_dAttrs b /\
  Builder_c.m_eCollation b' = Builder_c.m_eCollation b /\
  forall i,
    slot_step b b' i (calls_of_slot (Builder_c.m_iMaxRows b) i (Builder_c.m_tRowID b) calls).
Proof.
  induction calls as [|c calls IH]; intros b b' H; cbn [build] in H.
  - injection H as <-. repeat split. intros i. unfold slot_step. cbn [calls_of_slot].
    destruct (Builder_c.m_dRawWriter b !! i) as [[w|]|]; try reflexivity.
    exists w. split; reflexivity.
  - destruct (do_builder_call b c) as [b1| |] eqn:Hc; cbn [mbind result_bind] in H;
      try discriminate.
    destruct (do_builder_call_slot b c b1 Hc) as (Hm & Ha & He & Hs).
    destruct (IH b1 b' H) as (Hm' & Ha' & He' & Hs').
    split; [congruence|]. split; [congruence|]. split; [congruence|].
    intros i. destruct (Hs i) as [Hstep Hsplit].
    rewrite Hsplit. specialize (Hs' i). unfold slot_step in *.
    destruct (Builder_c.m_dRawWriter b !! i) as [[w|]|].
    + destruct Hstep as (w1 & Hl1 & Hc1). rewrite Hl1 in Hs'.
      destruct Hs' as (w2 & Hl2 & Hc2). exists w2. split; [exact Hl2|].
      rewrite collect_app, Hc1. exact Hc2.
    + rewrite Hstep in Hs'. exact Hs'.
    + rewrite Hstep in Hs'. exact Hs'.
Qed.

Lemma slots_same_shape (l l' : list (option RawWriter_T.t)) :
  (forall i, match l !! i with
             | Some (Some _) => exists w', l' !! i = Some (Some w')
             | r => l' !! i = r
             end) ->
  length l' = length l /\ length (omap id l') = length (omap id l).
Proof.
  revert l'. induction l as [|x l IH]; intros l' H.
  - destruct l' as [|y l']; [split; reflexivity|]. specialize (H 0%nat). discriminate.
  - destruct l' as [|y l'].
    + specialize (H 0%nat). cbn in H. destruct x; [destruct H|]; discriminate.
    + destruct (IH l' (fun i => H (S i))) as [Hl Ho].
      specialize (H 0%nat). cbn in H. cbn [length]. split; [congruence|].
      destruct x as [w|]; [destruct H as [w' H]|]; injection H as ->; cbn; congruence.
Qed.

End BuilderCalls.

(** X17.  The builder hands each call to one collector and nothing else:
    when a sequence of [SetRowID] and [SetAttr] calls returns, the
    collector in each slot is the one that was there, called with its
    share of the calls, a [Flush] where a row-id was a multiple of
    [m_iMaxRows] and its own [SetAttr] calls with the row-id then current;
    empty slots stay empty, and the schema, the collation and
    [m_iMaxRows] are unchanged. *)
Theorem build_runs_each_collector_on_its_calls {E : Externals}
    (b b' : Builder_c.t) (calls : list BuilderCall) :
  build b calls = Ok b' ->
  Builder_c.m_iMaxRows b' = Builder_c.m_iMaxRows b /\
  Builder_c.m_dAttrs b' = Builder_c.m_dAttrs b /\
  Builder_c.m_eCollation b' = Builder_c.m_eCollation b /\
  length (Builder_c.m_dRawWriter b') = length (Builder_c.m_dRawWriter b) /\
  length (collectors b') = length (collectors b) /\
  forall i,
    match Builder_c.m_dRawWriter b !! i with
    | Some (Some w) =>
        exists w',
          Builder_c.m_dRawWriter b' !! i = Some (Some w') /\
          collect w (calls_of_slot (Builder_c.m_iMaxRows b) i (Builder_c.m_tRowID b) calls)
            = Ok w'
    | r => Builder_c.m_dRawWriter b' !! i = r
    end.
Proof.
  intros H. destruct (build_slot calls b b' H) as (Hm & Ha & He & Hs).
  split; [exact Hm|]. split; [exact Ha|]. split; [exact He|].
  destruct (slots_same_shape (Builder_c.m_dRawWriter b) (Builder_c.m_dRawWriter b')) as [Hl Ho].
  { intros i. specialize (Hs i). unfold slot_step in Hs.
    destruct (Builder_c.m_dRawWriter b !! i) as [[w|]|]; try exact Hs.
    destruct Hs as (w' & Hw & _). now exists w'. }
  split; [exact Hl|]. split; [exact Ho|exact Hs].
Qed.

Lemma build_runs_each_collector_on_its_calls_witness :
  build (E := example_externals) example_setup example_builder_calls = Ok example_builder /\
  calls_of_slot 41666 0 0 example_builder_calls
  = [CallFlush; CallSetAttr 0 10; CallSetAttr 1 20; CallSetAttr 2 10; CallSetAttr 3 10;
     CallSetAttr 4 30] /\
  exists w w',
    Builder_c.m_dRawWriter example_setup !! 0%nat = Some (Some w) /\
    Builder_c.m_dRawWriter example_builder !! 0%nat = Some (Some w') /\
    collect (E := example_externals) w (calls_of_slot 41666 0 0 example_builder_calls) = Ok w'.
Proof.
  split; [reflexivity|]. split; [reflexivity|].
  destruct (build_runs_each_collector_on_its_calls (E := example_externals)
              example_setup example_builder example_builder_calls eq_refl)
    as (_ & _ & _ & _ & _ & H).
  specialize (H 0%nat).
  destruct (Builder_c.m_dRawWriter example_setup !! 0%nat) as [[w|]|] eqn:Hw;
    try discriminate.
  destruct H as (w' & H1 & H2). exists w, w'. split; [reflexivity|]. split; [exact H1|exact H2].
Defined.

(** ** Builder_c::Setup: the schema and the collector table *)

Section SetupSchema.
Context {E : Externals}.

Lemma supported_spec eType :
  supported eType = true <-> exists w, Builder_c.new_RawWriter eType = Some w.
Proof.
  unfold supported. destruct (Builder_c.new_RawWriter eType) as [w|].
  - split; [now exists w|reflexivity].
  - split; [discriminate|]. now intros [w Hw].
Qed.

Lemma Setup_attr_spec eCollation ws cs a ws' cs' :
  Builder_c.Setup_attr eCollation (ws, cs) a = Ok (ws', cs') ->
  if supported (m_eType a)
  then 0 <= m_iAttr a < Z.of_nat (length ws) /\
       exists w, collector_for eCollation a w /\
         ws' = <[Z.to_nat (m_iAttr a) := Some w]> ws /\
         cs' = cs ++ [mkColumnInfo (m_eType a) (m_iAttr a) (Z.of_nat (length cs)) (m_sName a)]
  else ws' = ws /\ cs' = cs.
Proof.
  unfold Builder_c.Setup_attr, supported, collector_for.
  destruct (Builder_c.new_RawWriter (m_eType a)) as [pWriter|]; [|now intros [= <- <-]].
  destruct (RawWriter_T.Setup pWriter (m_iAttr a) (m_eType a) eCollation) as [w| |] eqn:Hs;
    cbn [mbind result_bind]; try discriminate.
  destruct (Z.leb_spec 0 (m_iAttr a)); cbn [andb]; [|discriminate].
  destruct (Z.ltb_spec (m_iAttr a) (Z.of_nat (length ws))); [|discriminate].
  intros [= <- <-]. split; [split; assumption|]. exists w. split; [now exists pWriter|]. now split.
Qed.

Lemma omap_insert_le (ws : list (option RawWriter_T.t)) : forall k w,
  (length (omap id (<[k := Some w]> ws)) <= S (length (omap id ws)))%nat.
Proof.
  induction ws as [|x ws IH]; intros k w; [simpl; lia|].
  destruct k as [|k].
  - simpl. destruct x; simpl; lia.
  - specialize (IH k w). unfold omap in IH. simpl. destruct x; simpl; lia.
Qed.

Lemma omap_insert_None (ws : list (option RawWriter_T.t)) : forall k w,
  ws !! k = Some None ->
  length (omap id (<[k := Some w]> ws)) = S (length (omap id ws)).
Proof.
  induction ws as [|x ws IH]; intros k w Hk; [discriminate|].
  destruct k as [|k].
  - simpl in Hk. injection Hk as ->. reflexivity.
  - simpl in Hk. specialize (IH k w Hk). unfold omap in IH. simpl. destruct x; simpl; lia.
Qed.

(** The first loop of [Setup], from any state of the table and the schema. *)
Lemma Setup_attrs_spec eCollation dSrcAttrs : forall ws cs ws' cs',
  Builder_c.Setup_attrs eCollation (ws, cs) dSrcAttrs = Ok (ws', cs') ->
  let sup := supported_attrs dSrcAttrs in
  length ws' = length ws /\
  Forall (fun a => 0 <= m_iAttr a < Z.of_nat (length ws)) sup /\
  map ci_iAttr cs' = map ci_iAttr cs ++ map Z.of_nat (seq (length cs) (length sup)) /\
  map (fun c => (ci_eType c, ci_iSrcAttr c, ci_sName c)) cs'
    = map (fun c => (ci_eType c, ci_iSrcAttr c, ci_sName c)) cs
        ++ map (fun a => (m_eType a, m_iAttr a, m_sName a)) sup /\
  (forall i, (forall a, In a sup -> m_iAttr a <> Z.of_nat i) -> ws' !! i = ws !! i) /\
  (forall a, In a sup ->
     exists a' w, In a' sup /\ m_iAttr a' = m_iAttr a /\
       ws' !! Z.to_nat (m_iAttr a) = Some (Some w) /\ collector_for eCollation a' w) /\
  (length (omap id ws') <= length (omap id ws) + length sup)%nat /\
  (NoDup (map m_iAttr sup) ->
   (forall a, In a sup -> ws !! Z.to_nat (m_iAttr a) = Some None) ->
   length (omap id ws') = (length (omap id ws) + length sup)%nat /\
   forall a, In a sup ->
     exists w, ws' !! Z.to_nat (m_iAttr a) = Some (Some w) /\ collector_for eCollation a w).
Proof.
  induction dSrcAttrs as [|a rest IH]; intros ws cs ws' cs' H sup; cbn [Builder_c.Setup_attrs] in H.
  - injection H as <- <-. unfold sup. cbn. rewrite !app_nil_r.
    repeat split; try reflexivity; try constructor; try lia; intros a [].
  - destruct (Builder_c.Setup_attr eCollation (ws, cs) a) as [[ws1 cs1]| |] eqn:Ha;
      cbn [mbind result_bind] in H; try discriminate.
    apply Setup_attr_spec in Ha.
    destruct (IH ws1 cs1 ws' cs' H) as (Hl & Hr & Hi & Hk & Hkeep & Hw & Hle & Hnd).
    unfold sup, supported_attrs. cbn [List.filter]. fold (supported_attrs rest).
    destruct (supported (m_eType a)) eqn:Hsup.
    + destruct Ha as (Hrange & w & Hcf & -> & ->).
      rewrite length_insert in *. rewrite length_app in *. cbn [length] in *.
      split; [exact Hl|]. split; [now constructor|]. split; [|split; [|split; [|split; [|split]]]].
      * rewrite Hi, map_app, <- app_assoc. cbn [map app seq].
        now rewrite Nat.add_1_r.
      * rewrite Hk, map_app, <- app_assoc. reflexivity.
      * intros i Hno. rewrite Hkeep by (intros a' Ha'; apply Hno; now right).
        apply list_lookup_insert_ne. intros Heq. apply (Hno a); [now left|]. lia.
      * intros a0 [<-|Hin].
        -- destruct (in_dec Z.eq_dec (m_iAttr a) (map m_iAttr (supported_attrs rest)))
             as [Hdup|Hfresh].
           ++ apply in_map_iff in Hdup as (a1 & Heq & Hin1).
              destruct (Hw a1 Hin1) as (a' & w' & Hin' & Heq' & Hlook & Hcf').
              exists a', w'. split; [now right|]. split; [congruence|].
              split; [now rewrite <- Heq|exact Hcf'].
           ++ exists a, w. split; [now left|]. split; [reflexivity|]. split; [|exact Hcf].
              rewrite Hkeep.
              ** apply list_lookup_insert_eq. lia.
              ** intros a1 Hin1 Heq. apply Hfresh. apply in_map_iff. exists a1.
                 split; [|exact Hin1]. rewrite Z2Nat.id in Heq by lia. exact Heq.
        -- destruct (Hw a0 Hin) as (a' & w' & Hin' & Heq' & Hlook & Hcf').
           exists a', w'. split; [now right|]. auto.
      * pose proof (omap_insert_le ws (Z.to_nat (m_iAttr a)) w). lia.
      * intros Hnodup Hnone. cbn [map] in Hnodup. apply NoDup_cons in Hnodup as [Hfresh Hnodup].
        assert (Hfresh' : forall a1, In a1 (supported_attrs rest) -> m_iAttr a1 <> m_iAttr a).
        { intros a1 Hin1 Heq. apply Hfresh. rewrite <- Heq. apply list_elem_of_In.
          apply in_map. exact Hin1. }
        destruct Hnd as [Hcount Hall].
        { exact Hnodup. }
        { intros a1 Hin1. rewrite list_lookup_insert_ne.
          - apply Hnone. now right.
          - intros Heq. apply (Hfresh' a1 Hin1).
            rewrite Forall_forall in Hr.
            pose proof (Hr a1 (proj2 (list_elem_of_In _ _) Hin1)). lia. }
        split.
        -- rewrite Hcount, omap_insert_None by (apply Hnone; now left). lia.
        -- intros a0 [<-|Hin]; [|now apply Hall].
           exists w. split; [|exact Hcf]. rewrite Hkeep.
           ++ apply list_lookup_insert_eq. lia.
           ++ intros a1 Hin1 Heq. apply (Hfresh' a1 Hin1). lia.
    + destruct Ha as [-> ->].
      exact (conj Hl (conj Hr (conj Hi (conj Hk (conj Hkeep (conj Hw (conj Hle Hnd))))))).
Qed.

Lemma row_size_nonneg (ws : list (option RawWriter_T.t)) : forall acc,
  0 <= acc ->
  0 <= fold_left (fun iRowSize pWriter =>
               match pWriter with
               | Some w => iRowSize + RawWriter_T.GetItemSize w
               | None => iRowSize
               end) ws acc.
Proof.
  induction ws as [|x ws IH]; intros acc Hacc; cbn [fold_left]; [exact Hacc|].
  apply IH. destruct x as [w|]; [|exact Hacc].
  unfold RawWriter_T.GetItemSize. pose proof (sizeof_RawValue_pos (RawWriter_T.T w)). lia.
Qed.

(** [Setup] on a new builder, when it returns. *)
Lemma Setup_spec dSrcAttrs iMemoryLimit eCollation b :
  Builder_c.Setup Builder_c.create dSrcAttrs iMemoryLimit eCollation = Ok b ->
  exists tBack n,
    last dSrcAttrs = Some tBack /\ 0 <= m_iAttr tBack + 1 /\
    n = Z.to_nat (m_iAttr tBack + 1) /\
    Builder_c.Setup_attrs eCollation (replicate n None, []) dSrcAttrs
      = Ok (Builder_c.m_dRawWriter b, Builder_c.m_dAttrs b) /\
    Builder_c.m_iMaxRows b
      = Z.max 1000 (Z.quot (Z.quot iMemoryLimit 3)
                           (Builder_c.row_size (Builder_c.m_dRawWriter b))) /\
    0 < Builder_c.row_size (Builder_c.m_dRawWriter b) /\
    Builder_c.m_eCollation b = eCollation /\
    Builder_c.m_tRowID b = 0.
Proof.
  unfold Builder_c.Setup, Builder_c.Setup_writers. cbn [Builder_c.create Builder_c.m_dRawWriter
    Builder_c.m_dAttrs Builder_c.m_tRowID].
  intros H. destruct (last dSrcAttrs) as [tBack|] eqn:Hlast.
  - destruct (Z.ltb_spec (m_iAttr tBack + 1) 0) as [Hneg|Hpos]; [discriminate|].
    cbn [mbind result_bind] in H.
    assert (Hres : resize (Z.to_nat (m_iAttr tBack + 1))
                     (resize (length dSrcAttrs) (@nil (option RawWriter_T.t)))
                   = replicate (Z.to_nat (m_iAttr tBack + 1)) None).
    { unfold resize. cbn [app]. rewrite take_replicate, Nat.min_id.
      rewrite <- replicate_add, take_replicate. f_equal. lia. }
    rewrite Hres in H.
    destruct (Builder_c.Setup_attrs eCollation _ dSrcAttrs) as [[ws cs]| |] eqn:Hs;
      cbn [mbind result_bind fst snd] in H; try discriminate.
    destruct (Z.eqb_spec (Builder_c.row_size ws) 0) as [H0|H0]; [discriminate|].
    injection H as <-. exists tBack, (Z.to_nat (m_iAttr tBack + 1)).
    cbn. repeat split; try assumption; try reflexivity.
    pose proof (row_size_nonneg ws 0 ltac:(lia)). unfold Builder_c.row_size in *. lia.
  - exfalso. destruct dSrcAttrs as [|a l]; [|now rewrite last_cons in Hlast; destruct (last l)].
    cbn in H. discriminate.
Qed.

End SetupSchema.

(** X18.  When [Setup] returns on a new builder, the collector table has
    one slot more than the index of the last source attribute, and every
    supported attribute has an index inside it: the table is sized by the
    last attribute, not by the largest index.  The schema lists the
    supported attributes in source order and numbers them 0, 1, 2, ...;
    each of them finds a collector in its slot, and slots that no
    supported attribute names are empty.  [m_iMaxRows] is at least 1000,
    so [SetRowID] never divides by zero. *)
Theorem Setup_builds_schema_and_table {E : Externals}
    (dSrcAttrs : list SourceAttrTrait_t) (iMemoryLimit : Z) (eCollation : Collation_e)
    (b : Builder_c.t) :
  Builder_c.Setup Builder_c.create dSrcAttrs iMemoryLimit eCollation = Ok b ->
  let sup := supported_attrs dSrcAttrs in
  (exists tBack, last dSrcAttrs = Some tBack /\
     Z.of_nat (length (Builder_c.m_dRawWriter b)) = m_iAttr tBack + 1) /\
  Forall (fun a => 0 <= m_iAttr a < Z.of_nat (length (Builder_c.m_dRawWriter b))) sup /\
  map ci_iAttr (Builder_c.m_dAttrs b) = map Z.of_nat (seq 0 (length sup)) /\
  map (fun c => (ci_eType c, ci_iSrcAttr c, ci_sName c)) (Builder_c.m_dAttrs b)
    = map (fun a => (m_eType a, m_iAttr a, m_sName a)) sup /\
  (forall a, In a sup ->
     exists a' w, In a' sup /\ m_iAttr a' = m_iAttr a /\
       Builder_c.m_dRawWriter b !! Z.to_nat (m_iAttr a) = Some (Some w) /\
       collector_for eCollation a' w) /\
  (forall i, (i < length (Builder_c.m_dRawWriter b))%nat ->
     (forall a, In a sup -> m_iAttr a <> Z.of_nat i) ->
     Builder_c.m_dRawWriter b !! i = Some None) /\
  1000 <= Builder_c.m_iMaxRows b /\
  (forall tRowID, exists b', Builder_c.SetRowID b tRowID = Ok b').
Proof.
  intros H sup.
  destruct (Setup_spec _ _ _ _ H) as (tBack & n & Hlast & Hpos & Hn & Hs & Hmax & Hrow & _).
  destruct (Setup_attrs_spec _ _ _ _ _ _ Hs) as (Hl & Hr & Hi & Hk & Hkeep & Hw & _).
  fold sup in Hr, Hi, Hk, Hkeep, Hw. rewrite length_replicate in *. cbn [map length app] in *.
  split; [exists tBack; split; [exact Hlast|lia]|].
  split; [now rewrite Hl|]. split; [exact Hi|]. split; [exact Hk|]. split; [exact Hw|].
  split; [|split].
  - intros i Hlt Hno. rewrite (Hkeep i Hno). apply lookup_replicate_2. lia.
  - rewrite Hmax. lia.
  - intros tRowID. unfold Builder_c.SetRowID.
    destruct (Z.eqb_spec (Builder_c.m_iMaxRows b) 0) as [H0|_]; [rewrite Hmax in H0; lia|].
    destruct (_ =? 0); eexists; reflexivity.
Qed.

Lemma Setup_builds_schema_and_table_witness :
  Builder_c.Setup (E := example_externals) Builder_c.create
    [mkSrcAttr 3 UINT32 "a"; mkSrcAttr 1 STRING "b"] 1000000 BINARY
  = Fault IndexOutOfRange /\
  map ci_iAttr (Builder_c.m_dAttrs example_two_attrs_setup) = [0; 1] /\
  1000 <= Builder_c.m_iMaxRows example_two_attrs_setup.
Proof.
  split; [reflexivity|].
  destruct (Setup_builds_schema_and_table (E := example_externals)
              [mkSrcAttr 0 UINT32 "a"; mkSrcAttr 1 UINT32 "b"] 1000000 BINARY
              example_two_attrs_setup eq_refl)
    as (_ & _ & H1 & _ & _ & _ & H2 & _).
  split; [exact H1|exact H2].
Defined.

(** X19.  The schema never has fewer entries than there are collectors,
    and it has exactly as many when no two supported source attributes
    share an index; each attribute then has the collector [Setup] made for
    it.  (With a shared index the later attribute replaces the collector
    of the earlier one, and the schema keeps both entries.) *)
Theorem Setup_schema_counts_collectors {E : Externals}
    (dSrcAttrs : list SourceAttrTrait_t) (iMemoryLimit : Z) (eCollation : Collation_e)
    (b : Builder_c.t) :
  Builder_c.Setup Builder_c.create dSrcAttrs iMemoryLimit eCollation = Ok b ->
  let sup := supported_attrs dSrcAttrs in
  length (Builder_c.m_dAttrs b) = length sup /\
  (length (collectors b) <= length (Builder_c.m_dAttrs b))%nat /\
  (NoDup (map m_iAttr sup) ->
   length (collectors b) = length (Builder_c.m_dAttrs b) /\
   forall a, In a sup ->
     exists w, Builder_c.m_dRawWriter b !! Z.to_nat (m_iAttr a) = Some (Some w) /\
               collector_for eCollation a w).
Proof.
  intros H sup.
  destruct (Setup_spec _ _ _ _ H) as (tBack & n & Hlast & Hpos & Hn & Hs & _).
  destruct (Setup_attrs_spec _ _ _ _ _ _ Hs) as (Hl & Hr & Hi & _ & _ & _ & Hle & Hnd).
  fold sup in Hr, Hi, Hle, Hnd.
  assert (Hnone : length (omap id (replicate n (@None RawWriter_T.t))) = 0%nat).
  { clear. induction n as [|n IH]; [reflexivity|exact IH]. }
  assert (Hlen : length (Builder_c.m_dAttrs b) = length sup).
  { apply (f_equal (@length _)) in Hi. cbn [map app length] in Hi.
    now rewrite !length_map, length_seq in Hi. }
  split; [exact Hlen|]. unfold collectors. rewrite Hnone in *. split; [lia|].
  intros Hnodup. destruct Hnd as [Hcount Hall]; [exact Hnodup| |].
  - intros a Hin. apply lookup_replicate_2.
    rewrite Forall_forall in Hr.
    pose proof (Hr a (proj2 (list_elem_of_In _ _) Hin)) as Hra.
    rewrite length_replicate in Hra. lia.
  - split; [lia|exact Hall].
Qed.

Lemma Setup_schema_counts_collectors_witness :
  (length (collectors example_two_attrs_setup) = 2%nat /\
   length (Builder_c.m_dAttrs example_two_attrs_setup) = 2%nat) /\
  (exists b, Builder_c.Setup (E := example_externals) Builder_c.create
               example_same_index 1000000 BINARY = Ok b /\
             length (collectors b) = 1%nat /\ length (Builder_c.m_dAttrs b) = 2%nat).
Proof.
  split.
  - destruct (Setup_schema_counts_collectors (E := example_externals)
                [mkSrcAttr 0 UINT32 "a"; mkSrcAttr 1 UINT32 "b"] 1000000 BINARY
                example_two_attrs_setup eq_refl) as (H1 & _ & H2).
    destruct H2 as [H2 _].
    + cbn. repeat constructor; cbn; intros Hin;
        repeat (apply elem_of_cons in Hin as [Hin|Hin]; [discriminate|]); inversion Hin.
    + split; [rewrite H2; exact H1|exact H1].
  - eexists. split; [reflexivity|]. split; reflexivity.
Defined.

(** ** Builder_c::Done: the layout of the data section *)

Section DataLayout.
Context {E : Externals}.

Lemma FlushBlock_frame rw :
  exists rw' d v, forall out,
    fst (RowWriter_t.FlushBlock rw out) = rw' /\
    tDstFile (snd (RowWriter_t.FlushBlock rw out)) = tDstFile out ++ d /\
    tTmpValsPGM (snd (RowWriter_t.FlushBlock rw out)) = tTmpValsPGM out ++ v.
Proof.
  unfold RowWriter_t.FlushBlock.
  destruct (Nat.eqb (length (RowWriter_t.m_dValues rw)) 0).
  - exists rw, [], []. intros out. cbn. now rewrite !app_nil_r.
  - destruct (RowWriter_t.pack_rows rw) as [rw1 bLenDelta].
    eexists _, _, _. intros out. cbn. repeat split.
Qed.

Lemma NextValue_frame rw x :
  exists rw' d v, forall out,
    fst (RowWriter_t.NextValue rw x out) = rw' /\
    tDstFile (snd (RowWriter_t.NextValue rw x out)) = tDstFile out ++ d /\
    tTmpValsPGM (snd (RowWriter_t.NextValue rw x out)) = tTmpValsPGM out ++ v.
Proof.
  unfold RowWriter_t.NextValue, RowWriter_t.FlushValue.
  destruct (_ && _).
  { eexists _, [], []. intros out. cbn. now rewrite !app_nil_r. }
  destruct (_ && _).
  { eexists _, [], []. intros out. cbn. now rewrite !app_nil_r. }
  destruct (_ <? _).
  { eexists _, [], []. intros out. cbn. now rewrite !app_nil_r. }
  destruct (FlushBlock_frame rw) as (rw' & d & v & H).
  exists (RowWriter_t.AddValue rw' x), d, v. intros out.
  destruct (H out) as (H1 & H2 & H3).
  destruct (RowWriter_t.FlushBlock rw out) as [rw1 out1]. cbn [fst snd] in *.
  now subst rw1.
Qed.

Lemma merge_loop_frame fuel w : forall dBins tWriter,
  exists r d v, forall out,
    fst (SIWriter_T.merge_loop fuel w (dBins, tWriter, out)) = r /\
    tDstFile (snd (SIWriter_T.merge_loop fuel w (dBins, tWriter, out))) = tDstFile out ++ d /\
    tTmpValsPGM (snd (SIWriter_T.merge_loop fuel w (dBins, tWriter, out)))
      = tTmpValsPGM out ++ v.
Proof.
  induction fuel as [|fuel IH]; intros dBins tWriter.
  - exists (dBins, tWriter), [], []. intros out. cbn. now rewrite !app_nil_r.
  - cbn [SIWriter_T.merge_loop]. unfold SIWriter_T.merge_step.
    destruct (pq_pop _ dBins) as [[tBin dBins']|].
    + destruct (NextValue_frame tWriter (Convert (SIWriter_T.SRC_VALUE w) (bin_value tBin)))
        as (rw' & d1 & v1 & H1).
      destruct (BinValue_Read _ _ tBin) as [bRead tBin'] eqn:HR.
      destruct (IH (if bRead then pq_push tBin' dBins' else dBins') rw') as (r & d2 & v2 & H2).
      exists r, (d1 ++ d2), (v1 ++ v2). intros out.
      destruct (H1 out) as (Ha & Hb & Hc).
      destruct (RowWriter_t.NextValue tWriter _ out) as [tWriter' out']. cbn [fst snd] in *.
      subst tWriter'. destruct (H2 out') as (Ha' & Hb' & Hc').
      rewrite Ha', Hb', Hc', Hb, Hc, !app_assoc. auto.
    + exists (dBins, tWriter), [], []. intros out. cbn. now rewrite !app_nil_r.
Qed.

Lemma Process_merge_frame w tDst tBlocksOff :
  tDstFile (snd (SIWriter_T.Process_merge w tDst tBlocksOff)) = tDst ++ attr_blocks w /\
  tTmpValsPGM (snd (SIWriter_T.Process_merge w tDst tBlocksOff))
    = tTmpValsPGM (snd (SIWriter_T.Process_merge w [] [])).
Proof.
  unfold attr_blocks, SIWriter_T.Process_merge.
  destruct (SIWriter_T.initial_fill _ _ _) as [dBins tWriter1].
  destruct (merge_loop_frame (SIWriter_T.merge_fuel dBins) w dBins tWriter1)
    as ([dBins2 tWriter2] & d & v & H).
  destruct (H (mkOut tDst tBlocksOff [])) as (Ha & Hb & Hc).
  destruct (H (mkOut [] [] [])) as (Ha' & Hb' & Hc').
  destruct (SIWriter_T.merge_loop _ w (dBins, tWriter1, mkOut tDst tBlocksOff []))
    as [[dBinsA tWriterA] outA].
  destruct (SIWriter_T.merge_loop _ w (dBins, tWriter1, mkOut [] [] []))
    as [[dBinsB tWriterB] outB].
  cbn [fst snd tDstFile tTmpValsPGM app] in *.
  injection Ha as -> ->. injection Ha' as -> ->.
  unfold RowWriter_t.Done.
  destruct (FlushBlock_frame tWriter2) as (rw' & d' & v' & H').
  destruct (H' outA) as (_ & HdA & HvA). destruct (H' outB) as (_ & HdB & HvB).
  destruct (RowWriter_t.FlushBlock tWriter2 outA) as [rwA outA'].
  destruct (RowWriter_t.FlushBlock tWriter2 outB) as [rwB outB'].
  cbn [fst snd] in *. rewrite HdA, HdB, HvA, HvB, Hb, Hb', Hc, Hc', <- app_assoc. auto.
Qed.

Lemma Process_frame w tDst tBlocksOff w' tDst' tBlocksOff' :
  SIWriter_T.Process w tDst tBlocksOff = Ok (w', tDst', tBlocksOff') ->
  tDst' = tDst ++ attr_blocks w /\ SIWriter_T.m_dPGM w' = attr_pgm w.
Proof.
  unfold SIWriter_T.Process, attr_pgm. intros H.
  destruct (negb _); [discriminate|]. destruct (_ && _); [discriminate|].
  destruct (Process_merge_frame w tDst tBlocksOff) as [Hd Hv].
  destruct (SIWriter_T.Process_merge w tDst tBlocksOff) as [[dBins tw] out].
  cbn [snd] in Hd, Hv. rewrite Hv in H.
  destruct (negb _); [discriminate|]. injection H as <- <- <-.
  split; [exact Hd|reflexivity].
Qed.

Lemma Done_writers_layout : forall dCidWriter st st',
  Builder_c.Done_writers st dCidWriter = Ok st' ->
  Builder_c.d_tDstFile st' = Builder_c.d_tDstFile st ++ concat (map attr_blocks dCidWriter) /\
  Builder_c.d_tTmpPgm st'
    = Builder_c.d_tTmpPgm st ++ concat (map (fun w => WriteVectorLen (attr_pgm w)) dCidWriter) /\
  length (Builder_c.d_dBlocksOffStart st')
    = (length (Builder_c.d_dBlocksOffStart st) + length dCidWriter)%nat.
Proof.
  induction dCidWriter as [|w ws IH]; intros st st' H.
  - injection H as <-. cbn. rewrite !app_nil_r. auto.
  - cbn [Builder_c.Done_writers] in H. unfold Builder_c.Done_writer in H.
    destruct (SIWriter_T.Process w (Builder_c.d_tDstFile st) (Builder_c.d_tTmpBlocks st))
      as [[[w' tDst] tBlocks]| |] eqn:HP; try discriminate.
    apply Process_frame in HP as [-> Hpgm].
    cbn [mbind result_bind] in H. apply IH in H as (Hd & Hp & Hl).
    cbn [Builder_c.d_dBlocksOffStart Builder_c.d_tTmpPgm Builder_c.d_tDstFile] in *.
    cbn [map concat length]. rewrite Hd, Hp, Hl, Hpgm, length_app, <- !app_assoc.
    cbn [length]. repeat split. lia.
Qed.

Lemma omap_collectors (l : list (option RawWriter_T.t)) :
  omap (option_map GetWriter) (map (option_map RawWriter_T.Done) l)
  = map (fun w => GetWriter (RawWriter_T.Done w)) (omap id l).
Proof.
  induction l as [|[w|] l IH]; cbn; [reflexivity| |exact IH].
  f_equal. exact IH.
Qed.

End DataLayout.

(** X20.  When the processing part of [Done] returns, the output file is
    the 12-byte header, its [meta_offset] still zero, followed by the
    value blocks of the attributes one after the other in slot order; what
    an attribute contributes does not depend on what was written before
    it.  The PGM staging file holds the length-prefixed PGM of each
    attribute in the same order, and there is one block-offsets start for
    each of them. *)
Theorem Done_lays_out_attributes_in_slot_order {E : Externals}
    (b : Builder_c.t) (st : Builder_c.DoneState) :
  Builder_c.Done_process b = Ok st ->
  Builder_c.d_tDstFile st
    = Write_uint32 LIB_VERSION ++ Write_uint64 0 ++ concat (map attr_blocks (index_writers b)) /\
  Builder_c.d_tTmpPgm st
    = concat (map (fun w => WriteVectorLen (attr_pgm w)) (index_writers b)) /\
  length (Builder_c.d_dBlocksOffStart st) = length (index_writers b) /\
  forall w tDst tBlocksOff,
    tDstFile (snd (SIWriter_T.Process_merge w tDst tBlocksOff)) = tDst ++ attr_blocks w.
Proof.
  intros H. unfold Builder_c.Done_process in H.
  repeat (destruct (negb _); [discriminate|]).
  rewrite omap_collectors in H. fold (collectors b) in H. fold (index_writers b) in H.
  apply Done_writers_layout in H as (Hd & Hp & Hl).
  cbn [Builder_c.d_tDstFile Builder_c.d_tTmpPgm Builder_c.d_dBlocksOffStart app length] in *.
  split; [now rewrite Hd, <- app_assoc|]. split; [exact Hp|]. split; [exact Hl|].
  intros w tDst tBlocksOff. apply Process_merge_frame.
Qed.

Lemma Done_lays_out_attributes_in_slot_order_witness :
  Builder_c.d_tDstFile example_two_attrs_state
  = Write_uint32 9 ++ Write_uint64 0
      ++ concat (map (attr_blocks (E := example_externals))
                   (index_writers (E := example_externals) example_two_attrs_builder)) /\
  map (attr_blocks (E := example_externals))
    (index_writers (E := example_externals) example_two_attrs_builder)
  = [[]; [1; 5; 0; 0; 0; 1; 0; 0; 0; 0; 0; 1; 0; 0; 0; 0]].
Proof.
  destruct (Done_lays_out_attributes_in_slot_order (E := example_externals)
              example_two_attrs_builder example_two_attrs_state eq_refl) as (H & _).
  split; [exact H|reflexivity].
Defined.

(** ** A whole build *)

Section WholeBuild.
Context {E : Externals}.

Lemma calls_of_slot_typed iMaxRows i calls : forall tRowID,
  Forall builder_call_typed calls ->
  Forall call_typed (calls_of_slot iMaxRows i tRowID calls).
Proof.
  induction calls as [|c calls IH]; intros tRowID H; [constructor|].
  apply Forall_cons in H as [Hc H].
  destruct c as [r|a v|a d|a d]; cbn [calls_of_slot]; apply Forall_app; split;
    try (now apply IH);
    match goal with |- Forall _ (if ?c then _ else _) => destruct c end;
    try (constructor; [first [exact Hc | exact I] | constructor]); constructor.
Qed.

Lemma call_pairs_length T eCollation c :
  (length (call_pairs T eCollation c)
   <= match c with
      | CallSetAttr_array _ pData => length pData
      | CallFlush => 0
      | _ => 1
      end)%nat.
Proof.
  destruct c as [r v|r d|r d|]; destruct T; cbn; rewrite ?length_map; lia.
Qed.

Lemma calls_of_slot_pairs T eCollation iMaxRows i calls : forall tRowID,
  (length (flat_map (call_pairs T eCollation) (calls_of_slot iMaxRows i tRowID calls))
   <= values_of_calls calls)%nat.
Proof.
  induction calls as [|c calls IH]; intros tRowID; [cbn; lia|].
  assert (Hone : forall (cond : bool) c' r,
            (length (call_pairs T eCollation c') <= values_of_call c)%nat ->
            (length (flat_map (call_pairs T eCollation)
                       ((if cond then [c'] else []) ++ calls_of_slot iMaxRows i r calls))
             <= values_of_calls (c :: calls))%nat).
  { intros cond c' r Hc. rewrite flat_map_app, length_app.
    specialize (IH r). cbn [values_of_calls fold_right]. fold (values_of_calls calls).
    destruct cond; cbn [flat_map length]; rewrite ?app_nil_r; lia. }
  destruct c as [r|a v|a d|a d]; cbn [calls_of_slot]; apply Hone;
    exact (call_pairs_length T eCollation _).
Qed.

(** [Process] returns on the index writer of a collector of an integer
    attribute: the [std::is_sorted] assertion holds. *)
Lemma Process_returns eType iAttr eCollation w00 w0 calls w tDst tBlocksOff :
  (forall f, Open_ok f = true) ->
  Builder_c.new_RawWriter eType = Some w00 ->
  RawWriter_T.Setup w00 iAttr eType eCollation = Ok w0 ->
  RawWriter_T.T w0 <> T_float ->
  Forall call_typed calls ->
  collect w0 calls = Ok w ->
  Z.of_nat (length (flat_map (call_pairs (RawWriter_T.T w0) eCollation) calls)) < 2 ^ 32 ->
  exists r, SIWriter_T.Process (GetWriter (RawWriter_T.Done w)) tDst tBlocksOff = Ok r.
Proof.
  intros Hopen Hnew Hsetup HT Htyped Hcollect Hlen.
  destruct (pipeline eType iAttr eCollation w00 w0 calls w tDst tBlocksOff
              Hnew Hsetup HT Htyped Hcollect Hlen)
    as (HSRC & _ & _ & Hss & Hsp & Hrange & blocks & Hcut & Hg & Hnil & Hd & Hp).
  set (T := RawWriter_T.T w0) in *.
  set (siw := GetWriter (RawWriter_T.Done w)) in *.
  set (stream := merged_stream siw) in *.
  assert (Hrs : Forall (fun p => value_in_range T (m_tValue p)) stream) by (now rewrite Hsp).
  assert (Hvs : exists vs,
            map fst (concat blocks) = map (dst_value T) vs /\
            StronglySorted Z.lt vs /\ Forall (value_in_range T) vs).
  { destruct stream as [|x0 stream'] eqn:Hst.
    - rewrite (Hnil eq_refl). exists []. repeat split; constructor.
    - destruct (groups_of_stream T (x0 :: stream') (concat blocks) HT Hss Hrs
                  (Hg ltac:(discriminate))) as (vs & H1 & H2 & H3 & _).
      exists vs. auto. }
  destruct Hvs as (vs & Hfst & Hsorted & Hvr).
  unfold SIWriter_T.Process. rewrite !Hopen. cbn [negb andb]. rewrite andb_false_r.
  destruct (SIWriter_T.Process_merge siw tDst tBlocksOff) as [[dBins tw] out].
  cbn [snd] in Hp. rewrite HSRC, Hp, Hfst, MappedBuffer_WriteRawValues by assumption.
  assert (Hlt : value_lt T = Z.ltb).
  { unfold value_lt. destruct T; try reflexivity; congruence. }
  rewrite Hlt, is_sorted_lt by exact Hsorted. cbn [negb]. eexists. reflexivity.
Qed.

Lemma Done_writers_returns : forall dCidWriter st,
  Forall (fun w => forall tDst tBlocksOff, exists r,
            SIWriter_T.Process w tDst tBlocksOff = Ok r) dCidWriter ->
  exists st', Builder_c.Done_writers st dCidWriter = Ok st'.
Proof.
  induction dCidWriter as [|w ws IH]; intros st H; [eexists; reflexivity|].
  apply Forall_cons in H as [Hw Hws]. cbn [Builder_c.Done_writers].
  unfold Builder_c.Done_writer.
  destruct (Hw (Builder_c.d_tDstFile st) (Builder_c.d_tTmpBlocks st)) as [[[w' tDst] tBlk] Hr].
  rewrite Hr. cbn [mbind result_bind]. apply IH. exact Hws.
Qed.

Lemma Forall_omap_id {A} (P : A -> Prop) (l : list (option A)) :
  (forall i x, l !! i = Some (Some x) -> P x) -> Forall P (omap id l).
Proof.
  induction l as [|[x|] l IH]; intros H; cbn.
  - constructor.
  - constructor; [exact (H 0%nat x eq_refl)|]. apply IH. intros i y Hy. exact (H (S i) y Hy).
  - apply IH. intros i y Hy. exact (H (S i) y Hy).
Qed.

Lemma omap_id_nil {A} (l : list (option A)) : omap id l = [] -> Forall (eq None) l.
Proof.
  induction l as [|[x|] l IH]; cbn; intros H; [constructor|discriminate|].
  constructor; [reflexivity|now apply IH].
Qed.

Lemma new_RawWriter_float eType w00 :
  Builder_c.new_RawWriter eType = Some w00 -> eType <> FLOAT -> RawWriter_T.T w00 <> T_float.
Proof.
  destruct eType; cbn; intros H Hne; try discriminate; try congruence;
    injection H as <-; discriminate.
Qed.

End WholeBuild.

(** X21.  A build of integer and string attributes runs to its end: when
    every file can be opened, [Setup] has returned for source attributes
    with distinct indices and none of type FLOAT, and the host's calls
    have returned, with [int64_t] arguments and fewer than [2^32] values
    in all, then [Done] returns the index file.  No assertion fails, in
    particular not [std::is_sorted] on the PGM values, and [back()] is
    not taken of an empty vector: there is at least one block-offsets
    start, and one for each attribute of the schema. *)
Theorem integer_build_completes {E : Externals}
    (dSrcAttrs : list SourceAttrTrait_t) (iMemoryLimit : Z) (eCollation : Collation_e)
    (b0 b : Builder_c.t) (calls : list BuilderCall) :
  (forall f, Open_ok f = true) ->
  Builder_c.Setup Builder_c.create dSrcAttrs iMemoryLimit eCollation = Ok b0 ->
  NoDup (map m_iAttr (supported_attrs dSrcAttrs)) ->
  Forall (fun a => m_eType a <> FLOAT) dSrcAttrs ->
  Forall builder_call_typed calls ->
  Z.of_nat (values_of_calls calls) < 2 ^ 32 ->
  build b0 calls = Ok b ->
  exists st final,
    Builder_c.Done_process b = Ok st /\
    Builder_c.Done b = Ok final /\
    (1 <= length (Builder_c.d_dBlocksOffStart st))%nat /\
    length (Builder_c.d_dBlocksOffStart st) = length (Builder_c.m_dAttrs b).
Proof.
  intros Hopen Hsetup Hnodup Hnofloat Htyped Hvalues Hbuild.
  destruct (Setup_spec _ _ _ _ Hsetup)
    as (tBack & n & Hlast & Hpos & Hn & Hs & _ & Hrow & Hcoll & Hrid).
  destruct (Setup_attrs_spec _ _ _ _ _ _ Hs) as (Hl & Hr & Hi & _ & Hkeep & _ & _ & Hnd).
  destruct Hnd as [Hcount Hall]; [exact Hnodup| |].
  { intros a Hin. apply lookup_replicate_2.
    rewrite Forall_forall in Hr.
    pose proof (Hr a (proj2 (list_elem_of_In _ _) Hin)) as Hra.
    rewrite length_replicate in Hra. lia. }
  destruct (build_slot calls b0 b Hbuild) as (Hm & Ha & _ & Hslots).
  (* every collector of [b] comes from a supported attribute *)
  assert (Hproc : Forall (fun w => forall tDst tBlocksOff, exists r,
                    SIWriter_T.Process w tDst tBlocksOff = Ok r) (index_writers b)).
  { unfold index_writers, collectors. apply Forall_fmap. apply Forall_omap_id.
    intros i w' Hw' tDst tBlocksOff. cbn.
    specialize (Hslots i). unfold slot_step in Hslots.
    destruct (Builder_c.m_dRawWriter b0 !! i) as [[w0|]|] eqn:Hw0; try congruence.
    destruct Hslots as (w1 & Hw1 & Hcollect).
    assert (w1 = w') by congruence. subst w1.
    destruct (in_dec Z.eq_dec (Z.of_nat i) (map m_iAttr (supported_attrs dSrcAttrs)))
      as [Hin|Hnot].
    - apply in_map_iff in Hin as (a & Hidx & Hin).
      destruct (Hall a Hin) as (w0' & Hlook & pWriter & Hnew & Hset).
      rewrite Hidx, Nat2Z.id, Hw0 in Hlook. injection Hlook as <-.
      assert (Hfl : m_eType a <> FLOAT).
      { rewrite Forall_forall in Hnofloat. apply Hnofloat. apply list_elem_of_In.
        unfold supported_attrs in Hin. apply filter_In in Hin. tauto. }
      assert (HT : RawWriter_T.T w0 <> T_float).
      { rewrite (Setup_fields _ _ _ _ _ Hset). cbn.
        now apply (new_RawWriter_float (m_eType a)). }
      apply (Process_returns (m_eType a) (m_iAttr a) eCollation pWriter w0
               (calls_of_slot (Builder_c.m_iMaxRows b0) i (Builder_c.m_tRowID b0) calls));
        try assumption.
      + now apply calls_of_slot_typed.
      + pose proof (calls_of_slot_pairs (RawWriter_T.T w0) eCollation
                      (Builder_c.m_iMaxRows b0) i calls (Builder_c.m_tRowID b0)). lia.
    - exfalso. rewrite Hkeep in Hw0.
      + apply lookup_replicate in Hw0 as [Hw0 _]. discriminate.
      + intros a Hin Heq. apply Hnot. rewrite <- Heq. now apply in_map. }
  assert (Hcols : length (collectors b) = length (collectors b0)).
  { destruct (slots_same_shape (Builder_c.m_dRawWriter b0) (Builder_c.m_dRawWriter b))
      as [_ Ho]; [|exact Ho].
    intros i. specialize (Hslots i). unfold slot_step in Hslots.
    destruct (Builder_c.m_dRawWriter b0 !! i) as [[w|]|]; try exact Hslots.
    destruct Hslots as (w' & Hw & _). now exists w'. }
  assert (Hsome : (1 <= length (collectors b0))%nat).
  { destruct (collectors b0) as [|w l] eqn:Hc; [|cbn; lia]. exfalso.
    apply omap_id_nil in Hc. apply row_size_all_null in Hc. lia. }
  unfold Builder_c.Done, Builder_c.Done_process. rewrite !Hopen. cbn [negb].
  rewrite omap_collectors. fold (collectors b). fold (index_writers b).
  destruct (Done_writers_returns (index_writers b)
              (Builder_c.mkDone (Write_uint32 LIB_VERSION ++ Write_uint64 0) [] [] []) Hproc)
    as [st Hst].
  rewrite Hst. cbn [mbind result_bind].
  apply Done_writers_layout in Hst as (_ & _ & Hlen).
  cbn [Builder_c.d_dBlocksOffStart length Nat.add] in Hlen.
  assert (Hiw : length (index_writers b) = length (collectors b))
    by (unfold index_writers; apply length_map).
  destruct (Nat.eqb_spec (length (Builder_c.d_dBlocksOffStart st)) 0) as [H0|_]; [lia|].
  unfold Builder_c.WriteMeta. rewrite Hopen.
  exists st. eexists. split; [reflexivity|]. split; [reflexivity|]. split; [lia|].
  rewrite Hlen, Hiw, Hcols, Ha. unfold collectors.
  rewrite Hcount. cbn [length Nat.add].
  assert (Hnone : length (omap id (replicate n (@None RawWriter_T.t))) = 0%nat).
  { clear. induction n as [|n IH]; [reflexivity|exact IH]. }
  rewrite Hnone. apply (f_equal (@length _)) in Hi. cbn [map app length] in Hi.
  rewrite !length_map, length_seq in Hi. lia.
Qed.

Lemma integer_build_completes_witness :
  exists final, Builder_c.Done (E := example_externals) example_builder = Ok final.
Proof.
  destruct (integer_build_completes (E := example_externals)
              [mkSrcAttr 0 UINT32 "a"] 1000000 BINARY example_setup example_builder
              example_builder_calls) as (st & final & _ & H & _).
  - reflexivity.
  - reflexivity.
  - cbn. repeat constructor. intros Hin. inversion Hin.
  - repeat constructor. discriminate.
  - repeat constructor; cbn; lia.
  - vm_compute. reflexivity.
  - reflexivity.
  - exists final. exact H.
Defined.

(** ** Builder_c::Done: the starts of the block-offsets table *)

Section BlockCounts.
Context {E : Externals}.













End BlockCounts.



(** ** The order of float values *)

Section FloatValues.

Lemma float_fields u : 0 <= u < 2 ^ 32 ->
  let s := 2 ^ 31 <=? u in
  let e := (u / 2 ^ 23) mod 256 in
  let m := u mod 2 ^ 23 in
  0 <= e < 256 /\ 0 <= m < 2 ^ 23 /\
  u = (if s then 2 ^ 31 else 0) + e * 2 ^ 23 + m.
Proof.
  intros Hu s e m.
  assert (He : 0 <= e < 256) by (apply Z.mod_pos_bound; lia).
  assert (Hm : 0 <= m < 2 ^ 23) by (apply Z.mod_pos_bound; lia).
  split; [exact He|]. split; [exact Hm|].
  pose proof (Z.div_mod u (2 ^ 23) ltac:(lia)) as H1.
  pose proof (Z.div_mod (u / 2 ^ 23) 256 ltac:(lia)) as H2.
  fold e in H2. fold m in H1.
  assert (Hq : 0 <= u / 2 ^ 23 < 512).
  { split; [apply Z.div_pos; lia|]. apply Z.div_lt_upper_bound; lia. }
  assert (Hq2 : 0 <= u / 2 ^ 23 / 256 < 2).
  { split; [apply Z.div_pos; lia|]. apply Z.div_lt_upper_bound; lia. }
  unfold s. destruct (Z.leb_spec (2 ^ 31) u) as [Hs|Hs]; lia.
Qed.

(** The comparison of two floats that are no NaN is the comparison of
    their keys. *)
Lemma SFcompare_float_key a b :
  is_nan a = false -> is_nan b = false ->
  SFcompare (UintToFloat a) (UintToFloat b) = Some (float_key a ?= float_key b).
Proof.
  unfold is_nan, UintToFloat, float_key. cbv zeta.
  assert (Ha : 0 <= wrap32 a < 2 ^ 32) by (apply Z.mod_pos_bound; lia).
  assert (Hb : 0 <= wrap32 b < 2 ^ 32) by (apply Z.mod_pos_bound; lia).
  set (ua := wrap32 a) in *. set (ub := wrap32 b) in *.
  destruct (float_fields ua Ha) as (Hea & Hma & Hua).
  destruct (float_fields ub Hb) as (Heb & Hmb & Hub).
  cbv zeta in *.
  set (ea := (ua / 2 ^ 23) mod 256) in *. set (ma := ua mod 2 ^ 23) in *.
  set (eb := (ub / 2 ^ 23) mod 256) in *. set (mb := ub mod 2 ^ 23) in *.
  assert (Hc : forall x y c, (x ?= y) = c -> Some c = Some (x ?= y)) by (intros; congruence).
  assert (Hpos : forall p q : positive,
            Pos.compare_cont Eq p q = (Z.pos p ?= Z.pos q)) by reflexivity.
  destruct (Z.leb_spec (2 ^ 31) ua) as [Hsa|Hsa];
  destruct (Z.leb_spec (2 ^ 31) ub) as [Hsb|Hsb];
  destruct (Z.eqb_spec ea 255) as [Ha255|Ha255];
  destruct (Z.eqb_spec eb 255) as [Hb255|Hb255];
  try (destruct (Z.eqb_spec ma 0) as [Hma0|Hma0]; [|discriminate]);
  try (destruct (Z.eqb_spec mb 0) as [Hmb0|Hmb0]; [|discriminate]);
  try destruct (Z.eqb_spec ea 0) as [Ha0|Ha0];
  try destruct (Z.eqb_spec eb 0) as [Hb0|Hb0];
  try (destruct (Z.eqb_spec ma 0) as [Hma0|Hma0]);
  try (destruct (Z.eqb_spec mb 0) as [Hmb0|Hmb0]);
  intros _ _; cbn [SFcompare]; rewrite ?Hpos, ?Z2Pos.id by lia;
  try (apply Hc;
       first [ apply Z.compare_eq_iff; lia
             | apply Z.compare_lt_iff; lia
             | apply Z.compare_gt_iff; lia ]).
  all: match goal with
       | |- Some (match ?x ?= ?y with _ => _ end) = _ => destruct (Z.compare_spec x y)
       end;
       try match goal with
           | |- Some (CompOpp (?x ?= ?y)) = _ => destruct (Z.compare_spec x y); cbn [CompOpp]
           | |- Some (?x ?= ?y) = Some _ => destruct (Z.compare_spec x y)
           end;
       apply Hc;
       first [ apply Z.compare_eq_iff; lia
             | apply Z.compare_lt_iff; lia
             | apply Z.compare_gt_iff; lia ].
Qed.

Lemma float_compare_key a b : is_nan a = false -> is_nan b = false ->
  float_less a b = (float_key a <? float_key b) /\
  float_equal a b = (float_key a =? float_key b).
Proof.
  intros Hna Hnb. unfold float_less, float_equal, SFltb, SFeqb.
  rewrite (SFcompare_float_key a b Hna Hnb).
  destruct (Z.compare_spec (float_key a) (float_key b)) as [H|H|H].
  - rewrite H, Z.ltb_irrefl, Z.eqb_refl. auto.
  - split; symmetry; [apply Z.ltb_lt|apply Z.eqb_neq]; lia.
  - split; symmetry; [apply Z.ltb_ge|apply Z.eqb_neq]; lia.
Qed.

(** A NaN is neither less than, nor greater than, nor equal to any float,
    itself included. *)
Lemma float_compare_nan a b : is_nan a = true ->
  float_less a b = false /\ float_less b a = false /\
  float_equal a b = false /\ float_equal b a = false.
Proof.
  unfold is_nan, float_less, float_equal, SFltb, SFeqb. intros Ha.
  destruct (UintToFloat a); try discriminate.
  destruct (UintToFloat b); repeat split; reflexivity.
Qed.

End FloatValues.

(** ** Sorting and merging under any comparator that orders the pairs *)

Section OrderedPairs.
Context {E : Externals}.
Variable T : VALUE.
Variable R : relation RawValue_T.
Variable ok : RawValue_T -> Prop.
Hypothesis R_trans : forall a b c, R a b -> R b c -> R a c.
Hypothesis R_total : forall a b, R a b \/ R b a.
Hypothesis Hcmp : forall a b, ok a -> ok b -> (RawValueCmp T a b = false <-> R b a).
Hypothesis Hpq : forall x y, ok (bin_value x) -> ok (bin_value y) ->
  (PQGreater T x y = false <-> R (bin_value x) (bin_value y)).

Lemma sort_insert_sorted_by x l :
  ok x -> Forall ok l -> StronglySorted R l ->
  StronglySorted R (sort_insert (RawValueCmp T) x l).
Proof.
  intros Hx. induction l as [|y l IH]; intros Hok Hl; simpl.
  - repeat constructor.
  - apply Forall_cons in Hok as [Hy Hok].
    apply StronglySorted_inv in Hl as [Hl Hyl].
    destruct (RawValueCmp T y x) eqn:Hc.
    + constructor; [now apply IH|].
      rewrite sort_insert_Permutation. constructor; [|exact Hyl].
      destruct (R_total y x) as [H|H]; [exact H|].
      apply (Hcmp y x Hy Hx) in H. congruence.
    + apply (Hcmp y x Hy Hx) in Hc.
      constructor; [now constructor|]. constructor; [exact Hc|].
      eapply Forall_impl; [exact Hyl|]. intros z Hz. now apply (R_trans x y z).
Qed.

Lemma std_sort_sorted_by l :
  Forall ok l -> StronglySorted R (std_sort (RawValueCmp T) l).
Proof.
  induction l as [|x l IH]; intros Hok; simpl; [constructor|].
  apply Forall_cons in Hok as [Hx Hok].
  apply sort_insert_sorted_by; [exact Hx| |now apply IH].
  now rewrite std_sort_Permutation.
Qed.

Lemma Flush_sorted_runs w runs :
  RawWriter_T.T w = T -> Forall ok (RawWriter_T.m_dRows w) ->
  sorted_runs R w runs ->
  exists runs',
    sorted_runs R (RawWriter_T.Flush w) runs' /\
    RawWriter_T.m_dRows (RawWriter_T.Flush w) = [] /\
    concat runs' ≡ₚ concat runs ++ RawWriter_T.m_dRows w.
Proof.
  intros HT Hok (Hf & Ho & Hr). unfold RawWriter_T.Flush.
  pose proof (sizeof_RawValue_pos (RawWriter_T.T w)) as Hsz.
  destruct (Z.eqb_spec (sizeof_RawValue (RawWriter_T.T w)
                          * Z.of_nat (length (RawWriter_T.m_dRows w))) 0) as [H0|H0].
  - assert (Hnil : RawWriter_T.m_dRows w = []).
    { destruct (RawWriter_T.m_dRows w); [reflexivity|]. simpl length in H0. nia. }
    exists runs. split; [now repeat split|]. split; [exact Hnil|].
    now rewrite Hnil, app_nil_r.
  - exists (runs ++ [std_sort (RawValueCmp (RawWriter_T.T w)) (RawWriter_T.m_dRows w)]).
    split; [repeat split|split; [reflexivity|]].
    + cbn [RawWriter_T.m_tFile]. rewrite concat_app, Hf. simpl. now rewrite app_nil_r.
    + cbn [RawWriter_T.m_dOffset RawWriter_T.T]. rewrite run_offsets_snoc, Ho.
      unfold RawWriter_T.GetPos. now rewrite Hf.
    + apply Forall_app. split; [exact Hr|]. constructor; [|constructor].
      split; [|rewrite HT; now apply std_sort_sorted_by].
      intros Hnil. apply (f_equal (@length _)) in Hnil.
      rewrite (Permutation_length (std_sort_Permutation _ _)) in Hnil.
      simpl in Hnil. rewrite Hnil in H0. lia.
    + rewrite concat_app. simpl. rewrite app_nil_r.
      now rewrite std_sort_Permutation.
Qed.

Lemma pq_pop_spec_on {A} (P : A -> Prop) (greater : A -> A -> bool) q :
  (forall a b c, P a -> P b -> P c ->
     greater a b = false -> greater b c = false -> greater a c = false) ->
  (forall a b, P a -> P b -> greater a b = true -> greater b a = false) ->
  Forall P q ->
  match pq_pop greater q with
  | None => q = []
  | Some (x, r) => q ≡ₚ x :: r /\ Forall (fun y => greater x y = false) r
  end.
Proof.
  intros Htrans Htot. induction q as [|x q IH]; intros HP; [reflexivity|].
  apply Forall_cons in HP as [Hx HP]. specialize (IH HP).
  cbn [pq_pop]. destruct (pq_pop greater q) as [[y r]|].
  - destruct IH as [Hp Hmin].
    assert (HPyr : Forall P (y :: r)) by (now rewrite <- Hp).
    apply Forall_cons in HPyr as [Hy HPr].
    destruct (greater x y) eqn:Hxy.
    + split; [rewrite Hp; apply perm_swap|]. constructor; [now apply Htot|exact Hmin].
    + split; [reflexivity|]. rewrite Hp. constructor; [exact Hxy|].
      assert (Hboth : Forall (fun z => P z /\ greater y z = false) r)
        by (apply Forall_and; auto).
      eapply Forall_impl; [exact Hboth|]. intros z [Hz Hyz]. now apply (Htrans x y z).
  - subst q. split; [reflexivity|constructor].
Qed.

Lemma PQGreater_pop_by q :
  Forall (fun b => ok (bin_value b)) q ->
  match pq_pop (PQGreater T) q with
  | None => q = []
  | Some (x, r) => q ≡ₚ x :: r /\ Forall (fun y => R (bin_value x) (bin_value y)) r
  end.
Proof.
  intros Hq.
  pose proof (pq_pop_spec_on (fun b => ok (bin_value b)) (PQGreater T) q) as H.
  assert (H1 : forall a b c, ok (bin_value a) -> ok (bin_value b) -> ok (bin_value c) ->
             PQGreater T a b = false -> PQGreater T b c = false -> PQGreater T a c = false).
  { intros a b c Ha Hb Hc. rewrite !Hpq by assumption. apply R_trans. }
  assert (H2 : forall a b, ok (bin_value a) -> ok (bin_value b) ->
             PQGreater T a b = true -> PQGreater T b a = false).
  { intros a b Ha Hb Hab. rewrite Hpq by assumption.
    destruct (R_total (bin_value b) (bin_value a)) as [H'|H']; [exact H'|].
    apply (Hpq a b Ha Hb) in H'. congruence. }
  specialize (H H1 H2 Hq).
  destruct (pq_pop (PQGreater T) q) as [[x r]|]; [|exact H].
  destruct H as [Hp Hmin]. split; [exact Hp|].
  assert (Hxr : Forall (fun b => ok (bin_value b)) (x :: r)) by (now rewrite <- Hp).
  apply Forall_cons in Hxr as [Hx Hr].
  assert (Hboth : Forall (fun y => ok (bin_value y) /\ PQGreater T x y = false) r)
    by (apply Forall_and; auto).
  eapply Forall_impl; [exact Hboth|]. intros y [Hy Hxy]. now apply (Hpq x y Hx Hy).
Qed.

Lemma BinValue_Read_spec_by file sz b : 0 < sz -> bin_ok_by R ok file sz b ->
  let '(bRead, b') := BinValue_Read file sz b in
  pending file sz b = bin_value b :: (if bRead then pending file sz b' else []) /\
  (bRead = true ->
     bin_ok_by R ok file sz b' /\
     (Z.to_nat (m_iBinEnd b' - m_pReader b') < Z.to_nat (m_iBinEnd b - m_pReader b))%nat).
Proof.
  intros Hsz (p & e & Hp & He & Hpe & Hsorted & Hoks).
  rewrite (pending_eq file sz b p e Hsz Hp He) in * by lia.
  unfold BinValue_Read. rewrite Hp, He.
  destruct (Z.geb_spec (sz * Z.of_nat p) (sz * Z.of_nat e)) as [Hge|Hlt].
  - assert (p = e) by nia. subst e. rewrite Nat.sub_diag. simpl.
    split; [reflexivity|discriminate].
  - assert (Hpe' : (p < e)%nat) by nia.
    replace (sz * Z.of_nat p / sz) with (Z.of_nat p)
      by (rewrite (Z.mul_comm sz (Z.of_nat p)), Z.div_mul; lia).
    rewrite Nat2Z.id.
    destruct (lookup_lt_is_Some_2 file p ltac:(lia)) as [x Hx]. rewrite Hx. cbn [default].
    unfold id.
    set (b' := mkBin x (sz * Z.of_nat p + sz) (sz * Z.of_nat e)).
    assert (Hpend' : pending file sz b' = x :: take (e - S p) (drop (S p) file)).
    { apply (pending_eq file sz b' (S p) e Hsz); cbn [b' m_pReader m_iBinEnd]; lia. }
    assert (Hsplit : take (e - p) (drop p file) = x :: take (e - S p) (drop (S p) file)).
    { rewrite (drop_S file x p Hx). replace (e - p)%nat with (S (e - S p)) by lia.
      reflexivity. }
    split.
    + rewrite Hpend'. now rewrite Hsplit.
    + intros _. split.
      * exists (S p), e. cbn [b' m_pReader m_iBinEnd]. repeat split; try lia.
        -- rewrite Hpend'. rewrite Hsplit in Hsorted.
           now apply StronglySorted_inv in Hsorted as [Hs _].
        -- rewrite Hpend'. rewrite Hsplit in Hoks.
           now apply Forall_cons in Hoks as [_ Hoks].
      * cbn [b' m_pReader m_iBinEnd]. nia.
Qed.

Lemma merge_next_spec_by w dBins :
  SIWriter_T.SRC_VALUE w = T ->
  Forall (bin_ok_by R ok (SIWriter_T.src_data w) (sizeof_RawValue T)) dBins ->
  match merge_next w dBins with
  | None => dBins = []
  | Some (x, next) =>
      Forall (bin_ok_by R ok (SIWriter_T.src_data w) (sizeof_RawValue T)) next /\
      (SIWriter_T.merge_fuel next < SIWriter_T.merge_fuel dBins)%nat /\
      concat (map (pending (SIWriter_T.src_data w) (sizeof_RawValue T)) dBins)
      ≡ₚ x :: concat (map (pending (SIWriter_T.src_data w) (sizeof_RawValue T)) next) /\
      Forall (R x) (concat (map (pending (SIWriter_T.src_data w) (sizeof_RawValue T)) next))
  end.
Proof.
  intros HT Hok. unfold merge_next. rewrite HT.
  set (file := SIWriter_T.src_data w) in *.
  set (sz := sizeof_RawValue T) in *.
  assert (Hsz : 0 < sz) by apply sizeof_RawValue_pos.
  assert (Hvals : Forall (fun b => ok (bin_value b)) dBins).
  { eapply Forall_impl; [exact Hok|]. intros b (p & e & _ & _ & _ & _ & Ho).
    unfold pending in Ho. now apply Forall_cons in Ho as [Ho _]. }
  pose proof (PQGreater_pop_by dBins Hvals) as Hpop.
  destruct (pq_pop (PQGreater T) dBins) as [[tBin dBins']|]; [|exact Hpop].
  destruct Hpop as [Hperm Hmin].
  assert (Hok' : Forall (bin_ok_by R ok file sz) (tBin :: dBins')) by (now rewrite <- Hperm).
  apply Forall_cons in Hok' as [HokB HokR].
  pose proof (BinValue_Read_spec_by file sz tBin Hsz HokB) as HR.
  destruct (BinValue_Read file sz tBin) as [bRead tBin'].
  destruct HR as [Hpend Hadv].
  set (next := if bRead then pq_push tBin' dBins' else dBins').
  assert (Hnext_pend : concat (map (pending file sz) next)
                       ≡ₚ (if bRead then pending file sz tBin' else [])
                            ++ concat (map (pending file sz) dBins')).
  { unfold next. destruct bRead; [|reflexivity].
    unfold pq_push. rewrite map_app, concat_app. simpl. rewrite app_nil_r.
    apply Permutation_app_comm. }
  split; [|split; [|split]].
  - unfold next. destruct bRead; [|exact HokR].
    unfold pq_push. apply Forall_app. split; [exact HokR|].
    constructor; [|constructor]. now apply Hadv.
  - rewrite (merge_fuel_Permutation _ _ Hperm).
    cbn [SIWriter_T.merge_fuel fold_right]. fold (SIWriter_T.merge_fuel dBins').
    unfold next. destruct bRead; [|lia]. rewrite merge_fuel_push.
    destruct Hadv as [_ Hlt]; [reflexivity|]. lia.
  - rewrite Hnext_pend, Hperm. cbn [map concat]. now rewrite Hpend.
  - rewrite Hnext_pend. apply Forall_app. split.
    + destruct HokB as (p & e & _ & _ & _ & Hs & _). rewrite Hpend in Hs.
      now apply StronglySorted_inv in Hs as [_ Hs].
    + apply Forall_concat, Forall_fmap.
      assert (Hall : Forall (fun y => R (bin_value tBin) (bin_value y) /\
                                bin_ok_by R ok file sz y) dBins').
      { apply Forall_and. split; assumption. }
      eapply Forall_impl; [exact Hall|]. intros y [Hy (p & e & _ & _ & _ & Hs & _)]. simpl.
      unfold pending in *. apply StronglySorted_inv in Hs as [_ Hs].
      constructor; [exact Hy|].
      eapply Forall_impl; [exact Hs|]. intros z Hz. now apply (R_trans _ (bin_value y)).
Qed.

Lemma drain_spec_by fuel : forall w dBins,
  SIWriter_T.SRC_VALUE w = T ->
  Forall (bin_ok_by R ok (SIWriter_T.src_data w) (sizeof_RawValue T)) dBins ->
  (SIWriter_T.merge_fuel dBins <= fuel)%nat ->
  fst (drain fuel w dBins) = [] /\
  StronglySorted R (snd (drain fuel w dBins)) /\
  snd (drain fuel w dBins)
  ≡ₚ concat (map (pending (SIWriter_T.src_data w) (sizeof_RawValue T)) dBins).
Proof.
  induction fuel as [|fuel IH]; intros w dBins HT Hok Hfuel.
  - destruct dBins as [|b q]; [simpl; repeat split; constructor|].
    simpl in Hfuel. lia.
  - cbn [drain]. pose proof (merge_next_spec_by w dBins HT Hok) as Hnext.
    destruct (merge_next w dBins) as [[x next]|].
    2:{ subst dBins. simpl. repeat split; constructor. }
    destruct Hnext as (Hok' & Hlt & Hperm & Hmin).
    destruct (IH w next HT Hok' ltac:(lia)) as (Hempty & Hsorted & Hp).
    destruct (drain fuel w next) as [dBins2 emitted]. cbn [fst snd] in *.
    split; [exact Hempty|]. split.
    + constructor; [exact Hsorted|]. now rewrite Hp.
    + now rewrite Hperm, Hp.
Qed.

Lemma bins_of_runs_ok_by file sz runs : forall junk,
  0 < sz ->
  file = junk ++ concat runs ->
  Forall (fun r => r <> [] /\ StronglySorted R r) runs ->
  Forall ok (concat runs) ->
  Forall (bin_ok_by R ok file sz) (bins_of_runs sz (length junk) runs) /\
  map (pending file sz) (bins_of_runs sz (length junk) runs) = runs.
Proof.
  induction runs as [|r rs IH]; intros junk Hsz Hfile Hruns Hoks; [split; constructor|].
  apply Forall_cons in Hruns as [[Hr Hs] Hruns].
  cbn [concat] in Hoks. apply Forall_app in Hoks as [Hokr Hoks].
  destruct r as [|x r']; [congruence|].
  cbn [bins_of_runs map head default concat] in *. unfold id in *.
  set (b := mkBin x (sz * Z.of_nat (length junk) + sz)
                  (sz * Z.of_nat (length junk + length (x :: r')))).
  assert (Hpend : pending file sz b = x :: r').
  { rewrite (pending_eq file sz b (S (length junk)) (length junk + length (x :: r')) Hsz);
      cbn [b m_pReader m_iBinEnd bin_value length]; try lia.
    f_equal. rewrite Hfile.
    replace (junk ++ (x :: r') ++ concat rs) with ((junk ++ [x]) ++ r' ++ concat rs)
      by (now rewrite <- app_assoc).
    rewrite drop_app_length' by (rewrite length_app; simpl; lia).
    apply take_app_length'. lia. }
  destruct (IH (junk ++ x :: r') Hsz) as [Hok Hmap].
  - rewrite Hfile, <- app_assoc. reflexivity.
  - exact Hruns.
  - exact Hoks.
  - rewrite length_app in Hok, Hmap. split.
    + constructor; [|exact Hok].
      exists (S (length junk)), (length junk + length (x :: r'))%nat.
      split; [cbn [b m_pReader]; lia|]. split; [reflexivity|].
      split; [|rewrite Hpend; split; [exact Hs|exact Hokr]].
      rewrite Hfile, !length_app. cbn [length]. lia.
    + now rewrite Hpend, Hmap.
Qed.

(** For a file of sorted runs, the stream forwarded to the encoder is a
    sorted arrangement of the file's records, and the queue ends empty. *)
Lemma merged_stream_sorted_by w runs :
  SIWriter_T.SRC_VALUE w = T ->
  SIWriter_T.m_dOffset w = run_offsets (sizeof_RawValue T) 0 runs ->
  SIWriter_T.src_data w = concat runs ->
  SIWriter_T.m_iFileSize w
    = sizeof_RawValue T * Z.of_nat (length (SIWriter_T.src_data w)) ->
  Forall (fun r => r <> [] /\ StronglySorted R r) runs ->
  Forall ok (concat runs) ->
  StronglySorted R (merged_stream w) /\
  merged_stream w ≡ₚ SIWriter_T.src_data w /\
  match merge_next w (SIWriter_T.open_bins w) with
  | None => SIWriter_T.open_bins w = []
  | Some (x, next) => fst (drain (SIWriter_T.merge_fuel next) w next) = []
  end.
Proof.
  intros HT Hoff Hfile Hsize Hruns Hoks.
  set (sz := sizeof_RawValue T) in *.
  assert (Hsz : 0 < sz) by apply sizeof_RawValue_pos.
  assert (Hbins : SIWriter_T.open_bins w = bins_of_runs sz 0 runs).
  { unfold SIWriter_T.open_bins. rewrite Hoff, run_offsets_length.
    pose proof (open_bins_from w runs [] [] []) as Hob. cbv zeta in Hob.
    rewrite HT in Hob. apply Hob; try assumption.
    eapply Forall_impl; [exact Hruns|]. now intros r [Hr _]. }
  destruct (bins_of_runs_ok_by (SIWriter_T.src_data w) sz runs [] Hsz Hfile Hruns Hoks)
    as [Hok Hpend].
  cbn [length] in Hok, Hpend. rewrite <- Hbins in Hok, Hpend.
  unfold merged_stream.
  pose proof (merge_next_spec_by w (SIWriter_T.open_bins w) HT Hok) as Hnext.
  fold sz in Hnext. rewrite Hpend in Hnext.
  destruct (merge_next w (SIWriter_T.open_bins w)) as [[x next]|].
  - destruct Hnext as (Hok' & _ & Hperm & Hmin).
    destruct (drain_spec_by (SIWriter_T.merge_fuel next) w next HT Hok' ltac:(lia))
      as (Hempty & Hsorted & Hp).
    fold sz in Hp. split; [|split; [|exact Hempty]].
    + constructor; [exact Hsorted|]. now rewrite Hp.
    + now rewrite Hp, <- Hperm, Hfile.
  - rewrite Hnext in Hbins.
    destruct runs as [|r rs]; [|discriminate].
    split; [constructor|]. split; [now rewrite Hfile|exact Hnext].
Qed.

End OrderedPairs.

(** ** The encoder groups the stream, for either kind of value *)

Section GroupedFeed.
Context {E : Externals}.
Variable bFloat : bool.

Lemma writer_holds_by_block T rw cur v :
  writer_holds_by bFloat T rw cur v ->
  Forall (fun g => snd g <> []) cur ->
  Z.of_nat (length (concat (map snd cur))) < 2 ^ 32 ->
  block_of rw (map snd cur).
Proof.
  intros [HT HF Hv Hs Hr Hp Hl] Hne Hfit. constructor; try assumption.
  - now rewrite Hv, !length_map.
  - now apply Forall_fmap.
Qed.

Lemma AddValue_holds_by T rw cur v x :
  writer_holds_by bFloat T rw cur v ->
  Z.of_nat (length (concat (map snd cur))) < 2 ^ 32 ->
  writer_holds_by bFloat T (RowWriter_t.AddValue rw x)
                  (cur ++ [(m_tValue x, [m_tRowid x])]) (m_tValue x).
Proof.
  intros [HT HF Hv Hs Hr Hp Hl] Hfit. unfold RowWriter_t.AddValue.
  constructor; cbn [RowWriter_t.VALUE_T RowWriter_t.FLOAT_VALUE RowWriter_t.m_dValues
    RowWriter_t.m_dRowStart RowWriter_t.m_dRows RowWriter_t.m_dRowsPacked
    RowWriter_t.m_tLastValue]; try assumption; try reflexivity.
  - now rewrite Hv, map_app.
  - rewrite map_app. cbn [map snd]. rewrite starts_of_snoc, Hs, Hr.
    rewrite wrap32_small by lia. reflexivity.
  - rewrite map_app, concat_app, Hr. reflexivity.
Qed.

Lemma push_row_holds_by T rw c0 v rows r :
  writer_holds_by bFloat T rw (c0 ++ [(v, rows)]) v ->
  writer_holds_by bFloat T (RowWriter_t.push_row rw r) (c0 ++ [(v, rows ++ [r])]) v.
Proof.
  intros [HT HF Hv Hs Hr Hp Hl]. unfold RowWriter_t.push_row.
  constructor; cbn [RowWriter_t.VALUE_T RowWriter_t.FLOAT_VALUE RowWriter_t.m_dValues
    RowWriter_t.m_dRowStart RowWriter_t.m_dRows RowWriter_t.m_dRowsPacked
    RowWriter_t.m_tLastValue]; try assumption.
  - rewrite Hv, !map_app. reflexivity.
  - rewrite Hs, !map_app. cbn [map snd]. apply starts_of_last_irrelevant.
  - rewrite Hr, !map_app, !concat_app. simpl. now rewrite !app_nil_r, app_assoc.
Qed.

Lemma FlushBlock_holds_by T rw cur v out :
  writer_holds_by bFloat T rw cur v -> cur <> [] ->
  Forall (fun g => snd g <> []) cur ->
  Z.of_nat (length (concat (map snd cur))) < 2 ^ 32 ->
  writer_holds_by bFloat T (fst (RowWriter_t.FlushBlock rw out)) [] v /\
  tDstFile (snd (RowWriter_t.FlushBlock rw out))
    = tDstFile out ++ encode_value_block T cur /\
  tTmpValsPGM (snd (RowWriter_t.FlushBlock rw out))
    = tTmpValsPGM out ++ WriteRawValues T (map fst cur).
Proof.
  intros Hh Hcur Hne Hfit.
  pose proof (writer_holds_by_block T rw cur v Hh Hne Hfit) as Hb.
  destruct Hh as [HT HF Hv Hs Hr Hp Hl].
  destruct (pack_rows_spec rw (map snd cur) Hb) as (junk' & Hj & Hpack).
  unfold RowWriter_t.FlushBlock. rewrite Hv, length_map.
  destruct cur as [|g cur]; [congruence|]. cbn [length Nat.eqb].
  rewrite Hpack. cbn [fst snd tDstFile tTmpValsPGM RowWriter_t.VALUE_T
    RowWriter_t.FLOAT_VALUE RowWriter_t.m_dValues RowWriter_t.m_tLastValue].
  split; [constructor; try reflexivity; assumption|].
  rewrite HT, Hv. split; [|reflexivity].
  f_equal. unfold RowWriter_t.block_body, encode_value_block, WriteVector.
  cbn [concat RowWriter_t.VALUE_T RowWriter_t.m_dValues RowWriter_t.m_dTypes
       RowWriter_t.m_dRowStart RowWriter_t.m_dRowsPacked].
  rewrite app_nil_r. reflexivity.
Qed.

Lemma grouped_by_rows eqv s G :
  grouped_by eqv s G ->
  concat (map snd G) = map m_tRowid s /\ Forall (fun g => snd g <> []) G.
Proof.
  induction 1 as [x|s G v rows x _ [IHc IHn] Hv|s G v rows x _ [IHc IHn] Hv].
  - split; [reflexivity|]. repeat constructor. discriminate.
  - rewrite map_app, concat_app in *. cbn [map concat snd] in *. rewrite app_nil_r in *.
    split.
    + rewrite map_app, app_assoc, IHc. reflexivity.
    + apply Forall_app in IHn as [IHn _]. apply Forall_app. split; [exact IHn|].
      repeat constructor. cbn [snd]. now destruct rows.
  - split.
    + rewrite map_app, concat_app, IHc, map_app. reflexivity.
    + apply Forall_app. split; [exact IHn|]. repeat constructor. discriminate.
Qed.

Lemma grouped_by_fits eqv s blocks cur :
  grouped_by eqv s (concat blocks ++ cur) ->
  (length (concat (map snd cur)) <= length s)%nat /\ Forall (fun g => snd g <> []) cur.
Proof.
  intros Hg. apply grouped_by_rows in Hg as [Hc Hn].
  rewrite map_app, concat_app in Hc. apply (f_equal (@length _)) in Hc.
  rewrite length_app, length_map in Hc. apply Forall_app in Hn as [_ Hn].
  split; [lia|exact Hn].
Qed.

Lemma NextValue_same_value rw x out :
  RowWriter_t.NextValue rw x out
  = if same_value (RowWriter_t.FLOAT_VALUE rw) (RowWriter_t.m_tLastValue rw) (m_tValue x)
    then (RowWriter_t.push_row rw (m_tRowid x), out)
    else let '(rw', out') := RowWriter_t.FlushValue rw out in
         (RowWriter_t.AddValue rw' x, out').
Proof.
  unfold RowWriter_t.NextValue, same_value.
  destruct (RowWriter_t.FLOAT_VALUE rw); cbn [andb negb].
  - now destruct (FloatEqual _ _).
  - reflexivity.
Qed.

Lemma NextValue_fed_by T dst0 s st x :
  fed_by bFloat T dst0 s st -> Z.of_nat (length s) < 2 ^ 32 ->
  fed_by bFloat T dst0 (s ++ [x]) (RowWriter_t.NextValue (fst st) x (snd st)).
Proof.
  intros (blocks & c0 & v & rows & Hg & Hb & Hc0 & Hh & Hd & Hp) Hlen.
  destruct (grouped_by_fits _ s blocks _ Hg) as [Hfit Hne].
  rewrite NextValue_same_value.
  rewrite (holds_by_float _ _ _ _ _ Hh), (holds_by_last _ _ _ _ _ Hh).
  destruct (same_value bFloat v (m_tValue x)) eqn:Heq.
  - exists blocks, c0, v, (rows ++ [m_tRowid x]). cbn [fst snd].
    split; [|split; [exact Hb|split; [exact Hc0|split; [|split; assumption]]]].
    + rewrite app_assoc in *. now apply grouped_by_same.
    + now apply push_row_holds_by.
  - unfold RowWriter_t.FlushValue.
    rewrite (holds_by_values _ _ _ _ _ Hh), length_map, length_app. cbn [length].
    unfold VALUES_PER_BLOCK.
    assert (Hg' : grouped_by (same_value bFloat) (s ++ [x])
                    ((concat blocks ++ c0 ++ [(v, rows)]) ++ [(m_tValue x, [m_tRowid x])])).
    { rewrite app_assoc in *. apply grouped_by_new; [exact Hg|exact Heq]. }
    destruct (Z.ltb_spec (Z.of_nat (length c0 + 1)) 128) as [Hlt|Hge].
    + exists blocks, (c0 ++ [(v, rows)]), (m_tValue x), [m_tRowid x]. cbn [fst snd].
      split; [now rewrite <- !app_assoc in *|]. split; [exact Hb|].
      split; [rewrite length_app; simpl; lia|].
      split; [|split; assumption].
      apply (AddValue_holds_by T (fst st) (c0 ++ [(v, rows)]) v x Hh). lia.
    + destruct (FlushBlock_holds_by T (fst st) (c0 ++ [(v, rows)]) v (snd st) Hh)
        as (Hh' & Hd' & Hp'); [now destruct c0|exact Hne|lia|].
      destruct (RowWriter_t.FlushBlock (fst st) (snd st)) as [rw' out'].
      cbn [fst snd] in *.
      exists (blocks ++ [c0 ++ [(v, rows)]]), [], (m_tValue x), [m_tRowid x].
      split; [|split; [|split; [simpl; lia|split; [|split]]]].
      * rewrite concat_app. cbn [concat app]. rewrite app_nil_r.
        now rewrite <- !app_assoc in *.
      * apply Forall_app. split; [exact Hb|]. repeat constructor.
        rewrite length_app. simpl. lia.
      * cbn [fst]. apply (AddValue_holds_by T rw' [] v x Hh'). simpl. lia.
      * cbn [snd]. rewrite Hd', Hd, map_app, concat_app. cbn [map concat].
        now rewrite app_nil_r, <- app_assoc.
      * cbn [snd]. rewrite Hp', Hp, (map_app _ blocks), concat_app. cbn [map concat].
        now rewrite app_nil_r.
Qed.

Lemma fold_NextValue_fed_by T dst0 s' : forall s st,
  fed_by bFloat T dst0 s st -> Z.of_nat (length (s ++ s')) < 2 ^ 32 ->
  fed_by bFloat T dst0 (s ++ s')
      (fold_left (fun st' y => RowWriter_t.NextValue (fst st') y (snd st')) s' st).
Proof.
  induction s' as [|x s' IH]; intros s st Hfed Hlen.
  - now rewrite app_nil_r.
  - cbn [fold_left]. rewrite (cons_middle x s s'), app_assoc.
    apply IH.
    + apply NextValue_fed_by; [exact Hfed|]. rewrite !length_app in Hlen. lia.
    + now rewrite <- app_assoc.
Qed.

(** The whole pass of the encoder over a stream that has pairs. *)
Lemma feed_Done_spec_by T s dst0 blk0 :
  s <> [] -> Z.of_nat (length s) < 2 ^ 32 ->
  let st := feed s (RowWriter_t.create T bFloat, mkOut dst0 blk0 []) in
  let out := snd (RowWriter_t.Done (fst st) (snd st)) in
  exists blocks,
    grouped_by (same_value bFloat) s (concat blocks) /\ blocks_cut blocks /\
    tDstFile out = dst0 ++ concat (map (encode_value_block T) blocks) /\
    tTmpValsPGM out = WriteRawValues T (map fst (concat blocks)).
Proof.
  intros Hs Hlen st out. destruct s as [|x s']; [congruence|].
  assert (Hfed : fed_by bFloat T dst0 ([x] ++ s') st).
  { unfold st, feed. cbn [fst snd]. apply fold_NextValue_fed_by; [|exact Hlen].
    exists [], [], (m_tValue x), [m_tRowid x]. cbn [fst snd concat map app].
    split; [constructor|]. split; [constructor|]. split; [simpl; lia|].
    split; [|split; [now rewrite app_nil_r|reflexivity]].
    apply (AddValue_holds_by T (RowWriter_t.create T bFloat) [] 0 x); [|simpl; lia].
    constructor; reflexivity. }
  destruct Hfed as (blocks & c0 & v & rows & Hg & Hb & Hc0 & Hh & Hd & Hp).
  destruct (grouped_by_fits _ _ blocks _ Hg) as [Hfit Hne].
  destruct (FlushBlock_holds_by T (fst st) (c0 ++ [(v, rows)]) v (snd st) Hh)
    as (_ & Hd' & Hp'); [now destruct c0|exact Hne|simpl in *; lia|].
  exists (blocks ++ [c0 ++ [(v, rows)]]). unfold out, RowWriter_t.Done.
  split; [|split; [|split]].
  - rewrite concat_app. cbn [concat]. now rewrite app_nil_r.
  - intros i b Hi. apply lookup_app_Some in Hi as [Hi|[Hle Hi]].
    + rewrite Forall_forall in Hb. pose proof (Hb b (list_elem_of_lookup_2 _ _ _ Hi)).
      split; [lia|]. intros _. assumption.
    + apply list_lookup_singleton_Some in Hi as [Hi <-]. rewrite !length_app. cbn [length].
      split; [lia|]. intros Hlt. lia.
  - rewrite Hd', Hd, map_app, concat_app. cbn [map concat].
    now rewrite app_nil_r, <- app_assoc.
  - rewrite Hp', Hp, <- WriteRawValues_concat, (map_app _ blocks), concat_app.
    cbn [map concat]. now rewrite app_nil_r.
Qed.

End GroupedFeed.

Section GroupsOfSortedStream.

(** Grouping a stream whose values never decrease when read through
    [key], under a test that holds between two values of the stream
    exactly when their keys are equal: the keys of the group values are
    strictly increasing, every group value is a value of the stream, a
    group holds the row-ids of exactly the pairs with its key, in stream
    order, and every pair of the stream has its group. *)
Lemma grouped_by_sorted (eqv : Z -> Z -> bool) (key : Z -> Z) s G :
  grouped_by eqv s G ->
  StronglySorted (fun a b => key (m_tValue a) <= key (m_tValue b)) s ->
  (forall a b, a ∈ s -> b ∈ s ->
     eqv (m_tValue a) (m_tValue b) = (key (m_tValue a) =? key (m_tValue b))) ->
  StronglySorted Z.lt (map key (map fst G)) /\
  Forall (fun g => snd g = map m_tRowid
                             (filter (fun x => key (m_tValue x) = key (fst g)) s) /\
                   exists x, x ∈ s /\ m_tValue x = fst g) G /\
  (forall x, x ∈ s -> key (m_tValue x) ∈ map key (map fst G)).
Proof.
  induction 1 as [x|s G v rows x Hg IH Hv|s G v rows x Hg IH Hv]; intros Hs Heqv.
  - split; [repeat constructor|]. split.
    + repeat constructor; cbn [fst snd].
      * now rewrite filter_cons_True.
      * exists x. split; [left|reflexivity].
    + intros y Hy. apply list_elem_of_singleton in Hy as ->. left.
  - apply StronglySorted_app in Hs as (Hsx & Hs & _).
    destruct IH as (S0 & F0 & M0); [exact Hs| |].
    { intros a b Ha Hb. apply Heqv; apply elem_of_app; now left. }
    assert (Hkv : key v = key (m_tValue x)).
    { apply Forall_app in F0 as [_ Fl].
      apply Forall_singleton in Fl as [_ (y & Hy & Hyv)]. cbn [fst] in Hyv.
      rewrite <- Hyv in Hv |- *. rewrite Heqv in Hv.
      - now apply Z.eqb_eq in Hv.
      - apply elem_of_app. now left.
      - apply elem_of_app. right. left. }
    rewrite !map_app in *. cbn [map fst] in *.
    split; [exact S0|]. split.
    + apply Forall_app in F0 as [FG Fl]. apply Forall_app. split.
      * apply StronglySorted_app in S0 as (Hlt & _ & _).
        rewrite Forall_forall in FG. apply Forall_forall. intros g Hgin.
        destruct (FG g Hgin) as [Hrows (y & Hy & Hyv)].
        assert (Hne : key (m_tValue x) <> key (fst g)).
        { specialize (Hlt (key (fst g)) (key v)).
          assert (key (fst g) < key v); [|lia].
          apply Hlt; [|left].
          apply list_elem_of_fmap_2, list_elem_of_fmap_2. exact Hgin. }
        split.
        -- rewrite filter_app, (filter_cons_False _ x) by exact Hne.
           rewrite filter_nil, app_nil_r. exact Hrows.
        -- exists y. split; [apply elem_of_app; now left|exact Hyv].
      * apply Forall_singleton in Fl as [Hrows (y & Hy & Hyv)]. cbn [fst snd] in *.
        constructor; [|constructor]. cbn [fst snd]. split.
        -- rewrite filter_app, (filter_cons_True _ x) by (symmetry; exact Hkv).
           rewrite filter_nil, map_app, Hrows. reflexivity.
        -- exists y. split; [apply elem_of_app; now left|exact Hyv].
    + intros y Hy. apply elem_of_app in Hy as [Hy|Hy]; [now apply M0|].
      apply list_elem_of_singleton in Hy as ->. rewrite <- Hkv.
      apply elem_of_app. right. left.
  - apply StronglySorted_app in Hs as (Hsx & Hs & _).
    destruct IH as (S0 & F0 & M0); [exact Hs| |].
    { intros a b Ha Hb. apply Heqv; apply elem_of_app; now left. }
    assert (K : forall g, g ∈ G ++ [(v, rows)] -> key (fst g) < key (m_tValue x)).
    { assert (Kv : key v < key (m_tValue x)).
      { apply Forall_app in F0 as [_ Fl].
        apply Forall_singleton in Fl as [_ (y & Hy & Hyv)]. cbn [fst] in Hyv.
        assert (Hle : key (m_tValue y) <= key (m_tValue x)).
        { apply Hsx; [exact Hy|left]. }
        assert (Hneq : key (m_tValue y) <> key (m_tValue x)).
        { rewrite <- Hyv in Hv. rewrite Heqv in Hv.
          - now apply Z.eqb_neq in Hv.
          - apply elem_of_app. now left.
          - apply elem_of_app. right. left. }
        rewrite Hyv in *. lia. }
      intros g Hgin. apply elem_of_app in Hgin as [Hgin|Hgin].
      - rewrite !map_app in S0. cbn [map fst] in S0.
        apply StronglySorted_app in S0 as (Hlt & _ & _).
        assert (key (fst g) < key v); [|lia].
        apply Hlt; [|left]. apply list_elem_of_fmap_2, list_elem_of_fmap_2. exact Hgin.
      - apply list_elem_of_singleton in Hgin as ->. exact Kv. }
    split; [|split].
    + rewrite (map_app fst (G ++ [(v, rows)])), (map_app key). cbn [map fst].
      apply StronglySorted_app. split; [|split; [exact S0|repeat constructor]].
      intros k1 k2 Hk1 Hk2. apply list_elem_of_singleton in Hk2 as ->.
      apply list_elem_of_fmap in Hk1 as (v1 & -> & Hv1).
      apply list_elem_of_fmap in Hv1 as (g & -> & Hgin). now apply K.
    + apply Forall_app. split.
      * rewrite Forall_forall in F0. apply Forall_forall. intros g Hgin.
        destruct (F0 g Hgin) as [Hrows (y & Hy & Hyv)].
        assert (Hne : key (m_tValue x) <> key (fst g)).
        { specialize (K g Hgin). lia. }
        split.
        -- rewrite filter_app, (filter_cons_False _ x) by exact Hne.
           rewrite filter_nil, app_nil_r. exact Hrows.
        -- exists y. split; [apply elem_of_app; now left|exact Hyv].
      * constructor; [|constructor]. cbn [fst snd]. split.
        -- rewrite filter_app, (filter_cons_True _ x) by reflexivity.
           rewrite filter_nil. rewrite filter_none; [reflexivity|].
           intros y Hy Heq. apply M0 in Hy.
           apply list_elem_of_fmap in Hy as (v1 & Hv1 & Hv1in).
           apply list_elem_of_fmap in Hv1in as (g & -> & Hgin).
           specialize (K g Hgin). lia.
        -- exists x. split; [apply elem_of_app; right; left|reflexivity].
    + intros y Hy. rewrite (map_app fst), (map_app key). apply elem_of_app.
      apply elem_of_app in Hy as [Hy|Hy]; [left; now apply M0|].
      apply list_elem_of_singleton in Hy as ->. right. left.
Qed.

End GroupsOfSortedStream.

(** ** The pass over a float attribute *)

Section FloatPipeline.
Context {E : Externals}.
Hypothesis Hieee : ieee_floats.

Lemma float_tests_key a b : is_nan a = false -> is_nan b = false ->
  float_lt a b = (float_key a <? float_key b) /\
  FloatEqual a b = (float_key a =? float_key b).
Proof.
  intros Ha Hb. destruct Hieee as [Hlt Heq]. rewrite Hlt, Heq.
  now apply float_compare_key.
Qed.

Lemma RawValueCmp_float_false a b : not_nan a -> not_nan b ->
  RawValueCmp T_float a b = false <-> pair_le_float b a.
Proof.
  intros Ha Hb. unfold RawValueCmp, pair_le_float.
  destruct (float_tests_key (m_tValue a) (m_tValue b) Ha Hb) as [-> ->].
  destruct (Z.eqb_spec (float_key (m_tValue a)) (float_key (m_tValue b))).
  - rewrite Z.ltb_ge. lia.
  - rewrite Z.ltb_ge. lia.
Qed.

Lemma PQGreater_float_false x y : not_nan (bin_value x) -> not_nan (bin_value y) ->
  PQGreater T_float x y = false <-> pair_le_float (bin_value x) (bin_value y).
Proof.
  intros Hx Hy. unfold PQGreater, pair_le_float. cbv zeta.
  destruct (float_tests_key (m_tValue (bin_value x)) (m_tValue (bin_value y)) Hx Hy)
    as [_ ->].
  destruct (float_tests_key (m_tValue (bin_value y)) (m_tValue (bin_value x)) Hy Hx)
    as [-> _].
  rewrite Z.gtb_ltb.
  destruct (Z.eqb_spec (float_key (m_tValue (bin_value x)))
                       (float_key (m_tValue (bin_value y)))).
  - rewrite Z.ltb_ge. lia.
  - rewrite Z.ltb_ge. lia.
Qed.

Lemma pair_le_float_trans a b c : pair_le_float a b -> pair_le_float b c -> pair_le_float a c.
Proof. unfold pair_le_float. lia. Qed.

Lemma pair_le_float_total a b : pair_le_float a b \/ pair_le_float b a.
Proof. unfold pair_le_float. lia. Qed.

Lemma do_call_float w c w' runs :
  RawWriter_T.T w = T_float ->
  do_call w c = Ok w' ->
  Forall not_nan (RawWriter_T.m_dRows w) ->
  Forall not_nan (call_pairs T_float (RawWriter_T.m_fnHash w) c) ->
  sorted_runs pair_le_float w runs ->
  Forall not_nan (RawWriter_T.m_dRows w') /\
  exists runs',
    sorted_runs pair_le_float w' runs' /\
    concat runs' ++ RawWriter_T.m_dRows w'
    ≡ₚ (concat runs ++ RawWriter_T.m_dRows w)
         ++ call_pairs T_float (RawWriter_T.m_fnHash w) c.
Proof.
  intros HT H Hrows Hpairs Hinv.
  destruct c as [tRowID tAttr|tRowID pData|tRowID pData|]; cbn [do_call] in H.
  - unfold RawWriter_T.SetAttr in H. rewrite HT in H. injection H as <-.
    unfold RawWriter_T.emplace_back. cbn [RawWriter_T.m_dRows call_pairs] in *.
    split; [apply Forall_app; split; assumption|].
    exists runs. split; [exact Hinv|]. now rewrite app_assoc.
  - unfold RawWriter_T.SetAttr_bytes in H. rewrite HT in H. discriminate.
  - unfold RawWriter_T.SetAttr_array in H. rewrite HT in H. discriminate.
  - injection H as <-.
    destruct (Flush_sorted_runs T_float pair_le_float not_nan pair_le_float_trans
                pair_le_float_total RawValueCmp_float_false w runs HT Hrows Hinv)
      as (runs' & Hinv' & Hnil & Hperm).
    rewrite Hnil. split; [constructor|]. exists runs'. split; [exact Hinv'|].
    cbn [call_pairs]. now rewrite !app_nil_r.
Qed.

Lemma collect_float calls : forall w w' runs,
  RawWriter_T.T w = T_float ->
  collect w calls = Ok w' ->
  Forall not_nan (RawWriter_T.m_dRows w) ->
  Forall not_nan (flat_map (call_pairs T_float (RawWriter_T.m_fnHash w)) calls) ->
  sorted_runs pair_le_float w runs ->
  Forall not_nan (RawWriter_T.m_dRows w') /\
  exists runs',
    sorted_runs pair_le_float w' runs' /\
    concat runs' ++ RawWriter_T.m_dRows w'
    ≡ₚ (concat runs ++ RawWriter_T.m_dRows w)
         ++ flat_map (call_pairs T_float (RawWriter_T.m_fnHash w)) calls.
Proof.
  induction calls as [|c calls IH]; intros w w' runs HT H Hrows Hpairs Hinv.
  - injection H as <-. split; [exact Hrows|].
    exists runs. split; [exact Hinv|]. simpl. now rewrite app_nil_r.
  - cbn [collect] in H. destruct (do_call w c) as [w1| |] eqn:Hc; try discriminate.
    cbn [mbind result_bind] in H. cbn [flat_map] in Hpairs.
    apply Forall_app in Hpairs as [Hp1 Hp2].
    destruct (do_call_fields w c w1 Hc) as (HT1 & _ & Hh1 & _).
    destruct (do_call_float w c w1 runs HT Hc Hrows Hp1 Hinv)
      as (Hrows1 & runs1 & Hinv1 & Hperm1).
    rewrite <- Hh1 in Hp2.
    destruct (IH w1 w' runs1 ltac:(congruence) H Hrows1 Hp2 Hinv1)
      as (Hrows' & runs' & Hinv' & Hperm').
    split; [exact Hrows'|]. exists runs'. split; [exact Hinv'|].
    rewrite Hperm', Hperm1, Hh1. cbn [flat_map]. now rewrite <- !app_assoc.
Qed.

(** What the pass over the input of a float collector yields, when no
    value is a NaN. *)
Lemma pipeline_float eType iAttr eCollation w00 w0 calls w tDst tBlocksOff :
  Builder_c.new_RawWriter eType = Some w00 ->
  RawWriter_T.Setup w00 iAttr eType eCollation = Ok w0 ->
  RawWriter_T.T w0 = T_float ->
  collect w0 calls = Ok w ->
  let pairs := flat_map (call_pairs T_float eCollation) calls in
  Forall not_nan pairs ->
  Z.of_nat (length pairs) < 2 ^ 32 ->
  let siw := GetWriter (RawWriter_T.Done w) in
  let stream := merged_stream siw in
  let res := SIWriter_T.Process_merge siw tDst tBlocksOff in
  SIWriter_T.SRC_VALUE siw = T_float /\
  fst (fst res) = [] /\
  StronglySorted pair_le_float stream /\
  stream ≡ₚ pairs /\
  snd res = snd (RowWriter_t.Done
                   (fst (feed stream (RowWriter_t.create T_uint32 true,
                                      mkOut tDst tBlocksOff [])))
                   (snd (feed stream (RowWriter_t.create T_uint32 true,
                                      mkOut tDst tBlocksOff [])))) /\
  exists blocks,
    blocks_cut blocks /\
    (stream <> [] -> grouped_by (same_value true) stream (concat blocks)) /\
    (stream = [] -> blocks = []) /\
    tDstFile (snd res) = tDst ++ concat (map (encode_value_block T_uint32) blocks) /\
    tTmpValsPGM (snd res) = WriteRawValues T_uint32 (map fst (concat blocks)).
Proof.
  intros Hnew Hsetup HT Hcollect pairs Hnan Hlen siw stream res.
  apply Setup_fields in Hsetup.
  assert (H00 : eType = FLOAT /\ w00 = RawWriter_T.create T_float).
  { rewrite Hsetup in HT. cbn in HT.
    destruct eType; cbn in Hnew; try discriminate; injection Hnew as <-;
      cbn in HT; try discriminate; auto. }
  destruct H00 as [-> ->]. cbn in Hsetup.
  assert (Hinv0 : sorted_runs pair_le_float w0 []).
  { rewrite Hsetup. repeat split; constructor. }
  assert (Hrows0 : RawWriter_T.m_dRows w0 = []) by (now rewrite Hsetup).
  assert (Hhash0 : RawWriter_T.m_fnHash w0 = eCollation) by (now rewrite Hsetup).
  destruct (collect_fields calls w0 w Hcollect) as (HTw & Hattr & _ & Hname).
  destruct (collect_float calls w0 w [] HT Hcollect)
    as (Hrows & runs & Hinv & Hperm); [rewrite Hrows0; constructor|now rewrite Hhash0|exact Hinv0|].
  rewrite Hrows0, Hhash0 in Hperm. cbn [concat app] in Hperm. fold pairs in Hperm.
  assert (HTw' : RawWriter_T.T w = T_float) by congruence.
  destruct (Flush_sorted_runs T_float pair_le_float not_nan pair_le_float_trans
              pair_le_float_total RawValueCmp_float_false w runs HTw' Hrows Hinv)
    as (runs' & Hinv' & _ & Hperm').
  destruct Hinv' as (Hfile & Hoffs & Hruns).
  destruct (Flush_fields w) as (HTf & Haf & _).
  assert (HSRC : SIWriter_T.SRC_VALUE siw = T_float).
  { unfold siw, GetWriter, RawWriter_T.Done. cbn [RawWriter_T.m_eAttrType SIWriter_T.SRC_VALUE].
    rewrite Haf, Hattr, Hsetup. reflexivity. }
  assert (Hdata : SIWriter_T.src_data siw = concat runs') by exact Hfile.
  assert (Hoff : SIWriter_T.m_dOffset siw = run_offsets (sizeof_RawValue T_float) 0 runs').
  { rewrite <- HTw', <- HTf. exact Hoffs. }
  assert (Hsize : SIWriter_T.m_iFileSize siw
                  = sizeof_RawValue T_float * Z.of_nat (length (SIWriter_T.src_data siw))).
  { rewrite <- HTw', <- HTf. reflexivity. }
  assert (Hall : concat runs' ≡ₚ pairs) by (now rewrite Hperm', <- Hperm).
  assert (Hoks : Forall not_nan (concat runs')) by (now rewrite Hall).
  destruct (merged_stream_sorted_by T_float pair_le_float not_nan pair_le_float_trans
              pair_le_float_total PQGreater_float_false siw runs'
              HSRC Hoff Hdata Hsize Hruns Hoks) as (Hss & Hsp & Hempty).
  fold stream in Hss, Hsp.
  assert (Hsp' : stream ≡ₚ pairs) by (now rewrite Hsp, Hdata).
  pose proof (Process_merge_feed siw tDst tBlocksOff) as HP. cbv zeta in HP.
  fold res stream in HP. rewrite HSRC in HP.
  assert (HDST : SIWriter_T.DST_VALUE siw = T_uint32)
    by (unfold SIWriter_T.DST_VALUE; now rewrite HSRC).
  rewrite HDST in HP.
  change (Convert T_float) with (fun x : RawValue_T => x) in HP. rewrite map_id in HP.
  split; [exact HSRC|]. split.
  { rewrite HP. cbn [fst].
    destruct (merge_next siw (SIWriter_T.open_bins siw)) as [[x next]|]; exact Hempty. }
  split; [exact Hss|]. split; [exact Hsp'|]. split; [now rewrite HP|].
  destruct stream as [|x0 stream'] eqn:Hst.
  - exists []. rewrite HP. cbn [map feed fst snd]. unfold RowWriter_t.Done.
    cbn. rewrite app_nil_r.
    split; [intros i b Hi; discriminate|]. split; [congruence|].
    split; [reflexivity|]. split; reflexivity.
  - assert (Hlen' : Z.of_nat (length (x0 :: stream')) < 2 ^ 32).
    { rewrite (Permutation_length Hsp'). exact Hlen. }
    destruct (feed_Done_spec_by true T_uint32 (x0 :: stream') tDst tBlocksOff
                ltac:(discriminate) Hlen') as (blocks & Hg & Hcut & Hd & Hp).
    exists blocks. rewrite HP. cbn [fst snd].
    split; [exact Hcut|]. split; [intros _; exact Hg|]. split; [discriminate|].
    split; [exact Hd|exact Hp].
Qed.

End FloatPipeline.

(** ** The whole pass, for every value type *)

Section WholePass.
Context {E : Externals}.

Lemma StronglySorted_on {A} (P : A -> Prop) (R R' : relation A) l :
  Forall P l -> (forall a b, P a -> P b -> R a b -> R' a b) ->
  StronglySorted R l -> StronglySorted R' l.
Proof.
  intros HP HR Hs. induction Hs as [|x l Hs IH Hx]; [constructor|].
  apply Forall_cons in HP as [Hpx HP]. constructor; [now apply IH|].
  assert (Hboth : Forall (fun y => P y /\ R x y) l) by (apply Forall_and; auto).
  eapply Forall_impl; [exact Hboth|]. intros y [Hy Hxy]. now apply HR.
Qed.

Lemma StronglySorted_of_keys {A} (key : A -> Z) l :
  StronglySorted Z.lt (map key l) -> StronglySorted (fun a b => key a < key b) l.
Proof.
  induction l as [|x l IH]; intros H; [constructor|].
  cbn [map] in H. apply StronglySorted_inv in H as [H Hx].
  constructor; [now apply IH|]. apply Forall_forall. intros y Hy.
  rewrite Forall_forall in Hx. apply Hx. now apply list_elem_of_fmap_2.
Qed.

Lemma filter_ext_in {A} (P Q : A -> Prop)
    `{forall x, Decision (P x)} `{forall x, Decision (Q x)} (l : list A) :
  (forall x, x ∈ l -> (P x <-> Q x)) -> filter P l = filter Q l.
Proof.
  induction l as [|x l IH]; intros Hl; [reflexivity|].
  rewrite !filter_cons, IH by (intros y Hy; apply Hl; now right).
  destruct (decide (P x)) as [Hp|Hp]; destruct (decide (Q x)) as [Hq|Hq];
    try reflexivity; exfalso.
  - apply Hq, (Hl x); [left|exact Hp].
  - apply Hp, (Hl x); [left|exact Hq].
Qed.

Lemma is_sorted_strict (lt : Z -> Z -> bool) l :
  StronglySorted (fun a b => lt b a = false) l -> is_sorted lt l = true.
Proof.
  induction 1 as [|x l Hs IH Hx]; [reflexivity|].
  cbn [is_sorted]. destruct l as [|y l]; [reflexivity|].
  apply Forall_cons in Hx as [Hxy _]. now rewrite IH, Hxy.
Qed.

Lemma sorted_rows_float k l :
  StronglySorted pair_le_float l -> Forall (fun p => float_key (m_tValue p) = k) l ->
  StronglySorted Z.le (map m_tRowid l).
Proof.
  induction 1 as [|x l Hs IH Hx]; intros Hv; [constructor|].
  apply Forall_cons in Hv as [Hxv Hv]. cbn [map]. constructor; [now apply IH|].
  apply Forall_fmap. rewrite Forall_forall in *. intros y Hy.
  specialize (Hx y Hy). specialize (Hv y Hy). unfold pair_le_float in Hx. simpl. lia.
Qed.

Lemma value_tests_integer T a b : T <> T_float ->
  value_lt T a b = (a <? b) /\ value_eq T a b = (a =? b).
Proof. intros HT. destruct T; try congruence; split; reflexivity. Qed.

(** What the pass over one collector's input yields, whatever the value
    type, when no value of a float attribute is a NaN. *)
Lemma whole_pass eType iAttr eCollation w00 w0 calls w tDst tBlocksOff :
  Builder_c.new_RawWriter eType = Some w00 ->
  RawWriter_T.Setup w00 iAttr eType eCollation = Ok w0 ->
  Forall call_typed calls ->
  collect w0 calls = Ok w ->
  let T := RawWriter_T.T w0 in
  let pairs := flat_map (call_pairs T eCollation) calls in
  (T = T_float -> ieee_floats /\ Forall not_nan pairs) ->
  Z.of_nat (length pairs) < 2 ^ 32 ->
  let siw := GetWriter (RawWriter_T.Done w) in
  let stream := merged_stream siw in
  let res := SIWriter_T.Process_merge siw tDst tBlocksOff in
  fst (fst res) = [] /\
  StronglySorted (pair_le_of T) stream /\
  stream ≡ₚ pairs /\
  snd res = snd (RowWriter_t.Done
                   (fst (feed (map (Convert T) stream)
                           (RowWriter_t.create (DST_of T) (is_float T),
                            mkOut tDst tBlocksOff [])))
                   (snd (feed (map (Convert T) stream)
                           (RowWriter_t.create (DST_of T) (is_float T),
                            mkOut tDst tBlocksOff [])))) /\
  exists vs blocks,
    blocks_cut blocks /\
    tDstFile (snd res) = tDst ++ concat (map (encode_value_block (DST_of T)) blocks) /\
    tTmpValsPGM (snd res) = WriteRawValues (DST_of T) (map (dst_value T) vs) /\
    MappedBuffer T (tTmpValsPGM (snd res)) = vs /\
    is_sorted (value_lt T) vs = true /\
    StronglySorted (fun a b => value_lt T a b = true) vs /\
    (forall v, v ∈ vs -> exists p, p ∈ pairs /\ m_tValue p = v) /\
    (forall p, p ∈ pairs -> exists v, v ∈ vs /\ value_eq T v (m_tValue p) = true) /\
    map fst (concat blocks) = map (dst_value T) vs /\
    map snd (concat blocks)
      = map (fun v => map m_tRowid
                        (filter (fun p => value_eq T v (m_tValue p) = true) stream)) vs /\
    (forall v, StronglySorted Z.le
                 (map m_tRowid
                    (filter (fun p => value_eq T v (m_tValue p) = true) stream))).
Proof.
  intros Hnew Hsetup Htyped Hcollect T pairs Hfl Hlen siw stream res.
  assert (Hrange : Forall (fun p => value_in_range T (m_tValue p)) pairs).
  { unfold pairs. apply Forall_flat_map. eapply Forall_impl; [exact Htyped|].
    intros c Hc. now apply call_pairs_in_range. }
  assert (HTcase : T = T_float \/ T <> T_float)
    by (destruct T; auto; right; discriminate).
  destruct HTcase as [HTf|HT].
  - (* a float attribute *)
    destruct (Hfl HTf) as [Hieee Hnan]. clear Hfl.
    unfold T in HTf.
    pose proof (pipeline_float Hieee eType iAttr eCollation w00 w0 calls w tDst tBlocksOff
                  Hnew Hsetup HTf Hcollect) as HP.
    cbv zeta in HP. fold siw stream res in HP.
    unfold pairs, T in *. rewrite HTf in *.
    destruct (HP Hnan Hlen)
      as (HSRC & Hempty & Hss & Hsp & Hfeed & blocks & Hcut & Hg & Hnil & Hd & Hp).
    clear HP.
    assert (Hns : Forall not_nan stream) by (now rewrite Hsp).
    assert (Hrs : Forall (fun p => value_in_range T_float (m_tValue p)) stream)
      by (now rewrite Hsp).
    split; [exact Hempty|]. split.
    { eapply (StronglySorted_on not_nan); [exact Hns| |exact Hss].
      intros a b Ha Hb Hab. unfold pair_le_of, value_lt, value_eq.
      destruct (float_tests_key Hieee (m_tValue a) (m_tValue b) Ha Hb) as [-> ->].
      unfold pair_le_float in Hab. destruct Hab as [Hlt|[Heq Hr]].
      - left. apply Z.ltb_lt. exact Hlt.
      - right. split; [apply Z.eqb_eq; exact Heq|exact Hr]. }
    split; [exact Hsp|]. split.
    { change (Convert T_float) with (fun x : RawValue_T => x). rewrite map_id. exact Hfeed. }
    set (G := concat blocks) in *.
    assert (HG : StronglySorted Z.lt (map float_key (map fst G)) /\
                 Forall (fun g => snd g = map m_tRowid
                                   (filter (fun x => float_key (m_tValue x)
                                                      = float_key (fst g)) stream) /\
                                  exists x, x ∈ stream /\ m_tValue x = fst g) G /\
                 (forall x, x ∈ stream ->
                    float_key (m_tValue x) ∈ map float_key (map fst G))).
    { destruct stream as [|x0 stream'] eqn:Hst.
      - unfold G. rewrite (Hnil eq_refl). cbn. split; [constructor|].
        split; [constructor|]. intros x Hx. inversion Hx.
      - apply (grouped_by_sorted (same_value true) float_key _ _ (Hg ltac:(discriminate))).
        + eapply (StronglySorted_on not_nan); [exact Hns| |exact Hss].
          intros a b _ _ Hab. unfold pair_le_float in Hab. lia.
        + intros a b Ha Hb. unfold same_value.
          rewrite Forall_forall in Hns.
          now destruct (float_tests_key Hieee (m_tValue a) (m_tValue b)
                          (Hns a Ha) (Hns b Hb)) as [_ ->]. }
    destruct HG as (S0 & F0 & M0).
    assert (Hvs_in : forall v, v ∈ map fst G -> exists p, p ∈ stream /\ m_tValue p = v).
    { intros v Hv. apply list_elem_of_fmap in Hv as (g & -> & Hgin).
      rewrite Forall_forall in F0. now destruct (F0 g Hgin) as [_ Hx]. }
    assert (Hvs_nan : Forall (fun v => is_nan v = false) (map fst G)).
    { apply Forall_forall. intros v Hv. destruct (Hvs_in v Hv) as (p & Hp' & <-).
      rewrite Forall_forall in Hns. now apply Hns. }
    assert (Hvs_range : Forall (value_in_range T_float) (map fst G)).
    { apply Forall_forall. intros v Hv. destruct (Hvs_in v Hv) as (p & Hp' & <-).
      rewrite Forall_forall in Hrs. now apply Hrs. }
    assert (Hasc : StronglySorted (fun a b => float_lt a b = true) (map fst G)).
    { eapply (StronglySorted_on (fun v => is_nan v = false));
        [exact Hvs_nan| |exact (StronglySorted_of_keys float_key _ S0)].
      intros a b Ha Hb Hab. cbv beta in Hab.
      destruct (float_tests_key Hieee a b Ha Hb) as [-> _].
      now apply Z.ltb_lt. }
    exists (map fst G), blocks.
    split; [exact Hcut|]. split; [exact Hd|].
    change (dst_value T_float) with (fun v : Z => v). rewrite map_id.
    split; [exact Hp|]. split.
    { rewrite Hp. change (MappedBuffer T_float) with (MappedBuffer T_uint32).
      rewrite <- (map_id (map fst G)) at 1.
      apply (MappedBuffer_WriteRawValues T_uint32); [discriminate|exact Hvs_range]. }
    split.
    { apply is_sorted_strict. unfold value_lt.
      eapply (StronglySorted_on (fun v => is_nan v = false));
        [exact Hvs_nan| |exact (StronglySorted_of_keys float_key _ S0)].
      intros a b Ha Hb Hab. cbv beta in Hab.
      destruct (float_tests_key Hieee b a Hb Ha) as [-> _].
      apply Z.ltb_ge. lia. }
    split; [exact Hasc|]. split.
    { intros v Hv. destruct (Hvs_in v Hv) as (p & Hp' & Hpv). exists p.
      split; [now rewrite <- Hsp|exact Hpv]. }
    split.
    { intros p Hp'. rewrite <- Hsp in Hp'. pose proof (M0 p Hp') as Hk.
      apply list_elem_of_fmap in Hk as (v & Hkv & Hv). exists v. split; [exact Hv|].
      unfold value_eq. rewrite Forall_forall in Hvs_nan. rewrite Forall_forall in Hns.
      destruct (float_tests_key Hieee v (m_tValue p) (Hvs_nan v Hv) (Hns p Hp')) as [_ ->].
      apply Z.eqb_eq. now symmetry. }
    split; [reflexivity|]. split.
    { rewrite <- !list_fmap_compose. apply list_fmap_ext. intros i g Hi. unfold compose.
      assert (Hgin : g ∈ G) by (eapply list_elem_of_lookup_2; exact Hi).
      rewrite Forall_forall in F0. destruct (F0 g Hgin) as [Hrows _]. rewrite Hrows.
      f_equal. apply filter_ext_in. intros p Hp'. unfold value_eq.
      rewrite Forall_forall in Hvs_nan. rewrite Forall_forall in Hns.
      destruct (float_tests_key Hieee (fst g) (m_tValue p)
                  (Hvs_nan (fst g) (list_elem_of_fmap_2 fst _ _ Hgin)) (Hns p Hp')) as [_ ->].
      rewrite Z.eqb_eq. split; intros; now symmetry. }
    intros v. unfold value_eq.
    destruct (is_nan v) eqn:Hv.
    + rewrite filter_none; [constructor|]. intros p _.
      destruct Hieee as [_ Heq]. rewrite Heq.
      destruct (float_compare_nan v (m_tValue p) Hv) as (_ & _ & -> & _). discriminate.
    + apply (sorted_rows_float (float_key v)).
      * now apply StronglySorted_filter.
      * apply Forall_forall. intros p Hp'. apply list_elem_of_filter in Hp' as [Hpv Hin].
        rewrite Forall_forall in Hns.
        destruct (float_tests_key Hieee v (m_tValue p) Hv (Hns p Hin)) as [_ Hk].
        rewrite Hk in Hpv. apply Z.eqb_eq in Hpv. now symmetry.
  - (* an integer attribute *)
    clear Hfl.
    destruct (pipeline eType iAttr eCollation w00 w0 calls w tDst tBlocksOff
                Hnew Hsetup HT Htyped Hcollect Hlen)
      as (HSRC & Hempty & Hstream & Hss & Hsp & _ & blocks & Hcut & Hg & Hnil & Hd & Hp).
    fold T pairs siw stream res in HSRC, Hempty, Hstream, Hss, Hsp, Hg, Hnil, Hd, Hp.
    assert (Hnf : is_float T = false).
    { unfold T in *. destruct (RawWriter_T.T w0); try reflexivity. congruence. }
    assert (Hrs : Forall (fun p => value_in_range T (m_tValue p)) stream)
      by (now rewrite Hsp).
    split; [exact Hempty|]. split.
    { eapply (StronglySorted_on (fun _ => True));
        [apply Forall_forall; auto| |exact Hss].
      intros a b _ _ Hab. unfold pair_le_of.
      destruct (value_tests_integer T (m_tValue a) (m_tValue b) HT) as [-> ->].
      unfold pair_le in Hab. destruct Hab as [Hlt|[Heq Hr]].
      - left. now apply Z.ltb_lt.
      - right. split; [now apply Z.eqb_eq|exact Hr]. }
    split; [exact Hsp|]. split.
    { pose proof (Process_merge_feed siw tDst tBlocksOff) as HP. cbv zeta in HP.
      fold res stream in HP. rewrite HSRC in HP. fold (is_float T) in HP.
      replace (SIWriter_T.DST_VALUE siw) with (DST_of T) in HP
        by (unfold SIWriter_T.DST_VALUE; now rewrite HSRC).
      now rewrite HP. }
    assert (Hvs : exists vs,
              map fst (concat blocks) = map (dst_value T) vs /\
              StronglySorted Z.lt vs /\ Forall (value_in_range T) vs /\
              (forall v, v ∈ vs <-> exists p, p ∈ stream /\ m_tValue p = v) /\
              map snd (concat blocks)
              = map (fun v => map m_tRowid (filter (fun p => m_tValue p = v) stream)) vs).
    { destruct stream as [|x0 stream'] eqn:Hst.
      - rewrite (Hnil eq_refl). exists []. split; [reflexivity|]. split; [constructor|].
        split; [constructor|]. split; [|reflexivity].
        intros v. split; [intros Hv; inversion Hv|]. intros (p & Hp' & _). inversion Hp'.
      - exact (groups_of_stream T (x0 :: stream') (concat blocks) HT Hss Hrs
                 (Hg ltac:(discriminate))). }
    destruct Hvs as (vs & Hfst & Hsorted & Hvr & Hmem & Hsnd).
    assert (Hfilter : forall v (l : list RawValue_T),
              filter (fun p => value_eq T v (m_tValue p) = true) l
              = filter (fun p => m_tValue p = v) l).
    { intros v l. apply list_filter_iff. intros p.
      destruct (value_tests_integer T v (m_tValue p) HT) as [_ ->].
      rewrite Z.eqb_eq. split; intros; now symmetry. }
    assert (Hpgm : tTmpValsPGM (snd res) = WriteRawValues (DST_of T) (map (dst_value T) vs))
      by (now rewrite Hp, Hfst).
    exists vs, blocks. split; [exact Hcut|]. split; [exact Hd|]. split; [exact Hpgm|].
    split; [rewrite Hpgm; now apply MappedBuffer_WriteRawValues|].
    split.
    { apply is_sorted_strict.
      eapply (StronglySorted_on (fun _ => True));
        [apply Forall_forall; auto| |exact Hsorted].
      intros a b _ _ Hab. destruct (value_tests_integer T b a HT) as [-> _].
      apply Z.ltb_ge. lia. }
    split.
    { eapply (StronglySorted_on (fun _ => True));
        [apply Forall_forall; auto| |exact Hsorted].
      intros a b _ _ Hab. destruct (value_tests_integer T a b HT) as [-> _].
      now apply Z.ltb_lt. }
    split.
    { intros v Hv. apply Hmem in Hv as (p & Hp' & Hpv). exists p.
      split; [now rewrite <- Hsp|exact Hpv]. }
    split.
    { intros p Hp'. exists (m_tValue p). split.
      - apply Hmem. exists p. split; [now rewrite Hsp|reflexivity].
      - destruct (value_tests_integer T (m_tValue p) (m_tValue p) HT) as [_ ->].
        apply Z.eqb_refl. }
    split; [exact Hfst|]. split.
    { rewrite Hsnd. apply map_ext. intros v. now rewrite Hfilter. }
    intros v. rewrite Hfilter. apply (sorted_rows v).
    + now apply StronglySorted_filter.
    + apply Forall_forall. intros p Hp'. now apply list_elem_of_filter in Hp' as [Hpv _].
Qed.

End WholePass.

(** C1, as the code has it.  A collector receives any sequence of
    [SetAttr] calls and flushes, and is finished; for a float attribute
    the comparisons are those of IEEE floats and no value is a NaN.  The
    merge then ends with an empty queue, and the values it writes, to the
    value blocks and to the PGM-values file alike, are values of the
    input pairs in strictly ascending order, one for every value of the
    input: the value itself for an attribute stored as an integer, a value
    that [FloatEqual] holds equal to it for a float (so -0.0 and +0.0 are
    written once), whatever runs the flushes made.  Read back as source
    values the PGM-values file is that ascending list, so the
    [std::is_sorted] assertion holds. *)
Theorem merge_emits_sorted_distinct_values {E : Externals}
    (eType : AttrType_e) (iAttr : Z) (eCollation : Collation_e)
    (w00 w0 w : RawWriter_T.t) (calls : list Call) (tDst tBlocksOff : list Z) :
  Builder_c.new_RawWriter eType = Some w00 ->
  RawWriter_T.Setup w00 iAttr eType eCollation = Ok w0 ->
  Forall call_typed calls ->
  collect w0 calls = Ok w ->
  let T := RawWriter_T.T w0 in
  let pairs := flat_map (call_pairs T eCollation) calls in
  (T = T_float -> ieee_floats /\ Forall not_nan pairs) ->
  Z.of_nat (length pairs) < 2 ^ 32 ->
  let res := SIWriter_T.Process_merge (GetWriter (RawWriter_T.Done w)) tDst tBlocksOff in
  fst (fst res) = [] /\
  exists vs blocks,
    StronglySorted (fun a b => value_lt T a b = true) vs /\
    (forall v, v ∈ vs -> exists p, p ∈ pairs /\ m_tValue p = v) /\
    (forall p, p ∈ pairs -> exists v, v ∈ vs /\ value_eq T v (m_tValue p) = true) /\
    (T <> T_float ->
       StronglySorted Z.lt vs /\
       forall v, v ∈ vs <-> exists p, p ∈ pairs /\ m_tValue p = v) /\
    tTmpValsPGM (snd res) = WriteRawValues (DST_of T) (map (dst_value T) vs) /\
    MappedBuffer T (tTmpValsPGM (snd res)) = vs /\
    is_sorted (value_lt T) (MappedBuffer T (tTmpValsPGM (snd res))) = true /\
    tDstFile (snd res) = tDst ++ concat (map (encode_value_block (DST_of T)) blocks) /\
    map fst (concat blocks) = map (dst_value T) vs.
Proof.
  intros Hnew Hsetup Htyped Hcollect T pairs Hfl Hlen res.
  destruct (whole_pass eType iAttr eCollation w00 w0 calls w tDst tBlocksOff
              Hnew Hsetup Htyped Hcollect Hfl Hlen)
    as (Hempty & _ & _ & _ & vs & blocks & _ & Hd & Hpgm & Hmap & Hsorted & Hasc & Hin
        & Hall & Hfst & _).
  fold T pairs res in Hempty, Hd, Hpgm, Hmap, Hsorted, Hasc, Hin, Hall, Hfst.
  split; [exact Hempty|]. exists vs, blocks.
  split; [exact Hasc|]. split; [exact Hin|]. split; [exact Hall|]. split.
  { intros HT. split.
    - eapply (StronglySorted_on (fun _ => True));
        [apply Forall_forall; auto| |exact Hasc].
      intros a b _ _ Hab. cbv beta in Hab.
      destruct (value_tests_integer T a b HT) as [Hlt _]. rewrite Hlt in Hab.
      now apply Z.ltb_lt.
    - intros v. split; [apply Hin|]. intros (p & Hp & <-).
      destruct (Hall p Hp) as (v & Hv & Heq).
      destruct (value_tests_integer T v (m_tValue p) HT) as [_ Heq']. rewrite Heq' in Heq.
      apply Z.eqb_eq in Heq. now subst v. }
  split; [exact Hpgm|]. split; [exact Hmap|]. split; [now rewrite Hmap|].
  split; [exact Hd|exact Hfst].
Qed.

(** C2, as the code has it.  Under the same conditions the stream of
    pairs handed to the encoder is the input sorted by (value, row-id), so
    equal values are adjacent; the output file receives the value blocks
    of its groups; and the group of each value [v] written holds the
    row-ids of exactly the input pairs whose value equals [v] (for a float
    attribute: that [FloatEqual] holds equal to [v]), in ascending order,
    a row-id as often as the input paired it with such a value. *)
Theorem postings_hold_sorted_row_ids {E : Externals}
    (eType : AttrType_e) (iAttr : Z) (eCollation : Collation_e)
    (w00 w0 w : RawWriter_T.t) (calls : list Call) (tDst tBlocksOff : list Z) :
  Builder_c.new_RawWriter eType = Some w00 ->
  RawWriter_T.Setup w00 iAttr eType eCollation = Ok w0 ->
  Forall call_typed calls ->
  collect w0 calls = Ok w ->
  let T := RawWriter_T.T w0 in
  let pairs := flat_map (call_pairs T eCollation) calls in
  (T = T_float -> ieee_floats /\ Forall not_nan pairs) ->
  Z.of_nat (length pairs) < 2 ^ 32 ->
  let siw := GetWriter (RawWriter_T.Done w) in
  let stream := merged_stream siw in
  let res := SIWriter_T.Process_merge siw tDst tBlocksOff in
  StronglySorted (pair_le_of T) stream /\
  (T <> T_float -> StronglySorted pair_le stream) /\
  stream ≡ₚ pairs /\
  snd res = snd (RowWriter_t.Done
                   (fst (feed (map (Convert T) stream)
                           (RowWriter_t.create (DST_of T) (is_float T),
                            mkOut tDst tBlocksOff [])))
                   (snd (feed (map (Convert T) stream)
                           (RowWriter_t.create (DST_of T) (is_float T),
                            mkOut tDst tBlocksOff [])))) /\
  exists vs blocks,
    blocks_cut blocks /\
    tDstFile (snd res) = tDst ++ concat (map (encode_value_block (DST_of T)) blocks) /\
    StronglySorted (fun a b => value_lt T a b = true) vs /\
    (forall v, v ∈ vs -> exists p, p ∈ pairs /\ m_tValue p = v) /\
    (forall p, p ∈ pairs -> exists v, v ∈ vs /\ value_eq T v (m_tValue p) = true) /\
    map fst (concat blocks) = map (dst_value T) vs /\
    map snd (concat blocks)
      = map (fun v => map m_tRowid
                        (filter (fun p => value_eq T v (m_tValue p) = true) stream)) vs /\
    (forall v,
       StronglySorted Z.le
         (map m_tRowid (filter (fun p => value_eq T v (m_tValue p) = true) stream)) /\
       map m_tRowid (filter (fun p => value_eq T v (m_tValue p) = true) stream)
       ≡ₚ map m_tRowid (filter (fun p => value_eq T v (m_tValue p) = true) pairs) /\
       (T <> T_float ->
          filter (fun p => value_eq T v (m_tValue p) = true) pairs
          = filter (fun p => m_tValue p = v) pairs)).
Proof.
  intros Hnew Hsetup Htyped Hcollect T pairs Hfl Hlen siw stream res.
  destruct (whole_pass eType iAttr eCollation w00 w0 calls w tDst tBlocksOff
              Hnew Hsetup Htyped Hcollect Hfl Hlen)
    as (_ & Hss & Hsp & Hfeed & vs & blocks & Hcut & Hd & _ & _ & _ & Hasc & Hin
        & Hall & Hfst & Hsnd & Hrows).
  fold T pairs siw stream res in Hss, Hsp, Hfeed, Hcut, Hd, Hasc, Hin, Hall, Hfst, Hsnd, Hrows.
  split; [exact Hss|]. split.
  { intros HT. eapply (StronglySorted_on (fun _ => True));
      [apply Forall_forall; auto| |exact Hss].
    intros a b _ _ Hab. unfold pair_le_of in Hab.
    destruct (value_tests_integer T (m_tValue a) (m_tValue b) HT) as [Hlt Heq].
    rewrite Hlt, Heq in Hab. unfold pair_le. destruct Hab as [H|[H Hr]].
    - left. now apply Z.ltb_lt.
    - right. split; [now apply Z.eqb_eq|exact Hr]. }
  split; [exact Hsp|]. split; [exact Hfeed|].
  exists vs, blocks. split; [exact Hcut|]. split; [exact Hd|]. split; [exact Hasc|].
  split; [exact Hin|]. split; [exact Hall|]. split; [exact Hfst|]. split; [exact Hsnd|].
  intros v. split; [apply Hrows|]. split; [now rewrite Hsp|].
  intros HT. apply list_filter_iff. intros p.
  destruct (value_tests_integer T v (m_tValue p) HT) as [_ ->].
  rewrite Z.eqb_eq. split; intros; now symmetry.
Qed.

Lemma merge_emits_sorted_distinct_values_witness :
  let res := SIWriter_T.Process_merge (E := float_externals)
               (GetWriter (RawWriter_T.Done (E := float_externals) example_float_collected))
               [] [] in
  MappedBuffer T_float (tTmpValsPGM (snd res)) = [3221225472; 2147483648; 1065353216] /\
  fst (fst res) = [] /\
  exists vs blocks,
    StronglySorted (fun a b => value_lt (E := float_externals) T_float a b = true) vs /\
    (forall v, v ∈ vs ->
       exists p, p ∈ flat_map (call_pairs (E := float_externals) T_float BINARY)
                      example_float_calls /\ m_tValue p = v) /\
    (forall p, p ∈ flat_map (call_pairs (E := float_externals) T_float BINARY)
                     example_float_calls ->
       exists v, v ∈ vs /\ value_eq (E := float_externals) T_float v (m_tValue p) = true) /\
    (T_float <> T_float ->
       StronglySorted Z.lt vs /\
       forall v, v ∈ vs <->
         exists p, p ∈ flat_map (call_pairs (E := float_externals) T_float BINARY)
                        example_float_calls /\ m_tValue p = v) /\
    tTmpValsPGM (snd res) = WriteRawValues T_uint32 (map (dst_value T_float) vs) /\
    MappedBuffer T_float (tTmpValsPGM (snd res)) = vs /\
    is_sorted (value_lt (E := float_externals) T_float)
      (MappedBuffer T_float (tTmpValsPGM (snd res))) = true /\
    tDstFile (snd res)
      = [] ++ concat (map (encode_value_block (E := float_externals) T_uint32) blocks) /\
    map fst (concat blocks) = map (dst_value T_float) vs.
Proof.
  intros res. split; [vm_compute; reflexivity|].
  apply (merge_emits_sorted_distinct_values (E := float_externals) FLOAT 0 BINARY
           (RawWriter_T.create T_float) example_float_collector example_float_collected
           example_float_calls [] []).
  - reflexivity.
  - reflexivity.
  - repeat constructor; simpl; lia.
  - reflexivity.
  - intros _. split; [split; reflexivity|]. repeat constructor.
  - simpl. lia.
Defined.

Lemma postings_hold_sorted_row_ids_witness :
  let pairs := flat_map (call_pairs (E := float_externals) T_float BINARY)
                 example_float_calls in
  let siw := GetWriter (RawWriter_T.Done (E := float_externals) example_float_collected) in
  let stream := merged_stream (E := float_externals) siw in
  map m_tRowid
    (filter (fun p => value_eq (E := float_externals) T_float 0 (m_tValue p) = true) stream)
  = [2; 3] /\
  StronglySorted (pair_le_of (E := float_externals) T_float) stream /\
  stream ≡ₚ pairs.
Proof.
  intros pairs siw stream. split; [vm_compute; reflexivity|].
  destruct (postings_hold_sorted_row_ids (E := float_externals) FLOAT 0 BINARY
              (RawWriter_T.create T_float) example_float_collector example_float_collected
              example_float_calls [] []) as (H1 & _ & H2 & _).
  - reflexivity.
  - reflexivity.
  - repeat constructor; simpl; lia.
  - reflexivity.
  - intros _. split; [split; reflexivity|]. repeat constructor.
  - simpl. lia.
  - split; [exact H1|exact H2].
Defined.

(** C1, as the spec has it: a float attribute receives the same NaN for
    two rows.  No two NaN are equal, so [NextValue] opens a value group for
    each of them: the one value of the input is written twice, to the
    value block and to the PGM-values file; [std::is_sorted] holds of the
    two NaN, and [Process] returns. *)
Lemma merge_repeats_nan_counterexample :
  let pairs := flat_map (call_pairs (E := float_externals) T_float BINARY)
                 example_nan_calls in
  let siw := GetWriter (RawWriter_T.Done (E := float_externals) example_nan_collected) in
  let res := SIWriter_T.Process_merge (E := float_externals) siw [] [] in
  RawWriter_T.Setup (E := float_externals) (RawWriter_T.create T_float) 0 FLOAT BINARY
    = Ok example_float_collector /\
  collect (E := float_externals) example_float_collector example_nan_calls
    = Ok example_nan_collected /\
  map m_tValue pairs = [example_nan; example_nan] /\
  MappedBuffer T_float (tTmpValsPGM (snd res)) = [example_nan; example_nan] /\
  (exists r, SIWriter_T.Process (E := float_externals) siw [] [] = Ok r) /\
  ~ NoDup (MappedBuffer T_float (tTmpValsPGM (snd res))).
Proof.
  intros pairs siw res.
  split; [reflexivity|]. split; [reflexivity|]. split; [reflexivity|].
  assert (Hm : MappedBuffer T_float (tTmpValsPGM (snd res)) = [example_nan; example_nan])
    by (vm_compute; reflexivity).
  split; [exact Hm|]. split; [eexists; vm_compute; reflexivity|].
  rewrite Hm. intros Hnd.
  apply NoDup_cons in Hnd as [Hnot _]. apply Hnot. left.
Qed.

(** C2, as the spec has it: in the same build the encoder holds two
    groups for the one value, the first with row 1 and the second with
    row 2, and writes them as two postings of one row each: no posting
    holds the two rows the input paired with the value. *)
Lemma postings_split_by_nan_counterexample :
  let pairs := flat_map (call_pairs (E := float_externals) T_float BINARY)
                 example_nan_calls in
  let siw := GetWriter (RawWriter_T.Done (E := float_externals) example_nan_collected) in
  let stream := merged_stream (E := float_externals) siw in
  let res := SIWriter_T.Process_merge (E := float_externals) siw [] [] in
  let st := feed (E := float_externals) (map (Convert T_float) stream)
              (RowWriter_t.create T_uint32 true, mkOut [] [] []) in
  collect (E := float_externals) example_float_collector example_nan_calls
    = Ok example_nan_collected /\
  pairs = [mkRawValue example_nan 1; mkRawValue example_nan 2] /\
  stream = pairs /\
  snd res = snd (RowWriter_t.Done (E := float_externals) (fst st) (snd st)) /\
  RowWriter_t.m_dValues (fst st) = [example_nan; example_nan] /\
  RowWriter_t.m_dRowStart (fst st) = [0; 1] /\
  RowWriter_t.m_dRows (fst st) = [1; 2] /\
  tDstFile (snd res)
  = encode_value_block (E := float_externals) T_uint32
      [(example_nan, [1]); (example_nan, [2])] /\
  ~ NoDup (RowWriter_t.m_dValues (fst st)).
Proof.
  intros pairs siw stream res st.
  split; [reflexivity|]. split; [reflexivity|]. split; [vm_compute; reflexivity|].
  split; [vm_compute; reflexivity|].
  assert (Hv : RowWriter_t.m_dValues (fst st) = [example_nan; example_nan])
    by (vm_compute; reflexivity).
  split; [exact Hv|]. split; [vm_compute; reflexivity|]. split; [vm_compute; reflexivity|].
  split; [vm_compute; reflexivity|].
  rewrite Hv. intros Hnd.
  apply NoDup_cons in Hnd as [Hnot _]. apply Hnot. left.
Qed.
